(** * StateOS kernel core: ready queue, timer queue, wait protocol,
      priority recomputation and the message buffer

    A shallow embedding of [kernel/oskernel.c] and
    [kernel/src/osmessagebuffer.c].  Kernel objects live in one store that is
    addressed by (object pointer, field name); every field holds a machine
    word.  The intrusive lists of the kernel (the ready ring rooted at IDLE,
    the timer ring rooted at WAIT, the per-object queues of blocked tasks and
    the list of mutexes a task holds) are pointer structures in that store,
    exactly as in the C code; list-shaped views of them are introduced only
    to state and prove properties. *)

From Stdlib Require Import ZArith List Lia Bool.
From stdpp Require Import base option list gmap.

Local Open Scope Z_scope.

(** ** Machine words *)

Module Word.

Definition modulus : Z := 2 ^ 32.

(** [unsigned] arithmetic of the target (32-bit [unsigned], [cnt_t]). *)
Definition wrap (x : Z) : Z := x mod modulus.
Definition add (a b : Z) : Z := wrap (a + b).
Definition sub (a b : Z) : Z := wrap (a - b).

Definition in_range (x : Z) : Prop := 0 <= x < modulus.

(** The four bytes of an [unsigned] in memory, least significant first
    (the target is little-endian), as the byte copies through the address of a local see them. *)
Definition to_bytes (v : Z) : list Z :=
  [v mod 256; (v / 256) mod 256; (v / 65536) mod 256; (v / 16777216) mod 256].

Definition of_bytes (bs : list Z) : Z :=
  nth 0 bs 0 + 256 * nth 1 bs 0 + 65536 * nth 2 bs 0 + 16777216 * nth 3 bs 0.

End Word.

(** ** Constants of the kernel headers *)

(** Modelled from the spec: the header that declares the object ids is not
    part of the sources; the ids are the enumeration READY, DELAYED, IDLE,
    TIMER, STOPPED of the object header, with STOPPED the id of a
    zero-initialised object. *)
Definition ID_STOPPED : Z := 0.
Definition ID_READY   : Z := 1.
Definition ID_DELAYED : Z := 2.
Definition ID_TIMER   : Z := 3.
Definition ID_IDLE    : Z := 4.

(** Modelled from the spec: the return-code alphabet is declared in a header
    that is not part of the sources; SUCCESS = 0, then STOPPED, TIMEOUT. *)
Definition E_SUCCESS : Z := 0.
Definition E_STOPPED : Z := 1.
Definition E_TIMEOUT : Z := 2.

(** Modelled from the spec: the time sentinels are declared in a header that
    is not part of the sources; IMMEDIATE = 0 and INFINITE is the reserved
    all-ones value of the counter type. *)
Definition IMMEDIATE : Z := 0.
Definition INFINITE  : Z := Word.modulus - 1.

(** [sizeof(unsigned)] on the 32-bit target. *)
Definition sizeof_unsigned : Z := 4.

(** ** The object store *)

(** Field names of the kernel structures.  [obj_t] is the common header
    ([id], [prev], [next], [queue]); timers and tasks share [state], [start],
    [delay] (a task is cast to a timer for the timer ring); the remaining
    fields belong to tasks, mutexes ([list], shared with the task's own
    [list] of held mutexes) and message buffers. *)
Inductive field : Set :=
  | f_id | f_prev | f_next | f_queue
  | f_state | f_start | f_delay | f_period
  | f_sp | f_top | f_basic | f_prio
  | f_guard | f_back | f_event | f_list
  | f_tmp_data | f_tmp_size
  | f_count | f_head | f_tail | f_limit | f_data.

#[global] Instance field_eq_dec : EqDecision field.
Proof. solve_decision. Defined.

Definition field_code (f : field) : nat :=
  match f with
  | f_id => 0 | f_prev => 1 | f_next => 2 | f_queue => 3
  | f_state => 4 | f_start => 5 | f_delay => 6 | f_period => 7
  | f_sp => 8 | f_top => 9 | f_basic => 10 | f_prio => 11
  | f_guard => 12 | f_back => 13 | f_event => 14 | f_list => 15
  | f_tmp_data => 16 | f_tmp_size => 17
  | f_count => 18 | f_head => 19 | f_tail => 20 | f_limit => 21
  | f_data => 22
  end%nat.

Definition field_decode (n : nat) : field :=
  match n with
  | 0 => f_id | 1 => f_prev | 2 => f_next | 3 => f_queue
  | 4 => f_state | 5 => f_start | 6 => f_delay | 7 => f_period
  | 8 => f_sp | 9 => f_top | 10 => f_basic | 11 => f_prio
  | 12 => f_guard | 13 => f_back | 14 => f_event | 15 => f_list
  | 16 => f_tmp_data | 17 => f_tmp_size
  | 18 => f_count | 19 => f_head | 20 => f_tail | 21 => f_limit
  | _ => f_data
  end%nat.

#[global] Program Instance field_countable : Countable field :=
  inj_countable' field_code field_decode _.
Next Obligation. intros []; reflexivity. Qed.

(** The whole machine: the object store, the byte memory that holds the
    storage of message buffers and the buffers of their callers, the tick
    counter [Counter], the running task [System.cur], and the pending
    context-switch request of the port. *)
Record sys : Type := Sys {
  heap    : gmap (Z * field) Z;
  mem     : gmap Z Z;
  Counter : Z;
  cur     : Z;
  pend    : bool
}.

Definition rd (s : sys) (p : Z) (f : field) : Z :=
  default 0 (heap s !! (p, f)).

Definition wr (s : sys) (p : Z) (f : field) (v : Z) : sys :=
  Sys (<[(p, f) := v]> (heap s)) (mem s) (Counter s) (cur s) (pend s).

Definition rdb (s : sys) (a : Z) : Z := default 0 (mem s !! a).

Definition wrb (s : sys) (a : Z) (v : Z) : sys :=
  Sys (heap s) (<[a := v]> (mem s)) (Counter s) (cur s) (pend s).

Definition set_pend (s : sys) : sys :=
  Sys (heap s) (mem s) (Counter s) (cur s) true.

Definition set_cur (s : sys) (tsk : Z) : sys :=
  Sys (heap s) (mem s) (Counter s) tsk (pend s).

(** Consecutive bytes of the byte memory, from address [a] on. *)
Fixpoint store_bytes (s : sys) (a : Z) (bs : list Z) : sys :=
  match bs with
  | [] => s
  | b :: bs' => store_bytes (wrb s a b) (a + 1) bs'
  end.

Definition load_bytes (s : sys) (a : Z) (n : nat) : list Z :=
  map (fun k => rdb s (a + Z.of_nat k)) (seq 0 n).

(** A 32-bit word in the byte memory (stack frames). *)
Definition store_word (s : sys) (a v : Z) : sys :=
  store_bytes s a (Word.to_bytes v).

Definition load_word (s : sys) (a : Z) : Z :=
  Word.of_bytes (load_bytes s a 4).


(** ** oskernel.c *)

(** Loops of the C code carry a step budget [fuel]; [None] means that the
    budget ran out or that an [assert] of the code failed.  The critical
    sections ([port_isr_lock], [sys_lock], ...) are not modelled: one call of
    a kernel service is one atomic transition, and [Counter s] is the value
    that the service reads from the counter; the one place that reads the
    counter a second time, [priv_tmr_expired], gets the later value from
    [recount] below. *)

Section Kernel.

(** Build-time configuration ([OS_ROBIN]: round-robin frequency, 0 when off;
    [OS_TIMER]: size of the hardware timer, 0 when there is none) and the
    addresses of the two static list roots, the idle task [IDLE] and the
    timer-queue sentinel [WAIT]. *)
Variables OS_ROBIN OS_TIMER : Z.
Variables IDLE WAIT : Z.

(** Meaning of the procedures reached through a [state] function pointer. *)
Variable run : Z -> sys -> option sys.

Definition priv_rdy_insert (s : sys) (obj id nxt : Z) : sys :=
  let prv := rd s nxt f_prev in
  let s := wr s obj f_id id in
  let s := wr s obj f_prev prv in
  let s := wr s obj f_next nxt in
  let s := wr s nxt f_prev obj in
  wr s prv f_next obj.

Definition priv_rdy_remove (s : sys) (obj : Z) : sys :=
  let nxt := rd s obj f_next in
  let prv := rd s obj f_prev in
  let s := wr s nxt f_prev prv in
  let s := wr s prv f_next nxt in
  wr s obj f_id ID_STOPPED.

(** [do nxt = nxt->obj.next; while (tsk->prio <= nxt->prio);] *)
Fixpoint priv_tsk_insert_walk (fuel : nat) (s : sys) (tsk nxt : Z) : option Z :=
  match fuel with
  | O => None
  | S fuel =>
      let nxt := rd s nxt f_next in
      if rd s tsk f_prio <=? rd s nxt f_prio
      then priv_tsk_insert_walk fuel s tsk nxt
      else Some nxt
  end.

Definition priv_tsk_insert (fuel : nat) (s : sys) (tsk : Z) : option sys :=
  nxt ← (if rd s tsk f_prio =? 0 then Some IDLE
         else priv_tsk_insert_walk fuel s tsk IDLE);
  Some (priv_rdy_insert s tsk ID_READY nxt).

Definition port_ctx_switch (s : sys) : sys := set_pend s.

Definition core_ctx_switch (s : sys) : sys := port_ctx_switch s.

Definition core_tsk_insert (fuel : nat) (s : sys) (tsk : Z) : option sys :=
  s ← priv_tsk_insert fuel s tsk;
  if OS_ROBIN =? 0 then Some s
  else
    let nxt := rd s IDLE f_next in
    if rd s nxt f_prio >? rd s (cur s) f_prio
    then Some (port_ctx_switch s)
    else Some s.

Definition core_tsk_remove (s : sys) (tsk : Z) : sys :=
  priv_rdy_remove s tsk.

(** [do prv = nxt, nxt = nxt->obj.queue;
     while (nxt && tsk->prio <= nxt->prio);] *)
Fixpoint core_tsk_append_walk (fuel : nat) (s : sys) (tsk nxt : Z)
  : option (Z * Z) :=
  match fuel with
  | O => None
  | S fuel =>
      let prv := nxt in
      let nxt := rd s nxt f_queue in
      if negb (nxt =? 0) && (rd s tsk f_prio <=? rd s nxt f_prio)
      then core_tsk_append_walk fuel s tsk nxt
      else Some (prv, nxt)
  end.

Definition core_tsk_append (fuel : nat) (s : sys) (tsk obj : Z) : option sys :=
  let s := wr s tsk f_guard obj in
  '(prv, nxt) ← core_tsk_append_walk fuel s tsk obj;
  let s := if nxt =? 0 then s else wr s nxt f_back tsk in
  let s := wr s tsk f_back prv in
  let s := wr s tsk f_queue nxt in
  Some (wr s prv f_queue tsk).

Definition core_tsk_unlink (s : sys) (tsk event : Z) : sys :=
  let prv := rd s tsk f_back in
  let nxt := rd s tsk f_queue in
  let s := wr s tsk f_event event in
  let s := if nxt =? 0 then s else wr s nxt f_back prv in
  let s := wr s prv f_queue nxt in
  wr s tsk f_queue 0.

(** [do nxt = nxt->obj.next;
     while (nxt->delay != INFINITE &&
            nxt->delay <= tmr->start + tmr->delay - nxt->start);] *)
Fixpoint priv_tmr_insert_walk (fuel : nat) (s : sys) (tmr nxt : Z) : option Z :=
  match fuel with
  | O => None
  | S fuel =>
      let nxt := rd s nxt f_next in
      if negb (rd s nxt f_delay =? INFINITE) &&
         (rd s nxt f_delay <=?
            Word.sub (Word.add (rd s tmr f_start) (rd s tmr f_delay))
                     (rd s nxt f_start))
      then priv_tmr_insert_walk fuel s tmr nxt
      else Some nxt
  end.

Definition priv_tmr_insert (fuel : nat) (s : sys) (tmr id : Z) : option sys :=
  nxt ← (if rd s tmr f_delay =? INFINITE then Some WAIT
         else priv_tmr_insert_walk fuel s tmr WAIT);
  Some (priv_rdy_insert s tmr id nxt).

(** [port_tmr_force] only triggers the timer interrupt of the port. *)
Definition core_tmr_insert (fuel : nat) (s : sys) (tmr id : Z) : option sys :=
  priv_tmr_insert fuel s tmr id.

Definition core_tmr_remove (s : sys) (tmr : Z) : sys :=
  priv_rdy_remove s tmr.

(** A call that can block either returns at once with an event value or
    leaves the caller suspended; a suspended caller picks up its result when
    it runs again (see [priv_tsk_wait_result]). *)
Inductive outcome : Type :=
  | Returned (value : Z)
  | Suspended.

(** [priv_tsk_wait] up to the context switch. *)
Definition priv_tsk_wait (fuel : nat) (s : sys) (tsk obj : Z) : option sys :=
  s ← core_tsk_append fuel s tsk obj;
  let s := core_tsk_remove s tsk in
  s ← core_tmr_insert fuel s tsk ID_DELAYED;
  Some (core_ctx_switch s).

(** [return tsk->event;] once the task runs again. *)
Definition priv_tsk_wait_result (s : sys) (tsk : Z) : Z := rd s tsk f_event.

Definition core_tsk_waitUntil (fuel : nat) (s : sys) (obj time : Z)
  : option (outcome * sys) :=
  let cur := cur s in
  let s := wr s cur f_start (Counter s) in
  let s := wr s cur f_delay (Word.sub time (rd s cur f_start)) in
  if rd s cur f_delay =? IMMEDIATE then Some (Returned E_TIMEOUT, s)
  else s ← priv_tsk_wait fuel s cur obj; Some (Suspended, s).

Definition core_tsk_waitFor (fuel : nat) (s : sys) (obj delay : Z)
  : option (outcome * sys) :=
  let cur := cur s in
  let s := wr s cur f_start (Counter s) in
  let s := wr s cur f_delay delay in
  if rd s cur f_delay =? IMMEDIATE then Some (Returned E_TIMEOUT, s)
  else s ← priv_tsk_wait fuel s cur obj; Some (Suspended, s).

Definition core_tsk_wakeup (fuel : nat) (s : sys) (tsk event : Z)
  : option (Z * sys) :=
  if tsk =? 0 then Some (tsk, s)
  else
    let s := core_tsk_unlink s tsk event in
    let s := core_tmr_remove s tsk in
    s ← core_tsk_insert fuel s tsk;
    Some (tsk, s).

Definition core_one_wakeup (fuel : nat) (s : sys) (obj event : Z)
  : option (Z * sys) :=
  core_tsk_wakeup fuel s (rd s obj f_queue) event.

(** [while (core_tsk_wakeup(lst->queue, event));] *)
Fixpoint core_all_wakeup (fuel : nat) (s : sys) (obj event : Z) : option sys :=
  match fuel with
  | O => None
  | S fuel' =>
      '(tsk, s) ← core_tsk_wakeup fuel s (rd s obj f_queue) event;
      if tsk =? 0 then Some s else core_all_wakeup fuel' s obj event
  end.

(** [for (mtx = tsk->list; mtx; mtx = mtx->list) ...] of [core_tsk_prio]. *)
Fixpoint core_tsk_prio_scan (fuel : nat) (s : sys) (mtx prio : Z) : option Z :=
  match fuel with
  | O => None
  | S fuel =>
      if mtx =? 0 then Some prio
      else
        let prio :=
          if negb (rd s mtx f_queue =? 0) &&
             (prio <? rd s (rd s mtx f_queue) f_prio)
          then rd s (rd s mtx f_queue) f_prio
          else prio in
        core_tsk_prio_scan fuel s (rd s mtx f_list) prio
  end.

Definition core_tsk_prio (fuel : nat) (s : sys) (tsk prio : Z) : option sys :=
  prio ← core_tsk_prio_scan fuel s (rd s tsk f_list) prio;
  if rd s tsk f_prio =? prio then Some s
  else
    let s := wr s tsk f_prio prio in
    if rd s tsk f_id =? ID_READY then
      core_tsk_insert fuel (core_tsk_remove s tsk) tsk
    else if rd s tsk f_id =? ID_DELAYED then
      let s := core_tsk_unlink s tsk 0 in
      core_tsk_append fuel s tsk (rd s tsk f_guard)
    else Some s.

(** In the build with a hardware timer the counter is a register of that
    timer and runs on while the kernel executes: when it showed [c] at the
    first reading of [priv_tmr_expired], it shows [recount c] at the second
    one, after [port_tmr_start] has programmed the timer for the deadline
    ([port_tmr_stop] and [port_tmr_start] only switch the interrupt of the
    timer off and on). *)
Variable recount : Z -> Z.

(** The two variants of [priv_tmr_expired]: the first is compiled when
    [OS_ROBIN && OS_TIMER], the second otherwise. *)
Definition priv_tmr_expired_tickless (s : sys) (tmr : Z) : bool :=
  if rd s tmr f_delay =? INFINITE then false
  else if rd s tmr f_delay <=? Word.sub (Counter s) (rd s tmr f_start) then true
  else if rd s tmr f_delay >? Word.sub (recount (Counter s)) (rd s tmr f_start)
       then false
  else true.

Definition priv_tmr_expired_ticked (s : sys) (tmr : Z) : bool :=
  if rd s tmr f_delay >=?
       Word.add (Word.sub (Counter s) (rd s tmr f_start)) 1
  then false
  else true.

Definition priv_tmr_expired (s : sys) (tmr : Z) : bool :=
  if negb (OS_ROBIN =? 0) && negb (OS_TIMER =? 0)
  then priv_tmr_expired_tickless s tmr
  else priv_tmr_expired_ticked s tmr.

Definition priv_tmr_wakeup (fuel : nat) (s : sys) (tmr event : Z) : option sys :=
  let s := wr s tmr f_start (Word.add (rd s tmr f_start) (rd s tmr f_delay)) in
  let s := wr s tmr f_delay (rd s tmr f_period) in
  s ← (if rd s tmr f_state =? 0 then Some s else run (rd s tmr f_state) s);
  let s := core_tmr_remove s tmr in
  s ← (if rd s tmr f_delay =? 0 then Some s
       else priv_tmr_insert fuel s tmr ID_TIMER);
  core_all_wakeup fuel s tmr event.

(** The body of the [while] loop of [core_tmr_handler], for the entry [tmr]
    at the head of the timer ring. *)
Definition core_tmr_handler_entry (fuel : nat) (s : sys) (tmr : Z) : option sys :=
  if rd s tmr f_id =? ID_TIMER
  then priv_tmr_wakeup fuel s tmr E_SUCCESS
  else '(_, s) ← core_tsk_wakeup fuel s tmr E_TIMEOUT; Some s.

Fixpoint core_tmr_handler (fuel : nat) (s : sys) : option sys :=
  match fuel with
  | O => None
  | S fuel' =>
      let tmr := rd s WAIT f_next in
      if priv_tmr_expired s tmr
      then s ← core_tmr_handler_entry fuel s tmr; core_tmr_handler fuel' s
      else Some s
  end.

(** Layout of the two stack frames of the port, whose declarations are in
    the port header: the size of the hardware-saved context [ctx_t] and the
    offsets of its members [psr], [pc] and [lr]; the size of the
    software-saved frame [sft_t] and the offset of its member [lr]; and the
    address of the function [core_tsk_break]. *)
Variables sizeof_ctx ctx_psr ctx_pc ctx_lr : Z.
Variables sizeof_sft sft_lr : Z.
Variable core_tsk_break : Z.

(** [~2U], the EXC_RETURN value "return to thread mode, process stack". *)
Definition EXC_RETURN : Z := Word.wrap (-3).

(** Returns the stack pointer to resume [cur] with; the frames of a task
    that has not run yet are built below [cur->top]. *)
Definition priv_tsk_prepare (s : sys) (cur : Z) : Z * sys :=
  if negb (rd s cur f_sp =? 0) then (rd s cur f_sp, s)
  else
    let ctx := rd s cur f_top - sizeof_ctx in
    let s := store_word s (ctx + ctx_psr) 16777216 in
    let s := store_word s (ctx + ctx_pc) (rd s cur f_state) in
    let s := store_word s (ctx + ctx_lr) core_tsk_break in
    let sft := ctx - sizeof_sft in
    let s := store_word s (sft + sft_lr) EXC_RETURN in
    (sft, s).

(** The context-switch handler: [sp] is the stack pointer of the task that
    was running, the result the stack pointer of the task to run.
    [core_ctx_reset] only restarts the time slice of the port; the pending
    request itself is cleared by the hardware when the handler is
    entered. *)
Definition core_tsk_handler (fuel : nat) (s : sys) (sp : Z) : option (Z * sys) :=
  s ← (if OS_ROBIN =? 0 then core_tmr_handler fuel s else Some s);
  let cur := cur s in
  let s := wr s cur f_sp sp in
  s ← (if rd s cur f_id =? ID_READY
       then priv_tsk_insert fuel (core_tsk_remove s cur) cur
       else Some s);
  let cur := rd s IDLE f_next in
  let s := set_cur s cur in
  Some (priv_tsk_prepare s cur).

End Kernel.

(** *** The allocator of the kernel heap ([OS_HEAP_SIZE] not 0) *)

Section Alloc.

(** The static array [Heap] and its size [ASIZE(OS_HEAP_SIZE)]; the
    rounding macro [ASIZE] of the kernel header. *)
Variables Heap HeapSize : Z.
Variable ASIZE : Z -> Z.

(** [do *_mem++ = 0; while (_mem < _end);] over 64-bit words.  Addresses
    are 32-bit words: a pointer that is moved past the last address wraps
    around. *)
Fixpoint core_sys_alloc_clear (fuel : nat) (s : sys) (_mem _end : Z)
  : option sys :=
  match fuel with
  | O => None
  | S fuel =>
      let s := store_bytes s _mem [0; 0; 0; 0; 0; 0; 0; 0] in
      let _mem := Word.add _mem 8 in
      if _mem <? _end then core_sys_alloc_clear fuel s _mem _end else Some s
  end.

(** The static variable [heap] of the function (the first free byte) is
    passed in as [brk] and returned, next to the result [base].  The sum
    [heap + size] is computed in the 32 bits of an address. *)
Definition core_sys_alloc (fuel : nat) (brk : Z) (s : sys) (size : Z)
  : option (Z * Z * sys) :=
  if size =? 0 then Some (0, brk, s)
  else
    let size := ASIZE size in
    if Word.add brk size <=? Heap + HeapSize then
      let base := brk in
      let brk := Word.add base size in
      s ← core_sys_alloc_clear fuel s base brk;
      Some (base, brk, s)
    else Some (0, brk, s).

End Alloc.

(** ** osmessagebuffer.c *)

(** The source of a byte copy: the bytes of an automatic variable of the
    caller (the length prefix, passed by address) or a buffer in memory. *)
Inductive source : Type :=
  | Bytes (bs : list Z)
  | Ptr (a : Z).

Definition source_byte (s : sys) (data : source) (k : Z) : Z :=
  match data with
  | Bytes bs => nth (Z.to_nat k) bs 0
  | Ptr a => rdb s (a + k)
  end.

(** The destination of a byte copy is [Some a] for a buffer in memory and
    [None] for an automatic variable of the caller; the bytes copied are
    returned in both cases. *)
Definition store_byte (s : sys) (data : option Z) (k : Z) (b : Z) : sys :=
  match data with
  | Some a => wrb s (a + k) b
  | None => s
  end.

Section MessageBuffer.

Variables OS_ROBIN IDLE WAIT : Z.

(** [while (size--) { *data++ = msg->data[i++]; if (i >= msg->limit) i = 0; }] *)
Fixpoint priv_msg_peek_loop (s : sys) (msg : Z) (data : option Z) (k i : Z)
    (size : nat) : list Z * sys :=
  match size with
  | O => ([], s)
  | S size =>
      let b := rdb s (rd s msg f_data + i) in
      let s := store_byte s data k b in
      let i := i + 1 in
      let i := if i >=? rd s msg f_limit then 0 else i in
      let '(bs, s) := priv_msg_peek_loop s msg data (k + 1) i size in
      (b :: bs, s)
  end.

Definition priv_msg_peek (s : sys) (msg : Z) (data : option Z) (size : Z)
  : list Z * sys :=
  priv_msg_peek_loop s msg data 0 (rd s msg f_head) (Z.to_nat size).

Definition priv_msg_count (s : sys) (msg : Z) : Z :=
  let count := rd s msg f_count in
  if count >? 0
  then Word.of_bytes (fst (priv_msg_peek s msg None sizeof_unsigned))
  else count.

Definition priv_msg_space (s : sys) (msg : Z) : Z :=
  if ((rd s msg f_count =? 0) || (rd s msg f_queue =? 0)) &&
     (Word.sub (rd s msg f_limit) (rd s msg f_count) >? sizeof_unsigned)
  then Word.sub (Word.sub (rd s msg f_limit) (rd s msg f_count)) sizeof_unsigned
  else 0.

Definition priv_msg_limit (s : sys) (msg : Z) : Z :=
  if rd s msg f_limit >? sizeof_unsigned
  then Word.sub (rd s msg f_limit) sizeof_unsigned
  else 0.

Fixpoint priv_msg_get_loop (s : sys) (msg : Z) (data : option Z) (k i : Z)
    (size : nat) : list Z * Z * sys :=
  match size with
  | O => ([], i, s)
  | S size =>
      let b := rdb s (rd s msg f_data + i) in
      let s := store_byte s data k b in
      let i := i + 1 in
      let i := if i >=? rd s msg f_limit then 0 else i in
      let '(bs, i, s) := priv_msg_get_loop s msg data (k + 1) i size in
      (b :: bs, i, s)
  end.

Definition priv_msg_get (s : sys) (msg : Z) (data : option Z) (size : Z)
  : list Z * sys :=
  let i := rd s msg f_head in
  let s := wr s msg f_count (Word.sub (rd s msg f_count) size) in
  let '(bs, i, s) := priv_msg_get_loop s msg data 0 i (Z.to_nat size) in
  (bs, wr s msg f_head i).

(** [while (size--) { msg->data[i++] = *data++; if (i >= msg->limit) i = 0; }] *)
Fixpoint priv_msg_put_loop (s : sys) (msg : Z) (data : source) (k i : Z)
    (size : nat) : Z * sys :=
  match size with
  | O => (i, s)
  | S size =>
      let s := wrb s (rd s msg f_data + i) (source_byte s data k) in
      let i := i + 1 in
      let i := if i >=? rd s msg f_limit then 0 else i in
      priv_msg_put_loop s msg data (k + 1) i size
  end.

Definition priv_msg_put (s : sys) (msg : Z) (data : source) (size : Z) : sys :=
  let i := rd s msg f_tail in
  let s := wr s msg f_count (Word.add (rd s msg f_count) size) in
  let '(i, s) := priv_msg_put_loop s msg data 0 i (Z.to_nat size) in
  wr s msg f_tail i.

Definition priv_msg_skip (s : sys) (msg size : Z) : sys :=
  let s := wr s msg f_count (Word.sub (rd s msg f_count) size) in
  let s := wr s msg f_head (Word.add (rd s msg f_head) size) in
  if rd s msg f_head >=? rd s msg f_limit
  then wr s msg f_head (Word.sub (rd s msg f_head) (rd s msg f_limit))
  else s.

Definition assert (b : bool) : option unit :=
  if b then Some tt else None.

(** [memset(msg, 0, sizeof(msg_t))]: every member of the buffer object
    is cleared.  The member [res], which only [msg_create] and [msg_delete]
    use, has no field here; the assertion on [port_isr_inside] (here and in
    [msg_kill], [priv_msg_wait] and [priv_msg_send]) is not modelled, as
    interrupts are not. *)
Definition msg_members : list field :=
  [f_queue; f_count; f_head; f_tail; f_limit; f_data].

Definition msg_init (s : sys) (msg limit data : Z) : option sys :=
  _ ← assert (negb (msg =? 0));
  _ ← assert (negb (limit =? 0));
  _ ← assert (negb (data =? 0));
  let s := fold_left (fun s f => wr s msg f 0) msg_members s in
  let s := wr s msg f_limit limit in
  Some (wr s msg f_data data).

Definition priv_msg_getSize (s : sys) (msg : Z) : option (Z * sys) :=
  _ ← assert (negb (rd s msg f_count =? 0));
  let '(bs, s) := priv_msg_get s msg None sizeof_unsigned in
  Some (Word.of_bytes bs, s).

Definition priv_msg_putSize (s : sys) (msg size : Z) : option sys :=
  _ ← assert (negb (size =? 0));
  Some (priv_msg_put s msg (Bytes (Word.to_bytes size)) sizeof_unsigned).

(** The [while] loop of [priv_msg_getUpdate]: blocked senders whose message
    fits now are served. *)
Fixpoint priv_msg_getUpdate_loop (fuel : nat) (s : sys) (msg : Z) : option sys :=
  match fuel with
  | O => None
  | S fuel' =>
      let q := rd s msg f_queue in
      if negb (q =? 0) && (rd s q f_tmp_size <=? priv_msg_space s msg) then
        s ← priv_msg_putSize s msg (rd s (rd s msg f_queue) f_tmp_size);
        let q := rd s msg f_queue in
        let s := priv_msg_put s msg (Ptr (rd s q f_tmp_data)) (rd s q f_tmp_size) in
        let s := wr s (rd s msg f_queue) f_tmp_size 0 in
        '(_, s) ← core_tsk_wakeup OS_ROBIN IDLE fuel s (rd s msg f_queue) E_SUCCESS;
        priv_msg_getUpdate_loop fuel' s msg
      else Some s
  end.

Definition priv_msg_getUpdate (fuel : nat) (s : sys) (msg data size : Z)
  : option (Z * sys) :=
  '(size, s) ← priv_msg_getSize s msg;
  let '(_, s) := priv_msg_get s msg (Some data) size in
  s ← priv_msg_getUpdate_loop fuel s msg;
  Some (size, s).

(** The [while] loop of [priv_msg_putUpdate]: every blocked receiver is
    woken, with the message at the head of the buffer when its request is
    large enough and empty-handed otherwise. *)
Fixpoint priv_msg_putUpdate_loop (fuel : nat) (s : sys) (msg : Z) : option sys :=
  match fuel with
  | O => None
  | S fuel' =>
      if negb (rd s msg f_queue =? 0) then
        if rd s (rd s msg f_queue) f_tmp_size >=? priv_msg_count s msg then
          '(size, s) ← priv_msg_getSize s msg;
          let '(_, s) :=
            priv_msg_get s msg (Some (rd s (rd s msg f_queue) f_tmp_data)) size in
          let q := rd s msg f_queue in
          let s := wr s q f_tmp_size (Word.sub (rd s q f_tmp_size) size) in
          '(_, s) ← core_tsk_wakeup OS_ROBIN IDLE fuel s (rd s msg f_queue) E_SUCCESS;
          priv_msg_putUpdate_loop fuel' s msg
        else
          '(_, s) ← core_tsk_wakeup OS_ROBIN IDLE fuel s (rd s msg f_queue) E_TIMEOUT;
          priv_msg_putUpdate_loop fuel' s msg
      else Some s
  end.

Definition priv_msg_putUpdate (fuel : nat) (s : sys) (msg data size : Z)
  : option sys :=
  _ ← assert (size <=? priv_msg_space s msg);
  s ← priv_msg_putSize s msg size;
  let s := priv_msg_put s msg (Ptr data) size in
  priv_msg_putUpdate_loop fuel s msg.

Definition msg_kill (fuel : nat) (s : sys) (msg : Z) : option sys :=
  _ ← assert (negb (msg =? 0));
  let s := wr s msg f_count 0 in
  let s := wr s msg f_head 0 in
  let s := wr s msg f_tail 0 in
  core_all_wakeup OS_ROBIN IDLE fuel s msg E_STOPPED.

Definition msg_take (fuel : nat) (s : sys) (msg data size : Z)
  : option (Z * sys) :=
  _ ← assert (negb (msg =? 0));
  _ ← assert (negb (data =? 0));
  if rd s msg f_count >? 0 then
    if size >=? priv_msg_count s msg
    then priv_msg_getUpdate fuel s msg data size
    else Some (0, s)
  else Some (0, s).

(** [len = size - System.cur->tmp.msg.size;] once the caller of a blocking
    receive or send runs again. *)
Definition priv_msg_wait_result (s : sys) (size : Z) : Z :=
  Word.sub size (rd s (cur s) f_tmp_size).

Definition priv_msg_wait (fuel : nat) (s : sys) (msg data size time : Z)
    (wait : nat -> sys -> Z -> Z -> option (outcome * sys))
  : option (outcome * sys) :=
  _ ← assert (negb (msg =? 0));
  _ ← assert (negb (data =? 0));
  if rd s msg f_count >? 0 then
    if size >=? priv_msg_count s msg
    then '(len, s) ← priv_msg_getUpdate fuel s msg data size;
         Some (Returned len, s)
    else Some (Returned 0, s)
  else if size >? 0 then
    let s := wr s (cur s) f_tmp_data data in
    let s := wr s (cur s) f_tmp_size size in
    '(r, s) ← wait fuel s msg time;
    match r with
    | Returned _ => Some (Returned (priv_msg_wait_result s size), s)
    | Suspended => Some (Suspended, s)
    end
  else Some (Returned 0, s).

Definition msg_waitFor (fuel : nat) (s : sys) (msg data size delay : Z) :=
  priv_msg_wait fuel s msg data size delay (core_tsk_waitFor WAIT).

Definition msg_waitUntil (fuel : nat) (s : sys) (msg data size time : Z) :=
  priv_msg_wait fuel s msg data size time (core_tsk_waitUntil WAIT).

Definition msg_give (fuel : nat) (s : sys) (msg data size : Z)
  : option (Z * sys) :=
  _ ← assert (negb (msg =? 0));
  _ ← assert (negb (data =? 0));
  if size >? 0 then
    if size <=? priv_msg_space s msg
    then s ← priv_msg_putUpdate fuel s msg data size; Some (size, s)
    else Some (0, s)
  else Some (0, s).

Definition priv_msg_send (fuel : nat) (s : sys) (msg data size time : Z)
    (wait : nat -> sys -> Z -> Z -> option (outcome * sys))
  : option (outcome * sys) :=
  _ ← assert (negb (msg =? 0));
  _ ← assert (negb (data =? 0));
  if size >? 0 then
    if size <=? priv_msg_space s msg
    then s ← priv_msg_putUpdate fuel s msg data size; Some (Returned size, s)
    else if size <=? priv_msg_limit s msg then
      let s := wr s (cur s) f_tmp_data data in
      let s := wr s (cur s) f_tmp_size size in
      '(r, s) ← wait fuel s msg time;
      match r with
      | Returned _ => Some (Returned (priv_msg_wait_result s size), s)
      | Suspended => Some (Suspended, s)
      end
    else Some (Returned 0, s)
  else Some (Returned 0, s).

Definition msg_sendFor (fuel : nat) (s : sys) (msg data size delay : Z) :=
  priv_msg_send fuel s msg data size delay (core_tsk_waitFor WAIT).

Definition msg_sendUntil (fuel : nat) (s : sys) (msg data size time : Z) :=
  priv_msg_send fuel s msg data size time (core_tsk_waitUntil WAIT).

(** [while (size > priv_msg_space(msg))
       priv_msg_skip(msg, priv_msg_getSize(msg));] *)
Fixpoint msg_push_loop (fuel : nat) (s : sys) (msg size : Z) : option sys :=
  match fuel with
  | O => None
  | S fuel =>
      if size >? priv_msg_space s msg then
        '(n, s) ← priv_msg_getSize s msg;
        msg_push_loop fuel (priv_msg_skip s msg n) msg size
      else Some s
  end.

Definition msg_push (fuel : nat) (s : sys) (msg data size : Z)
  : option (Z * sys) :=
  _ ← assert (negb (msg =? 0));
  _ ← assert (negb (data =? 0));
  if ((rd s msg f_count =? 0) || (rd s msg f_queue =? 0)) &&
     (size >? 0) && (size <=? priv_msg_limit s msg)
  then
    s ← msg_push_loop fuel s msg size;
    s ← priv_msg_putUpdate fuel s msg data size;
    Some (size, s)
  else Some (0, s).

Definition msg_count (s : sys) (msg : Z) : option Z :=
  _ ← assert (negb (msg =? 0)); Some (priv_msg_count s msg).

Definition msg_space (s : sys) (msg : Z) : option Z :=
  _ ← assert (negb (msg =? 0)); Some (priv_msg_space s msg).

Definition msg_limit (s : sys) (msg : Z) : option Z :=
  _ ← assert (negb (msg =? 0)); Some (priv_msg_limit s msg).

End MessageBuffer.

(** ** List views of the pointer structures *)

(** [lseg s f p l q]: following the link field [f] from [p] visits exactly
    the nodes of [l], in order, and then arrives at [q]. *)
Fixpoint lseg (s : sys) (f : field) (p : Z) (l : list Z) (q : Z) : Prop :=
  match l with
  | [] => p = q
  | x :: l' => p = x /\ lseg s f (rd s x f) l' q
  end.

(** A doubly linked ring rooted at [r] whose other members are [l], in
    [next] order. *)
Definition ring (s : sys) (r : Z) (l : list Z) : Prop :=
  NoDup (r :: l) /\
  lseg s f_next r (r :: l) r /\
  lseg s f_prev r (r :: reverse l) r.

(** The [back] links of a queue of blocked tasks: each task points to its
    predecessor, the first one to the object itself. *)
Fixpoint backs (s : sys) (prv : Z) (ws : list Z) : Prop :=
  match ws with
  | [] => True
  | w :: ws' => rd s w f_back = prv /\ backs s w ws'
  end.

(** The queue of tasks blocked on [obj] is [ws], head first. *)
Definition waitq (s : sys) (obj : Z) (ws : list Z) : Prop :=
  NoDup (obj :: ws) /\ (0 ∉ ws) /\
  lseg s f_queue obj (obj :: ws) 0 /\
  backs s obj ws.

(** The mutexes held by [tsk] are [ms], most recently acquired first. *)
Definition held (s : sys) (tsk : Z) (ms : list Z) : Prop :=
  (0 ∉ ms) /\ lseg s f_list (rd s tsk f_list) ms 0.

(** Priorities of the first waiters of the mutexes [ms] (mutexes without
    waiters contribute nothing), and the effective priority they impose on
    a task of priority [basic]. *)
Definition head_prios (s : sys) (ms : list Z) : list Z :=
  map (fun m => rd s (rd s m f_queue) f_prio)
      (filter (fun m => rd s m f_queue ≠ 0) ms).

Definition effective (s : sys) (basic : Z) (ms : list Z) : Z :=
  fold_right Z.max basic (head_prios s ms).

(** Priorities along [l] never increase. *)
Fixpoint descending (s : sys) (l : list Z) : Prop :=
  match l with
  | [] => True
  | x :: l' =>
      (forall y, y ∈ l' -> rd s y f_prio <= rd s x f_prio) /\ descending s l'
  end.

(** Where the walks of [priv_tsk_insert] and [core_tsk_append] put a task
    into a list of tasks: behind the tasks whose priority is not lower than
    its own, before the first task of lower priority.  [prio] gives the
    priority of a task. *)
Fixpoint placed (prio : Z -> Z) (tsk : Z) (l : list Z) : list Z :=
  match l with
  | [] => [tsk]
  | x :: l' =>
      if prio tsk <=? prio x then x :: placed prio tsk l'
      else tsk :: x :: l'
  end.

(** The tasks [ws] put into [l] one after the other. *)
Definition placed_all (prio : Z -> Z) (ws l : list Z) : list Z :=
  fold_left (fun l w => placed prio w l) ws l.

(** The shape shared by the walks of [priv_tsk_insert] and
    [priv_tmr_insert]: step to the next node while [cond] holds there. *)
Fixpoint ring_walk (fuel : nat) (s : sys) (cond : Z -> bool) (nxt : Z)
  : option Z :=
  match fuel with
  | O => None
  | S fuel =>
      let nxt := rd s nxt f_next in
      if cond nxt then ring_walk fuel s cond nxt else Some nxt
  end.

(** Two states that differ at most in the link fields of the rings
    ([id], [prev], [next]) and of the wait queues ([queue], [back],
    [event]): every other cell of the store, the byte memory, the counter
    and the running task are the same. *)
Definition linkage (f : field) : Prop :=
  In f [f_id; f_prev; f_next; f_queue; f_back; f_event].

Definition same_payload (s s' : sys) : Prop :=
  (mem s' = mem s) /\ (Counter s' = Counter s) /\ (cur s' = cur s) /\
  (forall p f, ~ linkage f -> heap s' !! (p, f) = heap s !! (p, f)).

(** Regions of the byte memory that do not overlap the storage of a
    message buffer: the source, resp. the destination, of a copy of [n]
    bytes starting at offset [k]. *)
Definition source_apart (s : sys) (msg : Z) (data : source) (k : Z) (n : nat)
  : Prop :=
  match data with
  | Bytes _ => True
  | Ptr a => forall j x, 0 <= j < Z.of_nat n -> 0 <= x < rd s msg f_limit ->
               a + (k + j) ≠ rd s msg f_data + x
  end.

Definition dest_apart (s : sys) (msg : Z) (data : option Z) (k : Z) (n : nat)
  : Prop :=
  match data with
  | None => True
  | Some b => forall j x, 0 <= j < Z.of_nat n -> 0 <= x < rd s msg f_limit ->
                b + (k + j) ≠ rd s msg f_data + x
  end.

(** The contents of a message buffer: each message is kept as its length
    (an [unsigned], four bytes) followed by its bytes. *)
Definition framed (m : list Z) : list Z :=
  Word.to_bytes (Z.of_nat (length m)) ++ m.

(** The [n] bytes of the storage of [msg] from position [i] on, around the
    end of the storage. *)
Definition ring_bytes (s : sys) (msg : Z) (i : Z) (n : nat) : list Z :=
  map (fun j => rdb s (rd s msg f_data + (i + Z.of_nat j) mod rd s msg f_limit))
      (seq 0 n).

(** The buffer [msg] holds the messages [ms], oldest first. *)
Definition stored (s : sys) (msg : Z) (ms : list (list Z)) : Prop :=
  let bytes := concat (map framed ms) in
  (0 <= rd s msg f_head < rd s msg f_limit) /\
  (rd s msg f_limit < Word.modulus) /\
  (rd s msg f_count = Z.of_nat (length bytes)) /\
  (rd s msg f_count <= rd s msg f_limit) /\
  (rd s msg f_tail =
     (rd s msg f_head + rd s msg f_count) mod rd s msg f_limit) /\
  (ring_bytes s msg (rd s msg f_head) (length bytes) = bytes).

(** The insertion into the ready list as the specification words it: walk
    while the neighbour's priority is strictly greater, splice before the
    first neighbour of equal or lower priority.  [prio] gives the priority
    of a task; the list is the ready list without IDLE. *)
Fixpoint ready_insert_spec (prio : Z -> Z) (tsk : Z) (l : list Z) : list Z :=
  match l with
  | [] => [tsk]
  | x :: l' =>
      if prio tsk <? prio x then x :: ready_insert_spec prio tsk l'
      else tsk :: x :: l'
  end.

(** ** Concrete scenarios *)

Module Demo.

(** Addresses of the objects of the scenarios. *)
Definition IDLE : Z := 16.
Definition WAIT : Z := 32.
Definition MAIN : Z := 48.
Definition T0 : Z := 64.
Definition T1 : Z := 80.
Definition T3 : Z := 96.
Definition M1 : Z := 112.
Definition M2 : Z := 128.
Definition B : Z := 144.
Definition TMR : Z := 160.
Definition storage : Z := 1024.
Definition sender : Z := 2048.
Definition receiver : Z := 3072.

Definition mk_sys (cells : list (Z * field * Z)) (bytes : list (Z * Z))
    (counter cur : Z) : sys :=
  Sys (list_to_map cells) (list_to_map bytes) counter cur false.

Definition at_time (c : Z) (s : sys) : sys :=
  Sys (heap s) (mem s) c (cur s) (pend s).

Definition roots : list (Z * field * Z) :=
  [ (IDLE, f_id, ID_IDLE); (IDLE, f_prio, 0);
    (WAIT, f_id, ID_TIMER); (WAIT, f_delay, INFINITE) ].

Definition hello : list (Z * Z) :=
  [ (sender, 104); (sender + 1, 101); (sender + 2, 108);
    (sender + 3, 108); (sender + 4, 111) ].

(** T1 (priority 2) is running, MAIN (priority 1) is ready, nobody waits;
    T0 is a stopped task of priority 2; the message buffer B has 16 bytes
    of storage and is empty; TMR is a stopped periodic timer with a
    callback; the sender's buffer holds the five bytes of "hello". *)
Definition boot : sys :=
  mk_sys
    (roots ++
     [ (IDLE, f_next, T1); (T1, f_next, MAIN); (MAIN, f_next, IDLE);
       (IDLE, f_prev, MAIN); (MAIN, f_prev, T1); (T1, f_prev, IDLE);
       (T1, f_id, ID_READY); (T1, f_basic, 2); (T1, f_prio, 2);
       (MAIN, f_id, ID_READY); (MAIN, f_basic, 1); (MAIN, f_prio, 1);
       (T0, f_basic, 2); (T0, f_prio, 2);
       (WAIT, f_next, WAIT); (WAIT, f_prev, WAIT);
       (B, f_limit, 16); (B, f_data, storage);
       (TMR, f_start, 0); (TMR, f_delay, 5); (TMR, f_period, 10);
       (TMR, f_state, 7) ])
    hello 0 T1.

(** The state a blocking call leaves behind (the model's own state when the
    call does not suspend). *)
Definition suspended (s : sys) (r : option (outcome * sys)) : sys :=
  match r with
  | Some (Suspended, s') => s'
  | _ => s
  end.

(** T1 blocks in a receive of up to 64 bytes, without deadline. *)
Definition blocked : sys :=
  suspended boot (msg_waitFor 0 IDLE WAIT 8 boot B receiver 64 INFINITE).


(** "hello" is in the buffer and T1 blocks sending 8 more bytes. *)
Definition congested : sys :=
  match msg_give 0 IDLE 8 boot B sender 5 with
  | Some (_, s) => suspended s (msg_sendFor 0 IDLE WAIT 8 s B sender 8 INFINITE)
  | None => boot
  end.

(** The timer TMR is started and T1 blocks on it; five ticks later the
    timer is due. *)
Definition timer_due : sys :=
  match core_tmr_insert WAIT 8 boot TMR ID_TIMER with
  | Some s => at_time 5 (suspended s (core_tsk_waitFor WAIT 8 s TMR INFINITE))
  | None => boot
  end.

(** The callback of TMR counts its invocations in a cell of its own. *)
Definition callback (f : Z) (s : sys) : option sys :=
  if f =? 7 then Some (wr s 7 f_count (rd s 7 f_count + 1)) else None.

(** An entry that started at tick 1 with a delay of 5, seen when the
    counter reads 0 again. *)
Definition wrapped : sys :=
  mk_sys [ (TMR, f_start, 1); (TMR, f_delay, 5) ] [] 0 0.

(** Scenario S3 before the third task arrives: T0 (basic priority 0,
    raised to 1) holds M2; T1 (priority 1) holds M1 and is blocked on M2;
    T3 (priority 3) is running. *)
Definition chain : sys :=
  mk_sys
    (roots ++
     [ (IDLE, f_next, T3); (T3, f_next, T0); (T0, f_next, IDLE);
       (IDLE, f_prev, T0); (T0, f_prev, T3); (T3, f_prev, IDLE);
       (T3, f_id, ID_READY); (T3, f_basic, 3); (T3, f_prio, 3);
       (T0, f_id, ID_READY); (T0, f_basic, 0); (T0, f_prio, 1);
       (T0, f_list, M2);
       (WAIT, f_next, T1); (T1, f_next, WAIT);
       (WAIT, f_prev, T1); (T1, f_prev, WAIT);
       (T1, f_id, ID_DELAYED); (T1, f_basic, 1); (T1, f_prio, 1);
       (T1, f_delay, INFINITE); (T1, f_list, M1);
       (T1, f_guard, M2); (T1, f_back, M2); (M2, f_queue, T1) ])
    [] 0 T3.

(** T3 blocks on M1, which T1 holds. *)
Definition locking : sys :=
  suspended chain (core_tsk_waitFor WAIT 8 chain M1 INFINITE).

(** The states the scenarios end in (the starting state when the model
    yields no result). *)
Definition settled (s : sys) (r : option sys) : sys :=
  match r with
  | Some s' => s'
  | None => s
  end.

(** The priority of T1, the owner of M1, is recomputed after T3 blocked. *)
Definition recomputed : sys :=
  settled locking (core_tsk_prio 0 IDLE 8 locking T1 (rd locking T1 f_basic)).

(** The first task blocked on B is woken. *)
Definition woken : sys :=
  settled blocked (snd <$> core_one_wakeup 0 IDLE 8 blocked B E_SUCCESS).

(** "hello" is sent to B while T1 waits for up to 64, resp. 2, bytes. *)
Definition delivered : sys :=
  settled blocked (snd <$> msg_give 0 IDLE 8 blocked B sender 5).


(** The timer TMR has its new [start] and [delay] and its callback has
    run. *)
Definition called_back : sys :=
  let s0 := wr timer_due TMR f_start
              (Word.add (rd timer_due TMR f_start) (rd timer_due TMR f_delay)) in
  let s1 := wr s0 TMR f_delay (rd s0 TMR f_period) in
  settled s1 (callback (rd s1 TMR f_state) s1).

(** T0 is made ready. *)
Definition enqueued : sys :=
  settled boot (priv_tsk_insert IDLE 8 boot T0).

(** T1 and T0 are ready with the same priority in front of MAIN and T1 is
    running; T0 has not run yet, its stack ends at 8192 and its entry
    point is 513. *)
Definition peers : sys :=
  mk_sys
    (roots ++
     [ (IDLE, f_next, T1); (T1, f_next, T0); (T0, f_next, MAIN);
       (MAIN, f_next, IDLE);
       (IDLE, f_prev, MAIN); (MAIN, f_prev, T0); (T0, f_prev, T1);
       (T1, f_prev, IDLE);
       (T1, f_id, ID_READY); (T1, f_basic, 2); (T1, f_prio, 2);
       (T0, f_id, ID_READY); (T0, f_basic, 2); (T0, f_prio, 2);
       (T0, f_top, 8192); (T0, f_state, 513);
       (MAIN, f_id, ID_READY); (MAIN, f_basic, 1); (MAIN, f_prio, 1);
       (MAIN, f_sp, 6000);
       (WAIT, f_next, WAIT); (WAIT, f_prev, WAIT) ])
    [] 0 T1.

(** T1 has blocked on B at tick 0 for 100 ticks and the counter reads 100;
    the context switch away from T1 is still to come. *)
Definition overdue : sys :=
  mk_sys
    (roots ++
     [ (IDLE, f_next, MAIN); (MAIN, f_next, IDLE);
       (IDLE, f_prev, MAIN); (MAIN, f_prev, IDLE);
       (MAIN, f_id, ID_READY); (MAIN, f_basic, 1); (MAIN, f_prio, 1);
       (MAIN, f_sp, 6000);
       (WAIT, f_next, T1); (T1, f_next, WAIT);
       (WAIT, f_prev, T1); (T1, f_prev, WAIT);
       (T1, f_id, ID_DELAYED); (T1, f_basic, 2); (T1, f_prio, 2);
       (T1, f_start, 0); (T1, f_delay, 100);
       (T1, f_guard, B); (T1, f_back, B); (B, f_queue, T1);
       (B, f_limit, 16); (B, f_data, storage) ])
    [] 100 T1.

(** The bytes of "hello" as a message, and as it lies in a buffer. *)
Definition hello_bytes : list Z := [104; 101; 108; 108; 111].

(** The state [boot] with "hello" stored in B. *)
Definition posted : sys :=
  store_bytes (wr (wr boot B f_count 9) B f_tail 9) storage
    (framed hello_bytes).

(** "hello" is stored in B and T1 is blocked sending the eight bytes of
    "world!!!", which do not fit behind it; MAIN is running. *)
Definition world_bytes : list Z := [119; 111; 114; 108; 100; 33; 33; 33].

Definition jammed : sys :=
  let s := wr (wr overdue B f_count 9) B f_tail 9 in
  let s := wr (wr s T1 f_tmp_data sender) T1 f_tmp_size 8 in
  let s := set_cur (wr s T1 f_delay INFINITE) MAIN in
  store_bytes (store_bytes s storage (framed hello_bytes)) sender world_bytes.

(** T0 (basic priority 0, raised to 2) holds M2 and is running; MAIN
    (priority 2) and, behind it, T1 (priority 1) are blocked on M2; T1 holds
    M1, on which T3 (priority 3) is blocked. *)
Definition queued : sys :=
  mk_sys
    (roots ++
     [ (IDLE, f_next, T0); (T0, f_next, IDLE);
       (IDLE, f_prev, T0); (T0, f_prev, IDLE);
       (T0, f_id, ID_READY); (T0, f_basic, 0); (T0, f_prio, 2);
       (T0, f_list, M2);
       (WAIT, f_next, MAIN); (MAIN, f_next, T1); (T1, f_next, T3);
       (T3, f_next, WAIT);
       (WAIT, f_prev, T3); (T3, f_prev, T1); (T1, f_prev, MAIN);
       (MAIN, f_prev, WAIT);
       (MAIN, f_id, ID_DELAYED); (MAIN, f_basic, 2); (MAIN, f_prio, 2);
       (MAIN, f_delay, INFINITE); (MAIN, f_guard, M2); (MAIN, f_back, M2);
       (MAIN, f_queue, T1);
       (T1, f_id, ID_DELAYED); (T1, f_basic, 1); (T1, f_prio, 1);
       (T1, f_delay, INFINITE); (T1, f_guard, M2); (T1, f_back, MAIN);
       (T1, f_list, M1);
       (T3, f_id, ID_DELAYED); (T3, f_basic, 3); (T3, f_prio, 3);
       (T3, f_delay, INFINITE); (T3, f_guard, M1); (T3, f_back, M1);
       (M2, f_queue, MAIN); (M1, f_queue, T3) ])
    [] 0 T0.

(** The priority of T1 is recomputed. *)
Definition resorted : sys :=
  settled queued (core_tsk_prio 0 IDLE 8 queued T1 (rd queued T1 f_basic)).

(** MAIN is running; T1 sleeps until tick 100 and T0 sleeps without a
    deadline; the timer TMR is to be started at tick 0 for 150 ticks. *)
Definition timers : sys :=
  mk_sys
    (roots ++
     [ (IDLE, f_next, MAIN); (MAIN, f_next, IDLE);
       (IDLE, f_prev, MAIN); (MAIN, f_prev, IDLE);
       (MAIN, f_id, ID_READY); (MAIN, f_basic, 1); (MAIN, f_prio, 1);
       (WAIT, f_next, T1); (T1, f_next, T0); (T0, f_next, WAIT);
       (WAIT, f_prev, T0); (T0, f_prev, T1); (T1, f_prev, WAIT);
       (T1, f_id, ID_DELAYED); (T1, f_basic, 2); (T1, f_prio, 2);
       (T1, f_start, 0); (T1, f_delay, 100);
       (T0, f_id, ID_DELAYED); (T0, f_basic, 2); (T0, f_prio, 2);
       (T0, f_start, 0); (T0, f_delay, INFINITE);
       (TMR, f_start, 0); (TMR, f_delay, 150) ])
    [] 0 MAIN.

(** MAIN is running at tick 60; T1 and T0 have blocked on the empty buffer
    B at tick 0, each in a receive of up to 2 bytes, T1 for 50 ticks and T0
    for 100 ticks. *)
Definition two_small : sys :=
  mk_sys
    (roots ++
     [ (IDLE, f_next, MAIN); (MAIN, f_next, IDLE);
       (IDLE, f_prev, MAIN); (MAIN, f_prev, IDLE);
       (MAIN, f_id, ID_READY); (MAIN, f_basic, 1); (MAIN, f_prio, 1);
       (WAIT, f_next, T1); (T1, f_next, T0); (T0, f_next, WAIT);
       (WAIT, f_prev, T0); (T0, f_prev, T1); (T1, f_prev, WAIT);
       (T1, f_id, ID_DELAYED); (T1, f_basic, 2); (T1, f_prio, 2);
       (T1, f_start, 0); (T1, f_delay, 50);
       (T1, f_guard, B); (T1, f_back, B); (T1, f_queue, T0);
       (T1, f_tmp_data, receiver); (T1, f_tmp_size, 2);
       (T0, f_id, ID_DELAYED); (T0, f_basic, 2); (T0, f_prio, 2);
       (T0, f_start, 0); (T0, f_delay, 100);
       (T0, f_guard, B); (T0, f_back, T1);
       (T0, f_tmp_data, receiver + 16); (T0, f_tmp_size, 2);
       (B, f_queue, T1); (B, f_limit, 16); (B, f_data, storage) ])
    hello 60 MAIN.

(** As [two_small], but each of the two receives is for up to 64 bytes. *)
Definition two_big : sys :=
  wr (wr two_small T1 f_tmp_size 64) T0 f_tmp_size 64.

(** The hardware counter has moved on by one tick when it is read again. *)
Definition one_tick_on (c : Z) : Z := Word.add c 1.

(** An entry that started at tick 0 with a delay of 5, seen when the
    counter reads 4. *)
Definition almost : sys :=
  mk_sys [ (TMR, f_start, 0); (TMR, f_delay, 5) ] [] 4 0.

(** Rounding up to a multiple of eight bytes, the size of a stack word. *)
Definition round8 (n : Z) : Z := (n + 7) / 8 * 8.

End Demo.

(** * Properties *)

Set Warnings "-clear-no-such-hyp".

(** ** Machine words *)

Lemma wrap_in_range x : Word.in_range (Word.wrap x).
Proof. unfold Word.in_range, Word.wrap, Word.modulus. apply Z.mod_pos_bound. lia. Qed.

Lemma wrap_small x : Word.in_range x -> Word.wrap x = x.
Proof. unfold Word.in_range, Word.wrap. intros H. by apply Z.mod_small. Qed.

Lemma sub_self a : Word.sub a a = 0.
Proof. unfold Word.sub, Word.wrap. by rewrite Z.sub_diag. Qed.

Lemma sub_small a b :
  0 <= b <= a -> a < Word.modulus -> Word.sub a b = a - b.
Proof.
  intros H1 H2. apply wrap_small. unfold Word.in_range. lia.
Qed.

Lemma add_small a b :
  0 <= a -> 0 <= b -> a + b < Word.modulus -> Word.add a b = a + b.
Proof.
  intros H1 H2 H3. apply wrap_small. unfold Word.in_range. lia.
Qed.

(** ** Reading and writing the store *)

Lemma rd_wr_same s p f v : rd (wr s p f v) p f = v.
Proof. unfold rd, wr; simpl. by rewrite lookup_insert_eq. Qed.

Lemma rd_wr_ne s p f q g v : (p, f) ≠ (q, g) -> rd (wr s p f v) q g = rd s q g.
Proof. intros H. unfold rd, wr; simpl. by rewrite lookup_insert_ne. Qed.

Lemma rd_wr_field s p f q g v : f ≠ g -> rd (wr s p f v) q g = rd s q g.
Proof. intros H. apply rd_wr_ne. congruence. Qed.

Lemma rd_wr_ptr s p f q g v : p ≠ q -> rd (wr s p f v) q g = rd s q g.
Proof. intros H. apply rd_wr_ne. congruence. Qed.

Lemma rd_wr s p f q g v :
  rd (wr s p f v) q g = if decide ((p, f) = (q, g)) then v else rd s q g.
Proof.
  destruct (decide _) as [E|N].
  - inversion E; subst. apply rd_wr_same.
  - by apply rd_wr_ne.
Qed.

Lemma heap_wr_field s p f q g v :
  f ≠ g -> heap (wr s p f v) !! (q, g) = heap s !! (q, g).
Proof. intros H. unfold wr; simpl. apply lookup_insert_ne. congruence. Qed.

Lemma rd_heap s s' p f :
  heap s' !! (p, f) = heap s !! (p, f) -> rd s' p f = rd s p f.
Proof. unfold rd. by intros ->. Qed.

Lemma wr_same_value s p f :
  heap s !! (p, f) = Some (rd s p f) -> wr s p f (rd s p f) = s.
Proof.
  intros H. destruct s as [h m c u pe]. unfold wr, rd in *; simpl in *.
  f_equal. by apply insert_id.
Qed.

(** ** List segments *)

Lemma lseg_start s f p l q : lseg s f p l q -> p = hd q l.
Proof. destruct l; simpl; [done | by intros [-> _]]. Qed.

Lemma lseg_app s f p l1 l2 q :
  lseg s f p (l1 ++ l2) q <->
  exists m, lseg s f p l1 m /\ lseg s f m l2 q.
Proof.
  revert p. induction l1 as [|x l1 IH]; intros p; simpl.
  - split; [intros H; by exists p | by intros (m & -> & H)].
  - rewrite IH. split.
    + intros (-> & m & H1 & H2). exists m. auto.
    + intros (m & (-> & H1) & H2). split; [done | by exists m].
Qed.

Lemma lseg_frame s s' f p l q :
  (forall x, x ∈ l -> rd s' x f = rd s x f) ->
  lseg s f p l q -> lseg s' f p l q.
Proof.
  revert p. induction l as [|x l IH]; intros p Hf; simpl; [done|].
  intros [-> H]. split; [done|]. rewrite Hf by set_solver.
  apply IH; [|done]. intros y Hy. apply Hf. set_solver.
Qed.

Lemma lseg_snoc s f p l a b :
  lseg s f p (l ++ [a]) b <-> lseg s f p l a /\ rd s a f = b.
Proof.
  rewrite lseg_app. simpl. split.
  - intros (m & H1 & -> & H2). auto.
  - intros [H1 H2]. exists a. auto.
Qed.

(** Splicing [x] between [a] and its successor. *)
Lemma lseg_insert s s' f p B a b R q x :
  lseg s f p (B ++ [a]) b -> lseg s f b R q ->
  a ∉ B -> a ∉ R -> x ∉ B -> x ∉ R -> x ≠ a ->
  rd s' a f = x -> rd s' x f = b ->
  (forall y, y ≠ a -> y ≠ x -> rd s' y f = rd s y f) ->
  lseg s' f p (B ++ a :: x :: R) q.
Proof.
  intros H1 H2 HaB HaR HxB HxR Hxa Ha Hx Hfr.
  apply lseg_snoc in H1 as [H1 _].
  apply lseg_app. exists a. split.
  - eapply lseg_frame; [|exact H1]. intros y Hy.
    apply Hfr; intros ->; contradiction.
  - simpl. split; [done|]. rewrite Ha. split; [done|]. rewrite Hx.
    eapply lseg_frame; [|exact H2]. intros y Hy.
    apply Hfr; intros ->; contradiction.
Qed.

(** Bypassing [x], the successor of [a]. *)
Lemma lseg_remove s s' f p B a x R q :
  lseg s f p (B ++ a :: x :: R) q ->
  a ∉ B -> a ∉ R -> 
  rd s' a f = rd s x f ->
  (forall y, y ≠ a -> y ∈ B ++ R -> rd s' y f = rd s y f) ->
  lseg s' f p (B ++ a :: R) q.
Proof.
  intros H HaB HaR Ha Hfr.
  apply lseg_app in H as (m & H1 & H2). simpl in H2.
  destruct H2 as (-> & Hax & H2).
  apply lseg_app. exists a. split.
  - eapply lseg_frame; [|exact H1]. intros y Hy.
    apply Hfr; [intros ->; contradiction | set_solver].
  - simpl. split; [done|]. rewrite Ha.
    eapply lseg_frame; [|exact H2]. intros y Hy.
    apply Hfr; [intros ->; contradiction | set_solver].
Qed.

Ltac rd_cases :=
  repeat rewrite rd_wr; repeat case_decide; simplify_eq; try done.

(** ** Reads after the ring primitives *)

Lemma priv_rdy_insert_next s obj id nxt p :
  rd (priv_rdy_insert s obj id nxt) p f_next =
    if decide (p = rd s nxt f_prev) then obj
    else if decide (p = obj) then nxt else rd s p f_next.
Proof. unfold priv_rdy_insert. rd_cases. Qed.

Lemma priv_rdy_insert_prev s obj id nxt p :
  rd (priv_rdy_insert s obj id nxt) p f_prev =
    if decide (p = nxt) then obj
    else if decide (p = obj) then rd s nxt f_prev else rd s p f_prev.
Proof. unfold priv_rdy_insert. rd_cases. Qed.

Lemma priv_rdy_insert_id s obj id nxt p :
  rd (priv_rdy_insert s obj id nxt) p f_id =
    if decide (p = obj) then id else rd s p f_id.
Proof. unfold priv_rdy_insert. rd_cases. Qed.

Lemma priv_rdy_insert_keeps s obj id nxt p f :
  f ≠ f_id -> f ≠ f_prev -> f ≠ f_next ->
  heap (priv_rdy_insert s obj id nxt) !! (p, f) = heap s !! (p, f).
Proof. intros. unfold priv_rdy_insert. by rewrite !heap_wr_field. Qed.

Lemma priv_rdy_insert_other s obj id nxt p f :
  f ≠ f_id -> f ≠ f_prev -> f ≠ f_next ->
  rd (priv_rdy_insert s obj id nxt) p f = rd s p f.
Proof. intros. by apply rd_heap, priv_rdy_insert_keeps. Qed.

Lemma priv_rdy_remove_next s obj p :
  rd (priv_rdy_remove s obj) p f_next =
    if decide (p = rd s obj f_prev) then rd s obj f_next else rd s p f_next.
Proof. unfold priv_rdy_remove. rd_cases. Qed.

Lemma priv_rdy_remove_prev s obj p :
  rd (priv_rdy_remove s obj) p f_prev =
    if decide (p = rd s obj f_next) then rd s obj f_prev else rd s p f_prev.
Proof. unfold priv_rdy_remove. rd_cases. Qed.

Lemma priv_rdy_remove_id s obj p :
  rd (priv_rdy_remove s obj) p f_id =
    if decide (p = obj) then ID_STOPPED else rd s p f_id.
Proof. unfold priv_rdy_remove. rd_cases. Qed.

Lemma priv_rdy_remove_keeps s obj p f :
  f ≠ f_id -> f ≠ f_prev -> f ≠ f_next ->
  heap (priv_rdy_remove s obj) !! (p, f) = heap s !! (p, f).
Proof. intros. unfold priv_rdy_remove. by rewrite !heap_wr_field. Qed.

Lemma priv_rdy_remove_other s obj p f :
  f ≠ f_id -> f ≠ f_prev -> f ≠ f_next ->
  rd (priv_rdy_remove s obj) p f = rd s p f.
Proof. intros. by apply rd_heap, priv_rdy_remove_keeps. Qed.

(** ** Rings *)

Lemma NoDup_reverse (l : list Z) : NoDup l -> NoDup (reverse l).
Proof. by rewrite reverse_Permutation. Qed.

Lemma snoc_cases (r : Z) (l : list Z) :
  exists B a, r :: l = B ++ [a] /\ a = hd r (reverse l).
Proof.
  destruct l as [|y l] using rev_ind.
  - exists [], r. done.
  - exists (r :: l), y. rewrite reverse_app. done.
Qed.

Lemma ring_split s r l1 l2 :
  ring s r (l1 ++ l2) ->
  exists B a B',
    r :: l1 = B ++ [a] /\ r :: reverse l2 = B' ++ [hd r l2] /\
    lseg s f_next r (B ++ [a]) (hd r l2) /\ lseg s f_next (hd r l2) l2 r /\
    lseg s f_prev r (B' ++ [hd r l2]) a /\ lseg s f_prev a (reverse l1) r.
Proof.
  intros (ND & Hn & Hp).
  destruct (snoc_cases r l1) as (B & a & EB & Ea).
  destruct (snoc_cases r (reverse l2)) as (B' & n & EB' & En).
  rewrite reverse_involutive in En. subst n.
  exists B, a, B'. split; [done|]. split; [done|].
  change (r :: l1 ++ l2) with ((r :: l1) ++ l2) in Hn.
  apply lseg_app in Hn as (m & Hn1 & Hn2).
  pose proof (lseg_start _ _ _ _ _ Hn2) as ->.
  rewrite reverse_app in Hp.
  change (r :: reverse l2 ++ reverse l1) with ((r :: reverse l2) ++ reverse l1) in Hp.
  apply lseg_app in Hp as (m & Hp1 & Hp2).
  pose proof (lseg_start _ _ _ _ _ Hp2) as ->. rewrite <- Ea in *.
  rewrite <- EB, <- EB'. done.
Qed.

Lemma ring_insert s r l1 l2 obj id :
  ring s r (l1 ++ l2) -> obj ∉ r :: l1 ++ l2 ->
  ring (priv_rdy_insert s obj id (hd r l2)) r (l1 ++ obj :: l2).
Proof.
  intros HR Hobj. pose proof HR as (ND & _ & _).
  destruct (ring_split _ _ _ _ HR) as (B & a & B' & EB & EB' & Hn1 & Hn2 & Hp1 & Hp2).
  set (nxt := hd r l2) in *.
  assert (Hprv : rd s nxt f_prev = a).
  { apply lseg_snoc in Hp1. tauto. }
  assert (ND1 : NoDup ((B ++ [a]) ++ l2)).
  { rewrite <- EB. exact ND. }
  assert (ND2 : NoDup ((B' ++ [nxt]) ++ reverse l1)).
  { rewrite <- EB'. simpl. rewrite <- reverse_app.
    apply NoDup_cons. apply NoDup_cons in ND as [N1 N2]. split.
    - rewrite elem_of_reverse. done.
    - by apply NoDup_reverse. }
  assert (Ha : a ∈ r :: l1) by (rewrite EB; set_solver).
  assert (Hnx : nxt ∈ r :: l2).
  { apply (f_equal (fun l => nxt ∈ l)) in EB'. simpl in EB'.
    assert (nxt ∈ r :: reverse l2) by (rewrite EB'; set_solver).
    rewrite elem_of_cons in H. rewrite elem_of_reverse in H. set_solver. }
  assert (obj ≠ a) by (intros ->; set_solver).
  assert (obj ≠ nxt) by (intros ->; set_solver).
  split; [|split].
  - apply NoDup_cons in ND as [N1 N2].
    apply NoDup_cons. split; [set_solver|].
    apply NoDup_app in N2 as (N3 & N4 & N5).
    apply NoDup_app. split; [done|]. split.
    + intros x Hx. rewrite elem_of_cons. intros [->|?]; [set_solver|].
      by apply (N4 x).
    + apply NoDup_cons. split; [set_solver|done].
  - change (r :: l1 ++ obj :: l2) with ((r :: l1) ++ obj :: l2).
    rewrite EB. rewrite <- app_assoc. simpl.
    rewrite <- app_assoc in ND1. simpl in ND1.
    apply NoDup_app in ND1 as (N3 & N4 & N5).
    apply NoDup_cons in N5 as [N5 N6].
    assert (obj ∉ B ++ [a]) by (rewrite <- EB; set_solver).
    eapply lseg_insert; try exact Hn1; try exact Hn2; try done.
    + intros Hin. apply (N4 a Hin). set_solver.
    + set_solver.
    + set_solver.
    + rewrite priv_rdy_insert_next. rewrite Hprv. by rewrite decide_True.
    + rewrite priv_rdy_insert_next. rewrite Hprv.
      rewrite decide_False by done. by rewrite decide_True.
    + intros y Hy1 Hy2. rewrite priv_rdy_insert_next. rewrite Hprv.
      by rewrite !decide_False.
  - rewrite reverse_app, reverse_cons, <- app_assoc.
    change (r :: reverse l2 ++ [obj] ++ reverse l1)
      with ((r :: reverse l2) ++ obj :: reverse l1).
    rewrite EB'. rewrite <- app_assoc. simpl.
    rewrite <- app_assoc in ND2. simpl in ND2.
    apply NoDup_app in ND2 as (N3 & N4 & N5).
    apply NoDup_cons in N5 as [N5 N6].
    assert (obj ∉ B' ++ [nxt]).
    { rewrite <- EB'. rewrite elem_of_cons, elem_of_reverse. set_solver. }
    eapply lseg_insert; try exact Hp1; try exact Hp2; try done.
    + intros Hin. apply (N4 nxt Hin). set_solver.
    + set_solver.
    + rewrite elem_of_reverse. set_solver.
    + rewrite priv_rdy_insert_prev. by rewrite decide_True.
    + rewrite priv_rdy_insert_prev.
      rewrite decide_False by done. rewrite decide_True by done. done.
    + intros y Hy1 Hy2. rewrite priv_rdy_insert_prev.
      by rewrite !decide_False.
Qed.

Lemma lseg_mid s f p B a x R q :
  lseg s f p (B ++ a :: x :: R) q -> rd s a f = x /\ rd s x f = hd q R.
Proof.
  intros H. apply lseg_app in H as (m & _ & H). simpl in H.
  destruct H as (_ & Ha & H). split; [done|]. by apply lseg_start in H.
Qed.

Lemma ring_remove s r l1 x l2 :
  ring s r (l1 ++ x :: l2) -> ring (priv_rdy_remove s x) r (l1 ++ l2).
Proof.
  intros (ND & Hn & Hp).
  destruct (snoc_cases r l1) as (B & a & EB & Ea).
  destruct (snoc_cases r (reverse l2)) as (B' & n & EB' & En).
  rewrite reverse_involutive in En.
  change (r :: l1 ++ x :: l2) with ((r :: l1) ++ x :: l2) in Hn, ND.
  rewrite EB, <- app_assoc in Hn, ND. simpl in ND.
  change (B ++ [a] ++ x :: l2) with (B ++ a :: x :: l2) in Hn.
  rewrite reverse_app, reverse_cons, <- app_assoc in Hp.
  change (r :: reverse l2 ++ [x] ++ reverse l1)
    with ((r :: reverse l2) ++ x :: reverse l1) in Hp.
  rewrite EB', <- app_assoc in Hp.
  change (B' ++ [n] ++ x :: reverse l1) with (B' ++ n :: x :: reverse l1) in Hp.
  destruct (lseg_mid _ _ _ _ _ _ _ _ Hn) as [_ Hxn].
  destruct (lseg_mid _ _ _ _ _ _ _ _ Hp) as [_ Hxp].
  assert (Hxa : rd s x f_prev = a) by (rewrite Hxp; done).
  assert (Hxn' : rd s x f_next = n) by (rewrite Hxn; done).
  assert (ND' : NoDup (B ++ a :: l2)).
  { apply NoDup_app in ND as (N1 & N2 & N3). apply NoDup_app.
    split; [done|]. apply NoDup_cons in N3 as [N3 N4].
    apply NoDup_cons in N4 as [N4 N5]. split.
    - intros y Hy Hy'. apply (N2 y Hy). set_solver.
    - apply NoDup_cons. split; [set_solver | done]. }
  assert (E1 : r :: l1 ++ l2 = B ++ a :: l2).
  { change (r :: l1 ++ l2) with ((r :: l1) ++ l2). by rewrite EB, <- app_assoc. }
  assert (E2 : r :: reverse (l1 ++ l2) = B' ++ n :: reverse l1).
  { rewrite reverse_app.
    change (r :: reverse l2 ++ reverse l1) with ((r :: reverse l2) ++ reverse l1).
    by rewrite EB', <- app_assoc. }
  assert (ND2 : NoDup (B' ++ n :: reverse l1)).
  { rewrite <- E2. rewrite <- E1 in ND'.
    apply NoDup_cons in ND' as [N1 N2]. apply NoDup_cons.
    rewrite elem_of_reverse. split; [done|]. by apply NoDup_reverse. }
  split; [|split].
  - by rewrite E1.
  - rewrite E1. eapply lseg_remove; [exact Hn | | | |].
    + apply NoDup_app in ND' as (_ & N & _). intros Hin. apply (N a Hin). set_solver.
    + apply NoDup_app in ND' as (_ & _ & N). apply NoDup_cons in N. tauto.
    + rewrite priv_rdy_remove_next, Hxa. by rewrite decide_True.
    + intros y Hy _. rewrite priv_rdy_remove_next, Hxa. by rewrite decide_False.
  - rewrite E2. eapply lseg_remove; [exact Hp | | | |].
    + apply NoDup_app in ND2 as (_ & N & _). intros Hin. apply (N n Hin). set_solver.
    + apply NoDup_app in ND2 as (_ & _ & N). apply NoDup_cons in N. tauto.
    + rewrite priv_rdy_remove_prev, Hxn'. by rewrite decide_True.
    + intros y Hy _. rewrite priv_rdy_remove_prev, Hxn'. by rewrite decide_False.
Qed.

(** ** Walking a ring *)

Lemma ring_walk_stops s cond r l p fuel :
  lseg s f_next (rd s p f_next) l r -> cond r = false ->
  (length l < fuel)%nat ->
  exists l1 l2, l = l1 ++ l2 /\
    ring_walk fuel s cond p = Some (hd r l2) /\
    (forall x, x ∈ l1 -> cond x = true) /\ cond (hd r l2) = false.
Proof.
  revert p fuel. induction l as [|x l IH]; intros p fuel H Hr Hf.
  - exists [], []. simpl in *. destruct fuel; [lia|]. simpl.
    rewrite H, Hr. split; [done|]. split; [done|]. split; [|done].
    intros x Hx. by apply elem_of_nil in Hx.
  - destruct fuel; [simpl in Hf; lia|]. simpl in H. destruct H as [Hx H].
    simpl. rewrite Hx. destruct (cond x) eqn:Hc.
    + destruct (IH x fuel H Hr) as (l1 & l2 & -> & Hw & H1 & H2).
      { simpl in Hf. lia. }
      exists (x :: l1), l2. split; [done|]. split; [done|]. split; [|done].
      intros y. rewrite elem_of_cons. intros [->|?]; auto.
    + exists [], (x :: l). split; [done|]. split; [done|]. split; [|done].
      intros y Hy. by apply elem_of_nil in Hy.
Qed.

Lemma priv_tsk_insert_walk_eq fuel s tsk nxt :
  priv_tsk_insert_walk fuel s tsk nxt =
  ring_walk fuel s (fun n => rd s tsk f_prio <=? rd s n f_prio) nxt.
Proof.
  revert nxt. induction fuel as [|fuel IH]; intros nxt; simpl; [done|].
  by rewrite IH.
Qed.

Lemma priv_tmr_insert_walk_eq fuel s tmr nxt :
  priv_tmr_insert_walk fuel s tmr nxt =
  ring_walk fuel s
    (fun n => negb (rd s n f_delay =? INFINITE) &&
              (rd s n f_delay <=?
                 Word.sub (Word.add (rd s tmr f_start) (rd s tmr f_delay))
                          (rd s n f_start))) nxt.
Proof.
  revert nxt. induction fuel as [|fuel IH]; intros nxt; simpl; [done|].
  by rewrite IH.
Qed.

Lemma ring_first s r l : ring s r l -> rd s r f_next = hd r l.
Proof.
  intros (_ & [_ Hn] & _). by apply lseg_start in Hn.
Qed.

(** ** Priority order *)

Lemma descending_app s l1 l2 :
  descending s (l1 ++ l2) <->
  descending s l1 /\ descending s l2 /\
  (forall x y, x ∈ l1 -> y ∈ l2 -> rd s y f_prio <= rd s x f_prio).
Proof.
  induction l1 as [|a l1 IH]; simpl.
  - split; [intros H | tauto]. split; [done|]. split; [done|].
    intros x y Hx. by apply elem_of_nil in Hx.
  - rewrite IH. split.
    + intros (H1 & H2 & H3 & H4). split; [split|split]; try done.
      * intros y Hy. apply H1. set_solver.
      * intros x y. rewrite elem_of_cons. intros [->|Hx] Hy.
        -- apply H1. set_solver.
        -- by apply H4.
    + intros ((H1 & H2) & H3 & H4). split; [|split; [done|split; [done|]]].
      * intros y. rewrite elem_of_app. intros [Hy|Hy]; [by apply H1|].
        apply H4; [set_solver|done].
      * intros x y Hx Hy. apply H4; [set_solver|done].
Qed.

Lemma descending_frame s s' l :
  (forall x, x ∈ l -> rd s' x f_prio = rd s x f_prio) ->
  descending s l -> descending s' l.
Proof.
  induction l as [|a l IH]; simpl; [done|]. intros Hf [H1 H2]. split.
  - intros y Hy. rewrite !Hf by set_solver. by apply H1.
  - apply IH; [|done]. intros x Hx. apply Hf. set_solver.
Qed.

Lemma descending_below s l p :
  descending s l -> rd s (hd p l) f_prio < rd s p f_prio -> l ≠ [] ->
  forall y, y ∈ l -> rd s y f_prio < rd s p f_prio.
Proof.
  destruct l as [|a l]; [done|]. simpl. intros [H1 _] Ha _ y.
  rewrite elem_of_cons. intros [->|Hy]; [done|].
  specialize (H1 y Hy). lia.
Qed.

(** ** The ready ring *)

Lemma priv_tsk_insert_walks IDLE s l tsk fuel :
  ring s IDLE l -> rd s IDLE f_prio = 0 ->
  0 <= rd s tsk f_prio ->
  (length l < fuel)%nat ->
  exists l1 l2, l = l1 ++ l2 /\
    priv_tsk_insert IDLE fuel s tsk =
      Some (priv_rdy_insert s tsk ID_READY (hd IDLE l2)) /\
    (rd s tsk f_prio = 0 \/
     forall x, x ∈ l1 -> rd s tsk f_prio <= rd s x f_prio) /\
    (l2 = [] \/ rd s (hd IDLE l2) f_prio < rd s tsk f_prio).
Proof.
  intros (ND & Hn & _) Hidle Hp Hf. unfold priv_tsk_insert.
  destruct (rd s tsk f_prio =? 0) eqn:E.
  - apply Z.eqb_eq in E. exists l, []. rewrite app_nil_r.
    split; [done|]. split; [done|]. split; by left.
  - apply Z.eqb_neq in E. rewrite priv_tsk_insert_walk_eq.
    destruct Hn as [_ Hn].
    destruct (ring_walk_stops s (fun n => rd s tsk f_prio <=? rd s n f_prio)
                IDLE l IDLE fuel Hn) as (l1 & l2 & -> & Hw & H1 & H2).
    { rewrite Hidle. apply Z.leb_gt. lia. }
    { done. }
    exists l1, l2. split; [done|]. rewrite Hw. simpl. split; [done|]. split.
    + right. intros x Hx. apply Z.leb_le. by apply H1.
    + right. by apply Z.leb_gt.
Qed.

(** ** Wait queues *)

Lemma backs_frame s s' p l :
  (forall x, x ∈ l -> rd s' x f_back = rd s x f_back) ->
  backs s p l -> backs s' p l.
Proof.
  revert p. induction l as [|a l IH]; intros p Hf; simpl; [done|].
  intros [H1 H2]. split; [rewrite Hf by set_solver; done|].
  apply IH; [|done]. intros x Hx. apply Hf. set_solver.
Qed.

Lemma backs_app s p l1 l2 :
  backs s p (l1 ++ l2) <-> backs s p l1 /\ backs s (hd p (reverse l1)) l2.
Proof.
  revert p. induction l1 as [|a l1 IH]; intros p; simpl.
  - tauto.
  - rewrite IH, reverse_cons.
    assert (hd a (reverse l1) = hd p (reverse l1 ++ [a])) as ->.
    { destruct (reverse l1); done. }
    tauto.
Qed.

Lemma core_tsk_unlink_queue s tsk ev p :
  rd (core_tsk_unlink s tsk ev) p f_queue =
    if decide (p = tsk) then 0
    else if decide (p = rd s tsk f_back) then rd s tsk f_queue
    else rd s p f_queue.
Proof.
  unfold core_tsk_unlink. destruct (rd s tsk f_queue =? 0); rd_cases.
Qed.

Lemma core_tsk_unlink_back s tsk ev p :
  rd (core_tsk_unlink s tsk ev) p f_back =
    if decide (p = rd s tsk f_queue /\ p ≠ 0) then rd s tsk f_back
    else rd s p f_back.
Proof.
  unfold core_tsk_unlink. destruct (rd s tsk f_queue =? 0) eqn:E.
  - apply Z.eqb_eq in E. rd_cases. naive_solver.
  - apply Z.eqb_neq in E. rd_cases; naive_solver.
Qed.

Lemma core_tsk_unlink_event s tsk ev p :
  rd (core_tsk_unlink s tsk ev) p f_event =
    if decide (p = tsk) then ev else rd s p f_event.
Proof.
  unfold core_tsk_unlink. destruct (rd s tsk f_queue =? 0); rd_cases.
Qed.

Lemma core_tsk_unlink_keeps s tsk ev p f :
  f ≠ f_queue -> f ≠ f_back -> f ≠ f_event ->
  heap (core_tsk_unlink s tsk ev) !! (p, f) = heap s !! (p, f).
Proof.
  intros. unfold core_tsk_unlink.
  destruct (rd s tsk f_queue =? 0); by rewrite !heap_wr_field.
Qed.

Lemma core_tsk_unlink_other s tsk ev p f :
  f ≠ f_queue -> f ≠ f_back -> f ≠ f_event ->
  rd (core_tsk_unlink s tsk ev) p f = rd s p f.
Proof. intros. by apply rd_heap, core_tsk_unlink_keeps. Qed.

Lemma core_tsk_unlink_rest s tsk ev :
  mem (core_tsk_unlink s tsk ev) = mem s /\
  Counter (core_tsk_unlink s tsk ev) = Counter s /\
  cur (core_tsk_unlink s tsk ev) = cur s /\
  pend (core_tsk_unlink s tsk ev) = pend s.
Proof. unfold core_tsk_unlink. by destruct (rd s tsk f_queue =? 0). Qed.

Lemma waitq_unlink s obj w1 t w2 ev :
  waitq s obj (w1 ++ t :: w2) ->
  waitq (core_tsk_unlink s t ev) obj (w1 ++ w2).
Proof.
  intros (ND & H0 & Hq & Hb).
  destruct (snoc_cases obj w1) as (B & a & EB & Ea).
  change (obj :: w1 ++ t :: w2) with ((obj :: w1) ++ t :: w2) in Hq, ND.
  rewrite EB, <- app_assoc in Hq, ND.
  change (B ++ [a] ++ t :: w2) with (B ++ a :: t :: w2) in Hq, ND.
  destruct (lseg_mid _ _ _ _ _ _ _ _ Hq) as [_ Hnxt].
  apply backs_app in Hb as [Hb1 Hb2]. rewrite <- Ea in Hb2.
  simpl in Hb2. destruct Hb2 as [Hprv Hb2].
  assert (E1 : obj :: w1 ++ w2 = B ++ a :: w2).
  { change (obj :: w1 ++ w2) with ((obj :: w1) ++ w2). by rewrite EB, <- app_assoc. }
  assert (ND' : NoDup (B ++ a :: w2)).
  { apply NoDup_app in ND as (N1 & N2 & N3). apply NoDup_app.
    split; [done|]. apply NoDup_cons in N3 as [N3 N4].
    apply NoDup_cons in N4 as [N4 N5]. split.
    - intros y Hy Hy'. apply (N2 y Hy). set_solver.
    - apply NoDup_cons. split; [set_solver | done]. }
  assert (Hta : t ≠ a).
  { apply NoDup_app in ND as (_ & _ & N). apply NoDup_cons in N as [N _].
    set_solver. }
  assert (HtB : t ∉ B ++ w2).
  { apply NoDup_app in ND as (_ & N2 & N3). apply NoDup_cons in N3 as [_ N3].
    apply NoDup_cons in N3 as [N3 _]. rewrite elem_of_app. intros [Hin|Hin]; [|done].
    apply (N2 t Hin). set_solver. }
  split; [by rewrite E1|]. split; [set_solver|]. split.
  - rewrite E1. eapply lseg_remove; [exact Hq | | | |].
    + apply NoDup_app in ND' as (_ & N & _). intros Hin. apply (N a Hin). set_solver.
    + apply NoDup_app in ND' as (_ & _ & N). apply NoDup_cons in N. tauto.
    + rewrite core_tsk_unlink_queue, Hprv.
      rewrite decide_False by done. by rewrite decide_True.
    + intros y Hy Hin. rewrite core_tsk_unlink_queue, Hprv.
      rewrite decide_False by (intros ->; done). by rewrite decide_False.
  - apply backs_app. rewrite <- Ea. split.
    + eapply backs_frame; [|exact Hb1]. intros x Hx.
      rewrite core_tsk_unlink_back. rewrite decide_False; [done|].
      intros [-> Hx0]. rewrite Hnxt in Hx.
      assert (Hx' : hd 0 w2 ∈ obj :: w1) by set_solver.
      rewrite EB in Hx'.
      destruct w2 as [|n w2]; [done|]. simpl in *.
      apply NoDup_app in ND as (_ & N2 & N3).
      rewrite elem_of_app in Hx'. destruct Hx' as [Hx'|Hx'].
      * apply (N2 n Hx'). set_solver.
      * apply NoDup_cons in N3 as [N3 _]. set_solver.
    + destruct w2 as [|n w2]; [done|]. simpl in *. destruct Hb2 as [Hn Hb2].
      assert (n ≠ 0) by set_solver.
      split.
      * rewrite core_tsk_unlink_back, Hnxt. by rewrite decide_True.
      * eapply backs_frame; [|exact Hb2]. intros x Hx.
        rewrite core_tsk_unlink_back, Hnxt. rewrite decide_False; [done|].
        intros [-> _]. apply NoDup_app in ND as (_ & _ & N3).
        apply NoDup_cons in N3 as [_ N3]. apply NoDup_cons in N3 as [_ N3].
        apply NoDup_cons in N3 as [N3 _]. done.
Qed.

Lemma core_tsk_append_walk_frame fuel s s' tsk nxt :
  (forall p, rd s' p f_queue = rd s p f_queue) ->
  (forall p, rd s' p f_prio = rd s p f_prio) ->
  core_tsk_append_walk fuel s' tsk nxt = core_tsk_append_walk fuel s tsk nxt.
Proof.
  intros Hq Hp. revert nxt. induction fuel as [|fuel IH]; intros nxt; simpl; [done|].
  by rewrite !Hq, !Hp, IH.
Qed.

Lemma core_tsk_append_walk_stops s tsk p l fuel :
  lseg s f_queue (rd s p f_queue) l 0 -> 0 ∉ l -> (length l < fuel)%nat ->
  exists l1 l2, l = l1 ++ l2 /\
    core_tsk_append_walk fuel s tsk p = Some (hd p (reverse l1), hd 0 l2) /\
    (forall x, x ∈ l1 -> rd s tsk f_prio <= rd s x f_prio) /\
    (l2 = [] \/ rd s (hd 0 l2) f_prio < rd s tsk f_prio).
Proof.
  revert p fuel. induction l as [|x l IH]; intros p fuel H H0 Hf.
  - exists [], []. simpl in *. destruct fuel; [lia|]. simpl. rewrite H. simpl.
    split; [done|]. split; [done|]. split; [|by left].
    intros x Hx. by apply elem_of_nil in Hx.
  - destruct fuel; [simpl in Hf; lia|]. simpl in H. destruct H as [Hx H].
    assert (Hx0 : x ≠ 0) by set_solver.
    simpl. rewrite Hx. rewrite (proj2 (Z.eqb_neq x 0)) by done. simpl.
    destruct (rd s tsk f_prio <=? rd s x f_prio) eqn:Hc.
    + destruct (IH x fuel H) as (l1 & l2 & -> & Hw & H1 & H2).
      { set_solver. }
      { simpl in Hf. lia. }
      exists (x :: l1), l2. split; [done|]. split; [|split; [|done]].
      * rewrite Hw, reverse_cons. f_equal. f_equal. by destruct (reverse l1).
      * intros y. rewrite elem_of_cons. intros [->|?]; [by apply Z.leb_le | auto].
    + exists [], (x :: l). split; [done|]. split; [done|]. split.
      * intros y Hy. by apply elem_of_nil in Hy.
      * right. simpl. by apply Z.leb_gt.
Qed.

(** What [core_tsk_append] writes, given where its walk stopped. *)
Lemma core_tsk_append_writes fuel s tsk obj prv nxt :
  core_tsk_append_walk fuel s tsk obj = Some (prv, nxt) ->
  exists s', core_tsk_append fuel s tsk obj = Some s' /\
    (forall p, rd s' p f_queue =
       if decide (p = prv) then tsk
       else if decide (p = tsk) then nxt else rd s p f_queue) /\
    (forall p, rd s' p f_back =
       if decide (p = tsk) then prv
       else if decide (p = nxt /\ p ≠ 0) then tsk else rd s p f_back) /\
    (forall p, rd s' p f_guard =
       if decide (p = tsk) then obj else rd s p f_guard) /\
    (forall p f, f ≠ f_queue -> f ≠ f_back -> f ≠ f_guard ->
       rd s' p f = rd s p f) /\
    mem s' = mem s /\ Counter s' = Counter s /\ cur s' = cur s /\
    pend s' = pend s.
Proof.
  intros Hw. unfold core_tsk_append.
  rewrite (core_tsk_append_walk_frame fuel s (wr s tsk f_guard obj)), Hw;
    [|intros; by rewrite rd_wr_field..].
  simpl. eexists. split; [done|].
  destruct (nxt =? 0) eqn:E;
    [apply Z.eqb_eq in E | apply Z.eqb_neq in E];
    (split; [|split; [|split; [|split; [|done]]]]); intros; rd_cases;
    naive_solver.
Qed.

Lemma waitq_append s obj ws tsk fuel :
  waitq s obj ws -> tsk ∉ obj :: ws -> tsk ≠ 0 ->
  (length ws < fuel)%nat ->
  exists s' w1 w2, ws = w1 ++ w2 /\
    core_tsk_append fuel s tsk obj = Some s' /\
    waitq s' obj (w1 ++ tsk :: w2) /\
    (forall x, x ∈ w1 -> rd s tsk f_prio <= rd s x f_prio) /\
    (w2 = [] \/ rd s (hd 0 w2) f_prio < rd s tsk f_prio) /\
    rd s' tsk f_guard = obj /\
    (forall p, p ≠ tsk -> rd s' p f_guard = rd s p f_guard) /\
    (forall p, p ≠ tsk -> p ∉ obj :: ws ->
       rd s' p f_queue = rd s p f_queue) /\
    (forall p f, f ≠ f_queue -> f ≠ f_back -> f ≠ f_guard ->
       rd s' p f = rd s p f) /\
    mem s' = mem s /\ Counter s' = Counter s /\ cur s' = cur s /\
    pend s' = pend s.
Proof.
  intros (ND & H0 & Hq & Hb) Ht Ht0 Hf.
  destruct Hq as [_ Hq].
  destruct (core_tsk_append_walk_stops s tsk obj ws fuel Hq H0 Hf)
    as (w1 & w2 & -> & Hw & H1 & H2).
  destruct (core_tsk_append_writes fuel s tsk obj _ _ Hw)
    as (s' & Hs' & Rq & Rb & Rg & Ro & Hrest).
  exists s', w1, w2. split; [done|]. split; [done|].
  destruct (snoc_cases obj w1) as (B & a & EB & Ea). rewrite <- Ea in *.
  set (nxt := hd 0 w2) in *.
  assert (Hq' : lseg s f_queue obj ((obj :: w1) ++ w2) 0) by (split; done).
  apply lseg_app in Hq' as (m & Hq1 & Hq2).
  pose proof (lseg_start _ _ _ _ _ Hq2) as Hm. fold nxt in Hm. subst m.
  rewrite EB in Hq1.
  change (obj :: w1 ++ w2) with ((obj :: w1) ++ w2) in ND. rewrite EB in ND.
  assert (HtB : tsk ∉ B ++ [a]) by (rewrite <- EB; set_solver).
  assert (Htw : tsk ∉ w2) by set_solver.
  apply backs_app in Hb as [Hb1 Hb2]. rewrite <- Ea in Hb2.
  assert (Hnxt : nxt = 0 \/ nxt ∈ w2).
  { unfold nxt. destruct w2; [by left | right; set_solver]. }
  assert (Hain : a ∈ obj :: w1 ++ w2).
  { assert (a ∈ obj :: w1) by (rewrite EB; set_solver). set_solver. }
  split; [|split; [done|]; split; [done|]; split; [|split; [|split; [|done]]]].
  - split; [|split; [|split]].
    + change (obj :: w1 ++ tsk :: w2) with ((obj :: w1) ++ tsk :: w2).
      rewrite EB. apply NoDup_app in ND as (N1 & N2 & N3).
      apply NoDup_app. split; [done|]. split.
      * intros x Hx. rewrite elem_of_cons. intros [->|Hx']; [done|].
        by apply (N2 x).
      * apply NoDup_cons. done.
    + set_solver.
    + change (obj :: w1 ++ tsk :: w2) with ((obj :: w1) ++ tsk :: w2).
      rewrite EB, <- app_assoc.
      change (B ++ [a] ++ tsk :: w2) with (B ++ a :: tsk :: w2).
      apply NoDup_app in ND as (N1 & N2 & N3).
      apply NoDup_app in N1 as (N4 & N5 & N6).
      eapply lseg_insert; [exact Hq1 | exact Hq2 | | | | | | | |].
      * intros Hin. apply (N5 a Hin). set_solver.
      * intros Hin. apply (N2 a); [set_solver | done].
      * set_solver.
      * done.
      * set_solver.
      * rewrite Rq. by rewrite decide_True.
      * rewrite Rq. rewrite decide_False by set_solver. by rewrite decide_True.
      * intros y Hy1 Hy2. rewrite Rq. by rewrite !decide_False.
    + apply backs_app. rewrite <- Ea. split.
      * eapply backs_frame; [|exact Hb1]. intros x Hx. rewrite Rb.
        rewrite decide_False by set_solver. rewrite decide_False; [done|].
        intros [-> Hx0]. destruct Hnxt as [?|Hn]; [done|].
        apply NoDup_app in ND as (_ & N2 & _). apply (N2 nxt); [|done].
        rewrite <- EB. set_solver.
      * simpl. split; [rewrite Rb; by rewrite decide_True|].
        destruct w2 as [|n w2]; [done|]. simpl in *. destruct Hb2 as [Hn Hb2].
        assert (n ≠ 0) by set_solver. split.
        -- rewrite Rb. rewrite decide_False by set_solver.
           by rewrite decide_True.
        -- eapply backs_frame; [|exact Hb2]. intros x Hx. rewrite Rb.
           rewrite decide_False by set_solver. rewrite decide_False; [done|].
           intros [-> _]. apply NoDup_app in ND as (_ & _ & N3).
           apply NoDup_cons in N3 as [N3 _]. done.
  - rewrite Rg. by rewrite decide_True.
  - intros p Hp. rewrite Rg. by rewrite decide_False.
  - intros p Hp Hin. rewrite Rq. rewrite decide_False by (intros ->; done).
    by rewrite decide_False.
Qed.

Lemma ring_frame s s' r l :
  (forall p, p ∈ r :: l -> rd s' p f_next = rd s p f_next) ->
  (forall p, p ∈ r :: l -> rd s' p f_prev = rd s p f_prev) ->
  ring s r l -> ring s' r l.
Proof.
  intros Hn Hp (ND & H1 & H2). split; [done|]. split.
  - eapply lseg_frame; [|exact H1]. done.
  - eapply lseg_frame; [|exact H2]. intros x Hx. apply Hp.
    rewrite elem_of_cons, elem_of_reverse in Hx. set_solver.
Qed.

Lemma waitq_frame s s' obj ws :
  (forall p, p ∈ obj :: ws -> rd s' p f_queue = rd s p f_queue) ->
  (forall p, p ∈ ws -> rd s' p f_back = rd s p f_back) ->
  waitq s obj ws -> waitq s' obj ws.
Proof.
  intros Hq Hb (ND & H0 & H1 & H2). split; [done|]. split; [done|]. split.
  - eapply lseg_frame; [|exact H1]. done.
  - eapply backs_frame; [|exact H2]. done.
Qed.

Lemma ring_neighbours s r l1 x l2 :
  ring s r (l1 ++ x :: l2) ->
  rd s x f_next = hd r l2 /\ rd s x f_prev = hd r (reverse l1).
Proof.
  intros (ND & Hn & Hp).
  destruct (snoc_cases r l1) as (B & a & EB & Ea).
  destruct (snoc_cases r (reverse l2)) as (B' & n & EB' & En).
  change (r :: l1 ++ x :: l2) with ((r :: l1) ++ x :: l2) in Hn.
  rewrite EB, <- app_assoc in Hn.
  change (B ++ [a] ++ x :: l2) with (B ++ a :: x :: l2) in Hn.
  rewrite reverse_app, reverse_cons, <- app_assoc in Hp.
  change (r :: reverse l2 ++ [x] ++ reverse l1)
    with ((r :: reverse l2) ++ x :: reverse l1) in Hp.
  rewrite EB', <- app_assoc in Hp.
  change (B' ++ [n] ++ x :: reverse l1) with (B' ++ n :: x :: reverse l1) in Hp.
  destruct (lseg_mid _ _ _ _ _ _ _ _ Hn) as [_ Hxn].
  destruct (lseg_mid _ _ _ _ _ _ _ _ Hp) as [_ Hxp]. done.
Qed.

Lemma hd_in (d : Z) (l : list Z) : hd d l = d \/ hd d l ∈ l.
Proof. destruct l; [by left | right; set_solver]. Qed.

Lemma hd_reverse_in (d : Z) (l : list Z) :
  hd d (reverse l) = d \/ hd d (reverse l) ∈ l.
Proof.
  destruct (hd_in d (reverse l)) as [?|H]; [by left|right].
  by apply elem_of_reverse.
Qed.

Section Wake.

Variables OS_ROBIN IDLE WAIT : Z.

(** Waking a task blocked on [obj], wherever it stands in the queue. *)
Lemma core_tsk_wakeup_where s rl d1 t d2 obj w1 w2 ev fuel :
  ring s IDLE rl -> ring s WAIT (d1 ++ t :: d2) ->
  NoDup (IDLE :: rl ++ WAIT :: d1 ++ t :: d2) ->
  rd s IDLE f_prio = 0 -> 0 <= rd s t f_prio ->
  waitq s obj (w1 ++ t :: w2) ->
  (length rl < fuel)%nat ->
  exists s' l1 l2, rl = l1 ++ l2 /\
    ((rd s t f_prio = 0 \/
      forall x, x ∈ l1 -> rd s t f_prio <= rd s x f_prio) /\
     (l2 = [] \/ rd s (hd IDLE l2) f_prio < rd s t f_prio)) /\
    core_tsk_wakeup OS_ROBIN IDLE fuel s t ev = Some (t, s') /\
    ring s' IDLE (l1 ++ t :: l2) /\
    ring s' WAIT (d1 ++ d2) /\
    waitq s' obj (w1 ++ w2) /\
    rd s' t f_event = ev /\ rd s' t f_id = ID_READY /\
    rd s' t f_queue = 0 /\
    (forall p, p ≠ t -> rd s' p f_event = rd s p f_event) /\
    (forall p, p ≠ t -> rd s' p f_id = rd s p f_id) /\
    (forall p, p ≠ t -> p ≠ hd obj (reverse w1) ->
       rd s' p f_queue = rd s p f_queue) /\
    same_payload s s'.
Proof.
  intros HR HW ND Hidle Hp HQ Hf.
  assert (Ht0 : t ≠ 0).
  { destruct HQ as (_ & H0 & _). set_solver. }
  assert (Hback : rd s t f_back = hd obj (reverse w1)).
  { destruct HQ as (_ & _ & _ & Hb). apply backs_app in Hb as [_ Hb].
    simpl in Hb. tauto. }
  unfold core_tsk_wakeup. rewrite (proj2 (Z.eqb_neq t 0)) by done.
  set (s1 := core_tsk_unlink s t ev).
  set (s2 := core_tmr_remove s1 t).
  assert (F1 : forall p f, f ≠ f_queue -> f ≠ f_back -> f ≠ f_event ->
                    rd s1 p f = rd s p f).
  { intros. by apply core_tsk_unlink_other. }
  assert (F2 : forall p f, f ≠ f_id -> f ≠ f_prev -> f ≠ f_next ->
                    rd s2 p f = rd s1 p f).
  { intros. by apply priv_rdy_remove_other. }
  assert (HR1 : ring s1 IDLE rl).
  { eapply ring_frame; [| |exact HR]; intros; by apply F1. }
  assert (HW1 : ring s1 WAIT (d1 ++ t :: d2)).
  { eapply ring_frame; [| |exact HW]; intros; by apply F1. }
  assert (HQ1 : waitq s1 obj (w1 ++ w2)).
  { apply (waitq_unlink s obj w1 t w2 ev HQ). }
  destruct (ring_neighbours _ _ _ _ _ HW1) as [Hnx Hpv].
  assert (HW2 : ring s2 WAIT (d1 ++ d2)) by (by apply ring_remove).
  assert (NDs : NoDup (IDLE :: rl) /\ NoDup (WAIT :: d1 ++ t :: d2) /\
                forall x, x ∈ IDLE :: rl -> x ∉ WAIT :: d1 ++ t :: d2).
  { change (IDLE :: rl ++ WAIT :: d1 ++ t :: d2)
      with ((IDLE :: rl) ++ WAIT :: d1 ++ t :: d2) in ND.
    apply NoDup_app in ND. tauto. }
  destruct NDs as (NDr & NDw & Hdisj).
  assert (Hnr : forall p, p ∈ IDLE :: rl -> p ≠ rd s1 t f_next).
  { intros p Hin ->. apply (Hdisj _ Hin). rewrite Hnx.
    destruct (hd_in WAIT d2) as [->|H]; set_solver. }
  assert (Hpr : forall p, p ∈ IDLE :: rl -> p ≠ rd s1 t f_prev).
  { intros p Hin ->. apply (Hdisj _ Hin). rewrite Hpv.
    destruct (hd_reverse_in WAIT d1) as [->|H]; set_solver. }
  assert (HR2 : ring s2 IDLE rl).
  { eapply ring_frame; [| |exact HR1]; intros p Hin; unfold s2, core_tmr_remove.
    - rewrite priv_rdy_remove_next. rewrite decide_False; [done|]. by apply Hpr.
    - rewrite priv_rdy_remove_prev. rewrite decide_False; [done|]. by apply Hnr. }
  assert (HQ2 : waitq s2 obj (w1 ++ w2)).
  { eapply waitq_frame; [| |exact HQ1]; intros; by apply F2. }
  assert (Hidle2 : rd s2 IDLE f_prio = 0) by (rewrite F2, F1; done).
  assert (Hp2 : 0 <= rd s2 t f_prio) by (rewrite F2, F1; done).
  destruct (priv_tsk_insert_walks IDLE s2 rl t fuel HR2 Hidle2 Hp2 Hf)
    as (l1 & l2 & -> & Hins & Hge & Hlt).
  set (s3 := priv_rdy_insert s2 t ID_READY (hd IDLE l2)) in *.
  assert (F3 : forall p f, f ≠ f_id -> f ≠ f_prev -> f ≠ f_next ->
                    rd s3 p f = rd s2 p f).
  { intros. by apply priv_rdy_insert_other. }
  assert (Htr : t ∉ IDLE :: l1 ++ l2).
  { intros Hin. apply (Hdisj _ Hin). set_solver. }
  assert (HR3 : ring s3 IDLE (l1 ++ t :: l2)) by (by apply ring_insert).
  destruct (ring_split _ _ _ _ HR2) as (B & a & B' & EB & EB' & _ & _ & Hp1 & _).
  assert (Hprv : rd s2 (hd IDLE l2) f_prev = a).
  { apply lseg_snoc in Hp1. tauto. }
  assert (Hain : a ∈ IDLE :: l1 ++ l2).
  { assert (a ∈ IDLE :: l1) by (rewrite EB; set_solver). set_solver. }
  assert (Hnin : hd IDLE l2 ∈ IDLE :: l1 ++ l2).
  { destruct (hd_in IDLE l2) as [->|H]; set_solver. }
  assert (Htw : t ∉ WAIT :: d1 ++ d2).
  { apply NoDup_cons in NDw as [N1 N2]. apply NoDup_app in N2 as (N3 & N4 & N5).
    apply NoDup_cons in N5 as [N5 N6].
    rewrite elem_of_cons, elem_of_app. intros [->|[H|H]]; [set_solver| |done].
    apply (N4 t H). set_solver. }
  assert (HW3 : ring s3 WAIT (d1 ++ d2)).
  { eapply ring_frame; [| |exact HW2]; intros p Hin; unfold s3.
    - rewrite priv_rdy_insert_next, Hprv. rewrite !decide_False; [done| |].
      + intros ->. done.
      + intros ->. apply (Hdisj _ Hain). set_solver.
    - rewrite priv_rdy_insert_prev. rewrite !decide_False; [done| |].
      + intros ->. done.
      + intros ->. apply (Hdisj _ Hnin). set_solver. }
  assert (HQ3 : waitq s3 obj (w1 ++ w2)).
  { eapply waitq_frame; [| |exact HQ2]; intros; by apply F3. }
  assert (Hfinal : exists s', core_tsk_insert OS_ROBIN IDLE fuel s2 t = Some s' /\
            forall p f, heap s' !! (p, f) = heap s3 !! (p, f) /\
              mem s' = mem s3 /\ Counter s' = Counter s3 /\ cur s' = cur s3).
  { unfold core_tsk_insert. rewrite Hins. simpl.
    destruct (OS_ROBIN =? 0); [eexists; split; done|].
    destruct (_ >? _); eexists; (split; [done|]); done. }
  destruct Hfinal as (s' & Hs' & Rs').
  exists s', l1, l2. split; [done|]. split.
  { split.
    - destruct Hge as [Hge|Hge]; [left; by rewrite F2, F1 in Hge|right].
      intros x Hx. specialize (Hge x Hx). by rewrite !F2, !F1 in Hge.
    - destruct Hlt as [Hlt|Hlt]; [by left|right]. by rewrite !F2, !F1 in Hlt. }
  rewrite Hs'. simpl. split; [done|].
  assert (Erd : forall p f, rd s' p f = rd s3 p f).
  { intros. apply rd_heap, Rs'. }
  split; [|split; [|split]].
  - eapply ring_frame; [| |exact HR3]; intros; apply Erd.
  - eapply ring_frame; [| |exact HW3]; intros; apply Erd.
  - eapply waitq_frame; [| |exact HQ3]; intros; apply Erd.
  - split; [|split; [|split; [|split; [|split; [|split]]]]].
    + rewrite Erd, F3, F2 by done. unfold s1.
      rewrite core_tsk_unlink_event. by rewrite decide_True.
    + rewrite Erd. unfold s3. rewrite priv_rdy_insert_id. by rewrite decide_True.
    + rewrite Erd, F3, F2 by done. unfold s1.
      rewrite core_tsk_unlink_queue. by rewrite decide_True.
    + intros p Hpt. rewrite Erd, F3, F2 by done. unfold s1.
      rewrite core_tsk_unlink_event. by rewrite decide_False.
    + intros p Hpt. rewrite Erd. unfold s3. rewrite priv_rdy_insert_id.
      rewrite decide_False by done. unfold s2, core_tmr_remove.
      rewrite priv_rdy_remove_id. rewrite decide_False by done.
      by apply F1.
    + intros p Hpt Hpo. rewrite Erd, F3, F2 by done. unfold s1.
      rewrite core_tsk_unlink_queue. rewrite decide_False by done.
      rewrite Hback. by rewrite decide_False.
    + destruct (Rs' 0 f_id) as (_ & Rm & Rc & Ru).
      destruct (core_tsk_unlink_rest s t ev) as (Um & Uc & Uu & _).
      split; [by rewrite Rm, <- Um|]. split; [by rewrite Rc, <- Uc|].
      split; [by rewrite Ru, <- Uu|].
      intros p f Hl. unfold linkage in Hl. simpl in Hl.
      destruct (Rs' p f) as (-> & _). unfold s3, s2, s1, core_tmr_remove.
      rewrite priv_rdy_insert_keeps, priv_rdy_remove_keeps, core_tsk_unlink_keeps;
        [done|..]; intros ->; tauto.
Qed.

Lemma core_tsk_wakeup_at s rl d1 t d2 obj w1 w2 ev fuel :
  ring s IDLE rl -> ring s WAIT (d1 ++ t :: d2) ->
  NoDup (IDLE :: rl ++ WAIT :: d1 ++ t :: d2) ->
  rd s IDLE f_prio = 0 -> 0 <= rd s t f_prio ->
  waitq s obj (w1 ++ t :: w2) ->
  (length rl < fuel)%nat ->
  exists s' l1 l2, rl = l1 ++ l2 /\
    core_tsk_wakeup OS_ROBIN IDLE fuel s t ev = Some (t, s') /\
    ring s' IDLE (l1 ++ t :: l2) /\
    ring s' WAIT (d1 ++ d2) /\
    waitq s' obj (w1 ++ w2) /\
    rd s' t f_event = ev /\ rd s' t f_id = ID_READY /\
    rd s' t f_queue = 0 /\
    (forall p, p ≠ t -> rd s' p f_event = rd s p f_event) /\
    (forall p, p ≠ t -> rd s' p f_id = rd s p f_id) /\
    (forall p, p ≠ t -> p ≠ hd obj (reverse w1) ->
       rd s' p f_queue = rd s p f_queue) /\
    same_payload s s'.
Proof.
  intros HR HW ND Hidle Hp HQ Hf.
  destruct (core_tsk_wakeup_where s rl d1 t d2 obj w1 w2 ev fuel
              HR HW ND Hidle Hp HQ Hf) as (s' & l1 & l2 & E & _ & H).
  by exists s', l1, l2.
Qed.

(** The place of a task in a list, from what the walk has seen. *)
Lemma placed_ext prio prio' t l :
  (forall x, prio' x = prio x) -> placed prio' t l = placed prio t l.
Proof.
  intros E. induction l as [|x l IH]; [done|]. simpl. by rewrite !E, IH.
Qed.

Lemma placed_all_ext prio prio' ws : forall l,
  (forall x, prio' x = prio x) -> placed_all prio' ws l = placed_all prio ws l.
Proof.
  unfold placed_all. induction ws as [|w ws IH]; intros l E; [done|]. simpl.
  by rewrite (placed_ext prio prio' w l E), IH.
Qed.

Lemma placed_at prio t d l1 l2 :
  (forall x, x ∈ l1 -> prio t <= prio x) ->
  (l2 = [] \/ prio (hd d l2) < prio t) ->
  placed prio t (l1 ++ l2) = l1 ++ t :: l2.
Proof.
  intros Hge Hlt. induction l1 as [|x l1 IH]; simpl.
  - destruct l2 as [|y l2]; [done|]. simpl in *.
    destruct Hlt as [|Hlt]; [done|].
    destruct (Z.leb_spec (prio t) (prio y)); [lia|done].
  - assert (prio t <= prio x) by (apply Hge; set_solver).
    destruct (Z.leb_spec (prio t) (prio x)); [|lia].
    rewrite IH; [done|]. intros; apply Hge; set_solver.
Qed.

Lemma placed_split prio t d l1 l2 :
  (forall x, x ∈ l1 ++ l2 -> 0 <= prio x) ->
  (prio t = 0 \/ forall x, x ∈ l1 -> prio t <= prio x) ->
  (l2 = [] \/ prio (hd d l2) < prio t) ->
  placed prio t (l1 ++ l2) = l1 ++ t :: l2.
Proof.
  intros Hpos Hge Hlt.
  assert (Hge' : forall x, x ∈ l1 -> prio t <= prio x).
  { destruct Hge as [E|H]; [|done]. intros x Hx. rewrite E. apply Hpos.
    set_solver. }
  by apply (placed_at prio t d).
Qed.

Lemma placed_elem prio t l x : x ∈ placed prio t l <-> x = t \/ x ∈ l.
Proof.
  induction l as [|y l IH]; simpl; [set_solver|].
  destruct (prio t <=? prio y); set_solver.
Qed.

Lemma placed_length prio t l : length (placed prio t l) = S (length l).
Proof.
  induction l as [|y l IH]; simpl; [done|].
  destruct (prio t <=? prio y); simpl; by rewrite ?IH.
Qed.

Lemma placed_perm prio t l : placed prio t l ≡ₚ t :: l.
Proof.
  induction l as [|y l IH]; simpl; [done|].
  destruct (prio t <=? prio y); [|done]. rewrite IH. apply perm_swap.
Qed.

(** Waking a task blocked on [obj]: it takes its place in the ready ring. *)
Lemma core_tsk_wakeup_placed s rl d1 t d2 obj w1 w2 ev fuel :
  ring s IDLE rl -> ring s WAIT (d1 ++ t :: d2) ->
  NoDup (IDLE :: rl ++ WAIT :: d1 ++ t :: d2) ->
  rd s IDLE f_prio = 0 -> 0 <= rd s t f_prio ->
  (forall x, x ∈ rl -> 0 <= rd s x f_prio) ->
  waitq s obj (w1 ++ t :: w2) ->
  (length rl < fuel)%nat ->
  exists s',
    core_tsk_wakeup OS_ROBIN IDLE fuel s t ev = Some (t, s') /\
    ring s' IDLE (placed (fun x => rd s x f_prio) t rl) /\
    ring s' WAIT (d1 ++ d2) /\
    waitq s' obj (w1 ++ w2) /\
    rd s' t f_event = ev /\ rd s' t f_id = ID_READY /\
    rd s' t f_queue = 0 /\
    (forall p, p ≠ t -> rd s' p f_event = rd s p f_event) /\
    (forall p, p ≠ t -> rd s' p f_id = rd s p f_id) /\
    (forall p, p ≠ t -> p ≠ hd obj (reverse w1) ->
       rd s' p f_queue = rd s p f_queue) /\
    same_payload s s'.
Proof.
  intros HR HW ND Hidle Hp Hpos HQ Hf.
  destruct (core_tsk_wakeup_where s rl d1 t d2 obj w1 w2 ev fuel
              HR HW ND Hidle Hp HQ Hf) as (s' & l1 & l2 & -> & [Hge Hlt] & H).
  exists s'.
  rewrite (placed_split (fun x => rd s x f_prio) t IDLE l1 l2); done.
Qed.

(** Waking the first task blocked on [obj]. *)
Lemma core_tsk_wakeup_head s rl d1 t d2 obj ws ev fuel :
  ring s IDLE rl -> ring s WAIT (d1 ++ t :: d2) ->
  NoDup (IDLE :: rl ++ WAIT :: d1 ++ t :: d2) ->
  rd s IDLE f_prio = 0 -> 0 <= rd s t f_prio ->
  waitq s obj (t :: ws) ->
  (length rl < fuel)%nat ->
  exists s' l1 l2, rl = l1 ++ l2 /\
    core_tsk_wakeup OS_ROBIN IDLE fuel s t ev = Some (t, s') /\
    ring s' IDLE (l1 ++ t :: l2) /\
    ring s' WAIT (d1 ++ d2) /\
    waitq s' obj ws /\
    rd s' t f_event = ev /\ rd s' t f_id = ID_READY /\
    rd s' t f_queue = 0 /\
    (forall p, p ≠ t -> rd s' p f_event = rd s p f_event) /\
    (forall p, p ≠ t -> rd s' p f_id = rd s p f_id) /\
    (forall p, p ≠ t -> p ≠ obj -> rd s' p f_queue = rd s p f_queue) /\
    same_payload s s'.
Proof. apply (core_tsk_wakeup_at s rl d1 t d2 obj [] ws ev fuel). Qed.


End Wake.

Lemma same_payload_refl s : same_payload s s.
Proof. by repeat split. Qed.

Lemma same_payload_trans s1 s2 s3 :
  same_payload s1 s2 -> same_payload s2 s3 -> same_payload s1 s3.
Proof.
  intros (A1 & A2 & A3 & A4) (B1 & B2 & B3 & B4).
  split; [congruence|]. split; [congruence|]. split; [congruence|].
  intros p f Hf. rewrite B4, A4; done.
Qed.

Lemma same_payload_rd s s' p f :
  same_payload s s' -> ~ linkage f -> rd s' p f = rd s p f.
Proof. intros (_ & _ & _ & H) Hf. by apply rd_heap, H. Qed.

Lemma not_linkage_prio : ~ linkage f_prio.
Proof. unfold linkage. simpl. intros H. repeat destruct H as [H|H]; done. Qed.

Lemma waitq_head s obj t ws : waitq s obj (t :: ws) -> rd s obj f_queue = t.
Proof. intros (_ & _ & (_ & H & _) & _). done. Qed.

Lemma waitq_empty s obj : waitq s obj [] -> rd s obj f_queue = 0.
Proof. intros (_ & _ & (_ & H) & _). done. Qed.

Section WakeAll.

Variables OS_ROBIN IDLE WAIT : Z.

(** Waking every task blocked on [obj]. *)
Lemma core_all_wakeup_all ws : forall s rl dl obj ev fuel,
  ring s IDLE rl -> ring s WAIT dl ->
  NoDup (IDLE :: rl ++ WAIT :: dl) ->
  rd s IDLE f_prio = 0 ->
  waitq s obj ws ->
  (forall w, w ∈ ws -> w ∈ dl /\ 0 <= rd s w f_prio) ->
  (length rl + 2 * length ws < fuel)%nat ->
  exists s' rl' dl',
    core_all_wakeup OS_ROBIN IDLE fuel s obj ev = Some s' /\
    ring s' IDLE rl' /\ ring s' WAIT dl' /\
    NoDup (IDLE :: rl' ++ WAIT :: dl') /\
    rl' ≡ₚ ws ++ rl /\ dl ≡ₚ ws ++ dl' /\
    waitq s' obj [] /\
    (forall w, w ∈ ws ->
       rd s' w f_event = ev /\ rd s' w f_id = ID_READY /\ rd s' w f_queue = 0) /\
    (forall p, p ∉ ws -> rd s' p f_event = rd s p f_event) /\
    (forall p, p ∉ ws -> rd s' p f_id = rd s p f_id) /\
    (forall p, p ∉ ws -> p ≠ obj -> rd s' p f_queue = rd s p f_queue) /\
    same_payload s s'.
Proof.
  induction ws as [|t ws IH]; intros s rl dl obj ev fuel HR HW ND Hidle HQ Hws Hf.
  - destruct fuel as [|fuel]; [lia|]. exists s, rl, dl.
    simpl. rewrite (waitq_empty _ _ HQ). unfold core_tsk_wakeup. simpl.
    split; [done|]. split; [done|]. split; [done|]. split; [done|].
    split; [done|]. split; [done|]. split; [done|].
    split; [intros w Hw; by apply elem_of_nil in Hw|].
    split; [done|]. split; [done|]. split; [done|]. apply same_payload_refl.
  - destruct fuel as [|fuel]; [lia|].
    destruct (Hws t) as [Htd Htp]; [set_solver|].
    apply list_elem_of_split in Htd as (d1 & d2 & ->).
    destruct (core_tsk_wakeup_head OS_ROBIN IDLE WAIT s rl d1 t d2 obj ws ev
                (S fuel) HR HW ND Hidle Htp HQ)
      as (s1 & l1 & l2 & -> & Hwk & HR1 & HW1 & HQ1 & Hev & Hid & Hq0 & Fev & Fid & Fq & SP).
    { simpl in Hf. lia. }
    assert (Ht0 : t ≠ 0).
    { destruct HQ as (_ & H0 & _). set_solver. }
    assert (Htws : t ∉ ws).
    { destruct HQ as (N & _). apply NoDup_cons in N as [_ N].
      apply NoDup_cons in N as [N _]. done. }
    assert (ND1 : NoDup (IDLE :: (l1 ++ t :: l2) ++ WAIT :: d1 ++ d2)).
    { assert (P : IDLE :: (l1 ++ l2) ++ WAIT :: d1 ++ t :: d2
                  ≡ₚ IDLE :: (l1 ++ t :: l2) ++ WAIT :: d1 ++ d2).
      { solve_Permutation. }
      by rewrite <- P. }
    destruct (IH s1 (l1 ++ t :: l2) (d1 ++ d2) obj ev fuel HR1 HW1 ND1)
      as (s' & rl' & dl' & Hall & HR' & HW' & ND' & Prl & Pdl & HQ' & Hw' & Gev & Gid & Gq & SP').
    { rewrite (same_payload_rd _ _ _ _ SP); [done|apply not_linkage_prio]. }
    { done. }
    { intros w Hw. destruct (Hws w) as [Hwd Hwp]; [set_solver|].
      split.
      - assert (w ≠ t) by (intros ->; done).
        rewrite elem_of_app in Hwd. rewrite elem_of_cons in Hwd.
        rewrite elem_of_app. tauto.
      - rewrite (same_payload_rd _ _ _ _ SP); [done|apply not_linkage_prio]. }
    { rewrite length_app in *. simpl in *. lia. }
    exists s', rl', dl'. split.
    { simpl. rewrite (waitq_head _ _ _ _ HQ), Hwk. simpl.
      rewrite (proj2 (Z.eqb_neq t 0)) by done. done. }
    split; [done|]. split; [done|]. split; [done|]. split.
    { rewrite Prl. solve_Permutation. }
    split.
    { rewrite <- Permutation_middle. simpl. by rewrite Pdl. }
    split; [done|]. split.
    { intros w. rewrite elem_of_cons. intros [->|Hw].
      - rewrite Gev, Gid by done. destruct (decide (t = obj)) as [->|Hne].
        + split; [done|]. split; [done|]. apply (waitq_empty _ _ HQ').
        + rewrite Gq by done. done.
      - by apply Hw'. }
    split.
    { intros p Hp. rewrite Gev by set_solver. apply Fev. set_solver. }
    split.
    { intros p Hp. rewrite Gid by set_solver. apply Fid. set_solver. }
    split.
    { intros p Hp Hpo. rewrite Gq by set_solver. apply Fq; set_solver. }
    by eapply same_payload_trans.
Qed.

End WakeAll.

(** Lists of tasks with some of them taken out. *)
Lemma list_difference_skip (l : list Z) t ws :
  t ∉ l -> list_difference l (t :: ws) = list_difference l ws.
Proof.
  induction l as [|x l IH]; intros Ht; [done|]. simpl.
  rewrite IH by set_solver.
  destruct (decide_rel elem_of x (t :: ws)) as [H1|H1];
    destruct (decide_rel elem_of x ws) as [H2|H2]; try done; exfalso; set_solver.
Qed.

Lemma list_difference_out (d1 d2 : list Z) t ws :
  t ∉ d1 -> t ∉ d2 ->
  list_difference (d1 ++ t :: d2) (t :: ws) = list_difference (d1 ++ d2) ws.
Proof.
  intros H1 H2. induction d1 as [|x d1 IH]; simpl.
  - destruct (decide_rel elem_of t (t :: ws)) as [H|H]; [|set_solver].
    by apply list_difference_skip.
  - rewrite IH by set_solver.
    destruct (decide_rel elem_of x (t :: ws)) as [H3|H3];
      destruct (decide_rel elem_of x ws) as [H4|H4]; try done; exfalso; set_solver.
Qed.

Lemma list_difference_nil (l : list Z) : list_difference l [] = l.
Proof.
  induction l as [|x l IH]; [done|]. simpl. rewrite IH.
  destruct (decide_rel elem_of x []) as [H|H]; [by apply elem_of_nil in H|done].
Qed.

Lemma list_difference_head (t : Z) (l ws : list Z) :
  t ∉ l -> list_difference (t :: l) (t :: ws) = list_difference l ws.
Proof.
  intros H. apply (list_difference_out [] l t ws); [|done].
  apply not_elem_of_nil.
Qed.

Lemma list_difference_one (d1 d2 : list Z) t :
  NoDup (d1 ++ t :: d2) -> list_difference (d1 ++ t :: d2) [t] = d1 ++ d2.
Proof.
  intros N. apply NoDup_app in N as (_ & N1 & N2).
  apply NoDup_cons in N2 as [N2 _].
  rewrite list_difference_out, list_difference_nil; [done| |done].
  intros H. apply (N1 t H). set_solver.
Qed.

Section WakePlaced.

Variables OS_ROBIN IDLE WAIT : Z.

(** [core_all_wakeup] with the places the woken tasks take. *)
Lemma core_all_wakeup_placed ws : forall s rl dl obj ev fuel,
  ring s IDLE rl -> ring s WAIT dl ->
  NoDup (IDLE :: rl ++ WAIT :: dl) ->
  rd s IDLE f_prio = 0 ->
  (forall x, x ∈ rl -> 0 <= rd s x f_prio) ->
  waitq s obj ws ->
  (forall w, w ∈ ws -> w ∈ dl /\ 0 <= rd s w f_prio) ->
  (length rl + 2 * length ws < fuel)%nat ->
  exists s',
    core_all_wakeup OS_ROBIN IDLE fuel s obj ev = Some s' /\
    ring s' IDLE (placed_all (fun x => rd s x f_prio) ws rl) /\
    ring s' WAIT (list_difference dl ws) /\
    waitq s' obj [] /\
    (forall w, w ∈ ws ->
       rd s' w f_event = ev /\ rd s' w f_id = ID_READY /\ rd s' w f_queue = 0) /\
    (forall p, p ∉ ws -> rd s' p f_event = rd s p f_event) /\
    (forall p, p ∉ ws -> rd s' p f_id = rd s p f_id) /\
    (forall p, p ∉ ws -> p ≠ obj -> rd s' p f_queue = rd s p f_queue) /\
    same_payload s s'.
Proof.
  induction ws as [|t ws IH];
    intros s rl dl obj ev fuel HR HW ND Hidle Hpos HQ Hws Hf.
  - destruct fuel as [|fuel]; [lia|]. exists s.
    simpl. rewrite (waitq_empty _ _ HQ). unfold core_tsk_wakeup. simpl.
    rewrite list_difference_nil.
    split; [done|]. split; [done|]. split; [done|]. split; [done|].
    split; [intros w Hw; by apply elem_of_nil in Hw|].
    split; [done|]. split; [done|]. split; [done|]. apply same_payload_refl.
  - destruct fuel as [|fuel]; [lia|].
    destruct (Hws t) as [Htd Htp]; [set_solver|].
    apply list_elem_of_split in Htd as (d1 & d2 & ->).
    destruct (core_tsk_wakeup_placed OS_ROBIN IDLE WAIT s rl d1 t d2 obj [] ws ev
                (S fuel) HR HW ND Hidle Htp Hpos HQ)
      as (s1 & Hwk & HR1 & HW1 & HQ1 & Hev & Hid & Hq0 & Fev & Fid & Fq & SP).
    { simpl in Hf. lia. }
    simpl in HQ1, Fq.
    assert (Ht0 : t ≠ 0).
    { destruct HQ as (_ & H0 & _). set_solver. }
    assert (Htws : t ∉ ws).
    { destruct HQ as (N & _). apply NoDup_cons in N as [_ N].
      apply NoDup_cons in N as [N _]. done. }
    assert (Eprio : forall x, rd s1 x f_prio = rd s x f_prio).
    { intros x. apply (same_payload_rd _ _ _ _ SP), not_linkage_prio. }
    set (rl1 := placed (fun x => rd s x f_prio) t rl) in *.
    assert (Prl1 : rl1 ≡ₚ t :: rl) by apply placed_perm.
    assert (ND1 : NoDup (IDLE :: rl1 ++ WAIT :: d1 ++ d2)).
    { assert (P : IDLE :: rl ++ WAIT :: d1 ++ t :: d2
                  ≡ₚ IDLE :: rl1 ++ WAIT :: d1 ++ d2).
      { rewrite Prl1. solve_Permutation. }
      by rewrite <- P. }
    assert (Htd : (t ∉ d1) /\ (t ∉ d2)).
    { apply NoDup_cons in ND as [_ ND]. apply NoDup_app in ND as (_ & _ & ND).
      apply NoDup_cons in ND as [_ ND]. apply NoDup_app in ND as (_ & N1 & N2).
      apply NoDup_cons in N2 as [N2 _]. split; [|done].
      intros H. apply (N1 t H). set_solver. }
    destruct (IH s1 rl1 (d1 ++ d2) obj ev fuel HR1 HW1 ND1)
      as (s' & Hall & HR' & HW' & HQ' & Hw' & Gev & Gid & Gq & SP').
    { by rewrite Eprio. }
    { intros x Hx. rewrite Eprio. apply placed_elem in Hx as [->|Hx]; [done|].
      by apply Hpos. }
    { done. }
    { intros w Hw. destruct (Hws w) as [Hwd Hwp]; [set_solver|].
      split.
      - assert (w ≠ t) by (intros ->; done).
        rewrite elem_of_app in Hwd. rewrite elem_of_cons in Hwd.
        rewrite elem_of_app. tauto.
      - by rewrite Eprio. }
    { unfold rl1. rewrite placed_length. simpl in *. lia. }
    exists s'. split.
    { simpl. rewrite (waitq_head _ _ _ _ HQ), Hwk. simpl.
      rewrite (proj2 (Z.eqb_neq t 0)) by done. done. }
    split.
    { change (placed_all (fun x => rd s x f_prio) (t :: ws) rl)
        with (placed_all (fun x => rd s x f_prio) ws rl1).
      rewrite <- (placed_all_ext (fun x => rd s x f_prio)
                    (fun x => rd s1 x f_prio) ws rl1 Eprio).
      exact HR'. }
    split.
    { destruct Htd. by rewrite list_difference_out. }
    split; [done|]. split.
    { intros w. rewrite elem_of_cons. intros [->|Hw].
      - rewrite Gev, Gid by done. destruct (decide (t = obj)) as [->|Hne].
        + split; [done|]. split; [done|]. apply (waitq_empty _ _ HQ').
        + rewrite Gq by done. done.
      - by apply Hw'. }
    split.
    { intros p Hp. rewrite Gev by set_solver. apply Fev. set_solver. }
    split.
    { intros p Hp. rewrite Gid by set_solver. apply Fid. set_solver. }
    split.
    { intros p Hp Hpo. rewrite Gq by set_solver. apply Fq; set_solver. }
    by eapply same_payload_trans.
Qed.

End WakePlaced.

(** ** Step budgets *)

Lemma ring_walk_mono s cond n m p x :
  ring_walk n s cond p = Some x -> (n <= m)%nat ->
  ring_walk m s cond p = Some x.
Proof.
  revert m p. induction n as [|n IH]; intros m p; simpl; [done|].
  destruct m as [|m]; [lia|]. simpl. intros H Hm.
  destruct (cond (rd s p f_next)); [|done]. apply IH; [done|lia].
Qed.

Lemma priv_tsk_insert_mono IDLE s tsk n m s' :
  priv_tsk_insert IDLE n s tsk = Some s' -> (n <= m)%nat ->
  priv_tsk_insert IDLE m s tsk = Some s'.
Proof.
  unfold priv_tsk_insert. destruct (rd s tsk f_prio =? 0); [done|].
  rewrite !priv_tsk_insert_walk_eq. intros H Hm.
  destruct (ring_walk n s _ IDLE) as [x|] eqn:E; [|done].
  by rewrite (ring_walk_mono _ _ _ _ _ _ E Hm).
Qed.

Lemma core_tsk_wakeup_mono OS_ROBIN IDLE s tsk ev n m r :
  core_tsk_wakeup OS_ROBIN IDLE n s tsk ev = Some r -> (n <= m)%nat ->
  core_tsk_wakeup OS_ROBIN IDLE m s tsk ev = Some r.
Proof.
  unfold core_tsk_wakeup, core_tsk_insert. destruct (tsk =? 0); [done|].
  intros H Hm.
  destruct (priv_tsk_insert IDLE n _ tsk) as [x|] eqn:E; [|done].
  by rewrite (priv_tsk_insert_mono _ _ _ _ _ _ E Hm).
Qed.

(** ** Expiry of a timer-ring entry *)

Lemma priv_tmr_expired_tickless_iff recount s tmr :
  priv_tmr_expired_tickless recount s tmr = true <->
  rd s tmr f_delay ≠ INFINITE /\
  (rd s tmr f_delay <= Word.sub (Counter s) (rd s tmr f_start) \/
   rd s tmr f_delay <= Word.sub (recount (Counter s)) (rd s tmr f_start)).
Proof.
  unfold priv_tmr_expired_tickless.
  destruct (rd s tmr f_delay =? INFINITE) eqn:E1; [lia|].
  destruct (rd s tmr f_delay <=? _) eqn:E2; [lia|].
  destruct (rd s tmr f_delay >? _) eqn:E3; lia.
Qed.

Lemma priv_tmr_expired_ticked_iff s tmr :
  Word.in_range (rd s tmr f_delay) ->
  priv_tmr_expired_ticked s tmr = true <->
  rd s tmr f_delay <= Word.sub (Counter s) (rd s tmr f_start) /\
  Word.sub (Counter s) (rd s tmr f_start) ≠ Word.modulus - 1.
Proof.
  intros Hd. set (elapsed := Word.sub (Counter s) (rd s tmr f_start)).
  assert (He : Word.in_range elapsed) by apply wrap_in_range.
  unfold Word.in_range, Word.modulus in *.
  assert (Hadd : Word.add elapsed 1 =
                 if decide (elapsed = 2 ^ 32 - 1) then 0 else elapsed + 1).
  { unfold Word.add, Word.wrap, Word.modulus. case_decide as E.
    - rewrite E. reflexivity.
    - apply Z.mod_small. lia. }
  unfold priv_tmr_expired_ticked. fold elapsed. rewrite Hadd.
  case_decide; destruct (rd s tmr f_delay >=? _) eqn:E1; lia.
Qed.


(** A null check that passes. *)
Lemma asserted {A} (p : Z) (k : option A) :
  p ≠ 0 -> (assert (negb (p =? 0)) ≫= λ _, k) = k.
Proof. intros H. by rewrite (proj2 (Z.eqb_neq p 0) H). Qed.

Lemma refused {A} (k : option A) :
  (assert (negb (0 =? 0)) ≫= λ _, k) = None.
Proof. done. Qed.

Lemma msg_count_given s msg :
  msg ≠ 0 -> msg_count s msg = Some (priv_msg_count s msg).
Proof. intros H. unfold msg_count. by rewrite asserted. Qed.

Lemma msg_space_given s msg :
  msg ≠ 0 -> msg_space s msg = Some (priv_msg_space s msg).
Proof. intros H. unfold msg_space. by rewrite asserted. Qed.

Lemma msg_limit_given s msg :
  msg ≠ 0 -> msg_limit s msg = Some (priv_msg_limit s msg).
Proof. intros H. unfold msg_limit. by rewrite asserted. Qed.

Section Claims.

Variables OS_ROBIN OS_TIMER IDLE WAIT : Z.

(** C2: waking the first task of a non-empty queue of [obj]
    (by [core_one_wakeup], or in one step of [core_all_wakeup]) unlinks the
    task from the queue of [obj], sets its [event] to the given value and
    clears its own [queue] link; its [guard] is left as it was. *)
Theorem core_one_wakeup_keeps_guard s rl dl obj t ws ev fuel :
  ring s IDLE rl -> ring s WAIT dl ->
  NoDup (IDLE :: rl ++ WAIT :: dl) ->
  rd s IDLE f_prio = 0 ->
  waitq s obj (t :: ws) -> t ∈ dl -> 0 <= rd s t f_prio ->
  (length rl < fuel)%nat ->
  exists s',
    core_one_wakeup OS_ROBIN IDLE fuel s obj ev = Some (t, s') /\
    core_all_wakeup OS_ROBIN IDLE (S fuel) s obj ev =
      core_all_wakeup OS_ROBIN IDLE fuel s' obj ev /\
    waitq s' obj ws /\
    rd s' t f_event = ev /\
    rd s' t f_queue = 0 /\
    rd s' t f_guard = rd s t f_guard.
Proof.
  intros HR HW ND Hidle HQ Ht Hp Hf.
  apply list_elem_of_split in Ht as (d1 & d2 & ->).
  destruct (core_tsk_wakeup_head OS_ROBIN IDLE WAIT s rl d1 t d2 obj ws ev
              fuel HR HW ND Hidle Hp HQ Hf)
    as (s' & l1 & l2 & _ & Hwk & _ & _ & HQ' & Hev & _ & Hq & _ & _ & _ & SP).
  assert (Ht0 : t ≠ 0).
  { destruct HQ as (_ & H0 & _). set_solver. }
  exists s'. unfold core_one_wakeup. rewrite (waitq_head _ _ _ _ HQ).
  split; [done|]. split.
  { simpl. rewrite (waitq_head _ _ _ _ HQ).
    rewrite (core_tsk_wakeup_mono _ _ _ _ _ _ _ _ Hwk) by lia. simpl.
    by rewrite (proj2 (Z.eqb_neq t 0)). }
  split; [done|]. split; [done|]. split; [done|].
  apply (same_payload_rd _ _ _ _ SP). unfold linkage. simpl.
  intros H. repeat destruct H as [H|H]; done.
Qed.

(** C4: [priv_tsk_insert] walks the ready ring from IDLE
    while the neighbour's priority is greater than or equal to the task's
    and splices the task before the first neighbour of strictly lower
    priority (before IDLE at the latest): the newcomer stands behind the
    ready tasks of equal priority, and the ring stays priority-descending
    and closed through IDLE. *)
Theorem priv_tsk_insert_fifo s l tsk fuel :
  ring s IDLE l -> rd s IDLE f_prio = 0 ->
  tsk ∉ IDLE :: l -> 0 <= rd s tsk f_prio ->
  (forall x, x ∈ l -> 0 <= rd s x f_prio) ->
  descending s l ->
  (length l < fuel)%nat ->
  exists s' l1 l2, l = l1 ++ l2 /\
    priv_tsk_insert IDLE fuel s tsk = Some s' /\
    ring s' IDLE (l1 ++ tsk :: l2) /\
    (forall x, x ∈ l1 -> rd s tsk f_prio <= rd s x f_prio) /\
    (forall x, x ∈ l2 -> rd s x f_prio < rd s tsk f_prio) /\
    descending s' (l1 ++ tsk :: l2) /\
    rd s' tsk f_id = ID_READY /\
    (forall p, rd s' p f_prio = rd s p f_prio).
Proof.
  intros HR Hidle Hnew Hp Hnn Hd Hf.
  destruct (priv_tsk_insert_walks IDLE s l tsk fuel HR Hidle Hp Hf)
    as (l1 & l2 & -> & Hins & H1 & H2).
  exists (priv_rdy_insert s tsk ID_READY (hd IDLE l2)), l1, l2.
  assert (Hge : forall x, x ∈ l1 -> rd s tsk f_prio <= rd s x f_prio).
  { destruct H1 as [E|H1]; [|done]. intros x Hx. rewrite E. apply Hnn. set_solver. }
  assert (Hlt : forall x, x ∈ l2 -> rd s x f_prio < rd s tsk f_prio).
  { destruct H2 as [->|H2]; [intros x Hx; by apply elem_of_nil in Hx|].
    apply descending_app in Hd as (_ & Hd2 & _).
    destruct l2 as [|n l2]; [intros x Hx; by apply elem_of_nil in Hx|].
    simpl in *. destruct Hd2 as [Hd2 _]. intros x.
    rewrite elem_of_cons. intros [->|Hx]; [done|]. specialize (Hd2 x Hx). lia. }
  assert (Fp : forall p, rd (priv_rdy_insert s tsk ID_READY (hd IDLE l2)) p f_prio
                         = rd s p f_prio).
  { intros p. by apply priv_rdy_insert_other. }
  split; [done|]. split; [done|]. split; [by apply ring_insert|].
  split; [done|]. split; [done|]. split; [|split; [|done]].
  - apply (descending_frame s); [intros; by rewrite Fp|].
    apply descending_app in Hd as (Hd1 & Hd2 & Hd3).
    apply descending_app. split; [done|]. split; [|].
    + simpl. split; [|done]. intros y Hy. specialize (Hlt y Hy). lia.
    + intros x y Hx. rewrite elem_of_cons. intros [->|Hy]; [by apply Hge|].
      by apply Hd3.
  - rewrite priv_rdy_insert_id. by rewrite decide_True.
Qed.

(** C7: [core_tsk_waitFor obj IMMEDIATE] and
    [core_tsk_waitUntil obj Counter] return [E_TIMEOUT] at once; the caller
    is not suspended (no context switch is requested) and only its [start]
    and [delay] fields are written, so the ready ring, the timer ring and
    every wait queue are as before. *)
Theorem wait_immediate_times_out fuel s obj :
  let s' := wr (wr s (cur s) f_start (Counter s)) (cur s) f_delay 0 in
  core_tsk_waitFor WAIT fuel s obj IMMEDIATE = Some (Returned E_TIMEOUT, s') /\
  core_tsk_waitUntil WAIT fuel s obj (Counter s) = Some (Returned E_TIMEOUT, s') /\
  pend s' = pend s /\
  (forall p f, f ≠ f_start -> f ≠ f_delay -> rd s' p f = rd s p f) /\
  (forall r l, ring s r l -> ring s' r l) /\
  (forall o ws, waitq s o ws -> waitq s' o ws).
Proof.
  intros s'.
  assert (F : forall p f, f ≠ f_start -> f ≠ f_delay -> rd s' p f = rd s p f).
  { intros p f H1 H2. unfold s'. by rewrite !rd_wr_field. }
  split; [|split; [|split; [done|split; [done|split]]]].
  - unfold core_tsk_waitFor. rewrite rd_wr_same. done.
  - unfold core_tsk_waitUntil. cbv zeta.
    rewrite (rd_wr_same s), sub_self. by rewrite rd_wr_same.
  - intros r l. apply ring_frame; intros; by apply F.
  - intros o ws. apply waitq_frame; intros; by apply F.
Qed.

(** C10: when the buffer holds data and a task is blocked on
    it, the free space is reported as 0 and [msg_give] (of a buffer and a
    message that are not null, as it asserts) returns 0 and leaves the
    state unchanged, whatever [limit - count - sizeof(unsigned)] is. *)
Theorem msg_give_refused_behind_senders fuel s msg data size :
  msg ≠ 0 -> data ≠ 0 ->
  (rd s msg f_count ≠ 0) -> (rd s msg f_queue ≠ 0) ->
  priv_msg_space s msg = 0 /\ msg_space s msg = Some 0 /\
  msg_give OS_ROBIN IDLE fuel s msg data size = Some (0, s).
Proof.
  intros Hm Hdata Hc Hq.
  assert (E : priv_msg_space s msg = 0).
  { unfold priv_msg_space.
    rewrite (proj2 (Z.eqb_neq _ _) Hc), (proj2 (Z.eqb_neq _ _) Hq). done. }
  split; [done|]. split; [unfold msg_space; rewrite asserted, E; done|].
  unfold msg_give. rewrite !asserted by done. rewrite E.
  destruct (size >? 0) eqn:Hs; [|done].
  assert ((size <=? 0) = false) as -> by lia. done.
Qed.

(** The free space is reported as 0 in two situations only: behind blocked
    senders, and when at most [sizeof(unsigned)] bytes are left. *)
Lemma priv_msg_space_zero_iff s msg :
  priv_msg_space s msg = 0 <->
  (rd s msg f_count ≠ 0 /\ rd s msg f_queue ≠ 0) \/
  Word.sub (rd s msg f_limit) (rd s msg f_count) <= sizeof_unsigned.
Proof.
  unfold priv_msg_space, sizeof_unsigned.
  pose proof (wrap_in_range (rd s msg f_limit - rd s msg f_count)) as Hr.
  fold (Word.sub (rd s msg f_limit) (rd s msg f_count)) in Hr.
  set (room := Word.sub (rd s msg f_limit) (rd s msg f_count)) in *.
  unfold Word.in_range, Word.modulus in Hr.
  destruct (rd s msg f_count =? 0) eqn:Ec; destruct (rd s msg f_queue =? 0) eqn:Eq;
    destruct (room >? 4) eqn:Er; simpl;
    try (unfold Word.sub, Word.wrap, Word.modulus;
         rewrite (Z.mod_small (room - 4)) by lia); lia.
Qed.

(** The counter as it is read the second time by [priv_tmr_expired]. *)
Variable recount : Z -> Z.

Lemma priv_tmr_expired_iff s tmr :
  Word.in_range (rd s tmr f_delay) ->
  let delay := rd s tmr f_delay in
  let elapsed := Word.sub (Counter s) (rd s tmr f_start) in
  let later := Word.sub (recount (Counter s)) (rd s tmr f_start) in
  (priv_tmr_expired_tickless recount s tmr = true <->
     delay ≠ INFINITE /\ (delay <= elapsed \/ delay <= later)) /\
  (priv_tmr_expired_ticked s tmr = true <->
     delay <= elapsed /\ elapsed ≠ Word.modulus - 1) /\
  (delay = INFINITE ->
     priv_tmr_expired_tickless recount s tmr = false /\
     priv_tmr_expired_ticked s tmr = false).
Proof.
  intros Hd delay elapsed later.
  split; [apply priv_tmr_expired_tickless_iff|].
  split; [by apply priv_tmr_expired_ticked_iff|].
  intros E. split.
  - apply not_true_is_false. rewrite priv_tmr_expired_tickless_iff. tauto.
  - apply not_true_is_false. rewrite priv_tmr_expired_ticked_iff by done.
    fold delay elapsed. rewrite E. unfold INFINITE.
    pose proof (wrap_in_range (Counter s - rd s tmr f_start)) as He.
    unfold Word.in_range in He. fold (Word.sub (Counter s) (rd s tmr f_start)) in He.
    fold elapsed in He. lia.
Qed.

(** C5: where the code departs from the claim.  An entry whose
    [delay] is not [INFINITE] and for which [Counter - start] is the largest
    counter value satisfies [delay <= Counter - start]; the expiry test of
    the build with round robin on a hardware timer reports it expired, but
    the test of the other build does not: [Counter - start + 1] wraps
    around to 0 there. *)
Theorem priv_tmr_expired_misses_last_tick s tmr :
  Word.in_range (rd s tmr f_delay) -> rd s tmr f_delay ≠ INFINITE ->
  Word.sub (Counter s) (rd s tmr f_start) = Word.modulus - 1 ->
  rd s tmr f_delay <= Word.sub (Counter s) (rd s tmr f_start) /\
  priv_tmr_expired_ticked s tmr = false /\
  priv_tmr_expired_tickless recount s tmr = true /\
  (OS_ROBIN = 0 \/ OS_TIMER = 0 ->
     priv_tmr_expired OS_ROBIN OS_TIMER recount s tmr = false) /\
  (OS_ROBIN ≠ 0 -> OS_TIMER ≠ 0 ->
     priv_tmr_expired OS_ROBIN OS_TIMER recount s tmr = true).
Proof.
  intros Hd Hfin He.
  assert (H1 : rd s tmr f_delay <= Word.sub (Counter s) (rd s tmr f_start)).
  { unfold Word.in_range in Hd. lia. }
  assert (H2 : priv_tmr_expired_ticked s tmr = false).
  { apply not_true_is_false. rewrite priv_tmr_expired_ticked_iff by done. lia. }
  assert (H3 : priv_tmr_expired_tickless recount s tmr = true).
  { apply priv_tmr_expired_tickless_iff. auto. }
  split; [done|]. split; [done|]. split; [done|]. unfold priv_tmr_expired. split.
  - intros [->| ->]; [done|]. by rewrite andb_false_r.
  - intros Hr Ht.
    by rewrite (proj2 (Z.eqb_neq _ _) Hr), (proj2 (Z.eqb_neq _ _) Ht).
Qed.

End Claims.

Lemma heap_wr_same s p f v : heap (wr s p f v) !! (p, f) = Some v.
Proof. unfold wr; simpl. apply lookup_insert_eq. Qed.

Lemma wr_present s p f v : heap s !! (p, f) = Some v -> wr s p f v = s.
Proof.
  intros H. destruct s as [h m c u pe]. unfold wr; simpl in *.
  f_equal. by apply insert_id.
Qed.

Lemma not_linkage f :
  f ≠ f_id -> f ≠ f_prev -> f ≠ f_next ->
  f ≠ f_queue -> f ≠ f_back -> f ≠ f_event -> ~ linkage f.
Proof.
  intros. unfold linkage. simpl. intros H'. repeat destruct H' as [H'|H']; done.
Qed.

Section Kill.

Variables OS_ROBIN IDLE WAIT : Z.

(** C9: [msg_kill] of a buffer (not null, as the function
    asserts) sets [count], [head] and [tail] to 0 and wakes every blocked
    task with [E_STOPPED]: the tasks leave the timer ring and take their
    places in the ready ring, the queue of the buffer is empty, and no other
    task gets an event; a second [msg_kill] leaves the state as it is. *)
Theorem msg_kill_idempotent s rl dl msg ws fuel :
  msg ≠ 0 ->
  ring s IDLE rl -> ring s WAIT dl ->
  NoDup (IDLE :: rl ++ WAIT :: dl) ->
  rd s IDLE f_prio = 0 ->
  (forall x, x ∈ rl -> 0 <= rd s x f_prio) ->
  waitq s msg ws ->
  (forall w, w ∈ ws -> w ∈ dl /\ 0 <= rd s w f_prio) ->
  (length rl + 2 * length ws < fuel)%nat ->
  exists s',
    msg_kill OS_ROBIN IDLE fuel s msg = Some s' /\
    rd s' msg f_count = 0 /\ rd s' msg f_head = 0 /\ rd s' msg f_tail = 0 /\
    waitq s' msg [] /\
    (forall w, w ∈ ws ->
       rd s' w f_event = E_STOPPED /\ rd s' w f_id = ID_READY /\
       rd s' w f_queue = 0) /\
    ring s' IDLE (placed_all (fun x => rd s x f_prio) ws rl) /\
    ring s' WAIT (list_difference dl ws) /\
    (forall p, p ∉ ws -> rd s' p f_event = rd s p f_event) /\
    (forall p, p ∉ ws -> rd s' p f_id = rd s p f_id) /\
    msg_kill OS_ROBIN IDLE fuel s' msg = Some s'.
Proof.
  intros Hm HR HW ND Hidle Hpos HQ Hws Hf. unfold msg_kill at 1.
  rewrite asserted by done.
  set (s0 := wr (wr (wr s msg f_count 0) msg f_head 0) msg f_tail 0).
  assert (F0 : forall p f, f ≠ f_count -> f ≠ f_head -> f ≠ f_tail ->
                 rd s0 p f = rd s p f).
  { intros. unfold s0. by rewrite !rd_wr_field. }
  destruct (core_all_wakeup_placed OS_ROBIN IDLE WAIT ws s0 rl dl msg E_STOPPED fuel)
    as (s' & Hall & HR' & HW' & HQ' & Hw' & Fev & Fid & _ & SP);
    try done.
  { eapply ring_frame; [| |exact HR]; intros; by apply F0. }
  { eapply ring_frame; [| |exact HW]; intros; by apply F0. }
  { by rewrite F0. }
  { intros x Hx. rewrite F0 by done. by apply Hpos. }
  { eapply waitq_frame; [| |exact HQ]; intros; by apply F0. }
  { intros w Hw. rewrite F0 by done. by apply Hws. }
  exists s'. split; [done|].
  assert (Hc : heap s' !! (msg, f_count) = Some 0).
  { destruct SP as (_ & _ & _ & SP). rewrite SP by (by apply not_linkage).
    unfold s0. rewrite !heap_wr_field by done. apply heap_wr_same. }
  assert (Hh : heap s' !! (msg, f_head) = Some 0).
  { destruct SP as (_ & _ & _ & SP). rewrite SP by (by apply not_linkage).
    unfold s0. rewrite !heap_wr_field by done. apply heap_wr_same. }
  assert (Ht : heap s' !! (msg, f_tail) = Some 0).
  { destruct SP as (_ & _ & _ & SP). rewrite SP by (by apply not_linkage).
    unfold s0. apply heap_wr_same. }
  split; [unfold rd; by rewrite Hc|]. split; [unfold rd; by rewrite Hh|].
  split; [unfold rd; by rewrite Ht|]. split; [done|]. split; [done|].
  split.
  { rewrite <- (placed_all_ext (fun x => rd s x f_prio)
                  (fun x => rd s0 x f_prio) ws rl); [done|].
    intros x. by apply F0. }
  split; [done|]. split.
  { intros p Hp. rewrite Fev by done. by apply F0. }
  split.
  { intros p Hp. rewrite Fid by done. by apply F0. }
  unfold msg_kill. rewrite asserted by done.
  rewrite (wr_present s' _ _ _ Hc), (wr_present s' _ _ _ Hh),
    (wr_present s' _ _ _ Ht).
  destruct fuel as [|fuel]; [lia|]. simpl.
  rewrite (waitq_empty _ _ HQ'). done.
Qed.

End Kill.

(** ** Two disjoint rings *)

Lemma ring_remove_frame s r l r' l1 x l2 :
  ring s r' (l1 ++ x :: l2) -> ring s r l ->
  (forall y, y ∈ r :: l -> y ∉ r' :: l1 ++ x :: l2) ->
  ring (priv_rdy_remove s x) r l.
Proof.
  intros HW HR Hdisj.
  destruct (ring_neighbours _ _ _ _ _ HW) as [Hnx Hpv].
  eapply ring_frame; [| |exact HR]; intros p Hin.
  - rewrite priv_rdy_remove_next. rewrite decide_False; [done|].
    intros ->. apply (Hdisj _ Hin). rewrite Hpv.
    destruct (hd_reverse_in r' l1) as [->|H]; set_solver.
  - rewrite priv_rdy_remove_prev. rewrite decide_False; [done|].
    intros ->. apply (Hdisj _ Hin). rewrite Hnx.
    destruct (hd_in r' l2) as [->|H]; set_solver.
Qed.

Lemma ring_insert_frame s r l r' l1 l2 obj id :
  ring s r' (l1 ++ l2) -> ring s r l ->
  (forall y, y ∈ r :: l -> y ∉ r' :: l1 ++ l2) ->
  obj ∉ r :: l ->
  ring (priv_rdy_insert s obj id (hd r' l2)) r l.
Proof.
  intros HW HR Hdisj Hobj.
  destruct (ring_split _ _ _ _ HW) as (B & a & B' & EB & EB' & _ & _ & Hp1 & _).
  assert (Hprv : rd s (hd r' l2) f_prev = a).
  { apply lseg_snoc in Hp1. tauto. }
  assert (Hain : a ∈ r' :: l1 ++ l2).
  { assert (a ∈ r' :: l1) by (rewrite EB; set_solver). set_solver. }
  assert (Hnin : hd r' l2 ∈ r' :: l1 ++ l2).
  { destruct (hd_in r' l2) as [->|H]; set_solver. }
  eapply ring_frame; [| |exact HR]; intros p Hin.
  - rewrite priv_rdy_insert_next, Hprv. rewrite !decide_False; [done| |].
    + intros ->. done.
    + intros ->. by apply (Hdisj _ Hin).
  - rewrite priv_rdy_insert_prev. rewrite !decide_False; [done| |].
    + intros ->. done.
    + intros ->. by apply (Hdisj _ Hin).
Qed.

(** ** The timer ring *)

Lemma priv_tmr_insert_walks WAIT s dl tmr id fuel :
  ring s WAIT dl -> rd s WAIT f_delay = INFINITE ->
  (length dl < fuel)%nat ->
  exists d1 d2, dl = d1 ++ d2 /\
    priv_tmr_insert WAIT fuel s tmr id =
      Some (priv_rdy_insert s tmr id (hd WAIT d2)).
Proof.
  intros (ND & Hn & _) Hinf Hf. unfold priv_tmr_insert.
  destruct (rd s tmr f_delay =? INFINITE).
  - exists dl, []. by rewrite app_nil_r.
  - rewrite priv_tmr_insert_walk_eq. destruct Hn as [_ Hn].
    match goal with |- context [ring_walk fuel s ?c WAIT] =>
      destruct (ring_walk_stops s c WAIT dl WAIT fuel Hn)
        as (d1 & d2 & -> & Hw & _) end.
    { rewrite Hinf. by rewrite Z.eqb_refl. }
    { done. }
    exists d1, d2. by rewrite Hw.
Qed.

(** Where [priv_tmr_insert] puts an entry. *)
Lemma priv_tmr_insert_where WAIT s dl tmr id fuel :
  ring s WAIT dl -> rd s WAIT f_delay = INFINITE ->
  (length dl < fuel)%nat ->
  let due := Word.add (rd s tmr f_start) (rd s tmr f_delay) in
  exists d1 d2, dl = d1 ++ d2 /\
    priv_tmr_insert WAIT fuel s tmr id =
      Some (priv_rdy_insert s tmr id (hd WAIT d2)) /\
    (rd s tmr f_delay = INFINITE -> d2 = []) /\
    (rd s tmr f_delay ≠ INFINITE ->
       (forall x, x ∈ d1 ->
          rd s x f_delay ≠ INFINITE /\
          rd s x f_delay <= Word.sub due (rd s x f_start)) /\
       (d2 = [] \/ rd s (hd WAIT d2) f_delay = INFINITE \/
        Word.sub due (rd s (hd WAIT d2) f_start) < rd s (hd WAIT d2) f_delay)).
Proof.
  intros HR Hinf Hf due. pose proof HR as (ND & Hn & _).
  unfold priv_tmr_insert.
  destruct (rd s tmr f_delay =? INFINITE) eqn:E.
  - apply Z.eqb_eq in E. exists dl, [].
    rewrite app_nil_r. split; [done|]. split; [done|]. split; done.
  - apply Z.eqb_neq in E. rewrite priv_tmr_insert_walk_eq. destruct Hn as [_ Hn].
    match goal with |- context [ring_walk fuel s ?c WAIT] =>
      destruct (ring_walk_stops s c WAIT dl WAIT fuel Hn)
        as (d1 & d2 & -> & Hw & H1 & H2) end.
    { rewrite Hinf. by rewrite Z.eqb_refl. }
    { done. }
    rewrite Hw. simpl.
    exists d1, d2.
    split; [done|]. split; [done|]. split; [done|].
    intros _. split.
    + intros x Hx. specialize (H1 x Hx). simpl in H1.
      apply andb_true_iff in H1 as [Ha Hb].
      apply negb_true_iff, Z.eqb_neq in Ha. apply Z.leb_le in Hb. done.
    + right. simpl in H2. apply andb_false_iff in H2 as [Ha|Hb].
      * left. apply negb_false_iff, Z.eqb_eq in Ha. done.
      * right. apply Z.leb_gt in Hb. done.
Qed.

Section Timer.

Variables OS_ROBIN OS_TIMER IDLE WAIT : Z.
Variable run : Z -> sys -> option sys.
Variable recount : Z -> Z.

(** The body of the handler loop for a timer. *)
Lemma core_tmr_handler_entry_timer s s2 tmr rl d1 d2 ws fuel :
  let s0 := wr s tmr f_start
                 (Word.add (rd s tmr f_start) (rd s tmr f_delay)) in
  let s1 := wr s0 tmr f_delay (rd s0 tmr f_period) in
  (if rd s1 tmr f_state =? 0 then Some s1 else run (rd s1 tmr f_state) s1)
    = Some s2 ->
  rd s tmr f_id = ID_TIMER ->
  ring s2 IDLE rl -> ring s2 WAIT (d1 ++ tmr :: d2) ->
  NoDup (IDLE :: rl ++ WAIT :: d1 ++ tmr :: d2) ->
  rd s2 IDLE f_prio = 0 -> rd s2 WAIT f_delay = INFINITE ->
  (forall x, x ∈ rl -> 0 <= rd s2 x f_prio) ->
  waitq s2 tmr ws ->
  (forall w, w ∈ ws -> w ∈ d1 ++ d2 /\ 0 <= rd s2 w f_prio) ->
  (length rl + length (d1 ++ d2) + 2 * length ws < fuel)%nat ->
  let due := Word.add (rd s2 tmr f_start) (rd s2 tmr f_delay) in
  exists s' e1 e2, d1 ++ d2 = e1 ++ e2 /\
    core_tmr_handler_entry OS_ROBIN IDLE WAIT run fuel s tmr = Some s' /\
    rd s' tmr f_start = rd s2 tmr f_start /\
    rd s' tmr f_delay = rd s2 tmr f_delay /\
    ring s' IDLE (placed_all (fun x => rd s2 x f_prio) ws rl) /\
    (rd s2 tmr f_delay = 0 ->
       ring s' WAIT (list_difference (e1 ++ e2) ws) /\
       rd s' tmr f_id = ID_STOPPED) /\
    (rd s2 tmr f_delay ≠ 0 ->
       ring s' WAIT (list_difference (e1 ++ tmr :: e2) ws) /\
       rd s' tmr f_id = ID_TIMER /\
       (rd s2 tmr f_delay = INFINITE -> e2 = []) /\
       (rd s2 tmr f_delay ≠ INFINITE ->
          (forall x, x ∈ e1 ->
             rd s2 x f_delay ≠ INFINITE /\
             rd s2 x f_delay <= Word.sub due (rd s2 x f_start)) /\
          (e2 = [] \/ rd s2 (hd WAIT e2) f_delay = INFINITE \/
           Word.sub due (rd s2 (hd WAIT e2) f_start)
             < rd s2 (hd WAIT e2) f_delay))) /\
    waitq s' tmr [] /\
    (forall w, w ∈ ws ->
       rd s' w f_event = E_SUCCESS /\ rd s' w f_id = ID_READY) /\
    (forall p, p ∉ ws -> rd s' p f_event = rd s2 p f_event) /\
    (forall p f, f ≠ f_id -> f ≠ f_prev -> f ≠ f_next ->
       f ≠ f_queue -> f ≠ f_back -> f ≠ f_event -> rd s' p f = rd s2 p f).
Proof.
  intros s0 s1 Hrun Hid HR HW ND Hidle Hinf Hpos HQ Hws Hf due.
  unfold core_tmr_handler_entry.
  rewrite Hid, Z.eqb_refl. unfold priv_tmr_wakeup. cbv zeta.
  unfold s1, s0 in Hrun. rewrite Hrun. simpl.
  assert (NDs : NoDup (IDLE :: rl) /\ NoDup (WAIT :: d1 ++ tmr :: d2) /\
                forall x, x ∈ IDLE :: rl -> x ∉ WAIT :: d1 ++ tmr :: d2).
  { change (IDLE :: rl ++ WAIT :: d1 ++ tmr :: d2)
      with ((IDLE :: rl) ++ WAIT :: d1 ++ tmr :: d2) in ND.
    apply NoDup_app in ND. tauto. }
  destruct NDs as (NDr & NDw & Hdisj).
  assert (Htws : tmr ∉ ws).
  { destruct HQ as (N & _). apply NoDup_cons in N. tauto. }
  assert (HtW : tmr ≠ WAIT).
  { apply NoDup_cons in NDw as [N _]. set_solver. }
  assert (Htr : tmr ∉ IDLE :: rl).
  { intros Hin. apply (Hdisj _ Hin). set_solver. }
  assert (Htd : tmr ∉ WAIT :: d1 ++ d2).
  { apply NoDup_cons in NDw as [N1 N2]. apply NoDup_app in N2 as (N3 & N4 & N5).
    apply NoDup_cons in N5 as [N5 N6].
    rewrite elem_of_cons, elem_of_app. intros [->|[H|H]]; [done| |done].
    apply (N4 tmr H). set_solver. }
  set (s3 := core_tmr_remove s2 tmr).
  assert (F3 : forall p f, f ≠ f_id -> f ≠ f_prev -> f ≠ f_next ->
                 rd s3 p f = rd s2 p f).
  { intros. by apply priv_rdy_remove_other. }
  assert (HW3 : ring s3 WAIT (d1 ++ d2)) by (by apply ring_remove).
  assert (HR3 : ring s3 IDLE rl) by (by eapply ring_remove_frame).
  assert (HQ3 : waitq s3 tmr ws).
  { eapply waitq_frame; [| |exact HQ]; intros; by apply F3. }
  assert (Hdisj3 : forall x, x ∈ IDLE :: rl -> x ∉ WAIT :: d1 ++ d2).
  { intros x Hx Hin. apply (Hdisj x Hx). set_solver. }
  assert (NDw3 : NoDup (WAIT :: d1 ++ d2)).
  { apply NoDup_cons in NDw as [N1 N2]. apply NoDup_cons. split; [set_solver|].
    apply NoDup_app in N2 as (N3 & N4 & N5). apply NoDup_cons in N5 as [N5 N6].
    apply NoDup_app. split; [done|]. split; [|done].
    intros x Hx Hx'. apply (N4 x Hx). set_solver. }
  assert (Hid3 : rd s3 tmr f_id = ID_STOPPED).
  { unfold s3, core_tmr_remove. rewrite priv_rdy_remove_id. by rewrite decide_True. }
  rewrite (F3 tmr f_delay) by done.
  assert (Hstep : exists s4 e1 e2, d1 ++ d2 = e1 ++ e2 /\
    (if rd s2 tmr f_delay =? 0 then Some s3
     else priv_tmr_insert WAIT fuel s3 tmr ID_TIMER) = Some s4 /\
    ring s4 IDLE rl /\
    ring s4 WAIT (if rd s2 tmr f_delay =? 0 then e1 ++ e2
                  else e1 ++ tmr :: e2) /\
    waitq s4 tmr ws /\
    rd s4 tmr f_id =
      (if rd s2 tmr f_delay =? 0 then ID_STOPPED else ID_TIMER) /\
    (rd s2 tmr f_delay ≠ 0 ->
       (rd s2 tmr f_delay = INFINITE -> e2 = []) /\
       (rd s2 tmr f_delay ≠ INFINITE ->
          (forall x, x ∈ e1 ->
             rd s2 x f_delay ≠ INFINITE /\
             rd s2 x f_delay <= Word.sub due (rd s2 x f_start)) /\
          (e2 = [] \/ rd s2 (hd WAIT e2) f_delay = INFINITE \/
           Word.sub due (rd s2 (hd WAIT e2) f_start)
             < rd s2 (hd WAIT e2) f_delay))) /\
    (forall p f, f ≠ f_id -> f ≠ f_prev -> f ≠ f_next ->
       rd s4 p f = rd s2 p f)).
  { destruct (rd s2 tmr f_delay =? 0) eqn:E0.
    - exists s3, d1, d2. split; [done|]. split; [done|]. split; [done|].
      split; [done|]. split; [done|]. split; [done|]. split; [|done].
      apply Z.eqb_eq in E0. done.
    - destruct (priv_tmr_insert_where WAIT s3 (d1 ++ d2) tmr ID_TIMER fuel HW3)
        as (e1 & e2 & He & Hins & Hinfty & Hplace).
      { by rewrite F3. }
      { rewrite length_app in *. simpl in Hf. lia. }
      rewrite He in *.
      exists (priv_rdy_insert s3 tmr ID_TIMER (hd WAIT e2)), e1, e2.
      split; [done|]. split; [done|]. split; [by eapply ring_insert_frame|].
      split; [by apply ring_insert|]. split.
      { eapply waitq_frame; [| |exact HQ3]; intros;
          by apply priv_rdy_insert_other. }
      split.
      { rewrite priv_rdy_insert_id. by rewrite decide_True. }
      split.
      { intros _. rewrite !(F3 tmr) in Hinfty, Hplace by done.
        split; [done|]. intros Hne. destruct (Hplace Hne) as [P1 P2]. split.
        - intros x Hx. specialize (P1 x Hx). by rewrite !F3 in P1.
        - by rewrite !F3 in P2. }
      intros. rewrite priv_rdy_insert_other by done. by apply F3. }
  destruct Hstep as (s4 & e1 & e2 & He & -> & HR4 & HW4 & HQ4 & Hid4 & Hpl & F4).
  simpl.
  set (dl4 := if rd s2 tmr f_delay =? 0 then e1 ++ e2 else e1 ++ tmr :: e2) in *.
  assert (Hin4 : forall x, x ∈ e1 ++ e2 -> x ∈ dl4).
  { intros x Hx. unfold dl4. destruct (rd s2 tmr f_delay =? 0); set_solver. }
  assert (ND4 : NoDup (IDLE :: rl ++ WAIT :: dl4)).
  { change (NoDup ((IDLE :: rl) ++ WAIT :: dl4)). rewrite He in *.
    apply NoDup_app. split; [done|]. unfold dl4.
    destruct (rd s2 tmr f_delay =? 0); [done|]. split.
    - intros x Hx Hin. assert (x ≠ tmr) by (intros ->; done).
      apply (Hdisj3 x Hx). set_solver.
    - assert (P : tmr :: WAIT :: e1 ++ e2 ≡ₚ WAIT :: e1 ++ tmr :: e2)
        by solve_Permutation.
      rewrite <- P. apply NoDup_cons. done. }
  destruct (core_all_wakeup_placed OS_ROBIN IDLE WAIT ws s4 rl dl4 tmr E_SUCCESS fuel)
    as (s' & Hall & HR' & HW' & HQ' & Hw' & Gev & Gid & _ & SP);
    try done.
  { by rewrite F4. }
  { intros x Hx. rewrite F4 by done. by apply Hpos. }
  { intros w Hw. destruct (Hws w Hw) as [Hwd Hwp]. rewrite F4 by done.
    split; [|done]. apply Hin4. by rewrite <- He. }
  { rewrite length_app in *. simpl in Hf. lia. }
  assert (F' : forall p f, f ≠ f_id -> f ≠ f_prev -> f ≠ f_next ->
                 f ≠ f_queue -> f ≠ f_back -> f ≠ f_event ->
                 rd s' p f = rd s2 p f).
  { intros p f ? ? ? ? ? ?.
    rewrite (same_payload_rd _ _ _ _ SP) by (by apply not_linkage).
    by apply F4. }
  exists s', e1, e2. split; [done|]. split; [done|].
  split; [by apply F'|]. split; [by apply F'|].
  split.
  { rewrite <- (placed_all_ext (fun x => rd s2 x f_prio)
                  (fun x => rd s4 x f_prio) ws rl); [done|].
    intros x. by apply F4. }
  split.
  { intros E0. unfold dl4 in HW'. rewrite Gid, Hid4 by done.
    rewrite (proj2 (Z.eqb_eq _ _) E0) in *. done. }
  split.
  { intros E0. unfold dl4 in HW'. rewrite Gid, Hid4 by done.
    rewrite (proj2 (Z.eqb_neq _ _) E0) in *. split; [done|]. split; [done|].
    by apply Hpl. }
  split; [done|]. split.
  { intros w Hw. destruct (Hw' w Hw) as (? & ? & _). done. }
  split.
  { intros p Hp. rewrite Gev by done. by apply F4. }
  done.
Qed.

(** The body of the handler loop for a delayed task. *)
Lemma core_tmr_handler_entry_task s t rl d1 d2 obj w1 w2 fuel :
  rd s t f_id ≠ ID_TIMER ->
  ring s IDLE rl -> ring s WAIT (d1 ++ t :: d2) ->
  NoDup (IDLE :: rl ++ WAIT :: d1 ++ t :: d2) ->
  rd s IDLE f_prio = 0 -> 0 <= rd s t f_prio ->
  (forall x, x ∈ rl -> 0 <= rd s x f_prio) ->
  waitq s obj (w1 ++ t :: w2) ->
  (length rl < fuel)%nat ->
  exists s',
    core_tmr_handler_entry OS_ROBIN IDLE WAIT run fuel s t = Some s' /\
    rd s' t f_event = E_TIMEOUT /\ rd s' t f_id = ID_READY /\
    ring s' IDLE (placed (fun x => rd s x f_prio) t rl) /\
    ring s' WAIT (d1 ++ d2) /\
    waitq s' obj (w1 ++ w2) /\
    (forall p, p ≠ t -> rd s' p f_event = rd s p f_event) /\
    (forall p, p ≠ t -> rd s' p f_id = rd s p f_id) /\
    same_payload s s'.
Proof.
  intros Hid HR HW ND Hidle Hp Hpos HQ Hf.
  destruct (core_tsk_wakeup_placed OS_ROBIN IDLE WAIT s rl d1 t d2 obj w1 w2
              E_TIMEOUT fuel HR HW ND Hidle Hp Hpos HQ Hf)
    as (s' & Hwk & HR' & HW' & HQ' & Hev & Hid' & _ & Fev & Fid & _ & SP).
  exists s'.
  unfold core_tmr_handler_entry. rewrite (proj2 (Z.eqb_neq _ _) Hid), Hwk.
  simpl. done.
Qed.

(** One turn of the loop of [core_tmr_handler]. *)
Lemma core_tmr_handler_turn s s' fuel :
  priv_tmr_expired OS_ROBIN OS_TIMER recount s (rd s WAIT f_next) = true ->
  core_tmr_handler_entry OS_ROBIN IDLE WAIT run (S fuel) s (rd s WAIT f_next)
    = Some s' ->
  core_tmr_handler OS_ROBIN OS_TIMER IDLE WAIT run recount (S fuel) s =
    core_tmr_handler OS_ROBIN OS_TIMER IDLE WAIT run recount fuel s'.
Proof. intros He Hs. simpl. rewrite He, Hs. done. Qed.

Lemma core_tmr_handler_stop s fuel :
  priv_tmr_expired OS_ROBIN OS_TIMER recount s (rd s WAIT f_next) = false ->
  core_tmr_handler OS_ROBIN OS_TIMER IDLE WAIT run recount (S fuel) s = Some s.
Proof. intros He. simpl. by rewrite He. Qed.

(** C6: when the head of the timer ring is expired, one pass
    of the loop of [core_tmr_handler] does the following, and the loop goes
    on in the resulting state (it returns that state when the next head is
    not expired).  For a timer: [start] advances by the old [delay], [delay]
    becomes [period], the callback, if there is one, runs on the state with
    these two updates, the timer leaves the ring and is inserted again, at
    the place of its new deadline, iff [delay] is then not zero, and every
    task blocked on the timer is woken with [E_SUCCESS]: it leaves the timer
    ring and takes its place in the ready ring.  For a delayed task: it is
    woken with [E_TIMEOUT], leaves the timer ring and the queue it waited in
    and takes its place in the ready ring. *)
Theorem core_tmr_handler_steps s tmr rl d1 d2 fuel :
  rd s WAIT f_next = tmr ->
  priv_tmr_expired OS_ROBIN OS_TIMER recount s tmr = true ->
  NoDup (IDLE :: rl ++ WAIT :: d1 ++ tmr :: d2) ->
  (length rl + length (d1 ++ d2) < fuel)%nat ->
  (forall s2 ws,
     let s0 := wr s tmr f_start
                 (Word.add (rd s tmr f_start) (rd s tmr f_delay)) in
     let s1 := wr s0 tmr f_delay (rd s0 tmr f_period) in
     let due := Word.add (rd s2 tmr f_start) (rd s2 tmr f_delay) in
     rd s tmr f_id = ID_TIMER ->
     (if rd s1 tmr f_state =? 0 then Some s1 else run (rd s1 tmr f_state) s1)
       = Some s2 ->
     ring s2 IDLE rl -> ring s2 WAIT (d1 ++ tmr :: d2) ->
     rd s2 IDLE f_prio = 0 -> rd s2 WAIT f_delay = INFINITE ->
     (forall x, x ∈ rl -> 0 <= rd s2 x f_prio) ->
     waitq s2 tmr ws ->
     (forall w, w ∈ ws -> w ∈ d1 ++ d2 /\ 0 <= rd s2 w f_prio) ->
     (length rl + length (d1 ++ d2) + 2 * length ws < fuel)%nat ->
     exists s' e1 e2, d1 ++ d2 = e1 ++ e2 /\
       core_tmr_handler OS_ROBIN OS_TIMER IDLE WAIT run recount (S fuel) s =
         core_tmr_handler OS_ROBIN OS_TIMER IDLE WAIT run recount fuel s' /\
       (priv_tmr_expired OS_ROBIN OS_TIMER recount s' (rd s' WAIT f_next)
          = false ->
        core_tmr_handler OS_ROBIN OS_TIMER IDLE WAIT run recount (S fuel) s
          = Some s') /\
       rd s1 tmr f_start = Word.add (rd s tmr f_start) (rd s tmr f_delay) /\
       rd s1 tmr f_delay = rd s tmr f_period /\
       rd s' tmr f_start = rd s2 tmr f_start /\
       rd s' tmr f_delay = rd s2 tmr f_delay /\
       (rd s tmr f_state = 0 ->
          rd s' tmr f_start = Word.add (rd s tmr f_start) (rd s tmr f_delay) /\
          rd s' tmr f_delay = rd s tmr f_period) /\
       ring s' IDLE (placed_all (fun x => rd s2 x f_prio) ws rl) /\
       (rd s2 tmr f_delay = 0 ->
          ring s' WAIT (list_difference (e1 ++ e2) ws) /\
          rd s' tmr f_id = ID_STOPPED) /\
       (rd s2 tmr f_delay ≠ 0 ->
          ring s' WAIT (list_difference (e1 ++ tmr :: e2) ws) /\
          rd s' tmr f_id = ID_TIMER /\
          (rd s2 tmr f_delay = INFINITE -> e2 = []) /\
          (rd s2 tmr f_delay ≠ INFINITE ->
             (forall x, x ∈ e1 ->
                rd s2 x f_delay ≠ INFINITE /\
                rd s2 x f_delay <= Word.sub due (rd s2 x f_start)) /\
             (e2 = [] \/ rd s2 (hd WAIT e2) f_delay = INFINITE \/
              Word.sub due (rd s2 (hd WAIT e2) f_start)
                < rd s2 (hd WAIT e2) f_delay))) /\
       waitq s' tmr [] /\
       (forall w, w ∈ ws ->
          rd s' w f_event = E_SUCCESS /\ rd s' w f_id = ID_READY) /\
       (forall p, p ∉ ws -> rd s' p f_event = rd s2 p f_event)) /\
  (forall obj w1 w2,
     rd s tmr f_id ≠ ID_TIMER ->
     ring s IDLE rl -> ring s WAIT (d1 ++ tmr :: d2) ->
     rd s IDLE f_prio = 0 -> 0 <= rd s tmr f_prio ->
     (forall x, x ∈ rl -> 0 <= rd s x f_prio) ->
     waitq s obj (w1 ++ tmr :: w2) ->
     exists s',
       core_tmr_handler OS_ROBIN OS_TIMER IDLE WAIT run recount (S fuel) s =
         core_tmr_handler OS_ROBIN OS_TIMER IDLE WAIT run recount fuel s' /\
       (priv_tmr_expired OS_ROBIN OS_TIMER recount s' (rd s' WAIT f_next)
          = false ->
        core_tmr_handler OS_ROBIN OS_TIMER IDLE WAIT run recount (S fuel) s
          = Some s') /\
       rd s' tmr f_event = E_TIMEOUT /\ rd s' tmr f_id = ID_READY /\
       ring s' IDLE (placed (fun x => rd s x f_prio) tmr rl) /\
       ring s' WAIT (d1 ++ d2) /\
       waitq s' obj (w1 ++ w2) /\
       (forall p, p ≠ tmr -> rd s' p f_event = rd s p f_event) /\
       (forall p f, f ≠ f_id -> f ≠ f_prev -> f ≠ f_next ->
          f ≠ f_queue -> f ≠ f_back -> f ≠ f_event -> rd s' p f = rd s p f)).
Proof.
  intros Hhd Hexp ND Hf. subst tmr.
  set (tmr := rd s WAIT f_next) in *.
  assert (Hfuel : exists n, fuel = S n).
  { destruct fuel as [|n]; [lia|]. by exists n. }
  split.
  - intros s2 ws s0 s1 due Hid Hrun HR HW Hidle Hinf Hpos HQ Hws Hf2.
    destruct (core_tmr_handler_entry_timer s s2 tmr rl d1 d2 ws (S fuel))
      as (s' & e1 & e2 & He & Hen & Hst & Hdl & HR' & Hz & Hnz & HQ' & Hw' & Fev & _);
      try done.
    { lia. }
    exists s', e1, e2. split; [done|].
    split; [by apply core_tmr_handler_turn|]. split.
    { intros Hn. rewrite (core_tmr_handler_turn s s' fuel) by done.
      destruct Hfuel as [n ->]. by apply core_tmr_handler_stop. }
    split; [unfold s1, s0; rewrite rd_wr_field by done; apply rd_wr_same|].
    split; [unfold s1, s0; rewrite rd_wr_same; by apply rd_wr_field|].
    split; [done|]. split; [done|]. split.
    { intros Hst0. unfold s1, s0 in Hrun.
      rewrite !rd_wr_field, Hst0 in Hrun by done. simpl in Hrun.
      injection Hrun as <-. rewrite Hst, Hdl.
      split; [rewrite rd_wr_field by done; apply rd_wr_same|].
      by rewrite rd_wr_same. }
    done.
  - intros obj w1 w2 Hid HR HW Hidle Hp Hpos HQ.
    destruct (core_tmr_handler_entry_task s tmr rl d1 d2 obj w1 w2 (S fuel))
      as (s' & Hen & Hev & Hid' & HR' & HW' & HQ' & Fev & Fid & SP);
      try done.
    { lia. }
    exists s'. split; [by apply core_tmr_handler_turn|]. split.
    { intros Hn. rewrite (core_tmr_handler_turn s s' fuel) by done.
      destruct Hfuel as [n ->]. by apply core_tmr_handler_stop. }
    split; [done|]. split; [done|]. split; [done|]. split; [done|].
    split; [done|]. split; [done|].
    intros p f ? ? ? ? ? ?. apply (same_payload_rd _ _ _ _ SP).
    by apply not_linkage.
Qed.

End Timer.

(** ** The loop of the timer handler over delayed tasks *)

Section Handler.

Variables OS_ROBIN OS_TIMER IDLE WAIT : Z.
Variable run : Z -> sys -> option sys.
Variable recount : Z -> Z.

Lemma priv_tmr_expired_payload s s' tmr :
  same_payload s s' ->
  priv_tmr_expired OS_ROBIN OS_TIMER recount s' tmr
    = priv_tmr_expired OS_ROBIN OS_TIMER recount s tmr.
Proof.
  intros SP. pose proof SP as (_ & HC & _).
  assert (Ed : rd s' tmr f_delay = rd s tmr f_delay).
  { apply same_payload_rd; [done|]. apply not_linkage; done. }
  assert (Es : rd s' tmr f_start = rd s tmr f_start).
  { apply same_payload_rd; [done|]. apply not_linkage; done. }
  unfold priv_tmr_expired, priv_tmr_expired_tickless, priv_tmr_expired_ticked.
  by rewrite Ed, Es, HC.
Qed.



End Handler.

(** ** Effective priority *)

Lemma fold_max_start (p a : Z) (l : list Z) :
  fold_right Z.max (Z.max p a) l = Z.max a (fold_right Z.max p l).
Proof. induction l as [|x l IH]; simpl; [lia|]. rewrite IH. lia. Qed.

Lemma effective_cons s p m ms :
  effective s p (m :: ms) =
    if decide (rd s m f_queue = 0) then effective s p ms
    else Z.max (rd s (rd s m f_queue) f_prio) (effective s p ms).
Proof.
  unfold effective, head_prios. rewrite filter_cons.
  case_decide as H; case_decide as H'; try done; tauto.
Qed.

Lemma core_tsk_prio_scan_effective s ms : forall m p fuel,
  lseg s f_list m ms 0 -> 0 ∉ ms -> (length ms < fuel)%nat ->
  core_tsk_prio_scan fuel s m p = Some (effective s p ms).
Proof.
  induction ms as [|x ms IH]; intros m p fuel H H0 Hf.
  - simpl in H. subst m. destruct fuel; [lia|]. done.
  - destruct fuel; [simpl in Hf; lia|]. simpl in H. destruct H as [-> H].
    assert (Hx : x ≠ 0) by set_solver.
    simpl. rewrite (proj2 (Z.eqb_neq x 0) Hx).
    rewrite (IH _ _ fuel H); [|set_solver|simpl in Hf; lia].
    f_equal. rewrite effective_cons. case_decide as Hq.
    + rewrite Hq. done.
    + rewrite (proj2 (Z.eqb_neq _ 0) Hq). simpl.
      destruct (p <? rd s (rd s x f_queue) f_prio) eqn:E.
      * unfold effective.
        replace (rd s (rd s x f_queue) f_prio)
          with (Z.max p (rd s (rd s x f_queue) f_prio)) at 1 by lia.
        apply fold_max_start.
      * unfold effective.
        replace p with (Z.max p (rd s (rd s x f_queue) f_prio)) at 1 by lia.
        apply fold_max_start.
Qed.

Lemma effective_frame s s' p ms :
  (forall m, m ∈ ms -> rd s' m f_queue = rd s m f_queue) ->
  (forall m, m ∈ ms -> rd s m f_queue ≠ 0 ->
     rd s' (rd s m f_queue) f_prio = rd s (rd s m f_queue) f_prio) ->
  effective s' p ms = effective s p ms.
Proof.
  induction ms as [|m ms IH]; intros Hq Hp; [done|].
  rewrite !effective_cons. rewrite Hq by set_solver.
  rewrite IH; [|intros; apply Hq; set_solver|intros; apply Hp; set_solver].
  case_decide; [done|]. rewrite Hp; [done|set_solver|done].
Qed.

Lemma held_frame s s' tsk ms :
  (forall p, rd s' p f_list = rd s p f_list) ->
  held s tsk ms -> held s' tsk ms.
Proof.
  intros Hl [H0 H]. split; [done|]. rewrite Hl.
  eapply lseg_frame; [|exact H]. intros. apply Hl.
Qed.

Section Prio.

Variables OS_ROBIN IDLE : Z.

(** C1: [core_tsk_prio tsk prio] gives [tsk] the priority
    max(prio, sup of the priorities of the first waiters of the mutexes
    [tsk] holds) and changes the priority of no other task: the owner of the
    mutex [tsk] waits on is not recomputed.  When the priority of [tsk]
    changes, a ready task is taken out of the ready ring and inserted again
    at the place of its new priority, and a blocked task likewise in the
    queue it waits in; when it does not change, the state is left as it is.
    So the equation [t.prio = max(t.basic, sup ...)] is established for the
    task the function is called on, not along the chain of held mutexes. *)
Theorem core_tsk_prio_single_level s tsk prio ms r1 r2 w1 w2 fuel :
  held s tsk ms ->
  (rd s tsk f_id = ID_READY ->
     ring s IDLE (r1 ++ tsk :: r2) /\ rd s IDLE f_prio = 0 /\
     0 <= effective s prio ms /\
     forall x, x ∈ r1 ++ r2 -> 0 <= rd s x f_prio) ->
  (rd s tsk f_id = ID_DELAYED ->
     waitq s (rd s tsk f_guard) (w1 ++ tsk :: w2) /\
     forall m, m ∈ ms -> m ∉ rd s tsk f_guard :: w1 ++ tsk :: w2) ->
  (forall m, m ∈ ms -> rd s m f_queue ≠ tsk) ->
  (length ms + length (r1 ++ r2) + length (w1 ++ w2) + 1 < fuel)%nat ->
  exists s',
    core_tsk_prio OS_ROBIN IDLE fuel s tsk prio = Some s' /\
    held s' tsk ms /\
    rd s' tsk f_prio = effective s' prio ms /\
    effective s' prio ms = effective s prio ms /\
    (forall p, p ≠ tsk -> rd s' p f_prio = rd s p f_prio) /\
    (rd s tsk f_prio = effective s prio ms -> s' = s) /\
    (rd s tsk f_prio ≠ effective s prio ms ->
       (rd s tsk f_id = ID_READY ->
          ring s' IDLE (placed (fun x => rd s' x f_prio) tsk (r1 ++ r2)) /\
          rd s' tsk f_id = ID_READY) /\
       (rd s tsk f_id = ID_DELAYED ->
          waitq s' (rd s tsk f_guard)
            (placed (fun x => rd s' x f_prio) tsk (w1 ++ w2)) /\
          rd s' tsk f_guard = rd s tsk f_guard /\
          rd s' tsk f_id = ID_DELAYED)).
Proof.
  intros [H0 Hl] Hready Hdelayed Hself Hf.
  unfold core_tsk_prio.
  rewrite (core_tsk_prio_scan_effective s ms _ prio fuel Hl H0) by lia.
  simpl. set (e := effective s prio ms).
  destruct (rd s tsk f_prio =? e) eqn:E.
  { apply Z.eqb_eq in E. exists s. done. }
  apply Z.eqb_neq in E.
  set (s1 := wr s tsk f_prio e).
  assert (F1 : forall p f, f ≠ f_prio -> rd s1 p f = rd s p f).
  { intros. unfold s1. by rewrite rd_wr_field. }
  assert (P1 : forall p, p ≠ tsk -> rd s1 p f_prio = rd s p f_prio).
  { intros. unfold s1. by rewrite rd_wr_ptr. }
  assert (Final : forall s', 
    (forall p, rd s' p f_list = rd s p f_list) ->
    (forall p, rd s' p f_prio = rd s1 p f_prio) ->
    (forall m, m ∈ ms -> rd s' m f_queue = rd s m f_queue) ->
    held s' tsk ms /\ rd s' tsk f_prio = effective s' prio ms /\
    effective s' prio ms = effective s prio ms /\
    (forall p, p ≠ tsk -> rd s' p f_prio = rd s p f_prio)).
  { intros s' Gl Gp Gq.
    assert (Ee : effective s' prio ms = e).
    { apply effective_frame; [done|]. intros m Hm Hq.
      rewrite Gp. apply P1. by apply Hself. }
    split; [by apply (held_frame s)|]. split.
    - rewrite Ee, Gp. unfold s1. apply rd_wr_same.
    - split; [done|]. intros p Hp. rewrite Gp. by apply P1. }
  rewrite !F1 by done.
  destruct (rd s tsk f_id =? ID_READY) eqn:Eid.
  { apply Z.eqb_eq in Eid.
    destruct (Hready Eid) as (HR & Hidle & He & Hpos).
    set (s2 := core_tsk_remove s1 tsk).
    assert (F2 : forall p f, f ≠ f_id -> f ≠ f_prev -> f ≠ f_next ->
                   rd s2 p f = rd s1 p f).
    { intros. by apply priv_rdy_remove_other. }
    assert (HR1 : ring s1 IDLE (r1 ++ tsk :: r2)).
    { eapply ring_frame; [| |exact HR]; intros; by apply F1. }
    assert (HR2 : ring s2 IDLE (r1 ++ r2)) by (by apply ring_remove).
    assert (Htr : tsk ∉ IDLE :: r1 ++ r2).
    { destruct HR as (N & _). apply NoDup_cons in N as [N1 N2].
      apply NoDup_app in N2 as (N3 & N4 & N5).
      apply NoDup_cons in N5 as [N5 N6].
      rewrite elem_of_cons, elem_of_app. intros [E'|[H|H]]; [|apply (N4 tsk H)|done].
      - rewrite <- E' in N1. set_solver.
      - set_solver. }
    destruct (priv_tsk_insert_walks IDLE s2 (r1 ++ r2) tsk fuel HR2)
      as (k1 & k2 & Hk & Hins & Hge & Hlt).
    { rewrite F2 by done. rewrite P1; [done|]. intros ->. set_solver. }
    { rewrite F2 by done. unfold s1. rewrite rd_wr_same. done. }
    { lia. }
    set (s3 := priv_rdy_insert s2 tsk ID_READY (hd IDLE k2)) in *.
    assert (F3 : forall p f, f ≠ f_id -> f ≠ f_prev -> f ≠ f_next ->
                   rd s3 p f = rd s1 p f).
    { intros. unfold s3. rewrite priv_rdy_insert_other by done. by apply F2. }
    assert (HR3 : ring s3 IDLE (k1 ++ tsk :: k2)).
    { apply ring_insert; by rewrite <- Hk. }
    assert (Hpl : placed (fun x => rd s3 x f_prio) tsk (r1 ++ r2)
                  = k1 ++ tsk :: k2).
    { rewrite Hk. apply (placed_split _ tsk IDLE).
      - intros x Hx. rewrite F3 by done. rewrite P1.
        + apply Hpos. by rewrite Hk.
        + intros ->. apply Htr. rewrite Hk. set_solver.
      - destruct Hge as [Hge|Hge]; [left|right].
        + rewrite F3 by done. by rewrite F2 in Hge.
        + intros x Hx. specialize (Hge x Hx). rewrite !F2 in Hge by done.
          by rewrite !F3.
      - destruct Hlt as [Hlt|Hlt]; [by left|right].
        rewrite !F2 in Hlt by done. by rewrite !F3. }
    assert (Hid3 : rd s3 tsk f_id = ID_READY).
    { unfold s3. rewrite priv_rdy_insert_id. by rewrite decide_True. }
    unfold core_tsk_insert. rewrite Hins. simpl.
    assert (Fin3 : forall s', (forall p f, rd s' p f = rd s3 p f) ->
      held s' tsk ms /\ rd s' tsk f_prio = effective s' prio ms /\
      effective s' prio ms = effective s prio ms /\
      (forall p, p ≠ tsk -> rd s' p f_prio = rd s p f_prio) /\
      (rd s tsk f_prio = e -> s' = s) /\
      (rd s tsk f_prio ≠ e ->
       (rd s tsk f_id = ID_READY ->
          ring s' IDLE (placed (fun x => rd s' x f_prio) tsk (r1 ++ r2)) /\
          rd s' tsk f_id = ID_READY) /\
       (rd s tsk f_id = ID_DELAYED ->
          waitq s' (rd s tsk f_guard)
            (placed (fun x => rd s' x f_prio) tsk (w1 ++ w2)) /\
          rd s' tsk f_guard = rd s tsk f_guard /\
          rd s' tsk f_id = ID_DELAYED))).
    { intros s' G.
      destruct (Final s') as (A1 & A2 & A3 & A4).
      - intros. rewrite G, F3 by done. by apply F1.
      - intros. rewrite G. by apply F3.
      - intros. rewrite G, F3 by done. by apply F1.
      - split; [done|]. split; [done|]. split; [done|]. split; [done|].
        split; [done|]. intros _. split.
        + intros _. split; [|by rewrite G].
          rewrite (placed_ext (fun x => rd s3 x f_prio)); [|intros; apply G].
          rewrite Hpl. eapply ring_frame; [| |exact HR3]; intros; apply G.
        + intros Hd. rewrite Eid in Hd. done. }
    destruct (OS_ROBIN =? 0); [eexists; split; [done|by apply Fin3]|].
    destruct (_ >? _); eexists; (split; [done|]); by apply Fin3. }
  destruct (rd s tsk f_id =? ID_DELAYED) eqn:Eid2.
  { apply Z.eqb_eq in Eid2. apply Z.eqb_neq in Eid.
    destruct (Hdelayed Eid2) as (HQ & Hms).
    set (obj := rd s tsk f_guard) in *.
    set (s2 := core_tsk_unlink s1 tsk 0).
    assert (HQ1 : waitq s1 obj (w1 ++ tsk :: w2)).
    { eapply waitq_frame; [| |exact HQ]; intros; by apply F1. }
    assert (HQ2 : waitq s2 obj (w1 ++ w2)) by (by apply waitq_unlink).
    assert (Hg2 : rd s2 tsk f_guard = obj).
    { unfold s2. rewrite core_tsk_unlink_other by done. by apply F1. }
    rewrite Hg2.
    assert (NDq : NoDup (obj :: w1 ++ tsk :: w2)) by (by destruct HQ).
    assert (Ht0 : tsk ≠ 0).
    { destruct HQ as (_ & Hz & _). set_solver. }
    assert (Htq : tsk ∉ obj :: w1 ++ w2).
    { apply NoDup_cons in NDq as [N1 N2]. apply NoDup_app in N2 as (N3 & N4 & N5).
      apply NoDup_cons in N5 as [N5 N6].
      rewrite elem_of_cons, elem_of_app. intros [E'|[H|H]]; [|apply (N4 tsk H)|done].
      - rewrite <- E' in N1. set_solver.
      - set_solver. }
    destruct (waitq_append s2 obj (w1 ++ w2) tsk fuel HQ2 Htq Ht0)
      as (s' & k1 & k2 & Hk & Happ & HQ' & Hge & Hlt & Hg' & _ & Gq & Go & _).
    { lia. }
    exists s'. split; [done|].
    destruct (Final s') as (A1 & A2 & A3 & A4).
    - intros. rewrite Go by done. unfold s2.
      rewrite core_tsk_unlink_other by done. by apply F1.
    - intros. rewrite Go by done. unfold s2.
      by rewrite core_tsk_unlink_other.
    - intros m Hm. specialize (Hms m Hm).
      assert (Hback : rd s1 tsk f_back = hd obj (reverse w1)).
      { destruct HQ1 as (_ & _ & _ & Hb). apply backs_app in Hb as [_ Hb].
        simpl in Hb. tauto. }
      rewrite Gq.
      + unfold s2. rewrite core_tsk_unlink_queue, Hback.
        rewrite decide_False by (intros ->; set_solver).
        rewrite decide_False; [by apply F1|].
        intros ->. apply Hms.
        destruct (hd_reverse_in obj w1) as [->|H]; set_solver.
      + intros ->. set_solver.
      + set_solver.
    - split; [done|]. split; [done|]. split; [done|]. split; [done|].
      split; [done|]. intros _. split; [intros Hr; by rewrite Hr in Eid|].
      intros _. split; [|split; [done|]].
      + assert (Ep : forall x, rd s' x f_prio = rd s2 x f_prio).
        { intros. by rewrite Go. }
        rewrite (placed_ext (fun x => rd s2 x f_prio)); [|done].
        rewrite Hk. rewrite (placed_at _ tsk 0 k1 k2); done.
      + rewrite Go by done. unfold s2.
        rewrite core_tsk_unlink_other by done. by rewrite F1. }
  exists s1. split; [done|].
  destruct (Final s1) as (A1 & A2 & A3 & A4); intros; try done; try by apply F1.
  apply Z.eqb_neq in Eid, Eid2.
  split; [done|]. split; [done|]. split; [done|]. split; [done|].
  split; [done|]. intros _. split; intros Hx; by rewrite Hx in *.
Qed.

End Prio.

(** ** The byte ring of a message buffer *)

Lemma rdb_wrb s a v b :
  rdb (wrb s a v) b = if decide (a = b) then v else rdb s b.
Proof.
  unfold rdb, wrb; simpl. case_decide as E.
  - subst. by rewrite lookup_insert_eq.
  - by rewrite lookup_insert_ne.
Qed.

Lemma next_pos i L :
  0 <= i < L -> (if i + 1 >=? L then 0 else i + 1) = (i + 1) mod L.
Proof.
  intros H. destruct (i + 1 >=? L) eqn:E.
  - assert (i + 1 = L) as -> by lia. by rewrite Z.mod_same by lia.
  - rewrite Z.mod_small; lia.
Qed.

Lemma pos_shift i j L : ((i + 1) mod L + j) mod L = (i + (1 + j)) mod L.
Proof. rewrite Zplus_mod_idemp_l. f_equal. lia. Qed.

Lemma pos_inj i j1 j2 L :
  0 <= j1 < L -> 0 <= j2 < L ->
  (i + j1) mod L = (i + j2) mod L -> j1 = j2.
Proof.
  intros H1 H2 E.
  assert (HL : 0 < L) by lia.
  pose proof (Z.div_mod (i + j1) L ltac:(lia)) as D1.
  pose proof (Z.div_mod (i + j2) L ltac:(lia)) as D2.
  rewrite E in D1.
  assert (L * ((i + j1) / L - (i + j2) / L) = j1 - j2) by lia.
  assert ((i + j1) / L - (i + j2) / L = 0) by nia.
  lia.
Qed.

Lemma pos_range i j L : 0 < L -> 0 <= (i + j) mod L < L.
Proof. intros. by apply Z.mod_pos_bound. Qed.

Lemma source_byte_frame s s' data k :
  match data with
  | Bytes _ => True
  | Ptr a => rdb s' (a + k) = rdb s (a + k)
  end ->
  source_byte s' data k = source_byte s data k.
Proof. destruct data; simpl; done. Qed.

Lemma priv_msg_put_loop_spec msg data n : forall s k i,
  0 <= i < rd s msg f_limit -> Z.of_nat n <= rd s msg f_limit ->
  source_apart s msg data k n ->
  exists s',
    priv_msg_put_loop s msg data k i n =
      ((i + Z.of_nat n) mod rd s msg f_limit, s') /\
    heap s' = heap s /\ Counter s' = Counter s /\ cur s' = cur s /\
    pend s' = pend s /\
    (forall j, 0 <= j < Z.of_nat n ->
       rdb s' (rd s msg f_data + (i + j) mod rd s msg f_limit) =
         source_byte s data (k + j)) /\
    (forall a, (forall j, 0 <= j < Z.of_nat n ->
                  a ≠ rd s msg f_data + (i + j) mod rd s msg f_limit) ->
       rdb s' a = rdb s a).
Proof.
  induction n as [|n IH]; intros s k i Hi Hn Hsrc.
  - exists s. simpl. rewrite Z.add_0_r, Z.mod_small by done.
    split; [done|]. split; [done|]. split; [done|]. split; [done|].
    split; [done|]. split; [intros; exfalso; lia | done].
  - simpl priv_msg_put_loop.
    set (L := rd s msg f_limit) in *. set (d := rd s msg f_data) in *.
    set (s1 := wrb s (d + i) (source_byte s data k)).
    change (rd s1 msg f_limit) with L. rewrite (next_pos i L Hi).
    destruct (IH s1 (k + 1) ((i + 1) mod L))
      as (s' & Hloop & Hh & Hc & Hu & Hpe & Hw & Ho).
    { change (rd s1 msg f_limit) with L. apply pos_range. lia. }
    { change (rd s1 msg f_limit) with L. lia. }
    { destruct data as [bs|a]; [done|]. simpl in *. intros j x Hj Hx.
      change (rd s1 msg f_limit) with L in Hx. change (rd s1 msg f_data) with d.
      replace (a + (k + 1 + j)) with (a + (k + (1 + j))) by lia.
      apply Hsrc; lia. }
    change (rd s1 msg f_limit) with L in *. change (rd s1 msg f_data) with d in *.
    exists s'. rewrite Hloop. split.
    { f_equal. rewrite Zplus_mod_idemp_l. f_equal. lia. }
    split; [done|]. split; [done|]. split; [done|]. split; [done|]. split.
    + intros j Hj. destruct (decide (j = 0)) as [->|Hj0].
      * rewrite !Z.add_0_r, Z.mod_small by done. rewrite Ho.
        -- unfold s1. rewrite rdb_wrb. by rewrite decide_True.
        -- intros j' Hj' E. rewrite pos_shift in E.
           assert (E' : (i + 0) mod L = (i + (1 + j')) mod L).
           { rewrite Z.add_0_r, Z.mod_small by done. lia. }
           apply pos_inj in E'; lia.
      * replace j with (1 + (j - 1)) at 1 by lia. rewrite <- pos_shift.
        rewrite Hw by lia.
        replace (k + 1 + (j - 1)) with (k + j) by lia.
        apply source_byte_frame. destruct data as [bs|a]; [done|].
        unfold s1. rewrite rdb_wrb. rewrite decide_False; [done|].
        simpl in Hsrc. intros E. symmetry in E. revert E. apply Hsrc; lia.
    + intros a Ha. rewrite Ho.
      * unfold s1. rewrite rdb_wrb. rewrite decide_False; [done|].
        intros E. apply (Ha 0); [lia|]. by rewrite Z.add_0_r, Z.mod_small.
      * intros j Hj. rewrite pos_shift. apply Ha. lia.
Qed.

Lemma priv_msg_get_loop_spec msg data n : forall s k i,
  0 <= i < rd s msg f_limit ->
  dest_apart s msg data k n ->
  exists bs s',
    priv_msg_get_loop s msg data k i n =
      (bs, (i + Z.of_nat n) mod rd s msg f_limit, s') /\
    heap s' = heap s /\ Counter s' = Counter s /\ cur s' = cur s /\
    pend s' = pend s /\
    length bs = n /\
    (forall j, (j < n)%nat ->
       nth j bs 0 =
         rdb s (rd s msg f_data + (i + Z.of_nat j) mod rd s msg f_limit)) /\
    match data with
    | None => s' = s
    | Some b =>
        (forall j, 0 <= j < Z.of_nat n ->
           rdb s' (b + (k + j)) =
             rdb s (rd s msg f_data + (i + j) mod rd s msg f_limit)) /\
        (forall a, (forall j, 0 <= j < Z.of_nat n -> a ≠ b + (k + j)) ->
           rdb s' a = rdb s a)
    end.
Proof.
  induction n as [|n IH]; intros s k i Hi Hdst.
  - exists [], s. simpl. rewrite Z.add_0_r, Z.mod_small by done.
    split; [done|]. split; [done|]. split; [done|]. split; [done|].
    split; [done|]. split; [done|]. split; [intros; exfalso; lia|].
    destruct data; [|done]. split; [intros; exfalso; lia | done].
  - simpl priv_msg_get_loop.
    set (L := rd s msg f_limit) in *. set (d := rd s msg f_data) in *.
    set (s1 := store_byte s data k (rdb s (d + i))).
    assert (Hrd1 : forall p f, rd s1 p f = rd s p f).
    { intros. unfold s1. by destruct data. }
    rewrite !Hrd1. fold L. rewrite (next_pos i L Hi).
    destruct (IH s1 (k + 1) ((i + 1) mod L))
      as (bs & s' & Hloop & Hh & Hc & Hu & Hpe & Hlen & Hbs & Hm).
    { rewrite Hrd1. fold L. apply pos_range. lia. }
    { destruct data as [b|]; [|done]. simpl in *. intros j x Hj Hx.
      rewrite !Hrd1 in *. 
      replace (b + (k + 1 + j)) with (b + (k + (1 + j))) by lia.
      apply Hdst; lia. }
    rewrite !Hrd1 in *. fold L d in Hloop, Hbs, Hm.
    assert (Hring : forall x, 0 <= x < L -> rdb s1 (d + x) = rdb s (d + x)).
    { intros x Hx. unfold s1. destruct data as [b|]; [|done]. simpl.
      rewrite rdb_wrb. rewrite decide_False; [done|].
      simpl in Hdst. replace (b + k) with (b + (k + 0)) by lia.
      apply Hdst; lia. }
    exists (rdb s (d + i) :: bs), s'. rewrite Hloop. split.
    { f_equal. f_equal. rewrite Zplus_mod_idemp_l. f_equal. lia. }
    split; [by rewrite Hh; unfold s1; destruct data|].
    split; [by rewrite Hc; unfold s1; destruct data|].
    split; [by rewrite Hu; unfold s1; destruct data|].
    split; [by rewrite Hpe; unfold s1; destruct data|].
    split; [simpl; by rewrite Hlen|]. split.
    + intros [|j] Hj; simpl.
      * by rewrite Z.add_0_r, Z.mod_small.
      * rewrite Hbs by lia. rewrite pos_shift.
        replace (i + (1 + Z.of_nat j)) with (i + Z.pos (Pos.of_succ_nat j)) by lia.
        apply Hring. apply pos_range. lia.
    + destruct data as [b|]; [|by subst s'].
      destruct Hm as [Hm1 Hm2]. split.
      * intros j Hj. destruct (decide (j = 0)) as [->|Hj0].
        -- rewrite !Z.add_0_r, Z.mod_small by done. rewrite Hm2.
           ++ unfold s1. simpl. rewrite rdb_wrb.
              rewrite decide_True; [done|lia].
           ++ intros j' Hj'. lia.
        -- replace (b + (k + j)) with (b + (k + 1 + (j - 1))) by lia.
           rewrite Hm1 by lia. rewrite pos_shift.
           replace (i + (1 + (j - 1))) with (i + j) by lia.
           apply Hring. apply pos_range. lia.
      * intros a Ha. rewrite Hm2.
        -- unfold s1. simpl. rewrite rdb_wrb. rewrite decide_False; [done|].
           intros E. apply (Ha 0); lia.
        -- intros j Hj. replace (b + (k + 1 + j)) with (b + (k + (1 + j))) by lia.
           apply Ha. lia.
Qed.

Lemma priv_msg_peek_loop_get msg data n : forall s k i,
  priv_msg_peek_loop s msg data k i n =
    (let '(bs, _, s') := priv_msg_get_loop s msg data k i n in (bs, s')).
Proof.
  induction n as [|n IH]; intros s k i; simpl; [done|].
  rewrite IH. by destruct (priv_msg_get_loop _ _ _ _ _ _) as [[bs i'] s'].
Qed.

Lemma of_bytes_nth (bs bs' : list Z) :
  (forall j, (j < 4)%nat -> nth j bs 0 = nth j bs' 0) ->
  Word.of_bytes bs = Word.of_bytes bs'.
Proof. intros H. unfold Word.of_bytes. rewrite !H by lia. done. Qed.

Lemma of_to_bytes v : Word.in_range v -> Word.of_bytes (Word.to_bytes v) = v.
Proof.
  unfold Word.in_range, Word.modulus, Word.of_bytes, Word.to_bytes. simpl.
  intros H.
  pose proof (Z.div_mod v 256 ltac:(lia)).
  pose proof (Z.div_mod (v / 256) 256 ltac:(lia)).
  pose proof (Z.div_mod (v / 65536) 256 ltac:(lia)).
  pose proof (Z.div_mod (v / 16777216) 256 ltac:(lia)).
  assert (v / 65536 = v / 256 / 256) by (rewrite Z.div_div by lia; done).
  assert (v / 16777216 = v / 65536 / 256) by (rewrite Z.div_div by lia; done).
  assert (v / 16777216 / 256 = 0).
  { rewrite Z.div_div by lia. apply Z.div_small. lia. }
  lia.
Qed.

(** What [priv_msg_put] does to a buffer whose storage is apart from the
    source of the copy. *)
Lemma priv_msg_put_spec s msg data size :
  0 <= rd s msg f_tail < rd s msg f_limit ->
  0 <= size <= rd s msg f_limit ->
  source_apart s msg data 0 (Z.to_nat size) ->
  let s' := priv_msg_put s msg data size in
  rd s' msg f_count = Word.add (rd s msg f_count) size /\
  rd s' msg f_tail = (rd s msg f_tail + size) mod rd s msg f_limit /\
  (forall p f, (p, f) ≠ (msg, f_count) -> (p, f) ≠ (msg, f_tail) ->
     heap s' !! (p, f) = heap s !! (p, f)) /\
  Counter s' = Counter s /\ cur s' = cur s /\ pend s' = pend s /\
  (forall j, 0 <= j < size ->
     rdb s' (rd s msg f_data + (rd s msg f_tail + j) mod rd s msg f_limit) =
       source_byte s data j) /\
  (forall a, (forall j, 0 <= j < size ->
                a ≠ rd s msg f_data + (rd s msg f_tail + j) mod rd s msg f_limit) ->
     rdb s' a = rdb s a).
Proof.
  intros Ht Hs Hsrc s'. unfold s', priv_msg_put.
  set (s0 := wr s msg f_count (Word.add (rd s msg f_count) size)).
  assert (R0 : forall p f, f ≠ f_count -> rd s0 p f = rd s p f).
  { intros. unfold s0. by rewrite rd_wr_field. }
  destruct (priv_msg_put_loop_spec msg data (Z.to_nat size) s0 0 (rd s msg f_tail))
    as (s1 & Hloop & Hh & Hc & Hu & Hpe & Hw & Ho).
  { by rewrite R0. }
  { rewrite R0 by done. lia. }
  { destruct data as [bs|a]; [done|]. simpl in *. intros j x Hj Hx.
    rewrite !R0 in * by done. by apply Hsrc. }
  rewrite Hloop. rewrite !R0 in * by done.
  rewrite Z2Nat.id in * by lia.
  assert (R1 : forall p f, rd s1 p f = rd s0 p f).
  { intros. unfold rd. by rewrite Hh. }
  split.
  { rewrite rd_wr_field, R1 by done. unfold s0. apply rd_wr_same. }
  split; [apply rd_wr_same|]. split.
  { intros p f H1 H2. unfold wr. simpl. rewrite lookup_insert_ne by done.
    rewrite Hh. unfold s0, wr. simpl. by rewrite lookup_insert_ne. }
  split; [done|]. split; [done|]. split; [done|]. split.
  - intros j Hj. change (rdb (wr s1 msg f_tail _) ?a) with (rdb s1 a).
    rewrite Hw by done. rewrite Z.add_0_l. by destruct data.
  - intros a Ha. change (rdb (wr s1 msg f_tail _) ?a) with (rdb s1 a).
    by rewrite Ho.
Qed.

(** What [priv_msg_get] does when its destination is apart from the storage
    of the buffer. *)
Lemma priv_msg_get_spec s msg data size :
  0 <= rd s msg f_head < rd s msg f_limit ->
  0 <= size ->
  dest_apart s msg data 0 (Z.to_nat size) ->
  exists bs s',
    priv_msg_get s msg data size = (bs, s') /\
    rd s' msg f_count = Word.sub (rd s msg f_count) size /\
    rd s' msg f_head = (rd s msg f_head + size) mod rd s msg f_limit /\
    (forall p f, (p, f) ≠ (msg, f_count) -> (p, f) ≠ (msg, f_head) ->
       heap s' !! (p, f) = heap s !! (p, f)) /\
    Counter s' = Counter s /\ cur s' = cur s /\ pend s' = pend s /\
    length bs = Z.to_nat size /\
    (forall j, (j < Z.to_nat size)%nat ->
       nth j bs 0 =
         rdb s (rd s msg f_data +
                (rd s msg f_head + Z.of_nat j) mod rd s msg f_limit)) /\
    match data with
    | None => mem s' = mem s
    | Some b =>
        (forall j, 0 <= j < size ->
           rdb s' (b + j) =
             rdb s (rd s msg f_data + (rd s msg f_head + j) mod rd s msg f_limit)) /\
        (forall a, (forall j, 0 <= j < size -> a ≠ b + j) -> rdb s' a = rdb s a)
    end.
Proof.
  intros Hh Hs Hdst. unfold priv_msg_get.
  set (s0 := wr s msg f_count (Word.sub (rd s msg f_count) size)).
  assert (R0 : forall p f, f ≠ f_count -> rd s0 p f = rd s p f).
  { intros. unfold s0. by rewrite rd_wr_field. }
  destruct (priv_msg_get_loop_spec msg data (Z.to_nat size) s0 0 (rd s msg f_head))
    as (bs & s1 & Hloop & Hhp & Hc & Hu & Hpe & Hlen & Hbs & Hm).
  { by rewrite R0. }
  { destruct data as [b|]; [|done]. simpl in *. intros j x Hj Hx.
    rewrite !R0 in * by done. by apply Hdst. }
  rewrite Hloop. rewrite !R0 in * by done.
  rewrite Z2Nat.id in * by lia.
  assert (R1 : forall p f, rd s1 p f = rd s0 p f).
  { intros. unfold rd. by rewrite Hhp. }
  exists bs, (wr s1 msg f_head ((rd s msg f_head + size) mod rd s msg f_limit)).
  split; [done|]. split.
  { rewrite rd_wr_field, R1 by done. unfold s0. apply rd_wr_same. }
  split; [apply rd_wr_same|]. split.
  { intros p f H1 H2. unfold wr. simpl. rewrite lookup_insert_ne by done.
    rewrite Hhp. unfold s0, wr. simpl. by rewrite lookup_insert_ne. }
  split; [done|]. split; [done|]. split; [done|]. split; [done|]. split; [done|].
  destruct data as [b|].
  - destruct Hm as [Hm1 Hm2]. split.
    + intros j Hj. change (rdb (wr s1 msg f_head _) ?a) with (rdb s1 a).
      specialize (Hm1 j Hj). by rewrite Z.add_0_l in Hm1.
    + intros a Ha. change (rdb (wr s1 msg f_head _) ?a) with (rdb s1 a).
      apply Hm2. intros j Hj. rewrite Z.add_0_l. by apply Ha.
  - by subst s1.
Qed.

Lemma priv_msg_count_spec s msg :
  0 <= rd s msg f_head < rd s msg f_limit ->
  0 < rd s msg f_count ->
  exists bs, length bs = 4%nat /\
    priv_msg_count s msg = Word.of_bytes bs /\
    forall j, (j < 4)%nat ->
      nth j bs 0 =
        rdb s (rd s msg f_data +
               (rd s msg f_head + Z.of_nat j) mod rd s msg f_limit).
Proof.
  intros Hh Hc. unfold priv_msg_count, priv_msg_peek.
  assert ((rd s msg f_count >? 0) = true) as -> by lia.
  rewrite priv_msg_peek_loop_get.
  destruct (priv_msg_get_loop_spec msg None (Z.to_nat sizeof_unsigned) s 0
              (rd s msg f_head) Hh)
    as (bs & s1 & Hloop & _ & _ & _ & _ & Hlen & Hbs & _); [done|].
  rewrite Hloop. simpl. exists bs. done.
Qed.

(** ** Sending into an empty buffer with one blocked receiver *)

Lemma pos_add i a b L : ((i + a) mod L + b) mod L = (i + (a + b)) mod L.
Proof. rewrite Zplus_mod_idemp_l. f_equal. lia. Qed.


Section Send.

Variables OS_ROBIN IDLE WAIT : Z.
Variables (s : sys) (msg t data size : Z) (rl dl ws : list Z) (fuel : nat).

Hypothesis Hmsg : msg ≠ 0.
Hypothesis Hdata : data ≠ 0.
Hypothesis HR : ring s IDLE rl.
Hypothesis HW : ring s WAIT dl.
Hypothesis ND : NoDup (IDLE :: rl ++ WAIT :: dl).
Hypothesis Hidle : rd s IDLE f_prio = 0.
Hypothesis HQ : waitq s msg (t :: ws).
Hypothesis Ht : t ∈ dl.
Hypothesis Hp : 0 <= rd s t f_prio.
Hypothesis Hpos : forall x, x ∈ rl -> 0 <= rd s x f_prio.
Hypothesis Hf : (length rl + 2 < fuel)%nat.
Hypothesis Hcount : rd s msg f_count = 0.
Hypothesis Htail : rd s msg f_tail = rd s msg f_head.
Hypothesis Hh : 0 <= rd s msg f_head < rd s msg f_limit.
Hypothesis HL : rd s msg f_limit < Word.modulus.
Hypothesis Hsize : 0 < size.
Hypothesis Hfit : size + 4 <= rd s msg f_limit.
Hypothesis Hsrc : forall j x, 0 <= j < size -> 0 <= x < rd s msg f_limit ->
  data + j ≠ rd s msg f_data + x.

(** The state once the length prefix and the payload are in the ring. *)
Lemma message_stored :
  exists sa sb,
    priv_msg_putSize s msg size = Some sa /\
    sb = priv_msg_put sa msg (Ptr data) size /\
    rd sb msg f_count = 4 + size /\
    rd sb msg f_tail = (rd s msg f_head + (4 + size)) mod rd s msg f_limit /\
    (forall p f, (p, f) ≠ (msg, f_count) -> (p, f) ≠ (msg, f_tail) ->
       heap sb !! (p, f) = heap s !! (p, f)) /\
    Counter sb = Counter s /\ cur sb = cur s /\ pend sb = pend s /\
    (forall j, 0 <= j < size ->
       rdb sb (rd s msg f_data +
               (rd s msg f_head + (4 + j)) mod rd s msg f_limit) =
         rdb s (data + j)) /\
    (forall a, (forall x, 0 <= x < rd s msg f_limit ->
                  a ≠ rd s msg f_data + x) -> rdb sb a = rdb s a) /\
    (forall j, 0 <= j < 4 ->
       rdb sb (rd s msg f_data + (rd s msg f_head + j) mod rd s msg f_limit) =
         nth (Z.to_nat j) (Word.to_bytes size) 0) /\
    priv_msg_count sb msg = size.
Proof.
  set (L := rd s msg f_limit) in *. set (d := rd s msg f_data) in *.
  set (h := rd s msg f_head) in *.
  unfold priv_msg_putSize.
  assert ((size =? 0) = false) as -> by lia. simpl.
  set (sa := priv_msg_put s msg (Bytes (Word.to_bytes size)) sizeof_unsigned).
  destruct (priv_msg_put_spec s msg (Bytes (Word.to_bytes size)) sizeof_unsigned)
    as (Ac & At & Ah & AC & Au & Ape & Aw & Ao).
  { rewrite Htail. done. }
  { unfold sizeof_unsigned. fold L. lia. }
  { done. }
  fold sa in Ac, At, Ah, AC, Au, Ape, Aw, Ao.
  fold L d in Ac, At, Ah, Aw, Ao. rewrite Htail in At, Aw, Ao. fold h in At, Aw, Ao.
  rewrite Hcount in Ac. unfold sizeof_unsigned in *.
  assert (RA : forall p f, f ≠ f_count -> f ≠ f_tail -> rd sa p f = rd s p f).
  { intros. apply rd_heap, Ah; congruence. }
  set (sb := priv_msg_put sa msg (Ptr data) size).
  assert (EL : rd sa msg f_limit = L) by (by apply RA).
  assert (Ed : rd sa msg f_data = d) by (by apply RA).
  destruct (priv_msg_put_spec sa msg (Ptr data) size)
    as (Bc & Bt & Bh & BC & Bu & Bpe & Bw & Bo).
  { rewrite At, EL. apply pos_range. lia. }
  { rewrite EL. lia. }
  { simpl. intros j x Hj Hx. rewrite EL in Hx. rewrite Ed, Z.add_0_l.
    apply Hsrc; [lia|done]. }
  fold sb in Bc, Bt, Bh, BC, Bu, Bpe, Bw, Bo.
  rewrite EL, Ed, At in *.
  assert (E4 : Word.add 0 4 = 4) by done.
  rewrite Ac, E4 in Bc.
  assert (Ecount : Word.add 4 size = 4 + size).
  { apply wrap_small. unfold Word.in_range. lia. }
  rewrite Ecount in Bc.
  assert (Hsb : forall p f, (p, f) ≠ (msg, f_count) -> (p, f) ≠ (msg, f_tail) ->
            heap sb !! (p, f) = heap s !! (p, f)).
  { intros p f H1 H2. rewrite Bh, Ah by done. done. }
  exists sa, sb. split; [done|]. split; [done|]. split; [done|]. split.
  { rewrite Bt. apply pos_add. }
  split; [done|].
  split; [congruence|]. split; [congruence|]. split; [congruence|].
  assert (Bdata : forall j, 0 <= j < size ->
            rdb sb (d + (h + (4 + j)) mod L) = rdb s (data + j)).
  { intros j Hj. rewrite <- pos_add. rewrite Bw by done. simpl.
    apply Ao. intros j' Hj' E. revert E. apply Hsrc; [done|].
    apply pos_range. lia. }
  assert (Bsize : forall j, 0 <= j < 4 ->
            rdb sb (d + (h + j) mod L) = nth (Z.to_nat j) (Word.to_bytes size) 0).
  { intros j Hj. rewrite Bo.
    - rewrite Aw by done. done.
    - intros j' Hj' E. rewrite pos_add in E.
      assert (E' : (h + j) mod L = (h + (4 + j')) mod L) by lia.
      apply pos_inj in E'; lia. }
  split; [done|]. split.
  { intros a Ha. rewrite Bo.
    - apply Ao. intros j Hj. apply Ha. apply pos_range. lia.
    - intros j Hj. apply Ha. apply pos_range. lia. }
  split; [done|].
  destruct (priv_msg_count_spec sb msg) as (bs & Hlen & Hcnt & Hbs).
  { rewrite (rd_heap s sb msg f_head) by (apply Hsb; congruence).
    rewrite (rd_heap s sb msg f_limit) by (apply Hsb; congruence). done. }
  { lia. }
  rewrite Hcnt. rewrite <- (of_to_bytes size) at 1.
  2:{ unfold Word.in_range. lia. }
  apply of_bytes_nth. intros j Hj. rewrite Hbs by done.
  rewrite (rd_heap s sb msg f_data) by (apply Hsb; congruence).
  rewrite (rd_heap s sb msg f_head) by (apply Hsb; congruence).
  rewrite (rd_heap s sb msg f_limit) by (apply Hsb; congruence).
  fold L d h. rewrite Bsize by lia. by rewrite Nat2Z.id.
Qed.

Opaque priv_msg_get priv_msg_put priv_msg_count core_tsk_wakeup.

Lemma space_of_empty : priv_msg_space s msg = rd s msg f_limit - 4.
Proof.
  unfold priv_msg_space, sizeof_unsigned. rewrite Hcount. simpl.
  assert (E : Word.sub (rd s msg f_limit) 0 = rd s msg f_limit).
  { unfold Word.sub. rewrite Z.sub_0_r. apply wrap_small.
    unfold Word.in_range. lia. }
  rewrite E. assert ((rd s msg f_limit >? 4) = true) as -> by lia.
  unfold Word.sub. apply wrap_small. unfold Word.in_range. lia.
Qed.

Lemma msg_give_stores sb :
  sb = priv_msg_put
         (priv_msg_put s msg (Bytes (Word.to_bytes size)) sizeof_unsigned)
         msg (Ptr data) size ->
  msg_give OS_ROBIN IDLE fuel s msg data size =
    (s' ← priv_msg_putUpdate_loop OS_ROBIN IDLE fuel sb msg; Some (size, s')).
Proof.
  intros ->. unfold msg_give, priv_msg_putUpdate, priv_msg_putSize.
  rewrite !asserted by done. rewrite space_of_empty.
  assert ((size >? 0) = true) as -> by lia.
  assert ((size <=? rd s msg f_limit - 4) = true) as -> by lia.
  assert ((size =? 0) = false) as -> by lia. done.
Qed.

(** The first pass of the loop of [priv_msg_putUpdate]: the message goes
    through the storage of the buffer to the first blocked receiver, whose
    request is large enough. *)
Lemma first_receiver_served :
  size <= rd s t f_tmp_size < Word.modulus ->
  (forall j x, 0 <= j < size -> 0 <= x < rd s msg f_limit ->
     rd s t f_tmp_data + j ≠ rd s msg f_data + x) ->
  exists s',
    msg_give OS_ROBIN IDLE fuel s msg data size =
      (s'' ← priv_msg_putUpdate_loop OS_ROBIN IDLE (Nat.pred fuel) s' msg;
       Some (size, s'')) /\
    rd s' t f_event = E_SUCCESS /\ rd s' t f_id = ID_READY /\
    waitq s' msg ws /\
    rd s' t f_tmp_size = rd s t f_tmp_size - size /\
    (forall u, cur u = t -> rd u t f_tmp_size = rd s' t f_tmp_size ->
       priv_msg_wait_result u (rd s t f_tmp_size) = size) /\
    (forall j, 0 <= j < size ->
       rdb s' (rd s t f_tmp_data + j) = rdb s (data + j)) /\
    rd s' msg f_count = 0 /\
    rd s' msg f_head = rd s' msg f_tail /\
    (forall j, 0 <= j < size ->
       rdb s' (rd s msg f_data +
               (rd s msg f_head + (4 + j)) mod rd s msg f_limit) =
         rdb s (data + j)) /\
    (forall j, 0 <= j < 4 ->
       rdb s' (rd s msg f_data + (rd s msg f_head + j) mod rd s msg f_limit) =
         nth (Z.to_nat j) (Word.to_bytes size) 0) /\
    ring s' IDLE (placed (fun x => rd s x f_prio) t rl) /\
    ring s' WAIT (list_difference dl [t]) /\
    (forall p, p ≠ t -> rd s' p f_event = rd s p f_event) /\
    (forall p, p ≠ t -> rd s' p f_tmp_size = rd s p f_tmp_size).
Proof.
  intros Hcap Hdst.
  destruct message_stored
    as (sa & sb & Hsa & Hsb & Bc & Bt & Bh & BC & Bu & Bpe & Bd & Bo & Bsz & Bcnt).
  unfold priv_msg_putSize in Hsa.
  assert ((size =? 0) = false) as E0 by lia. rewrite E0 in Hsa. simpl in Hsa.
  injection Hsa as <-.
  rewrite (msg_give_stores sb Hsb).
  set (L := rd s msg f_limit) in *. set (d := rd s msg f_data) in *.
  set (h := rd s msg f_head) in *. set (cap := rd s t f_tmp_size) in *.
  set (buf := rd s t f_tmp_data) in *.
  assert (Rb : forall p f, f ≠ f_count -> f ≠ f_tail -> rd sb p f = rd s p f).
  { intros. apply rd_heap, Bh; congruence. }
  assert (Htq : rd s msg f_queue = t) by (by apply (waitq_head _ _ _ _ HQ)).
  assert (Ht0 : t ≠ 0).
  { destruct HQ as (_ & H0 & _). set_solver. }
  (* the length prefix is taken out *)
  destruct (priv_msg_get_spec sb msg None sizeof_unsigned)
    as (bs & sc & Hgc & Cc & Ch & Cf & CC & Cu & Cpe & Clen & Cbs & Cm).
  { rewrite !Rb by done. done. }
  { done. }
  { done. }
  assert (ELb : rd sb msg f_limit = L) by (by apply Rb).
  assert (Edb : rd sb msg f_data = d) by (by apply Rb).
  assert (Ehb : rd sb msg f_head = h) by (by apply Rb).
  rewrite ELb, Edb, Ehb in *.
  rewrite Bc in Cc. unfold sizeof_unsigned in *.
  assert (Ecs : Word.sub (4 + size) 4 = size).
  { unfold Word.sub. replace (4 + size - 4) with size by lia.
    apply wrap_small. unfold Word.in_range. lia. }
  rewrite Ecs in Cc.
  assert (Ebs : Word.of_bytes bs = size).
  { rewrite <- (of_to_bytes size) at 1 by (unfold Word.in_range; lia).
    apply of_bytes_nth. intros j Hj. rewrite Cbs by (simpl; lia).
    rewrite Bsz by lia. by rewrite Nat2Z.id. }
  assert (Rc : forall p f, f ≠ f_count -> f ≠ f_tail -> f ≠ f_head ->
                 rd sc p f = rd s p f).
  { intros. rewrite <- Rb by done. apply rd_heap, Cf; congruence. }
  (* the payload is copied to the receiver *)
  destruct (priv_msg_get_spec sc msg (Some buf) size)
    as (bs2 & sd & Hgd & Dc & Dh & Df & DC & Du & Dpe & _ & _ & Dm1 & Dm2).
  { rewrite Ch, Rc by done. apply pos_range. fold L. lia. }
  { lia. }
  { simpl. intros j x Hj Hx. rewrite !Rc in * by done. rewrite Z.add_0_l.
    apply Hdst; [lia|done]. }
  assert (ELc : rd sc msg f_limit = L) by (by apply Rc).
  assert (Edc : rd sc msg f_data = d) by (by apply Rc).
  rewrite ELc, Edc, Ch in *. rewrite Cc in Dc.
  assert (Ess : Word.sub size size = 0) by apply sub_self.
  rewrite Ess in Dc. rewrite pos_add in Dh.
  assert (Rd : forall p f, f ≠ f_count -> f ≠ f_tail -> f ≠ f_head ->
                 rd sd p f = rd s p f).
  { intros. rewrite <- Rc by done. apply rd_heap, Df; congruence. }
  set (se := wr sd t f_tmp_size (Word.sub cap size)).
  assert (Re : forall p f, f ≠ f_count -> f ≠ f_tail -> f ≠ f_head ->
                 f ≠ f_tmp_size -> rd se p f = rd s p f).
  { intros. unfold se. rewrite rd_wr_field by done. by apply Rd. }
  assert (HRe : ring se IDLE rl).
  { eapply ring_frame; [| |exact HR]; intros; by apply Re. }
  assert (HWe : ring se WAIT dl).
  { eapply ring_frame; [| |exact HW]; intros; by apply Re. }
  assert (HQe : waitq se msg (t :: ws)).
  { eapply waitq_frame; [| |exact HQ]; intros; by apply Re. }
  apply list_elem_of_split in Ht as (d1 & d2 & ->).
  assert (NDd : NoDup (d1 ++ t :: d2)).
  { apply NoDup_cons in ND as [_ N]. apply NoDup_app in N as (_ & _ & N).
    by apply NoDup_cons in N as [_ N]. }
  destruct (core_tsk_wakeup_placed OS_ROBIN IDLE WAIT se rl d1 t d2 msg [] ws
              E_SUCCESS fuel HRe HWe ND)
    as (s' & Hwk & HR' & HW' & HQ' & Hev & Hid & _ & Fev & _ & _ & SP);
    [by rewrite Re | by rewrite Re
     | intros x Hx; rewrite Re by done; by apply Hpos | done | lia |].
  destruct fuel as [|[|fuel']]; [lia|lia|].
  exists s'. split.
  { remember (S fuel') as n. simpl.
    rewrite !Rb by done. rewrite Htq.
    rewrite (proj2 (Z.eqb_neq t 0) Ht0). simpl. rewrite Bcnt.
    fold cap. assert ((cap >=? size) = true) as -> by lia.
    unfold priv_msg_getSize. rewrite Bc.
    assert ((4 + size =? 0) = false) as -> by lia. simpl.
    unfold sizeof_unsigned. rewrite Hgc. simpl. rewrite Ebs.
    rewrite !Rc by done. rewrite Htq. fold buf. rewrite Hgd.
    rewrite !Rd by done. rewrite Htq. fold cap. fold se.
    rewrite Re by done. rewrite Htq, Hwk. simpl.
    subst n. done. }
  split; [done|]. split; [done|]. split; [done|].
  destruct SP as (SM & SC & _ & SPh).
  assert (R' : forall p f, ~ linkage f -> rd s' p f = rd se p f).
  { intros. by apply rd_heap, SPh. }
  assert (Ecap : Word.sub cap size = cap - size).
  { apply wrap_small. unfold Word.in_range. lia. }
  assert (Etmp : rd s' t f_tmp_size = cap - size).
  { rewrite R' by (by apply not_linkage). unfold se. rewrite rd_wr_same. done. }
  assert (Mem : forall a, rdb s' a = rdb sd a).
  { intros a. unfold rdb. by rewrite SM. }
  split; [done|]. split.
  { intros u Hu Hus. unfold priv_msg_wait_result. rewrite Hu, Hus, Etmp.
    unfold Word.sub. replace (cap - (cap - size)) with size by lia.
    apply wrap_small. unfold Word.in_range. lia. }
  split.
  { intros j Hj. rewrite Mem, Dm1 by done. rewrite pos_add.
    assert (Hcb : forall a, rdb sc a = rdb sb a).
    { intros a. unfold rdb. by rewrite Cm. }
    rewrite Hcb. by apply Bd. }
  split.
  { rewrite R' by (by apply not_linkage). unfold se.
    rewrite rd_wr_field by done. done. }
  split.
  { rewrite !R' by (by apply not_linkage). unfold se.
    rewrite !rd_wr_field by done. rewrite Dh.
    rewrite (rd_heap sc sd) by (apply Df; congruence).
    rewrite (rd_heap sb sc) by (apply Cf; congruence). by rewrite Bt. }
  assert (Hcb : forall a, rdb sc a = rdb sb a).
  { intros a. unfold rdb. by rewrite Cm. }
  split.
  { intros j Hj. rewrite Mem, Dm2.
    - rewrite Hcb. by apply Bd.
    - intros j' Hj' E. symmetry in E. revert E. apply Hdst; [done|].
      apply pos_range. fold L. lia. }
  split.
  { intros j Hj. rewrite Mem, Dm2.
    - rewrite Hcb. by apply Bsz.
    - intros j' Hj' E. symmetry in E. revert E. apply Hdst; [done|].
      apply pos_range. fold L. lia. }
  split.
  { rewrite (placed_ext (fun x => rd s x f_prio) (fun x => rd se x f_prio))
      in HR'; [done|].
    intros x. by apply Re. }
  split; [by rewrite list_difference_one|].
  split.
  { intros p Hp'. rewrite Fev by done. by apply Re. }
  intros p Hp'. rewrite R' by (by apply not_linkage). unfold se.
  rewrite rd_wr_ptr by done.
  rewrite (rd_heap sc sd) by (apply Df; congruence).
  rewrite (rd_heap sb sc) by (apply Cf; congruence).
  by apply Rb.
Qed.

Transparent priv_msg_get priv_msg_put priv_msg_count core_tsk_wakeup.

End Send.

(** C8: a send of [size] bytes into an empty buffer with one
    blocked receiver whose request is large enough (buffer and message not
    null, as [msg_give] asserts) wakes the receiver with [E_SUCCESS]: it
    leaves the timer ring and takes its place in the ready ring; its
    receive returns [size], its buffer holds the bytes sent and the buffer
    is empty again; the message travels through the storage of the buffer,
    where its length and its bytes remain. *)
Theorem msg_give_rendezvous OS_ROBIN IDLE WAIT s msg t data size rl dl fuel :
  msg ≠ 0 -> data ≠ 0 ->
  ring s IDLE rl -> ring s WAIT dl ->
  NoDup (IDLE :: rl ++ WAIT :: dl) ->
  rd s IDLE f_prio = 0 ->
  waitq s msg [t] -> t ∈ dl -> 0 <= rd s t f_prio ->
  (forall x, x ∈ rl -> 0 <= rd s x f_prio) ->
  (length rl + 2 < fuel)%nat ->
  rd s msg f_count = 0 ->
  rd s msg f_tail = rd s msg f_head ->
  0 <= rd s msg f_head < rd s msg f_limit ->
  rd s msg f_limit < Word.modulus ->
  0 < size ->
  size + 4 <= rd s msg f_limit ->
  (forall j x, 0 <= j < size -> 0 <= x < rd s msg f_limit ->
     data + j ≠ rd s msg f_data + x) ->
  size <= rd s t f_tmp_size < Word.modulus ->
  (forall j x, 0 <= j < size -> 0 <= x < rd s msg f_limit ->
     rd s t f_tmp_data + j ≠ rd s msg f_data + x) ->
  exists s',
    msg_give OS_ROBIN IDLE fuel s msg data size = Some (size, s') /\
    rd s' t f_event = E_SUCCESS /\ rd s' t f_id = ID_READY /\
    waitq s' msg [] /\
    rd s' t f_tmp_size = rd s t f_tmp_size - size /\
    (forall u, cur u = t -> rd u t f_tmp_size = rd s' t f_tmp_size ->
       priv_msg_wait_result u (rd s t f_tmp_size) = size) /\
    (forall j, 0 <= j < size ->
       rdb s' (rd s t f_tmp_data + j) = rdb s (data + j)) /\
    rd s' msg f_count = 0 /\
    rd s' msg f_head = rd s' msg f_tail /\
    (forall j, 0 <= j < size ->
       rdb s' (rd s msg f_data +
               (rd s msg f_head + (4 + j)) mod rd s msg f_limit) =
         rdb s (data + j)) /\
    (forall j, 0 <= j < 4 ->
       rdb s' (rd s msg f_data + (rd s msg f_head + j) mod rd s msg f_limit) =
         nth (Z.to_nat j) (Word.to_bytes size) 0) /\
    ring s' IDLE (placed (fun x => rd s x f_prio) t rl) /\
    ring s' WAIT (list_difference dl [t]) /\
    (forall p, p ≠ t -> rd s' p f_event = rd s p f_event).
Proof.
  intros Hmsg Hdata HR HW ND Hidle HQ Ht Hp Hpos Hf Hcount Htail Hh HL Hsize
    Hfit Hsrc Hcap Hdst.
  destruct (first_receiver_served OS_ROBIN IDLE WAIT s msg t data size rl dl []
              fuel Hmsg Hdata HR HW ND Hidle HQ Ht Hp Hpos Hf Hcount Htail Hh
              HL Hsize Hfit Hsrc Hcap Hdst)
    as (s' & Hg & H1 & H2 & HQ' & H3 & H4 & H5 & H6 & H7 & H8 & H9 & H10 &
        H11 & H12 & _).
  exists s'. split; [|done].
  rewrite Hg. destruct fuel as [|[|fuel']]; [lia|lia|].
  simpl. by rewrite (waitq_empty _ _ HQ').
Qed.

(** ** The two sources of [E_TIMEOUT] *)



Section Timeouts.

Variables OS_ROBIN OS_TIMER IDLE WAIT : Z.
Variable run : Z -> sys -> option sys.
Variable recount : Z -> Z.



End Timeouts.

(** * Further properties *)

(** ** Rings and wait queues: insertion and removal compose *)

(** The place before [hd r l2] in a ring. *)
Lemma ring_gap s r l1 l2 :
  ring s r (l1 ++ l2) ->
  rd s (hd r l2) f_prev = hd r (reverse l1) /\
  rd s (hd r (reverse l1)) f_next = hd r l2 /\
  hd r (reverse l1) ∈ r :: l1 ++ l2 /\ hd r l2 ∈ r :: l1 ++ l2.
Proof.
  intros HR.
  destruct (ring_split _ _ _ _ HR) as (B & a & B' & EB & EB' & Hn1 & _ & Hp1 & _).
  destruct (snoc_cases r l1) as (B0 & a0 & EB0 & Ea0).
  assert (a0 = a) as ->.
  { rewrite EB in EB0. by apply app_inj_tail in EB0 as [_ ?]. }
  rewrite <- Ea0.
  apply lseg_snoc in Hp1 as [_ Hp1]. apply lseg_snoc in Hn1 as [_ Hn1].
  split; [done|]. split; [done|]. split.
  - assert (a ∈ r :: l1) by (rewrite EB; set_solver). set_solver.
  - destruct (hd_in r l2) as [->|H]; set_solver.
Qed.


(** X1: inserting an object into a ring and removing it again restores the
    ring and every field of every other object. *)
Theorem priv_rdy_insert_remove s r l1 l2 obj id :
  ring s r (l1 ++ l2) -> obj ∉ r :: l1 ++ l2 ->
  let s1 := priv_rdy_insert s obj id (hd r l2) in
  let s2 := priv_rdy_remove s1 obj in
  ring s1 r (l1 ++ obj :: l2) /\ rd s1 obj f_id = id /\
  ring s2 r (l1 ++ l2) /\ rd s2 obj f_id = ID_STOPPED /\
  (forall p f, p ≠ obj -> rd s2 p f = rd s p f).
Proof.
  intros HR Hobj s1 s2.
  destruct (ring_gap _ _ _ _ HR) as (Hprv & Hnxt & Hpin & Hnin).
  set (nxt := hd r l2) in *. set (prv := hd r (reverse l1)) in *.
  assert (Hon : obj ≠ nxt) by (intros ->; done).
  assert (Hop : obj ≠ prv) by (intros ->; done).
  assert (HR1 : ring s1 r (l1 ++ obj :: l2)) by (by apply ring_insert).
  assert (E1 : rd s1 obj f_next = nxt).
  { unfold s1. rewrite priv_rdy_insert_next, Hprv.
    rewrite decide_False by done. by rewrite decide_True. }
  assert (E2 : rd s1 obj f_prev = prv).
  { unfold s1. rewrite priv_rdy_insert_prev.
    rewrite decide_False by done. by rewrite decide_True. }
  split; [done|]. split.
  { unfold s1. rewrite priv_rdy_insert_id. by rewrite decide_True. }
  split; [by apply ring_remove|]. split.
  { unfold s2. rewrite priv_rdy_remove_id. by rewrite decide_True. }
  intros p f Hp. unfold s2.
  destruct (decide (f = f_next)) as [->|Hn].
  { rewrite priv_rdy_remove_next, E1, E2. unfold s1.
    rewrite priv_rdy_insert_next, Hprv.
    destruct (decide (p = prv)) as [->|]; [done|]. by rewrite decide_False. }
  destruct (decide (f = f_prev)) as [->|Hv].
  { rewrite priv_rdy_remove_prev, E1, E2. unfold s1.
    rewrite priv_rdy_insert_prev.
    destruct (decide (p = nxt)) as [->|]; [done|]. by rewrite decide_False. }
  destruct (decide (f = f_id)) as [->|Hi].
  { rewrite priv_rdy_remove_id. rewrite decide_False by done. unfold s1.
    rewrite priv_rdy_insert_id. by rewrite decide_False. }
  rewrite priv_rdy_remove_other by done. unfold s1.
  by rewrite priv_rdy_insert_other.
Qed.

(** X2: [core_tsk_append] puts the task behind the waiting tasks of greater
    or equal priority and before those of lower priority, so a queue in
    descending order of priority stays so; it records the object in
    [guard]. *)
Theorem core_tsk_append_by_priority s obj ws tsk fuel :
  waitq s obj ws -> descending s ws -> tsk ∉ obj :: ws -> tsk ≠ 0 ->
  (length ws < fuel)%nat ->
  exists s' w1 w2, ws = w1 ++ w2 /\
    core_tsk_append fuel s tsk obj = Some s' /\
    waitq s' obj (w1 ++ tsk :: w2) /\
    (forall x, x ∈ w1 -> rd s tsk f_prio <= rd s x f_prio) /\
    (forall x, x ∈ w2 -> rd s x f_prio < rd s tsk f_prio) /\
    descending s' (w1 ++ tsk :: w2) /\
    rd s' tsk f_guard = obj /\
    (forall p, rd s' p f_prio = rd s p f_prio).
Proof.
  intros HQ Hd Ht Ht0 Hf.
  destruct (waitq_append s obj ws tsk fuel HQ Ht Ht0 Hf)
    as (s' & w1 & w2 & -> & Hs' & HQ' & Hge & Hlt & Hg & _ & _ & Ro & _).
  exists s', w1, w2.
  assert (Fp : forall p, rd s' p f_prio = rd s p f_prio).
  { intros p. by apply Ro. }
  assert (Hlt' : forall x, x ∈ w2 -> rd s x f_prio < rd s tsk f_prio).
  { destruct Hlt as [->|H2]; [intros x Hx; by apply elem_of_nil in Hx|].
    apply descending_app in Hd as (_ & Hd2 & _).
    destruct w2 as [|n w2]; [intros x Hx; by apply elem_of_nil in Hx|].
    simpl in *. destruct Hd2 as [Hd2 _]. intros x.
    rewrite elem_of_cons. intros [->|Hx]; [done|]. specialize (Hd2 x Hx). lia. }
  split; [done|]. split; [done|]. split; [done|]. split; [done|].
  split; [done|]. split; [|done].
  apply (descending_frame s); [intros; by rewrite Fp|].
  apply descending_app in Hd as (Hd1 & Hd2 & Hd3).
  apply descending_app. split; [done|]. split; [|].
  - simpl. split; [|done]. intros y Hy. specialize (Hlt' y Hy). lia.
  - intros x y Hx. rewrite elem_of_cons. intros [->|Hy]; [by apply Hge|].
    by apply Hd3.
Qed.

(** X3: appending a task to a wait queue and unlinking it again restores
    the queue and every field of every other object; the task keeps the
    event it was unlinked with and its [guard]. *)
Theorem core_tsk_append_unlink s obj ws tsk ev fuel :
  waitq s obj ws -> tsk ∉ obj :: ws -> tsk ≠ 0 ->
  (length ws < fuel)%nat ->
  exists s1,
    core_tsk_append fuel s tsk obj = Some s1 /\
    waitq (core_tsk_unlink s1 tsk ev) obj ws /\
    rd (core_tsk_unlink s1 tsk ev) tsk f_event = ev /\
    rd (core_tsk_unlink s1 tsk ev) tsk f_queue = 0 /\
    rd (core_tsk_unlink s1 tsk ev) tsk f_guard = obj /\
    (forall p f, p ≠ tsk -> rd (core_tsk_unlink s1 tsk ev) p f = rd s p f).
Proof.
  intros HQ Ht Ht0 Hf.
  destruct (waitq_append s obj ws tsk fuel HQ Ht Ht0 Hf)
    as (s1 & w1 & w2 & -> & Hs1 & HQ1 & _ & _ & Hg & _).
  destruct HQ as (ND & H0 & Hq & Hb). destruct Hq as [_ Hq].
  destruct (core_tsk_append_walk_stops s tsk obj (w1 ++ w2) fuel Hq H0 Hf)
    as (v1 & v2 & Ev & Hw & _).
  destruct (core_tsk_append_writes fuel s tsk obj _ _ Hw)
    as (s1' & Hs1' & Rq & Rb & Rg & Ro & _).
  rewrite Hs1 in Hs1'. injection Hs1' as <-.
  set (prv := hd obj (reverse v1)) in *. set (nxt := hd 0 v2) in *.
  assert (Hprv : prv ∈ obj :: w1 ++ w2).
  { rewrite Ev. unfold prv. destruct (hd_reverse_in obj v1) as [->|H]; set_solver. }
  assert (Htp : tsk ≠ prv) by (intros ->; done).
  assert (Hq' : lseg s f_queue obj ((obj :: v1) ++ v2) 0).
  { rewrite <- app_comm_cons, <- Ev. split; done. }
  apply lseg_app in Hq' as (m & Hq1 & Hq2).
  pose proof (lseg_start _ _ _ _ _ Hq2) as Hm. fold nxt in Hm. subst m.
  destruct (snoc_cases obj v1) as (B & a & EB & Ea). fold prv in Ea. subst a.
  rewrite EB in Hq1. apply lseg_snoc in Hq1 as [_ Hpq].
  rewrite Ev in Hb. apply backs_app in Hb as [_ Hb2]. fold prv in Hb2.
  assert (Hnb : nxt ≠ 0 -> rd s nxt f_back = prv).
  { unfold nxt in *. destruct v2; simpl in *; [done|tauto]. }
  assert (Htn : tsk ≠ nxt \/ nxt = 0).
  { destruct (decide (nxt = 0)); [by right|left]. intros ->.
    apply Ht. rewrite Ev. unfold nxt in *. destruct v2; [done|]. set_solver. }
  assert (E1 : rd s1 tsk f_back = prv) by (rewrite Rb; by rewrite decide_True).
  assert (E2 : rd s1 tsk f_queue = nxt).
  { rewrite Rq. rewrite decide_False by done. by rewrite decide_True. }
  exists s1. split; [done|]. split.
  { apply (waitq_unlink s1 obj w1 tsk w2 ev HQ1). }
  split. { rewrite core_tsk_unlink_event. by rewrite decide_True. }
  split. { rewrite core_tsk_unlink_queue. by rewrite decide_True. }
  split. { by rewrite core_tsk_unlink_other. }
  intros p f Hp.
  destruct (decide (f = f_queue)) as [->|Hfq].
  { rewrite core_tsk_unlink_queue, E1, E2. rewrite decide_False by done.
    destruct (decide (p = prv)) as [->|Hpp]; [done|].
    rewrite Rq. by rewrite !decide_False. }
  destruct (decide (f = f_back)) as [->|Hfb].
  { rewrite core_tsk_unlink_back, E1, E2.
    destruct (decide (p = nxt /\ p ≠ 0)) as [[-> Hn0]|Hpn]; [by rewrite Hnb|].
    rewrite Rb. rewrite decide_False by done. by rewrite decide_False. }
  destruct (decide (f = f_event)) as [->|Hfe].
  { rewrite core_tsk_unlink_event. rewrite decide_False by done. by apply Ro. }
  rewrite core_tsk_unlink_other by done.
  destruct (decide (f = f_guard)) as [->|Hfg].
  { rewrite Rg. by rewrite decide_False. }
  by apply Ro.
Qed.

(** ** Blocking and waking *)

Lemma NoDup_two_rings (r1 r2 : Z) (l1 l2 : list Z) :
  NoDup (r1 :: l1 ++ r2 :: l2) ->
  NoDup (r1 :: l1) /\ NoDup (r2 :: l2) /\
  (forall x, x ∈ r1 :: l1 -> x ∉ r2 :: l2) /\
  (forall x, x ∈ r2 :: l2 -> x ∉ r1 :: l1).
Proof.
  intros ND. change (r1 :: l1 ++ r2 :: l2) with ((r1 :: l1) ++ r2 :: l2) in ND.
  apply NoDup_app in ND as (N1 & N2 & N3).
  split; [done|]. split; [done|]. split; [done|].
  intros x Hx Hx'. by apply (N2 x).
Qed.

Section Block.

Variables IDLE WAIT : Z.

(** The part of a blocking wait after [start] and [delay] are set. *)
Lemma priv_tsk_wait_blocks s r1 c r2 dl obj ws fuel :
  ring s IDLE (r1 ++ c :: r2) -> ring s WAIT dl ->
  NoDup (IDLE :: (r1 ++ c :: r2) ++ WAIT :: dl) ->
  rd s WAIT f_delay = INFINITE ->
  waitq s obj ws -> c ∉ obj :: ws -> c ≠ 0 ->
  (length ws < fuel)%nat -> (length dl < fuel)%nat ->
  exists s' w1 w2 d1 d2, ws = w1 ++ w2 /\ dl = d1 ++ d2 /\
    priv_tsk_wait WAIT fuel s c obj = Some s' /\
    ring s' IDLE (r1 ++ r2) /\ ring s' WAIT (d1 ++ c :: d2) /\
    waitq s' obj (w1 ++ c :: w2) /\
    (forall x, x ∈ w1 -> rd s c f_prio <= rd s x f_prio) /\
    (w2 = [] \/ rd s (hd 0 w2) f_prio < rd s c f_prio) /\
    rd s' c f_id = ID_DELAYED /\ rd s' c f_guard = obj /\
    (forall p f, f ≠ f_id -> f ≠ f_prev -> f ≠ f_next ->
       f ≠ f_queue -> f ≠ f_back -> f ≠ f_guard -> rd s' p f = rd s p f) /\
    (forall p, p ≠ c -> rd s' p f_id = rd s p f_id) /\
    pend s' = true /\ cur s' = cur s /\ mem s' = mem s /\
    Counter s' = Counter s.
Proof.
  intros HR HW ND Hinf HQ Hc Hc0 Hf1 Hf2.
  destruct (NoDup_two_rings _ _ _ _ ND) as (NDr & NDw & Hdisj & Hdisj').
  unfold priv_tsk_wait.
  destruct (waitq_append s obj ws c fuel HQ Hc Hc0 Hf1)
    as (s1 & w1 & w2 & -> & Hs1 & HQ1 & Hge & Hlt & Hg & _ & _ & Ro & Rm & Rc & Ru & Rp).
  rewrite Hs1. simpl.
  assert (F1 : forall p f, f ≠ f_queue -> f ≠ f_back -> f ≠ f_guard ->
                 rd s1 p f = rd s p f) by done.
  assert (HR1 : ring s1 IDLE (r1 ++ c :: r2)).
  { eapply ring_frame; [| |exact HR]; intros; by apply F1. }
  assert (HW1 : ring s1 WAIT dl).
  { eapply ring_frame; [| |exact HW]; intros; by apply F1. }
  set (s2 := core_tsk_remove s1 c).
  assert (F2 : forall p f, f ≠ f_id -> f ≠ f_prev -> f ≠ f_next ->
                 rd s2 p f = rd s1 p f).
  { intros. by apply priv_rdy_remove_other. }
  assert (HR2 : ring s2 IDLE (r1 ++ r2)) by (by apply ring_remove).
  assert (HW2 : ring s2 WAIT dl).
  { eapply ring_remove_frame; [exact HR1|exact HW1|]. done. }
  assert (HQ2 : waitq s2 obj (w1 ++ c :: w2)).
  { eapply waitq_frame; [| |exact HQ1]; intros; by apply F2. }
  assert (Hinf2 : rd s2 WAIT f_delay = INFINITE) by (rewrite F2, F1; done).
  unfold core_tmr_insert.
  destruct (priv_tmr_insert_walks WAIT s2 dl c ID_DELAYED fuel HW2 Hinf2 Hf2)
    as (d1 & d2 & -> & Hins).
  rewrite Hins. simpl.
  set (s3 := priv_rdy_insert s2 c ID_DELAYED (hd WAIT d2)).
  assert (F3 : forall p f, f ≠ f_id -> f ≠ f_prev -> f ≠ f_next ->
                 rd s3 p f = rd s2 p f).
  { intros. by apply priv_rdy_insert_other. }
  assert (Hcw : c ∉ WAIT :: d1 ++ d2).
  { apply Hdisj. set_solver. }
  assert (Hcr : c ∉ IDLE :: r1 ++ r2).
  { apply NoDup_cons in NDr as [N1 N2]. apply NoDup_app in N2 as (N3 & N4 & N5).
    apply NoDup_cons in N5 as [N5 N6].
    rewrite elem_of_cons, elem_of_app. intros [->|[H|H]]; [set_solver| |done].
    apply (N4 c H). set_solver. }
  assert (HW3 : ring s3 WAIT (d1 ++ c :: d2)) by (by apply ring_insert).
  assert (HR3 : ring s3 IDLE (r1 ++ r2)).
  { eapply ring_insert_frame; [exact HW2|exact HR2| |done].
    intros y Hy. apply Hdisj. set_solver. }
  assert (HQ3 : waitq s3 obj (w1 ++ c :: w2)).
  { eapply waitq_frame; [| |exact HQ2]; intros; by apply F3. }
  exists (core_ctx_switch s3), w1, w2, d1, d2.
  split; [done|]. split; [done|]. split; [done|].
  assert (E : forall p f, rd (core_ctx_switch s3) p f = rd s3 p f) by done.
  split. { eapply ring_frame; [| |exact HR3]; intros; apply E. }
  split. { eapply ring_frame; [| |exact HW3]; intros; apply E. }
  split. { eapply waitq_frame; [| |exact HQ3]; intros; apply E. }
  split; [done|]. split; [done|].
  split. { rewrite E. unfold s3. rewrite priv_rdy_insert_id. by rewrite decide_True. }
  split. { rewrite E, F3, F2 by done. done. }
  split. { intros p f ? ? ? ? ? ?. rewrite E, F3, F2 by done. by apply F1. }
  split.
  { intros p Hp. rewrite E. unfold s3. rewrite priv_rdy_insert_id.
    rewrite decide_False by done. unfold s2, core_tsk_remove.
    rewrite priv_rdy_remove_id. rewrite decide_False by done. by apply F1. }
  split; [done|]. split; [done|]. split; done.
Qed.

Lemma core_tsk_waitFor_suspends s r1 r2 dl obj ws delay fuel :
  ring s IDLE (r1 ++ cur s :: r2) -> ring s WAIT dl ->
  NoDup (IDLE :: (r1 ++ cur s :: r2) ++ WAIT :: dl) ->
  rd s WAIT f_delay = INFINITE ->
  waitq s obj ws -> cur s ∉ obj :: ws -> cur s ≠ 0 ->
  delay ≠ IMMEDIATE ->
  (length ws < fuel)%nat -> (length dl < fuel)%nat ->
  exists s' w1 w2 d1 d2, ws = w1 ++ w2 /\ dl = d1 ++ d2 /\
    core_tsk_waitFor WAIT fuel s obj delay = Some (Suspended, s') /\
    ring s' IDLE (r1 ++ r2) /\ ring s' WAIT (d1 ++ cur s :: d2) /\
    waitq s' obj (w1 ++ cur s :: w2) /\
    (forall x, x ∈ w1 -> rd s (cur s) f_prio <= rd s x f_prio) /\
    (w2 = [] \/ rd s (hd 0 w2) f_prio < rd s (cur s) f_prio) /\
    rd s' (cur s) f_id = ID_DELAYED /\ rd s' (cur s) f_guard = obj /\
    rd s' (cur s) f_start = Counter s /\ rd s' (cur s) f_delay = delay /\
    pend s' = true /\ cur s' = cur s /\ mem s' = mem s /\
    (forall p, rd s' p f_prio = rd s p f_prio) /\
    (forall p f, f ≠ f_id -> f ≠ f_prev -> f ≠ f_next ->
       f ≠ f_queue -> f ≠ f_back -> f ≠ f_guard ->
       f ≠ f_start -> f ≠ f_delay -> rd s' p f = rd s p f).
Proof.
  intros HR HW ND Hinf HQ Hc Hc0 Hd Hf1 Hf2.
  destruct (NoDup_two_rings _ _ _ _ ND) as (NDr & NDw & Hdisj & Hdisj').
  unfold core_tsk_waitFor. cbv zeta.
  set (c := cur s) in *.
  rewrite rd_wr_same. rewrite (proj2 (Z.eqb_neq delay IMMEDIATE)) by done.
  set (s0 := wr (wr s c f_start (Counter s)) c f_delay delay).
  assert (F0 : forall p f, f ≠ f_start -> f ≠ f_delay -> rd s0 p f = rd s p f).
  { intros p f H1 H2. unfold s0. by rewrite !rd_wr_field. }
  assert (HR0 : ring s0 IDLE (r1 ++ c :: r2)).
  { eapply ring_frame; [| |exact HR]; intros; by apply F0. }
  assert (HW0 : ring s0 WAIT dl).
  { eapply ring_frame; [| |exact HW]; intros; by apply F0. }
  assert (HQ0 : waitq s0 obj ws).
  { eapply waitq_frame; [| |exact HQ]; intros; by apply F0. }
  assert (Hcw : c ≠ WAIT).
  { intros E. apply (Hdisj c); [set_solver|]. rewrite E. set_solver. }
  assert (Hinf0 : rd s0 WAIT f_delay = INFINITE).
  { unfold s0. rewrite rd_wr_ptr by done. by rewrite rd_wr_field. }
  destruct (priv_tsk_wait_blocks s0 r1 c r2 dl obj ws fuel HR0 HW0 ND Hinf0 HQ0
              Hc Hc0 Hf1 Hf2)
    as (s' & w1 & w2 & d1 & d2 & -> & -> & Hs' & HR' & HW' & HQ' & Hge & Hlt
        & Hid & Hg & Ro & _ & Hp & Hcur & Hmem & _).
  exists s', w1, w2, d1, d2. rewrite Hs'. simpl.
  split; [done|]. split; [done|]. split; [done|]. split; [done|].
  split; [done|]. split; [done|].
  split. { intros x Hx. rewrite <- !F0 by done. by apply Hge. }
  split. { destruct Hlt as [?|Hlt]; [by left|right]. by rewrite <- !F0. }
  split; [done|]. split; [done|].
  split. { rewrite Ro by done. unfold s0. rewrite rd_wr_field by done.
           by rewrite rd_wr_same. }
  split. { rewrite Ro by done. unfold s0. by rewrite rd_wr_same. }
  split; [done|]. split; [done|]. split; [done|].
  split. { intros p. rewrite Ro by done. by apply F0. }
  intros p f ? ? ? ? ? ? ? ?. rewrite Ro by done. by apply F0.
Qed.

(** X4: a wait with a delay other than IMMEDIATE suspends the caller: the
    running task leaves the ready ring, enters the timer ring as a delayed
    task and the queue of the object (behind the waiters of greater or equal
    priority), its [start] is the current counter and a context switch is
    requested. *)
Theorem core_tsk_waitFor_blocks s r1 r2 dl obj ws delay fuel :
  ring s IDLE (r1 ++ cur s :: r2) -> ring s WAIT dl ->
  NoDup (IDLE :: (r1 ++ cur s :: r2) ++ WAIT :: dl) ->
  rd s WAIT f_delay = INFINITE ->
  waitq s obj ws -> cur s ∉ obj :: ws -> cur s ≠ 0 ->
  delay ≠ IMMEDIATE ->
  (length ws < fuel)%nat -> (length dl < fuel)%nat ->
  exists s' w1 w2 d1 d2, ws = w1 ++ w2 /\ dl = d1 ++ d2 /\
    core_tsk_waitFor WAIT fuel s obj delay = Some (Suspended, s') /\
    ring s' IDLE (r1 ++ r2) /\ ring s' WAIT (d1 ++ cur s :: d2) /\
    waitq s' obj (w1 ++ cur s :: w2) /\
    (forall x, x ∈ w1 -> rd s (cur s) f_prio <= rd s x f_prio) /\
    (w2 = [] \/ rd s (hd 0 w2) f_prio < rd s (cur s) f_prio) /\
    rd s' (cur s) f_id = ID_DELAYED /\ rd s' (cur s) f_guard = obj /\
    rd s' (cur s) f_start = Counter s /\ rd s' (cur s) f_delay = delay /\
    pend s' = true /\ cur s' = cur s /\ mem s' = mem s.
Proof.
  intros HR HW ND Hinf HQ Hc Hc0 Hd Hf1 Hf2.
  destruct (core_tsk_waitFor_suspends s r1 r2 dl obj ws delay fuel HR HW ND Hinf
              HQ Hc Hc0 Hd Hf1 Hf2)
    as (s' & w1 & w2 & d1 & d2 & H).
  exists s', w1, w2, d1, d2. tauto.
Qed.

End Block.

Section WaitWake.

Variables OS_ROBIN IDLE WAIT : Z.

(** X5: a task that blocked on an object and is woken again is back in the
    ready ring; the timer ring and the queue of the object are as they were
    before it blocked, and its wait returns the event of the wake-up. *)
Theorem wait_then_wakeup s r1 r2 dl obj ws delay ev fuel :
  ring s IDLE (r1 ++ cur s :: r2) -> ring s WAIT dl ->
  NoDup (IDLE :: (r1 ++ cur s :: r2) ++ WAIT :: dl) ->
  rd s IDLE f_prio = 0 -> rd s WAIT f_delay = INFINITE ->
  0 <= rd s (cur s) f_prio ->
  waitq s obj ws -> cur s ∉ obj :: ws -> cur s ≠ 0 ->
  delay ≠ IMMEDIATE ->
  (length ws < fuel)%nat -> (length dl < fuel)%nat ->
  (length (r1 ++ r2) < fuel)%nat ->
  exists s1 s2 l1 l2,
    core_tsk_waitFor WAIT fuel s obj delay = Some (Suspended, s1) /\
    core_tsk_wakeup OS_ROBIN IDLE fuel s1 (cur s) ev = Some (cur s, s2) /\
    r1 ++ r2 = l1 ++ l2 /\
    ring s2 IDLE (l1 ++ cur s :: l2) /\ ring s2 WAIT dl /\
    waitq s2 obj ws /\
    rd s2 (cur s) f_id = ID_READY /\
    priv_tsk_wait_result s2 (cur s) = ev.
Proof.
  intros HR HW ND Hidle Hinf Hp HQ Hc Hc0 Hd Hf1 Hf2 Hf3.
  destruct (core_tsk_waitFor_suspends IDLE WAIT s r1 r2 dl obj ws delay fuel
              HR HW ND Hinf HQ Hc Hc0 Hd Hf1 Hf2)
    as (s1 & w1 & w2 & d1 & d2 & -> & -> & Hs1 & HR1 & HW1 & HQ1 & _ & _ & _ & _
        & _ & _ & _ & _ & _ & Fp & _).
  set (c := cur s) in *.
  assert (ND1 : NoDup (IDLE :: (r1 ++ r2) ++ WAIT :: d1 ++ c :: d2)).
  { assert (P : IDLE :: (r1 ++ r2) ++ WAIT :: d1 ++ c :: d2
                ≡ₚ IDLE :: (r1 ++ c :: r2) ++ WAIT :: d1 ++ d2)
      by solve_Permutation.
    by rewrite P. }
  destruct (core_tsk_wakeup_at OS_ROBIN IDLE WAIT s1 (r1 ++ r2) d1 c d2 obj w1 w2
              ev fuel HR1 HW1 ND1)
    as (s2 & l1 & l2 & E & Hs2 & HR2 & HW2 & HQ2 & Hev & Hid & _).
  { by rewrite Fp. }
  { by rewrite Fp. }
  { done. }
  { done. }
  exists s1, s2, l1, l2. done.
Qed.

End WaitWake.

(** ** Waking, preemption and the timer ring *)

Section Waking.

Variables OS_ROBIN IDLE WAIT : Z.

(** X6: [core_all_wakeup] empties the queue of the object: every task that
    was blocked on it is ready with the given event, has left the timer
    ring, and no other task is touched. *)
Theorem core_all_wakeup_empties s rl dl obj ws ev fuel :
  ring s IDLE rl -> ring s WAIT dl ->
  NoDup (IDLE :: rl ++ WAIT :: dl) ->
  rd s IDLE f_prio = 0 ->
  waitq s obj ws ->
  (forall w, w ∈ ws -> w ∈ dl /\ 0 <= rd s w f_prio) ->
  (length rl + 2 * length ws < fuel)%nat ->
  exists s' rl' dl',
    core_all_wakeup OS_ROBIN IDLE fuel s obj ev = Some s' /\
    ring s' IDLE rl' /\ ring s' WAIT dl' /\
    rl' ≡ₚ ws ++ rl /\ dl ≡ₚ ws ++ dl' /\
    waitq s' obj [] /\
    (forall w, w ∈ ws ->
       rd s' w f_event = ev /\ rd s' w f_id = ID_READY /\ rd s' w f_queue = 0) /\
    (forall p, p ∉ ws -> rd s' p f_event = rd s p f_event) /\
    (forall p, p ∉ ws -> rd s' p f_id = rd s p f_id) /\
    same_payload s s'.
Proof.
  intros HR HW ND Hidle HQ Hws Hf.
  destruct (core_all_wakeup_all OS_ROBIN IDLE WAIT ws s rl dl obj ev fuel
              HR HW ND Hidle HQ Hws Hf)
    as (s' & rl' & dl' & H).
  exists s', rl', dl'. tauto.
Qed.

(** X7: on an object nobody waits on, [core_one_wakeup] returns no task and
    [core_all_wakeup] returns at once; neither changes the state. *)
Theorem wakeup_of_nobody s obj ev fuel :
  waitq s obj [] ->
  core_tsk_wakeup OS_ROBIN IDLE fuel s 0 ev = Some (0, s) /\
  core_one_wakeup OS_ROBIN IDLE fuel s obj ev = Some (0, s) /\
  core_all_wakeup OS_ROBIN IDLE (S fuel) s obj ev = Some s.
Proof.
  intros HQ. apply waitq_empty in HQ.
  split; [done|]. split.
  - unfold core_one_wakeup. by rewrite HQ.
  - simpl. by rewrite HQ.
Qed.

(** X8: [core_tsk_insert] never asks for a context switch when round-robin
    is off; when it is on, it asks for one if the new task has a greater
    priority than the running task, and does not if no ready task has. *)
Theorem core_tsk_insert_preempts s l tsk fuel :
  ring s IDLE l -> rd s IDLE f_prio = 0 ->
  tsk ∉ IDLE :: l -> 0 <= rd s tsk f_prio ->
  0 <= rd s (cur s) f_prio ->
  (length l < fuel)%nat ->
  exists s' l1 l2, l = l1 ++ l2 /\
    core_tsk_insert OS_ROBIN IDLE fuel s tsk = Some s' /\
    ring s' IDLE (l1 ++ tsk :: l2) /\
    (OS_ROBIN = 0 -> pend s' = pend s) /\
    (OS_ROBIN ≠ 0 -> rd s (cur s) f_prio < rd s tsk f_prio ->
       pend s' = true) /\
    (OS_ROBIN ≠ 0 ->
       (forall x, x ∈ tsk :: l -> rd s x f_prio <= rd s (cur s) f_prio) ->
       pend s' = pend s).
Proof.
  intros HR Hidle Ht Hp Hc Hf.
  destruct (priv_tsk_insert_walks IDLE s l tsk fuel HR Hidle Hp Hf)
    as (l1 & l2 & -> & Hins & H1 & H2).
  set (s1 := priv_rdy_insert s tsk ID_READY (hd IDLE l2)) in *.
  assert (HR1 : ring s1 IDLE (l1 ++ tsk :: l2)) by (by apply ring_insert).
  assert (Fp : forall p, rd s1 p f_prio = rd s p f_prio).
  { intros p. by apply priv_rdy_insert_other. }
  assert (Hc1 : cur s1 = cur s) by done.
  assert (Hp1 : pend s1 = pend s) by done.
  pose proof (ring_first _ _ _ HR1) as Hfirst.
  unfold core_tsk_insert. rewrite Hins. simpl.
  destruct (OS_ROBIN =? 0) eqn:ER.
  { apply Z.eqb_eq in ER. exists s1, l1, l2. split; [done|]. split; [done|].
    split; [done|]. split; [done|]. split; intros; done. }
  apply Z.eqb_neq in ER. rewrite Hfirst, !Fp. try rewrite Hc1.
  destruct (_ >? _) eqn:EG.
  - exists (port_ctx_switch s1), l1, l2. split; [done|]. split; [done|].
    split. { eapply ring_frame; [| |exact HR1]; intros; done. }
    split; [done|]. split; [done|].
    intros _ Hall. exfalso. apply Z.gtb_lt in EG.
    assert (Hin : hd IDLE (l1 ++ tsk :: l2) ∈ tsk :: l1 ++ l2).
    { destruct l1; simpl; set_solver. }
    specialize (Hall _ Hin). lia.
  - exists s1, l1, l2. split; [done|]. split; [done|]. split; [done|].
    split; [done|]. split; [|done].
    intros _ Hlt. exfalso.
    assert (~ rd s (hd IDLE (l1 ++ tsk :: l2)) f_prio > rd s (cur s) f_prio).
    { intros G. apply Z.gt_lt, Z.gtb_lt in G. congruence. }
    destruct l1 as [|x l1]; simpl in *; [lia|].
    destruct H1 as [E|H1]; [lia|].
    specialize (H1 x). assert (x ∈ x :: l1) by set_solver. specialize (H1 H0). lia.
Qed.

End Waking.

(** X9: waiting until an absolute time is waiting for the difference to the
    current counter, computed with wrap-around; a time one tick in the past
    therefore waits without deadline. *)
Theorem core_tsk_waitUntil_as_waitFor WAIT fuel s obj time :
  core_tsk_waitUntil WAIT fuel s obj time =
    core_tsk_waitFor WAIT fuel s obj (Word.sub time (Counter s)) /\
  Word.sub (Word.sub (Counter s) 1) (Counter s) = INFINITE.
Proof.
  split.
  - unfold core_tsk_waitUntil, core_tsk_waitFor. cbv zeta.
    by rewrite (rd_wr_same s).
  - unfold Word.sub, Word.wrap, INFINITE.
    rewrite Zminus_mod_idemp_l.
    replace (Counter s - 1 - Counter s) with (-1) by lia. reflexivity.
Qed.

(** ** The timer ring *)

(** X10: [priv_tmr_insert] puts an entry that counts indefinitely at the end
    of the timer ring; any other entry goes behind the entries that are due
    no later than it (measured from their own [start]) and before the first
    entry that counts indefinitely or is due later. *)
Theorem priv_tmr_insert_place WAIT s dl tmr id fuel :
  ring s WAIT dl -> rd s WAIT f_delay = INFINITE -> tmr ∉ WAIT :: dl ->
  (length dl < fuel)%nat ->
  let due := Word.add (rd s tmr f_start) (rd s tmr f_delay) in
  exists s' d1 d2, dl = d1 ++ d2 /\
    priv_tmr_insert WAIT fuel s tmr id = Some s' /\
    ring s' WAIT (d1 ++ tmr :: d2) /\ rd s' tmr f_id = id /\
    (rd s tmr f_delay = INFINITE -> d2 = []) /\
    (rd s tmr f_delay ≠ INFINITE ->
       (forall x, x ∈ d1 ->
          rd s x f_delay ≠ INFINITE /\
          rd s x f_delay <= Word.sub due (rd s x f_start)) /\
       (d2 = [] \/ rd s (hd WAIT d2) f_delay = INFINITE \/
        Word.sub due (rd s (hd WAIT d2) f_start) < rd s (hd WAIT d2) f_delay)) /\
    (forall p f, f ≠ f_id -> f ≠ f_prev -> f ≠ f_next -> rd s' p f = rd s p f).
Proof.
  intros HR Hinf Ht Hf due. pose proof HR as (ND & Hn & _).
  unfold priv_tmr_insert.
  destruct (rd s tmr f_delay =? INFINITE) eqn:E.
  - apply Z.eqb_eq in E. exists (priv_rdy_insert s tmr id (hd WAIT [])), dl, [].
    rewrite app_nil_r. split; [done|]. split; [done|].
    split. { apply ring_insert; [by rewrite app_nil_r|]. by rewrite app_nil_r. }
    split. { rewrite priv_rdy_insert_id. by rewrite decide_True. }
    split; [done|]. split; [done|].
    intros. by apply priv_rdy_insert_other.
  - apply Z.eqb_neq in E. rewrite priv_tmr_insert_walk_eq. destruct Hn as [_ Hn].
    match goal with |- context [ring_walk fuel s ?c WAIT] =>
      destruct (ring_walk_stops s c WAIT dl WAIT fuel Hn)
        as (d1 & d2 & -> & Hw & H1 & H2) end.
    { rewrite Hinf. by rewrite Z.eqb_refl. }
    { done. }
    rewrite Hw. simpl.
    exists (priv_rdy_insert s tmr id (hd WAIT d2)), d1, d2.
    split; [done|]. split; [done|]. split; [by apply ring_insert|].
    split. { rewrite priv_rdy_insert_id. by rewrite decide_True. }
    split; [done|]. split.
    + intros _. split.
      * intros x Hx. specialize (H1 x Hx). simpl in H1.
        apply andb_true_iff in H1 as [Ha Hb].
        apply negb_true_iff, Z.eqb_neq in Ha. apply Z.leb_le in Hb. done.
      * right. simpl in H2. apply andb_false_iff in H2 as [Ha|Hb].
        -- left. apply negb_false_iff, Z.eqb_eq in Ha. done.
        -- right. apply Z.leb_gt in Hb. done.
    + intros. by apply priv_rdy_insert_other.
Qed.

Section Handler.

Variables OS_ROBIN OS_TIMER IDLE WAIT : Z.
Variable run : Z -> sys -> option sys.
Variable recount : Z -> Z.

(** X11: when the head of the timer ring is a delayed task that is due and
    the entry behind it is not, [core_tmr_handler] wakes exactly that task,
    with [E_TIMEOUT], and returns: the task is ready, it has left the timer
    ring and the queue it waited in, and no other task got an event. *)
Theorem core_tmr_handler_wakes_due s rl t dl obj w1 w2 fuel :
  ring s IDLE rl -> ring s WAIT (t :: dl) ->
  NoDup (IDLE :: rl ++ WAIT :: t :: dl) ->
  rd s IDLE f_prio = 0 -> 0 <= rd s t f_prio ->
  rd s t f_id ≠ ID_TIMER ->
  waitq s obj (w1 ++ t :: w2) ->
  priv_tmr_expired OS_ROBIN OS_TIMER recount s t = true ->
  priv_tmr_expired OS_ROBIN OS_TIMER recount s (hd WAIT dl) = false ->
  (length rl < fuel)%nat -> (2 <= fuel)%nat ->
  exists s' l1 l2, rl = l1 ++ l2 /\
    core_tmr_handler OS_ROBIN OS_TIMER IDLE WAIT run recount fuel s = Some s' /\
    ring s' IDLE (l1 ++ t :: l2) /\ ring s' WAIT dl /\
    waitq s' obj (w1 ++ w2) /\
    rd s' t f_event = E_TIMEOUT /\ rd s' t f_id = ID_READY /\
    (forall p, p ≠ t -> rd s' p f_event = rd s p f_event) /\
    (forall p, p ≠ t -> rd s' p f_id = rd s p f_id).
Proof.
  intros HR HW ND Hidle Hp Hid HQ Hdue Hnext Hf Hf2.
  destruct (core_tsk_wakeup_at OS_ROBIN IDLE WAIT s rl [] t dl obj w1 w2 E_TIMEOUT
              fuel HR HW ND Hidle Hp HQ Hf)
    as (s' & l1 & l2 & -> & Hs' & HR' & HW' & HQ' & Hev & Hid' & _ & Fe & Fi & _ & SP).
  exists s', l1, l2. split; [done|].
  destruct fuel as [|[|fuel]]; [lia|lia|].
  assert (Hhead : rd s WAIT f_next = t) by (by apply ring_first in HW).
  assert (Hhead' : rd s' WAIT f_next = hd WAIT dl) by (by apply ring_first in HW').
  split.
  { change (core_tmr_handler OS_ROBIN OS_TIMER IDLE WAIT run recount (S (S fuel)) s)
      with (let tmr := rd s WAIT f_next in
            if priv_tmr_expired OS_ROBIN OS_TIMER recount s tmr
            then s ← core_tmr_handler_entry OS_ROBIN IDLE WAIT run (S (S fuel)) s tmr;
                 core_tmr_handler OS_ROBIN OS_TIMER IDLE WAIT run recount (S fuel) s
            else Some s).
    cbv zeta. rewrite Hhead, Hdue. unfold core_tmr_handler_entry.
    rewrite (proj2 (Z.eqb_neq _ _) Hid). rewrite Hs'. simpl.
    rewrite Hhead'. by rewrite (priv_tmr_expired_payload OS_ROBIN OS_TIMER recount s s' _ SP), Hnext. }
  done.
Qed.

End Handler.

(** X29: the expiry test of the build with round robin on a hardware timer
    is true exactly when [delay] is not [INFINITE] and
    [delay <= Counter - start] holds for the counter as it is read first or
    as it is read again; the test of the other build is true exactly when
    [delay <= Counter - start] and [Counter - start] is not the largest
    counter value; an entry with [delay = INFINITE] is never expired. *)
Theorem priv_tmr_expired_cases OS_ROBIN OS_TIMER recount s tmr :
  Word.in_range (rd s tmr f_delay) ->
  let delay := rd s tmr f_delay in
  let elapsed := Word.sub (Counter s) (rd s tmr f_start) in
  let later := Word.sub (recount (Counter s)) (rd s tmr f_start) in
  (priv_tmr_expired_tickless recount s tmr = true <->
     delay ≠ INFINITE /\ (delay <= elapsed \/ delay <= later)) /\
  (priv_tmr_expired_ticked s tmr = true <->
     delay <= elapsed /\ elapsed ≠ Word.modulus - 1) /\
  (delay = INFINITE ->
     priv_tmr_expired_tickless recount s tmr = false /\
     priv_tmr_expired_ticked s tmr = false) /\
  priv_tmr_expired OS_ROBIN OS_TIMER recount s tmr =
    (if negb (OS_ROBIN =? 0) && negb (OS_TIMER =? 0)
     then priv_tmr_expired_tickless recount s tmr
     else priv_tmr_expired_ticked s tmr).
Proof.
  intros Hd delay elapsed later.
  destruct (priv_tmr_expired_iff recount s tmr Hd) as (H1 & H2 & H3).
  split; [exact H1|]. split; [exact H2|]. split; [exact H3|]. reflexivity.
Qed.

(** ** Words in the byte memory *)

Lemma store_bytes_rest bs : forall s a,
  heap (store_bytes s a bs) = heap s /\
  Counter (store_bytes s a bs) = Counter s /\
  cur (store_bytes s a bs) = cur s /\
  pend (store_bytes s a bs) = pend s.
Proof.
  induction bs as [|b bs IH]; intros s a; simpl; [done|].
  destruct (IH (wrb s a b) (a + 1)) as (-> & -> & -> & ->). done.
Qed.

Lemma rdb_store_bytes bs : forall s a b,
  rdb (store_bytes s a bs) b =
    if decide (a <= b < a + Z.of_nat (length bs))
    then nth (Z.to_nat (b - a)) bs 0 else rdb s b.
Proof.
  induction bs as [|x bs IH]; intros s a b.
  - simpl. rewrite decide_False by lia. done.
  - cbn [store_bytes length]. rewrite IH, rdb_wrb.
    destruct (decide (a + 1 <= b < a + 1 + Z.of_nat (length bs))) as [H|H].
    + rewrite decide_True by lia.
      replace (Z.to_nat (b - a)) with (S (Z.to_nat (b - (a + 1)))) by lia. done.
    + destruct (decide (a = b)) as [->|Hab].
      * rewrite decide_True by lia. by rewrite Z.sub_diag.
      * rewrite decide_False by lia. done.
Qed.

Lemma rd_store_bytes s a bs p f : rd (store_bytes s a bs) p f = rd s p f.
Proof. unfold rd. by destruct (store_bytes_rest bs s a) as (-> & _). Qed.

Lemma nth_map_seq (f : nat -> Z) n : forall st j,
  (j < n)%nat -> nth j (map f (seq st n)) 0 = f (st + j)%nat.
Proof.
  induction n as [|n IH]; intros st j Hj; [lia|].
  destruct j as [|j]; simpl.
  - by rewrite Nat.add_0_r.
  - rewrite IH by lia. f_equal. lia.
Qed.

Lemma rd_store_word s a v p f : rd (store_word s a v) p f = rd s p f.
Proof. apply rd_store_bytes. Qed.

Lemma load_bytes_nth s a n j :
  (j < n)%nat -> nth j (load_bytes s a n) 0 = rdb s (a + Z.of_nat j).
Proof.
  intros Hj. unfold load_bytes. by rewrite nth_map_seq.
Qed.

Lemma to_bytes_length v : length (Word.to_bytes v) = 4%nat.
Proof. done. Qed.

Lemma load_store_word s a v :
  Word.in_range v -> load_word (store_word s a v) a = v.
Proof.
  intros Hv. unfold load_word, store_word.
  rewrite <- (of_to_bytes v Hv) at 2. apply of_bytes_nth.
  intros j Hj. rewrite load_bytes_nth by done. rewrite rdb_store_bytes.
  rewrite to_bytes_length. rewrite decide_True by lia.
  by replace (Z.to_nat (a + Z.of_nat j - a)) with j by lia.
Qed.

Lemma load_word_frame s s' a :
  (forall b, a <= b < a + 4 -> rdb s' b = rdb s b) ->
  load_word s' a = load_word s a.
Proof.
  intros H. unfold load_word. apply of_bytes_nth. intros j Hj.
  rewrite !load_bytes_nth by done. apply H. lia.
Qed.

Lemma rdb_store_word_other s a v b :
  ~ (a <= b < a + 4) -> rdb (store_word s a v) b = rdb s b.
Proof.
  intros H. unfold store_word. rewrite rdb_store_bytes, to_bytes_length.
  by rewrite decide_False.
Qed.

Lemma load_store_word_other s a v b :
  (a + 4 <= b \/ b + 4 <= a) ->
  load_word (store_word s a v) b = load_word s b.
Proof.
  intros H. apply load_word_frame. intros x Hx.
  apply rdb_store_word_other. lia.
Qed.

(** ** The context-switch handler *)

Section Prepare.

Variables sizeof_ctx ctx_psr ctx_pc ctx_lr : Z.
Variables sizeof_sft sft_lr : Z.
Variable core_tsk_break : Z.

Local Notation "'prepare'" :=
  (priv_tsk_prepare sizeof_ctx ctx_psr ctx_pc ctx_lr sizeof_sft sft_lr
     core_tsk_break).

Lemma priv_tsk_prepare_rest s tsk :
  heap (snd (prepare s tsk)) = heap s /\
  Counter (snd (prepare s tsk)) = Counter s /\
  cur (snd (prepare s tsk)) = cur s /\
  pend (snd (prepare s tsk)) = pend s.
Proof.
  unfold priv_tsk_prepare. destruct (negb _); [done|]. cbn [snd].
  unfold store_word.
  repeat match goal with
  | |- context [store_bytes ?s ?a ?bs] =>
      lazymatch s with
      | context [store_bytes] => fail
      | _ => destruct (store_bytes_rest bs s a) as (? & ? & ? & ?);
             generalize dependent (store_bytes s a bs); intros
      end
  end.
  repeat split; congruence.
Qed.

Lemma priv_tsk_prepare_resumes s tsk :
  rd s tsk f_sp ≠ 0 -> prepare s tsk = (rd s tsk f_sp, s).
Proof.
  intros H. unfold priv_tsk_prepare.
  by rewrite (proj2 (Z.eqb_neq _ _) H).
Qed.

(** X12: [priv_tsk_prepare] hands back the saved stack pointer of a task that
    has run before and changes nothing; for a task that has not run yet it
    builds the two frames below [top]: status word with the Thumb bit,
    entry point [state], return address [core_tsk_break], and the
    EXC_RETURN value in the software frame.  Nothing outside the two frames
    is written. *)
Theorem priv_tsk_prepare_frames s tsk :
  0 <= ctx_psr -> ctx_psr + 4 <= sizeof_ctx ->
  0 <= ctx_pc -> ctx_pc + 4 <= sizeof_ctx ->
  0 <= ctx_lr -> ctx_lr + 4 <= sizeof_ctx ->
  (ctx_psr + 4 <= ctx_pc \/ ctx_pc + 4 <= ctx_psr) ->
  (ctx_psr + 4 <= ctx_lr \/ ctx_lr + 4 <= ctx_psr) ->
  (ctx_pc + 4 <= ctx_lr \/ ctx_lr + 4 <= ctx_pc) ->
  0 <= sft_lr -> sft_lr + 4 <= sizeof_sft ->
  Word.in_range (rd s tsk f_state) -> Word.in_range core_tsk_break ->
  let sp := fst (prepare s tsk) in
  let s' := snd (prepare s tsk) in
  (rd s tsk f_sp ≠ 0 -> sp = rd s tsk f_sp /\ s' = s) /\
  (rd s tsk f_sp = 0 ->
     let ctx := rd s tsk f_top - sizeof_ctx in
     sp = ctx - sizeof_sft /\
     load_word s' (ctx + ctx_psr) = 16777216 /\
     load_word s' (ctx + ctx_pc) = rd s tsk f_state /\
     load_word s' (ctx + ctx_lr) = core_tsk_break /\
     load_word s' (sp + sft_lr) = Word.modulus - 3 /\
     heap s' = heap s /\
     (forall a, ~ (sp <= a < rd s tsk f_top) -> rdb s' a = rdb s a)).
Proof.
  intros P1 P2 C1 C2 L1 L2 D1 D2 D3 S1 S2 Hst Hbr sp s'.
  split.
  { intros H. unfold sp, s'. by rewrite priv_tsk_prepare_resumes. }
  intros H ctx.
  assert (E : prepare s tsk =
    (ctx - sizeof_sft,
     store_word
       (store_word
          (store_word (store_word s (ctx + ctx_psr) 16777216)
             (ctx + ctx_pc) (rd s tsk f_state))
          (ctx + ctx_lr) core_tsk_break)
       (ctx - sizeof_sft + sft_lr) EXC_RETURN)).
  { unfold priv_tsk_prepare. rewrite H. simpl negb. cbv iota zeta.
    rewrite !rd_store_word. done. }
  unfold sp, s'. rewrite E. cbn [fst snd].
  split; [done|].
  assert (R1 : Word.in_range 16777216) by (unfold Word.in_range, Word.modulus; lia).
  assert (R2 : Word.in_range EXC_RETURN) by apply wrap_in_range.
  split.
  { rewrite !load_store_word_other by lia. by apply load_store_word. }
  split.
  { rewrite !load_store_word_other by lia. by apply load_store_word. }
  split.
  { rewrite !load_store_word_other by lia. by apply load_store_word. }
  split.
  { by rewrite load_store_word. }
  split.
  { unfold store_word.
    repeat match goal with
    | |- context [store_bytes ?s ?a ?bs] =>
        lazymatch s with
        | context [store_bytes] => fail
        | _ => destruct (store_bytes_rest bs s a) as (? & _);
               generalize dependent (store_bytes s a bs); intros
        end
    end. congruence. }
  intros a Ha. rewrite !rdb_store_word_other by lia. done.
Qed.

End Prepare.

(** ** The scheduler *)

(** Insertion into a ready ring in descending order of priority. *)
Lemma priv_tsk_insert_sorted IDLE s l tsk fuel :
  ring s IDLE l -> rd s IDLE f_prio = 0 ->
  tsk ∉ IDLE :: l -> 0 <= rd s tsk f_prio ->
  (forall x, x ∈ l -> 0 <= rd s x f_prio) ->
  descending s l ->
  (length l < fuel)%nat ->
  exists l1 l2, l = l1 ++ l2 /\
    priv_tsk_insert IDLE fuel s tsk =
      Some (priv_rdy_insert s tsk ID_READY (hd IDLE l2)) /\
    ring (priv_rdy_insert s tsk ID_READY (hd IDLE l2)) IDLE (l1 ++ tsk :: l2) /\
    (forall x, x ∈ l1 -> rd s tsk f_prio <= rd s x f_prio) /\
    (forall x, x ∈ l2 -> rd s x f_prio < rd s tsk f_prio) /\
    descending s (l1 ++ tsk :: l2).
Proof.
  intros HR Hidle Hnew Hp Hnn Hd Hf.
  destruct (priv_tsk_insert_walks IDLE s l tsk fuel HR Hidle Hp Hf)
    as (l1 & l2 & -> & Hins & H1 & H2).
  exists l1, l2.
  assert (Hge : forall x, x ∈ l1 -> rd s tsk f_prio <= rd s x f_prio).
  { destruct H1 as [E|H1]; [|done]. intros x Hx. rewrite E. apply Hnn. set_solver. }
  assert (Hlt : forall x, x ∈ l2 -> rd s x f_prio < rd s tsk f_prio).
  { destruct H2 as [->|H2]; [intros x Hx; by apply elem_of_nil in Hx|].
    apply descending_app in Hd as (_ & Hd2 & _).
    destruct l2 as [|n l2]; [intros x Hx; by apply elem_of_nil in Hx|].
    simpl in *. destruct Hd2 as [Hd2 _]. intros x.
    rewrite elem_of_cons. intros [->|Hx]; [done|]. specialize (Hd2 x Hx). lia. }
  split; [done|]. split; [done|]. split; [by apply ring_insert|].
  split; [done|]. split; [done|].
  apply descending_app in Hd as (Hd1 & Hd2 & Hd3).
  apply descending_app. split; [done|]. split; [|].
  - simpl. split; [|done]. intros y Hy. specialize (Hlt y Hy). lia.
  - intros x y Hx. rewrite elem_of_cons. intros [->|Hy]; [by apply Hge|].
    by apply Hd3.
Qed.

Lemma descending_head s d l x :
  descending s l -> x ∈ l -> rd s x f_prio <= rd s (hd d l) f_prio.
Proof.
  destruct l as [|h l]; [intros _ H; by apply elem_of_nil in H|].
  simpl. intros [H _]. rewrite elem_of_cons. intros [->|Hx]; [lia|by apply H].
Qed.

Lemma ring_rd s s' r l :
  (forall p f, rd s' p f = rd s p f) -> ring s r l -> ring s' r l.
Proof. intros E. apply ring_frame; intros; apply E. Qed.

Lemma descending_rd s s' l :
  (forall p f, rd s' p f = rd s p f) -> descending s l -> descending s' l.
Proof. intros E. apply descending_frame. intros; apply E. Qed.

Section Scheduler.

Variables OS_ROBIN OS_TIMER IDLE WAIT : Z.
Variable run : Z -> sys -> option sys.
Variable recount : Z -> Z.
Variables sizeof_ctx ctx_psr ctx_pc ctx_lr : Z.
Variables sizeof_sft sft_lr : Z.
Variable core_tsk_break : Z.

Local Notation "'prepare'" :=
  (priv_tsk_prepare sizeof_ctx ctx_psr ctx_pc ctx_lr sizeof_sft sft_lr
     core_tsk_break).

Local Notation "'handler'" :=
  (core_tsk_handler OS_ROBIN OS_TIMER IDLE WAIT run recount sizeof_ctx ctx_psr ctx_pc
     ctx_lr sizeof_sft sft_lr core_tsk_break).

(** The timer handler at the start of the context-switch handler has
    nothing to do. *)
Lemma no_timer_work s fuel :
  OS_ROBIN ≠ 0 \/
  priv_tmr_expired OS_ROBIN OS_TIMER recount s (rd s WAIT f_next) = false ->
  (1 <= fuel)%nat ->
  (if OS_ROBIN =? 0
   then core_tmr_handler OS_ROBIN OS_TIMER IDLE WAIT run recount fuel s
   else Some s) = Some s.
Proof.
  intros H Hf. destruct (OS_ROBIN =? 0) eqn:E; [|done].
  apply Z.eqb_eq in E. destruct H as [H|H]; [done|].
  destruct fuel; [lia|]. simpl. by rewrite H.
Qed.

(** The last step of the handler: the head of the ready ring becomes the
    running task and its stack is prepared. *)
Lemma dispatch_head s rl :
  ring s IDLE rl ->
  let s1 := set_cur s (rd s IDLE f_next) in
  let r := prepare s1 (rd s IDLE f_next) in
  cur (snd r) = hd IDLE rl /\
  (forall p f, rd (snd r) p f = rd s p f) /\
  (rd s (hd IDLE rl) f_sp ≠ 0 ->
     fst r = rd s (hd IDLE rl) f_sp /\ mem (snd r) = mem s).
Proof.
  intros HR s1 r. pose proof (ring_first _ _ _ HR) as Hfirst.
  destruct (priv_tsk_prepare_rest sizeof_ctx ctx_psr ctx_pc ctx_lr sizeof_sft
              sft_lr core_tsk_break s1 (rd s IDLE f_next)) as (Eh & _ & Ec & _).
  fold r in Eh, Ec.
  split. { rewrite Ec. unfold s1. simpl. done. }
  split. { intros p f. unfold rd. rewrite Eh. done. }
  intros Hsp. unfold r. rewrite priv_tsk_prepare_resumes.
  - rewrite Hfirst. done.
  - rewrite Hfirst. done.
Qed.

(** X13: in the build with round robin, and in the build without it when
    the head of the timer ring is not due (the timer handler, which this
    build runs first, then changes nothing): when the running task is still
    ready, the context-switch handler saves its stack pointer, moves it
    behind the ready tasks of the same priority and dispatches the head of
    the ready ring.  The ring stays in
    descending order, so the task dispatched has the greatest priority of
    all ready tasks: the next ready task of the same priority if there is
    one (round robin), the same task again if every other ready task has
    a lower priority. *)
Theorem core_tsk_handler_rotates s r1 r2 sp fuel :
  ring s IDLE (r1 ++ cur s :: r2) -> rd s IDLE f_prio = 0 ->
  (forall x, x ∈ r1 ++ cur s :: r2 -> 0 <= rd s x f_prio) ->
  descending s (r1 ++ cur s :: r2) ->
  rd s (cur s) f_id = ID_READY ->
  OS_ROBIN ≠ 0 \/
  priv_tmr_expired OS_ROBIN OS_TIMER recount s (rd s WAIT f_next) = false ->
  (length (r1 ++ r2) < fuel)%nat ->
  exists sp' s' l1 l2, r1 ++ r2 = l1 ++ l2 /\
    handler fuel s sp = Some (sp', s') /\
    ring s' IDLE (l1 ++ cur s :: l2) /\
    (forall x, x ∈ l1 -> rd s (cur s) f_prio <= rd s x f_prio) /\
    (forall x, x ∈ l2 -> rd s x f_prio < rd s (cur s) f_prio) /\
    descending s' (l1 ++ cur s :: l2) /\
    cur s' = hd IDLE (l1 ++ cur s :: l2) /\
    (forall x, x ∈ l1 ++ cur s :: l2 ->
       rd s' x f_prio <= rd s' (cur s') f_prio) /\
    rd s' (cur s) f_sp = sp /\
    (forall p, rd s' p f_prio = rd s p f_prio) /\
    (rd s' (cur s') f_sp ≠ 0 -> sp' = rd s' (cur s') f_sp /\ mem s' = mem s) /\
    (forall n r, r1 = [] -> r2 = n :: r ->
       rd s n f_prio = rd s (cur s) f_prio -> cur s' = n) /\
    ((forall x, x ∈ r1 ++ r2 -> rd s x f_prio < rd s (cur s) f_prio) ->
       cur s' = cur s).
Proof.
  intros HR Hidle Hnn Hd Hid Htm Hf.
  set (c := cur s) in *.
  unfold core_tsk_handler. rewrite no_timer_work by (done || lia). simpl.
  fold c.
  set (s0 := wr s c f_sp sp).
  assert (F0 : forall p f, f ≠ f_sp -> rd s0 p f = rd s p f).
  { intros p f H. unfold s0. by rewrite rd_wr_field. }
  rewrite F0, Hid by done. simpl.
  assert (HR0 : ring s0 IDLE (r1 ++ c :: r2)).
  { eapply ring_frame; [| |exact HR]; intros; by apply F0. }
  set (s1 := core_tsk_remove s0 c).
  assert (F1 : forall p f, f ≠ f_id -> f ≠ f_prev -> f ≠ f_next ->
                 rd s1 p f = rd s0 p f).
  { intros. by apply priv_rdy_remove_other. }
  assert (Fp1 : forall p, rd s1 p f_prio = rd s p f_prio).
  { intros p. rewrite F1, F0 by done. done. }
  assert (HR1 : ring s1 IDLE (r1 ++ r2)) by (by apply ring_remove).
  assert (Hcr : c ∉ IDLE :: r1 ++ r2).
  { destruct HR as (ND & _). apply NoDup_cons in ND as [N1 N2].
    apply NoDup_app in N2 as (N3 & N4 & N5). apply NoDup_cons in N5 as [N5 N6].
    rewrite elem_of_cons, elem_of_app. intros [E|[H|H]]; [|by apply (N4 c H); set_solver|done].
    apply N1. rewrite <- E. set_solver. }
  assert (Hd1 : descending s1 (r1 ++ r2)).
  { apply (descending_frame s); [intros; by rewrite Fp1|].
    apply descending_app in Hd as (Hd1 & Hd2 & Hd3). simpl in Hd2.
    apply descending_app. split; [done|]. split; [tauto|].
    intros x y Hx Hy. apply Hd3; [done|set_solver]. }
  destruct (priv_tsk_insert_sorted IDLE s1 (r1 ++ r2) c fuel HR1)
    as (l1 & l2 & E & Hins & HR2 & Hge & Hlt & Hd2); try done.
  { by rewrite Fp1. }
  { rewrite Fp1. apply Hnn. set_solver. }
  { intros x Hx. rewrite Fp1. apply Hnn. set_solver. }
  rewrite Hins. simpl.
  set (s2 := priv_rdy_insert s1 c ID_READY (hd IDLE l2)) in *.
  assert (Fp2 : forall p, rd s2 p f_prio = rd s p f_prio).
  { intros p. unfold s2. rewrite priv_rdy_insert_other by done. apply Fp1. }
  destruct (dispatch_head s2 _ HR2) as (Hcur & Erd & Hsp).
  set (r := prepare (set_cur s2 (rd s2 IDLE f_next)) (rd s2 IDLE f_next)) in *.
  exists (fst r), (snd r), l1, l2.
  assert (Hd' : descending (snd r) (l1 ++ c :: l2)).
  { apply (descending_frame s); [intros; by rewrite Erd, Fp2|].
    apply (descending_frame s1); [intros; by rewrite Fp1|]. done. }
  split; [done|]. split; [by destruct r|]. split; [by apply (ring_rd s2)|].
  split. { intros x Hx. rewrite <- !Fp1. by apply Hge. }
  split. { intros x Hx. rewrite <- !Fp1. by apply Hlt. }
  split; [done|]. split; [done|].
  split. { intros x Hx. rewrite Hcur. by apply descending_head. }
  split.
  { rewrite Erd. unfold s2. rewrite priv_rdy_insert_other by done.
    rewrite F1 by done. unfold s0. by rewrite rd_wr_same. }
  split. { intros p. by rewrite Erd, Fp2. }
  split. { rewrite Hcur, !Erd. intros H. destruct (Hsp H) as [-> ->]. done. }
  clear Hsp Hd' HR2 Hins Hd2 HR1 Hd1 HR0 HR Hd. clearbody r s2 s1 s0.
  split.
  - intros n r' E1 E2 Hn. subst r1 r2. rewrite Hcur.
    destruct l1 as [|x l1]; cbn [app hd] in E |- *.
    + assert (Hin : n ∈ l2) by (rewrite <- E; constructor).
      specialize (Hlt n Hin). rewrite !Fp1 in Hlt. lia.
    + injection E as E3 E4. congruence.
  - intros Hall. rewrite Hcur.
    destruct l1 as [|x l1]; cbn [app hd]; [reflexivity|].
    assert (Hin : x ∈ r1 ++ r2) by (rewrite E; constructor).
    specialize (Hall x Hin). specialize (Hge x). rewrite !Fp1 in Hge.
    assert (Hx : x ∈ x :: l1) by constructor.
    specialize (Hge Hx). lia.
Qed.

(** X14: in the build with round robin, and in the build without it when
    the head of the timer ring is not due (the timer handler, which this
    build runs first, then changes nothing): when the running task is no
    longer ready (it blocked or stopped), the handler saves its stack
    pointer, leaves the ready ring as it is and dispatches its head, the
    idle task when no task is ready. *)
Theorem core_tsk_handler_dispatches s rl sp fuel :
  ring s IDLE rl -> descending s rl ->
  rd s (cur s) f_id ≠ ID_READY ->
  OS_ROBIN ≠ 0 \/
  priv_tmr_expired OS_ROBIN OS_TIMER recount s (rd s WAIT f_next) = false ->
  (1 <= fuel)%nat ->
  exists sp' s',
    handler fuel s sp = Some (sp', s') /\
    ring s' IDLE rl /\ cur s' = hd IDLE rl /\
    (rl = [] -> cur s' = IDLE) /\
    (forall x, x ∈ rl -> rd s' x f_prio <= rd s' (cur s') f_prio) /\
    rd s' (cur s) f_sp = sp /\
    (forall p f, (p, f) ≠ (cur s, f_sp) -> rd s' p f = rd s p f) /\
    (rd s' (cur s') f_sp ≠ 0 -> sp' = rd s' (cur s') f_sp /\ mem s' = mem s).
Proof.
  intros HR Hd Hid Htm Hf.
  unfold core_tsk_handler. rewrite no_timer_work by done. simpl.
  set (c := cur s) in *.
  set (s0 := wr s c f_sp sp).
  assert (F0 : forall p f, f ≠ f_sp -> rd s0 p f = rd s p f).
  { intros p f H. unfold s0. by rewrite rd_wr_field. }
  rewrite F0 by done. rewrite (proj2 (Z.eqb_neq _ _) Hid). simpl.
  assert (HR0 : ring s0 IDLE rl).
  { eapply ring_frame; [| |exact HR]; intros; by apply F0. }
  destruct (dispatch_head s0 _ HR0) as (Hcur & Erd & Hsp).
  set (r := prepare (set_cur s0 (rd s0 IDLE f_next)) (rd s0 IDLE f_next)) in *.
  exists (fst r), (snd r).
  split; [by destruct r|]. split; [by apply (ring_rd s0)|].
  split; [done|]. split; [by intros ->|].
  split.
  { intros x Hx. rewrite Hcur, !Erd, !F0 by done. by apply descending_head. }
  split. { rewrite Erd. unfold s0. by rewrite rd_wr_same. }
  split. { intros p f Hpf. rewrite Erd. unfold s0. by rewrite rd_wr_ne. }
  rewrite Hcur, !Erd. intros H. destruct (Hsp H) as [-> ->]. done.
Qed.

End Scheduler.

(** ** The allocator of the kernel heap *)

Lemma core_sys_alloc_clear_spec n : forall s a fuel,
  0 <= a -> a + 8 * Z.of_nat (S n) < Word.modulus ->
  (S n <= fuel)%nat ->
  exists s',
    core_sys_alloc_clear fuel s a (a + 8 * Z.of_nat (S n)) = Some s' /\
    heap s' = heap s /\ Counter s' = Counter s /\ cur s' = cur s /\
    pend s' = pend s /\
    (forall b, a <= b < a + 8 * Z.of_nat (S n) -> rdb s' b = 0) /\
    (forall b, ~ (a <= b < a + 8 * Z.of_nat (S n)) -> rdb s' b = rdb s b).
Proof.
  induction n as [|n IH]; intros s a fuel Ha Htop Hf.
  - destruct fuel as [|fuel]; [lia|]. cbn [core_sys_alloc_clear].
    rewrite add_small by lia.
    rewrite (proj2 (Z.ltb_ge _ _)) by lia.
    eexists. split; [done|].
    destruct (store_bytes_rest [0; 0; 0; 0; 0; 0; 0; 0] s a) as (-> & -> & -> & ->).
    split; [done|]. split; [done|]. split; [done|]. split; [done|].
    split.
    + intros b Hb. rewrite rdb_store_bytes. cbn [length].
      rewrite decide_True by lia.
      assert (Hk : (Z.to_nat (b - a) < 8)%nat) by lia.
      destruct (Z.to_nat (b - a)) as [|[|[|[|[|[|[|[|k]]]]]]]]; simpl; (done || lia).
    + intros b Hb. rewrite rdb_store_bytes. cbn [length].
      by rewrite decide_False by lia.
  - destruct fuel as [|fuel]; [lia|]. cbn [core_sys_alloc_clear].
    rewrite add_small by lia.
    rewrite (proj2 (Z.ltb_lt _ _)) by lia.
    set (s1 := store_bytes s a [0; 0; 0; 0; 0; 0; 0; 0]).
    destruct (IH s1 (a + 8) fuel) as (s' & Hs' & Eh & Ec & Eu & Ep & Hz & Ho);
      [lia|lia|lia|].
    replace (a + 8 + 8 * Z.of_nat (S n)) with (a + 8 * Z.of_nat (S (S n)))
      in Hs', Hz, Ho by lia.
    exists s'. split; [done|].
    destruct (store_bytes_rest [0; 0; 0; 0; 0; 0; 0; 0] s a) as (Fh & Fc & Fu & Fp).
    fold s1 in Fh, Fc, Fu, Fp.
    split; [congruence|]. split; [congruence|]. split; [congruence|].
    split; [congruence|].
    assert (Hfirst : forall b, a <= b < a + 8 -> rdb s1 b = 0).
    { intros b Hb. unfold s1. rewrite rdb_store_bytes. cbn [length].
      rewrite decide_True by lia.
      assert (Hk : (Z.to_nat (b - a) < 8)%nat) by lia.
      destruct (Z.to_nat (b - a)) as [|[|[|[|[|[|[|[|k]]]]]]]]; simpl; (done || lia). }
    split.
    + intros b Hb. destruct (decide (a + 8 <= b)) as [H|H].
      * apply Hz. lia.
      * rewrite Ho by lia. apply Hfirst. lia.
    + intros b Hb. rewrite Ho by lia. unfold s1. rewrite rdb_store_bytes.
      cbn [length]. by rewrite decide_False by lia.
Qed.

Section Alloc.

Variables Heap HeapSize : Z.
Variable ASIZE : Z -> Z.

Lemma core_sys_alloc_fits fuel brk s size :
  0 <= brk -> Heap + HeapSize < Word.modulus ->
  size ≠ 0 -> 0 < ASIZE size -> ASIZE size mod 8 = 0 ->
  brk + ASIZE size <= Heap + HeapSize ->
  (Z.to_nat (ASIZE size / 8) <= fuel)%nat ->
  exists s',
    core_sys_alloc Heap HeapSize ASIZE fuel brk s size
      = Some (brk, brk + ASIZE size, s') /\
    heap s' = heap s /\ Counter s' = Counter s /\ cur s' = cur s /\
    pend s' = pend s /\
    (forall b, brk <= b < brk + ASIZE size -> rdb s' b = 0) /\
    (forall b, ~ (brk <= b < brk + ASIZE size) -> rdb s' b = rdb s b).
Proof.
  intros Hb Htop Hs Hpos Hal Hfit Hf.
  unfold core_sys_alloc. rewrite (proj2 (Z.eqb_neq _ _) Hs).
  rewrite add_small by lia.
  rewrite (proj2 (Z.leb_le _ _) Hfit).
  assert (E : ASIZE size = 8 * (ASIZE size / 8)).
  { rewrite (Z_div_mod_eq_full (ASIZE size) 8) at 1. lia. }
  assert (Hq : 0 < ASIZE size / 8) by lia.
  destruct (Z.to_nat (ASIZE size / 8)) as [|n] eqn:En; [lia|].
  assert (E' : ASIZE size = 8 * Z.of_nat (S n)) by lia.
  destruct (core_sys_alloc_clear_spec n s brk fuel) as (s' & Hs' & H);
    [lia|lia|done|].
  rewrite E'. rewrite Hs'. simpl. exists s'. split; [done|]. exact H.
Qed.

(** X15: [core_sys_alloc] returns 0 and changes nothing when asked for no
    bytes, or when the end of the block, computed in the 32 bits of an
    address, lies beyond the end of the heap; when the block fits it
    returns the first free address, moves the free pointer up by the
    rounded size, and the block is filled with zeros while every byte
    outside the block and every kernel object is untouched.  A size so
    large that the end of the block wraps around to an address that is not
    beyond the heap is not refused: the free pointer is moved to the
    wrapped address. *)
Theorem core_sys_alloc_block fuel brk s size :
  0 <= brk -> Heap + HeapSize < Word.modulus ->
  0 < ASIZE size < Word.modulus -> ASIZE size mod 8 = 0 ->
  (Z.to_nat (ASIZE size / 8) <= fuel)%nat ->
  core_sys_alloc Heap HeapSize ASIZE fuel brk s 0 = Some (0, brk, s) /\
  (size ≠ 0 -> Heap + HeapSize < Word.add brk (ASIZE size) ->
     core_sys_alloc Heap HeapSize ASIZE fuel brk s size = Some (0, brk, s)) /\
  (size ≠ 0 -> brk + ASIZE size <= Heap + HeapSize ->
     exists s',
       core_sys_alloc Heap HeapSize ASIZE fuel brk s size
         = Some (brk, brk + ASIZE size, s') /\
       heap s' = heap s /\ Counter s' = Counter s /\ cur s' = cur s /\
       (forall b, brk <= b < brk + ASIZE size -> rdb s' b = 0) /\
       (forall b, ~ (brk <= b < brk + ASIZE size) -> rdb s' b = rdb s b)) /\
  (size ≠ 0 -> brk + 8 < Word.modulus <= brk + ASIZE size ->
     brk + ASIZE size - Word.modulus <= Heap + HeapSize ->
     core_sys_alloc Heap HeapSize ASIZE fuel brk s size
       = Some (brk, brk + ASIZE size - Word.modulus,
               store_bytes s brk [0; 0; 0; 0; 0; 0; 0; 0])).
Proof.
  intros Hb Htop Hpos Hal Hf. split; [done|]. split; [|split].
  - intros Hs Hno. unfold core_sys_alloc. rewrite (proj2 (Z.eqb_neq _ _) Hs).
    by rewrite (proj2 (Z.leb_gt _ _)) by lia.
  - intros Hs Hfit.
    destruct (core_sys_alloc_fits fuel brk s size Hb Htop Hs) as
      (s' & H1 & H2 & H3 & H4 & _ & H5 & H6); [lia|done|done|done|].
    exists s'. done.
  - intros Hs Hwrap Hin.
    assert (Ew : Word.add brk (ASIZE size) = brk + ASIZE size - Word.modulus).
    { unfold Word.add, Word.wrap. symmetry.
      apply (Z.mod_unique _ _ 1); [left; lia|lia]. }
    unfold core_sys_alloc. rewrite (proj2 (Z.eqb_neq _ _) Hs). rewrite Ew.
    rewrite (proj2 (Z.leb_le _ _) Hin).
    pose proof (Z_div_mod_eq_full (ASIZE size) 8) as E. rewrite Hal in E.
    assert (Hq : 0 < ASIZE size / 8) by lia.
    destruct fuel as [|fuel]; [lia|]. cbn [core_sys_alloc_clear].
    rewrite add_small by lia.
    rewrite (proj2 (Z.ltb_ge _ _)) by lia. done.
Qed.

(** X16: two successive allocations that both fit into the rest of the heap
    hand out blocks inside the heap that do not overlap, the second
    directly above the first, and the second allocation leaves the first
    block as it is. *)
Theorem core_sys_alloc_twice fuel brk s size1 size2 :
  0 <= Heap -> Heap <= brk -> Heap + HeapSize < Word.modulus ->
  size1 ≠ 0 -> 0 < ASIZE size1 -> ASIZE size1 mod 8 = 0 ->
  size2 ≠ 0 -> 0 < ASIZE size2 -> ASIZE size2 mod 8 = 0 ->
  brk + ASIZE size1 + ASIZE size2 <= Heap + HeapSize ->
  (Z.to_nat (ASIZE size1 / 8) <= fuel)%nat ->
  (Z.to_nat (ASIZE size2 / 8) <= fuel)%nat ->
  exists b1 brk1 s1 b2 brk2 s2,
    core_sys_alloc Heap HeapSize ASIZE fuel brk s size1 = Some (b1, brk1, s1) /\
    core_sys_alloc Heap HeapSize ASIZE fuel brk1 s1 size2 = Some (b2, brk2, s2) /\
    Heap <= b1 /\ b1 + ASIZE size1 = b2 /\
    b2 + ASIZE size2 = brk2 /\ brk2 <= Heap + HeapSize /\
    (forall b, b1 <= b < b1 + ASIZE size1 -> rdb s2 b = rdb s1 b /\ rdb s2 b = 0) /\
    (forall b, b2 <= b < b2 + ASIZE size2 -> rdb s2 b = 0).
Proof.
  intros H0 Hb Htop S1 P1 A1 S2 P2 A2 Hfit F1 F2.
  destruct (core_sys_alloc_fits fuel brk s size1) as (s1 & E1 & _ & _ & _ & _ & Z1 & O1);
    [lia|done|done|done|done|lia|done|].
  destruct (core_sys_alloc_fits fuel (brk + ASIZE size1) s1 size2)
    as (s2 & E2 & _ & _ & _ & _ & Z2 & O2); [lia|done|done|done|done|lia|done|].
  exists brk, (brk + ASIZE size1), s1, (brk + ASIZE size1),
         (brk + ASIZE size1 + ASIZE size2), s2.
  split; [done|]. split; [done|]. split; [done|]. split; [done|].
  split; [done|]. split; [done|]. split.
  - intros b Hbb. rewrite O2 by lia. split; [done|]. by apply Z1.
  - done.
Qed.

End Alloc.

(** ** The messages in a buffer *)

Lemma framed_length m : length (framed m) = (4 + length m)%nat.
Proof. unfold framed. by rewrite length_app. Qed.

Lemma load_bytes_length s a n : length (load_bytes s a n) = n.
Proof. unfold load_bytes. by rewrite length_map, length_seq. Qed.

Lemma ring_bytes_nth s msg i n j :
  (j < n)%nat ->
  nth j (ring_bytes s msg i n) 0 =
    rdb s (rd s msg f_data + (i + Z.of_nat j) mod rd s msg f_limit).
Proof. intros Hj. unfold ring_bytes. by rewrite nth_map_seq. Qed.

Lemma stored_nth s msg ms j :
  stored s msg ms -> (j < length (concat (map framed ms)))%nat ->
  rdb s (rd s msg f_data +
         (rd s msg f_head + Z.of_nat j) mod rd s msg f_limit) =
    nth j (concat (map framed ms)) 0.
Proof.
  intros (_ & _ & _ & _ & _ & Hb) Hj.
  rewrite <- (ring_bytes_nth s msg _ _ j Hj). by rewrite Hb.
Qed.

Lemma stored_intro s msg ms :
  0 <= rd s msg f_head < rd s msg f_limit ->
  rd s msg f_limit < Word.modulus ->
  rd s msg f_count = Z.of_nat (length (concat (map framed ms))) ->
  rd s msg f_count <= rd s msg f_limit ->
  rd s msg f_tail = (rd s msg f_head + rd s msg f_count) mod rd s msg f_limit ->
  (forall j, (j < length (concat (map framed ms)))%nat ->
     rdb s (rd s msg f_data +
            (rd s msg f_head + Z.of_nat j) mod rd s msg f_limit) =
       nth j (concat (map framed ms)) 0) ->
  stored s msg ms.
Proof.
  intros H1 H2 H3 H4 H5 H6. unfold stored. cbv zeta.
  split; [done|]. split; [done|]. split; [done|]. split; [done|].
  split; [done|].
  apply (nth_ext _ _ 0 0).
  - unfold ring_bytes. by rewrite length_map, length_seq.
  - unfold ring_bytes at 1. rewrite length_map, length_seq. intros j Hj.
    rewrite ring_bytes_nth by done. by apply H6.
Qed.

Lemma stored_count_pos s msg m ms :
  stored s msg (m :: ms) ->
  rd s msg f_count =
    4 + Z.of_nat (length m) + Z.of_nat (length (concat (map framed ms))).
Proof.
  intros (_ & _ & Hc & _). rewrite Hc. cbn [map concat].
  rewrite length_app, framed_length. lia.
Qed.

Lemma stored_empty_count s msg : stored s msg [] -> rd s msg f_count = 0.
Proof. by intros (_ & _ & Hc & _). Qed.



(** The free space of a buffer nobody waits on. *)
Lemma space_without_waiters s msg ms :
  stored s msg ms -> rd s msg f_queue = 0 \/ rd s msg f_count = 0 ->
  priv_msg_space s msg =
    Z.max 0 (rd s msg f_limit - rd s msg f_count - 4).
Proof.
  intros (Hh & HL & Hc & HcL & _) Hq. unfold priv_msg_space, sizeof_unsigned.
  assert (E1 : ((rd s msg f_count =? 0) || (rd s msg f_queue =? 0)) = true).
  { apply orb_true_iff. destruct Hq as [->| ->]; [by right|by left]. }
  rewrite E1. simpl.
  rewrite (sub_small (rd s msg f_limit)) by lia.
  destruct (_ >? 4) eqn:E.
  - rewrite sub_small by lia. lia.
  - lia.
Qed.

Lemma space_behind_waiters s msg :
  rd s msg f_queue ≠ 0 -> rd s msg f_count ≠ 0 -> priv_msg_space s msg = 0.
Proof.
  intros Hq Hc. unfold priv_msg_space.
  rewrite (proj2 (Z.eqb_neq _ _) Hq), (proj2 (Z.eqb_neq _ _) Hc). done.
Qed.

(** The length of the first message, as [priv_msg_count] reads it. *)
Lemma count_of_head s msg m ms :
  stored s msg (m :: ms) -> priv_msg_count s msg = Z.of_nat (length m).
Proof.
  intros HS. pose proof HS as (Hh & HL & Hc & HcL & _).
  pose proof (stored_count_pos _ _ _ _ HS) as Hcp.
  destruct (priv_msg_count_spec s msg Hh) as (bs & Hlen & Hcnt & Hbs); [lia|].
  rewrite Hcnt. rewrite <- (of_to_bytes (Z.of_nat (length m))) at 1.
  2:{ unfold Word.in_range. lia. }
  apply of_bytes_nth. intros j Hj. rewrite Hbs by done.
  rewrite (stored_nth s msg (m :: ms) j HS).
  2:{ cbn [map concat]. rewrite length_app, framed_length. lia. }
  cbn [map concat]. unfold framed. rewrite <- app_assoc.
  rewrite app_nth1 by (rewrite to_bytes_length; lia). done.
Qed.

(** Writing a message behind the messages in the buffer. *)
Lemma frame_put s msg data size ms :
  stored s msg ms -> 0 < size ->
  rd s msg f_count + 4 + size <= rd s msg f_limit ->
  (forall j x, 0 <= j < size -> 0 <= x < rd s msg f_limit ->
     data + j ≠ rd s msg f_data + x) ->
  exists sa sb,
    priv_msg_putSize s msg size = Some sa /\
    sb = priv_msg_put sa msg (Ptr data) size /\
    stored sb msg (ms ++ [load_bytes s data (Z.to_nat size)]) /\
    (forall p f, (p, f) ≠ (msg, f_count) -> (p, f) ≠ (msg, f_tail) ->
       heap sb !! (p, f) = heap s !! (p, f)) /\
    Counter sb = Counter s /\ cur sb = cur s /\ pend sb = pend s /\
    (forall a, (forall x, 0 <= x < rd s msg f_limit ->
                  a ≠ rd s msg f_data + x) -> rdb sb a = rdb s a) /\
    (forall p f, (p, f) ≠ (msg, f_count) -> (p, f) ≠ (msg, f_tail) ->
       heap sa !! (p, f) = heap s !! (p, f)).
Proof.
  intros HS Hsize Hfit Hsrc.
  pose proof HS as (Hh & HL & Hc & HcL & Htail & _).
  set (L := rd s msg f_limit) in *. set (d := rd s msg f_data) in *.
  set (h := rd s msg f_head) in *. set (c := rd s msg f_count) in *.
  set (bytes := concat (map framed ms)) in *.
  assert (Hc0 : 0 <= c) by lia.
  unfold priv_msg_putSize.
  assert ((size =? 0) = false) as -> by lia. simpl.
  set (sa := priv_msg_put s msg (Bytes (Word.to_bytes size)) sizeof_unsigned).
  destruct (priv_msg_put_spec s msg (Bytes (Word.to_bytes size)) sizeof_unsigned)
    as (Ac & At & Ah & AC & Au & Ape & Aw & Ao).
  { rewrite Htail. apply pos_range. lia. }
  { unfold sizeof_unsigned. fold L. lia. }
  { done. }
  fold sa in Ac, At, Ah, AC, Au, Ape, Aw, Ao.
  fold L d c in Ac, At, Ah, Aw, Ao. rewrite Htail in At, Aw, Ao.
  unfold sizeof_unsigned in *.
  assert (RA : forall p f, f ≠ f_count -> f ≠ f_tail -> rd sa p f = rd s p f).
  { intros. apply rd_heap, Ah; congruence. }
  set (sb := priv_msg_put sa msg (Ptr data) size).
  assert (EL : rd sa msg f_limit = L) by (by apply RA).
  assert (Ed : rd sa msg f_data = d) by (by apply RA).
  destruct (priv_msg_put_spec sa msg (Ptr data) size)
    as (Bc & Bt & Bh & BC & Bu & Bpe & Bw & Bo).
  { rewrite At, EL. apply pos_range. lia. }
  { rewrite EL. lia. }
  { simpl. intros j x Hj Hx. rewrite EL in Hx. rewrite Ed, Z.add_0_l.
    apply Hsrc; [lia|done]. }
  fold sb in Bc, Bt, Bh, BC, Bu, Bpe, Bw, Bo.
  rewrite EL, Ed, At in *.
  rewrite Ac in Bc. rewrite (add_small c 4) in Bc by lia.
  rewrite add_small in Bc by lia.
  rewrite pos_add in Bt, Bw, Bo.
  assert (Aw' : forall j, 0 <= j < 4 ->
            rdb sa (d + (h + (c + j)) mod L) = nth (Z.to_nat j) (Word.to_bytes size) 0).
  { intros j Hj. rewrite <- pos_add. by apply Aw. }
  assert (Ao' : forall a, (forall j, 0 <= j < 4 -> a ≠ d + (h + (c + j)) mod L) ->
            rdb sa a = rdb s a).
  { intros a Ha. apply Ao. intros j Hj. rewrite pos_add. by apply Ha. }
  assert (Bw' : forall j, 0 <= j < size ->
            rdb sb (d + (h + (c + 4 + j)) mod L) = rdb s (data + j)).
  { intros j Hj. rewrite <- pos_add. rewrite Bw by done. simpl.
    apply Ao'. intros j' Hj' E. revert E. apply Hsrc; [done|].
    apply pos_range. lia. }
  assert (Bo' : forall a, (forall j, 0 <= j < size -> a ≠ d + (h + (c + 4 + j)) mod L) ->
            rdb sb a = rdb sa a).
  { intros a Ha. apply Bo. intros j Hj. rewrite pos_add. by apply Ha. }
  assert (Hsb : forall p f, (p, f) ≠ (msg, f_count) -> (p, f) ≠ (msg, f_tail) ->
            heap sb !! (p, f) = heap s !! (p, f)).
  { intros p f H1 H2. rewrite Bh, Ah by done. done. }
  assert (RB : forall f, f ≠ f_count -> f ≠ f_tail -> rd sb msg f = rd s msg f).
  { intros. apply rd_heap, Hsb; congruence. }
  exists sa, sb. split; [done|]. split; [done|].
  split; [|split; [done|]; split; [congruence|]; split; [congruence|];
           split; [congruence|]; split; [|done]].
  2:{ intros a Ha. rewrite Bo'.
      - apply Ao'. intros j Hj. apply Ha. apply pos_range. lia.
      - intros j Hj. apply Ha. apply pos_range. lia. }
  assert (Hlen : length (concat (map framed (ms ++ [load_bytes s data (Z.to_nat size)])))
                 = (length bytes + (4 + Z.to_nat size))%nat).
  { rewrite map_app, concat_app, length_app. cbn [map concat].
    rewrite app_nil_r, framed_length, load_bytes_length. done. }
  apply stored_intro;
    rewrite ?(RB f_limit), ?(RB f_data), ?(RB f_head) by done;
    change (rd s msg f_limit) with L; change (rd s msg f_data) with d;
    change (rd s msg f_head) with h.
  - done.
  - done.
  - rewrite Bc, Hlen. lia.
  - rewrite Bc. lia.
  - rewrite Bt, Bc, pos_add. f_equal. lia.
  - rewrite Hlen. intros j Hj.
    rewrite map_app, concat_app. cbn [map concat]. rewrite app_nil_r.
    fold bytes.
    destruct (decide (j < length bytes)%nat) as [Hj1|Hj1].
    + rewrite app_nth1 by done.
      rewrite Bo', Ao'.
      * by apply (stored_nth s msg ms j HS).
      * intros j' Hj' E.
        assert (E' : (h + Z.of_nat j) mod L = (h + (c + j')) mod L) by lia.
        apply pos_inj in E'; lia.
      * intros j' Hj' E.
        assert (E' : (h + Z.of_nat j) mod L = (h + (c + 4 + j')) mod L) by lia.
        apply pos_inj in E'; lia.
    + rewrite app_nth2 by lia. unfold framed.
      rewrite load_bytes_length, Z2Nat.id by lia.
      destruct (decide (j - length bytes < 4)%nat) as [Hj2|Hj2].
      * rewrite app_nth1 by (rewrite to_bytes_length; lia).
        rewrite Bo'.
        -- replace (Z.of_nat j) with (c + Z.of_nat (j - length bytes)) by lia.
           rewrite Aw' by lia. by rewrite Nat2Z.id.
        -- intros j' Hj' E.
           assert (E' : (h + Z.of_nat j) mod L = (h + (c + 4 + j')) mod L) by lia.
           apply pos_inj in E'; lia.
      * rewrite app_nth2 by (rewrite to_bytes_length; lia).
        rewrite to_bytes_length.
        replace (Z.of_nat j)
          with (c + 4 + Z.of_nat (j - length bytes - 4)) by lia.
        rewrite Bw' by lia. rewrite load_bytes_nth by lia. done.
Qed.

(** ** Taking the first message out of a buffer *)

(** Reading the length of the first message. *)
Lemma getSize_head s msg m ms :
  stored s msg (m :: ms) ->
  exists sa,
    priv_msg_getSize s msg = Some (Z.of_nat (length m), sa) /\
    rd sa msg f_count = rd s msg f_count - 4 /\
    rd sa msg f_head = (rd s msg f_head + 4) mod rd s msg f_limit /\
    (forall p f, (p, f) ≠ (msg, f_count) -> (p, f) ≠ (msg, f_head) ->
       heap sa !! (p, f) = heap s !! (p, f)) /\
    Counter sa = Counter s /\ cur sa = cur s /\ pend sa = pend s /\
    mem sa = mem s.
Proof.
  intros HS. pose proof HS as (Hh & HL & Hc & HcL & _).
  pose proof (stored_count_pos _ _ _ _ HS) as Hcp.
  unfold priv_msg_getSize.
  assert ((rd s msg f_count =? 0) = false) as -> by lia.
  unfold assert. cbn [negb mbind option_bind].
  destruct (priv_msg_get_spec s msg None sizeof_unsigned Hh)
    as (bs & sa & Hget & Ac & Ahd & Ah & AC & Au & Ap & Alen & Abs & Am).
  { done. }
  { done. }
  rewrite Hget. exists sa. unfold sizeof_unsigned in *.
  split.
  { f_equal. f_equal.
    rewrite <- (of_to_bytes (Z.of_nat (length m))).
    2:{ unfold Word.in_range. lia. }
    apply of_bytes_nth. intros j Hj. rewrite Abs by lia.
    rewrite (stored_nth s msg (m :: ms) j HS).
    2:{ cbn [map concat]. rewrite length_app, framed_length. lia. }
    cbn [map concat]. unfold framed. rewrite <- app_assoc.
    rewrite app_nth1 by (rewrite to_bytes_length; lia). done. }
  split. { rewrite Ac. apply sub_small; lia. }
  split; [done|]. split; [done|]. done.
Qed.

Lemma frame_get s msg data m ms :
  stored s msg (m :: ms) ->
  (forall j x, 0 <= j < Z.of_nat (length m) -> 0 <= x < rd s msg f_limit ->
     data + j ≠ rd s msg f_data + x) ->
  exists sa bs sb,
    priv_msg_getSize s msg = Some (Z.of_nat (length m), sa) /\
    priv_msg_get sa msg (Some data) (Z.of_nat (length m)) = (bs, sb) /\
    stored sb msg ms /\
    load_bytes sb data (length m) = m /\
    (forall p f, (p, f) ≠ (msg, f_count) -> (p, f) ≠ (msg, f_head) ->
       heap sb !! (p, f) = heap s !! (p, f)) /\
    Counter sb = Counter s /\ cur sb = cur s /\ pend sb = pend s /\
    (forall a, (forall j, 0 <= j < Z.of_nat (length m) -> a ≠ data + j) ->
       rdb sb a = rdb s a).
Proof.
  intros HS Hdst. pose proof HS as (Hh & HL & Hc & HcL & Htail & _).
  pose proof (stored_count_pos _ _ _ _ HS) as Hcp.
  destruct (getSize_head s msg m ms HS)
    as (sa & Hsz & Ac & Ahd & Ah & AC & Au & Ap & Am).
  set (L := rd s msg f_limit) in *. set (d := rd s msg f_data) in *.
  set (h := rd s msg f_head) in *. set (c := rd s msg f_count) in *.
  set (n := length m) in *.
  set (rest := concat (map framed ms)) in *.
  assert (RA : forall p f, f ≠ f_count -> f ≠ f_head -> rd sa p f = rd s p f).
  { intros. apply rd_heap, Ah; congruence. }
  assert (EL : rd sa msg f_limit = L) by (by apply RA).
  assert (Ed : rd sa msg f_data = d) by (by apply RA).
  assert (Ema : forall a, rdb sa a = rdb s a).
  { intros a. unfold rdb. by rewrite Am. }
  destruct (priv_msg_get_spec sa msg (Some data) (Z.of_nat n))
    as (bs & sb & Hget & Bc & Bhd & Bh & BC & Bu & Bp & Blen & Bbs & Bd & Bo).
  { rewrite Ahd, EL. apply pos_range. lia. }
  { lia. }
  { simpl. intros j x Hj Hx. rewrite EL in Hx. rewrite Ed, Z.add_0_l.
    apply Hdst; [lia|done]. }
  rewrite EL, Ed, Ahd, Ac in *. rewrite pos_add in Bhd.
  rewrite sub_small in Bc by lia.
  assert (Hsb : forall p f, (p, f) ≠ (msg, f_count) -> (p, f) ≠ (msg, f_head) ->
            heap sb !! (p, f) = heap s !! (p, f)).
  { intros p f H1 H2. rewrite Bh, Ah by done. done. }
  assert (RB : forall f, f ≠ f_count -> f ≠ f_head -> rd sb msg f = rd s msg f).
  { intros. apply rd_heap, Hsb; congruence. }
  assert (Hframe : forall j, (j < 4 + n + length rest)%nat ->
            rdb s (d + (h + Z.of_nat j) mod L) = nth j (framed m ++ rest) 0).
  { intros j Hj. apply (stored_nth s msg (m :: ms) j HS).
    cbn [map concat]. rewrite length_app, framed_length. fold n rest. lia. }
  exists sa, bs, sb. split; [done|]. split; [done|].
  split; [|split; [|split; [done|]; split; [congruence|]; split; [congruence|];
                    split; [congruence|]]].
  - apply stored_intro;
      rewrite ?(RB f_limit), ?(RB f_data), ?(RB f_tail) by done;
      change (rd s msg f_limit) with L; change (rd s msg f_data) with d;
      fold rest.
    + rewrite Bhd. apply pos_range. lia.
    + done.
    + rewrite Bc. lia.
    + rewrite Bc. lia.
    + rewrite Bhd, Bc, pos_add, Htail. f_equal. lia.
    + intros j Hj. rewrite Bhd, pos_add.
      rewrite Bo.
      2:{ intros j' Hj' E. symmetry in E. revert E. apply Hdst; [done|].
          apply pos_range. lia. }
      rewrite Ema.
      replace (4 + Z.of_nat n + Z.of_nat j) with (Z.of_nat (4 + n + j)) by lia.
      rewrite Hframe by lia.
      rewrite app_nth2 by (rewrite framed_length; lia).
      rewrite framed_length. f_equal. lia.
  - apply (nth_ext _ _ 0 0).
    + by rewrite load_bytes_length.
    + rewrite load_bytes_length. intros j Hj.
      rewrite load_bytes_nth by done. rewrite Bd by lia. rewrite pos_add, Ema.
      replace (4 + Z.of_nat j) with (Z.of_nat (4 + j)) by lia.
      rewrite Hframe by lia.
      rewrite app_nth1 by (rewrite framed_length; lia).
      unfold framed. rewrite app_nth2 by (rewrite to_bytes_length; lia).
      rewrite to_bytes_length. f_equal. lia.
  - intros a Ha. rewrite Bo by done. apply Ema.
Qed.

(** Dropping the first message without copying it. *)
Lemma frame_skip s msg m ms :
  stored s msg (m :: ms) ->
  2 * rd s msg f_limit <= Word.modulus ->
  exists sa,
    priv_msg_getSize s msg = Some (Z.of_nat (length m), sa) /\
    stored (priv_msg_skip sa msg (Z.of_nat (length m))) msg ms /\
    (forall p f, (p, f) ≠ (msg, f_count) -> (p, f) ≠ (msg, f_head) ->
       heap (priv_msg_skip sa msg (Z.of_nat (length m))) !! (p, f)
         = heap s !! (p, f)) /\
    Counter (priv_msg_skip sa msg (Z.of_nat (length m))) = Counter s /\
    cur (priv_msg_skip sa msg (Z.of_nat (length m))) = cur s /\
    pend (priv_msg_skip sa msg (Z.of_nat (length m))) = pend s /\
    mem (priv_msg_skip sa msg (Z.of_nat (length m))) = mem s.
Proof.
  intros HS H2L. pose proof HS as (Hh & HL & Hc & HcL & Htail & _).
  pose proof (stored_count_pos _ _ _ _ HS) as Hcp.
  destruct (getSize_head s msg m ms HS)
    as (sa & Hsz & Ac & Ahd & Ah & AC & Au & Ap & Am).
  set (L := rd s msg f_limit) in *. set (d := rd s msg f_data) in *.
  set (h := rd s msg f_head) in *. set (c := rd s msg f_count) in *.
  set (n := length m) in *.
  set (rest := concat (map framed ms)) in *.
  assert (RA : forall p f, f ≠ f_count -> f ≠ f_head -> rd sa p f = rd s p f).
  { intros. apply rd_heap, Ah; congruence. }
  assert (EL : rd sa msg f_limit = L) by (by apply RA).
  pose proof (pos_range h 4 L ltac:(lia)) as Hh1.
  set (h1 := (h + 4) mod L) in *.
  set (sb := priv_msg_skip sa msg (Z.of_nat n)).
  set (s1 := wr sa msg f_count (Word.sub (rd sa msg f_count) (Z.of_nat n))).
  set (s2 := wr s1 msg f_head (Word.add (rd s1 msg f_head) (Z.of_nat n))).
  assert (E1h : rd s1 msg f_head = h1).
  { unfold s1. rewrite rd_wr_field by done. done. }
  assert (E2h : rd s2 msg f_head = h1 + Z.of_nat n).
  { unfold s2. rewrite rd_wr_same, E1h. apply add_small; lia. }
  assert (E2l : rd s2 msg f_limit = L).
  { unfold s2, s1. rewrite !rd_wr_field by done. done. }
  assert (Esb : sb = if h1 + Z.of_nat n >=? L
                     then wr s2 msg f_head (h1 + Z.of_nat n - L) else s2).
  { unfold sb, priv_msg_skip. fold s1. fold s2. rewrite E2h, E2l.
    destruct (_ >=? _) eqn:E; [|done]. f_equal. apply sub_small; lia. }
  assert (Hhead : rd sb msg f_head = (h + (4 + Z.of_nat n)) mod L).
  { rewrite <- pos_add. fold h1. rewrite Esb.
    destruct (_ >=? _) eqn:E.
    - rewrite rd_wr_same. symmetry.
      rewrite <- (Z_mod_plus_full _ (-1)).
      apply Z.mod_small. lia.
    - rewrite E2h. symmetry. apply Z.mod_small. lia. }
  assert (Hcount : rd sb msg f_count = c - 4 - Z.of_nat n).
  { rewrite Esb. destruct (_ >=? _); rewrite ?rd_wr_field by done;
      unfold s2; rewrite rd_wr_field by done; unfold s1; rewrite rd_wr_same, Ac;
      apply sub_small; lia. }
  assert (Hsb : forall p f, (p, f) ≠ (msg, f_count) -> (p, f) ≠ (msg, f_head) ->
            heap sb !! (p, f) = heap s !! (p, f)).
  { intros p f H1 H2. rewrite <- Ah by done. rewrite Esb.
    destruct (_ >=? _); unfold s2, s1, wr; simpl;
      rewrite ?lookup_insert_ne by congruence; done. }
  assert (Hrest : Counter sb = Counter s /\ cur sb = cur s /\ pend sb = pend s /\
                  mem sb = mem s).
  { rewrite Esb. destruct (_ >=? _); simpl; rewrite AC, Au, Ap, Am; done. }
  assert (RB : forall f, f ≠ f_count -> f ≠ f_head -> rd sb msg f = rd s msg f).
  { intros. apply rd_heap, Hsb; congruence. }
  exists sa. split; [done|]. fold sb. split; [|split; [done|exact Hrest]].
  destruct Hrest as (_ & _ & _ & Hm).
  apply stored_intro;
    rewrite ?(RB f_limit), ?(RB f_data), ?(RB f_tail) by done;
    change (rd s msg f_limit) with L; change (rd s msg f_data) with d;
    fold rest.
  - rewrite Hhead. apply pos_range. lia.
  - done.
  - rewrite Hcount. lia.
  - rewrite Hcount. lia.
  - rewrite Hhead, Hcount, pos_add, Htail. f_equal. lia.
  - intros j Hj. rewrite Hhead, pos_add.
    assert (Em : forall a, rdb sb a = rdb s a).
    { intros a. unfold rdb. by rewrite Hm. }
    rewrite Em.
    replace (4 + Z.of_nat n + Z.of_nat j) with (Z.of_nat (4 + n + j)) by lia.
    rewrite (stored_nth s msg (m :: ms) _ HS).
    2:{ cbn [map concat]. rewrite length_app, framed_length. fold n rest. lia. }
    cbn [map concat]. fold rest.
    rewrite app_nth2 by (rewrite framed_length; lia).
    rewrite framed_length. f_equal. lia.
Qed.

(** ** Sending and receiving without waiting tasks *)

Section Buffer.

Variables OS_ROBIN IDLE WAIT : Z.

Lemma putUpdate_appends s msg data size ms fuel :
  stored s msg ms -> rd s msg f_queue = 0 ->
  0 < size <= priv_msg_space s msg ->
  (forall j x, 0 <= j < size -> 0 <= x < rd s msg f_limit ->
     data + j ≠ rd s msg f_data + x) ->
  (1 <= fuel)%nat ->
  exists s',
    priv_msg_putUpdate OS_ROBIN IDLE fuel s msg data size = Some s' /\
    stored s' msg (ms ++ [load_bytes s data (Z.to_nat size)]) /\
    rd s' msg f_count = rd s msg f_count + 4 + size /\
    (forall p f, (p, f) ≠ (msg, f_count) -> (p, f) ≠ (msg, f_tail) ->
       heap s' !! (p, f) = heap s !! (p, f)) /\
    Counter s' = Counter s /\ cur s' = cur s /\ pend s' = pend s /\
    (forall a, (forall x, 0 <= x < rd s msg f_limit ->
                  a ≠ rd s msg f_data + x) -> rdb s' a = rdb s a).
Proof.
  intros HS Hq Hsize Hsrc Hf.
  pose proof HS as (Hh & HL & Hc & HcL & _).
  pose proof (space_without_waiters s msg ms HS (or_introl Hq)) as Hsp.
  assert (Hfit : rd s msg f_count + 4 + size <= rd s msg f_limit) by lia.
  destruct (frame_put s msg data size ms HS)
    as (sa & sb & Hsa & Esb & HSb & Hh' & HC' & Hu' & Hp' & Hm' & _);
    [lia|done|done|].
  unfold priv_msg_putUpdate.
  rewrite (proj2 (Z.leb_le _ _)) by lia. unfold assert at 1.
  cbn [mbind option_bind]. rewrite Hsa. cbn [mbind option_bind].
  rewrite <- Esb.
  assert (Hq' : rd sb msg f_queue = 0).
  { rewrite <- Hq. apply rd_heap, Hh'; congruence. }
  destruct fuel as [|fuel]; [lia|]. cbn [priv_msg_putUpdate_loop].
  rewrite Hq'. cbn [Z.eqb negb].
  exists sb. split; [done|]. split; [done|]. split; [|done].
  pose proof HSb as (_ & _ & Hcb & _). rewrite Hcb, Hc.
  rewrite map_app, concat_app, length_app. cbn [map concat].
  rewrite app_nil_r, framed_length, load_bytes_length. lia.
Qed.

(** X17: on a buffer nobody waits on, [msg_give] of a message that fits in
    the free space (buffer and message not null, as the function asserts)
    returns its size and appends it behind the messages
    already stored; the free space shrinks by the size plus the four bytes
    of the length, and nothing but the buffer is written. *)
Theorem msg_give_appends s msg data size room ms fuel :
  msg ≠ 0 -> data ≠ 0 ->
  stored s msg ms -> rd s msg f_queue = 0 ->
  msg_space s msg = Some room -> 0 < size <= room ->
  (forall j x, 0 <= j < size -> 0 <= x < rd s msg f_limit ->
     data + j ≠ rd s msg f_data + x) ->
  (1 <= fuel)%nat ->
  exists s',
    msg_give OS_ROBIN IDLE fuel s msg data size = Some (size, s') /\
    stored s' msg (ms ++ [load_bytes s data (Z.to_nat size)]) /\
    msg_space s' msg = Some (Z.max 0 (room - size - 4)) /\
    (forall p f, p ≠ msg -> rd s' p f = rd s p f) /\
    (forall a, (forall x, 0 <= x < rd s msg f_limit ->
                  a ≠ rd s msg f_data + x) -> rdb s' a = rdb s a).
Proof.
  intros Hmsg Hdata HS Hq Hroom Hsize Hsrc Hf.
  rewrite msg_space_given in Hroom by done. injection Hroom as <-.
  destruct (putUpdate_appends s msg data size ms fuel HS Hq Hsize Hsrc Hf)
    as (s' & Hs' & HS' & Hc' & Hh' & _ & _ & _ & Hm).
  exists s'. unfold msg_give. rewrite !asserted by done.
  rewrite (proj2 (Z.gtb_lt _ _)) by lia.
  rewrite (proj2 (Z.leb_le _ _)) by lia. rewrite Hs'. cbn [mbind option_bind].
  split; [done|]. split; [done|]. split; [|split; [|done]].
  - assert (Hq' : rd s' msg f_queue = 0).
    { rewrite <- Hq. apply rd_heap, Hh'; congruence. }
    assert (EL : rd s' msg f_limit = rd s msg f_limit).
    { apply rd_heap, Hh'; congruence. }
    rewrite msg_space_given by done.
    rewrite (space_without_waiters s' msg _ HS' (or_introl Hq')).
    rewrite (space_without_waiters s msg _ HS (or_introl Hq)).
    rewrite (space_without_waiters s msg _ HS (or_introl Hq)) in Hsize.
    rewrite Hc', EL. f_equal. lia.
  - intros p f Hp. apply rd_heap, Hh'; congruence.
Qed.

Lemma getUpdate_loop_idle s msg fuel :
  rd s msg f_queue = 0 \/
  (rd s msg f_count ≠ 0 /\ 0 < rd s (rd s msg f_queue) f_tmp_size) ->
  (1 <= fuel)%nat ->
  priv_msg_getUpdate_loop OS_ROBIN IDLE fuel s msg = Some s.
Proof.
  intros H Hf. destruct fuel as [|fuel]; [lia|].
  cbn [priv_msg_getUpdate_loop]. cbv zeta.
  destruct H as [->|[Hc Ht]]; [done|].
  destruct (decide (rd s msg f_queue = 0)) as [->|Hq]; [done|].
  rewrite (space_behind_waiters s msg Hq Hc).
  rewrite (proj2 (Z.leb_gt _ _)) by lia. by rewrite andb_false_r.
Qed.

Lemma take_pops s msg data size m ms fuel :
  msg ≠ 0 -> data ≠ 0 ->
  stored s msg (m :: ms) ->
  rd s msg f_queue = 0 \/
  (ms ≠ [] /\ 0 < rd s (rd s msg f_queue) f_tmp_size) ->
  (forall j x, 0 <= j < Z.of_nat (length m) -> 0 <= x < rd s msg f_limit ->
     data + j ≠ rd s msg f_data + x) ->
  Z.of_nat (length m) <= size ->
  (1 <= fuel)%nat ->
  exists s',
    msg_take OS_ROBIN IDLE fuel s msg data size
      = Some (Z.of_nat (length m), s') /\
    stored s' msg ms /\
    load_bytes s' data (length m) = m /\
    (forall p f, (p, f) ≠ (msg, f_count) -> (p, f) ≠ (msg, f_head) ->
       heap s' !! (p, f) = heap s !! (p, f)) /\
    Counter s' = Counter s /\ cur s' = cur s /\ pend s' = pend s /\
    (forall a, (forall j, 0 <= j < Z.of_nat (length m) -> a ≠ data + j) ->
       rdb s' a = rdb s a).
Proof.
  intros Hmsg Hdata HS Hq Hdst Hsize Hf.
  pose proof (stored_count_pos _ _ _ _ HS) as Hcp.
  destruct (frame_get s msg data m ms HS Hdst)
    as (sa & bs & sb & Hsz & Hget & HSb & Hld & Hh & Rest).
  unfold msg_take. rewrite !asserted by done.
  rewrite (proj2 (Z.gtb_lt _ _)) by lia.
  rewrite (count_of_head s msg m ms HS).
  rewrite (proj2 (Z.geb_le _ _)) by lia.
  unfold priv_msg_getUpdate. rewrite Hsz. cbn [mbind option_bind].
  rewrite Hget.
  rewrite getUpdate_loop_idle; [|..|done].
  - cbn [mbind option_bind]. exists sb. done.
  - assert (Eq : rd sb msg f_queue = rd s msg f_queue).
    { apply rd_heap, Hh; congruence. }
    rewrite Eq. destruct Hq as [Hq|[Hms Ht]]; [by left|right].
    split.
    + destruct ms as [|m' ms']; [done|].
      pose proof (stored_count_pos _ _ _ _ HSb). lia.
    + rewrite (rd_heap s sb) by (apply Hh; congruence). done.
Qed.

(** X18: [msg_take] with room for the first message (buffer and
    destination not null, as the function asserts) copies it to the
    caller, returns its length and removes it from the buffer; the other
    messages stay in order.  Blocked senders are not served while messages
    remain in the buffer. *)
Theorem msg_take_pops s msg data size m ms fuel :
  msg ≠ 0 -> data ≠ 0 ->
  stored s msg (m :: ms) ->
  rd s msg f_queue = 0 \/
  (ms ≠ [] /\ 0 < rd s (rd s msg f_queue) f_tmp_size) ->
  (forall j x, 0 <= j < Z.of_nat (length m) -> 0 <= x < rd s msg f_limit ->
     data + j ≠ rd s msg f_data + x) ->
  Z.of_nat (length m) <= size ->
  (1 <= fuel)%nat ->
  exists s',
    msg_take OS_ROBIN IDLE fuel s msg data size
      = Some (Z.of_nat (length m), s') /\
    stored s' msg ms /\
    load_bytes s' data (length m) = m /\
    (forall p f, p ≠ msg -> rd s' p f = rd s p f) /\
    rd s' msg f_queue = rd s msg f_queue /\
    (forall a, (forall j, 0 <= j < Z.of_nat (length m) -> a ≠ data + j) ->
       rdb s' a = rdb s a).
Proof.
  intros Hmsg Hdata HS Hq Hdst Hsize Hf.
  destruct (take_pops s msg data size m ms fuel Hmsg Hdata HS Hq Hdst Hsize Hf)
    as (s' & Hs' & HS' & Hld & Hh & _ & _ & _ & Hm).
  exists s'. split; [done|]. split; [done|]. split; [done|].
  split. { intros p f Hp. apply rd_heap, Hh; congruence. }
  split. { apply rd_heap, Hh; congruence. }
  done.
Qed.

(** X19: [msg_take] (buffer and destination not null, as the function
    asserts) returns 0 and leaves the state as it is when the buffer is
    empty or when the first message is longer than the caller's buffer; the
    message is neither truncated nor removed. *)
Theorem msg_take_refuses s msg data size ms fuel :
  msg ≠ 0 -> data ≠ 0 ->
  stored s msg ms ->
  ms = [] \/ size < Z.of_nat (length (hd [] ms)) ->
  msg_take OS_ROBIN IDLE fuel s msg data size = Some (0, s).
Proof.
  intros Hmsg Hdata HS H. unfold msg_take. rewrite !asserted by done.
  destruct ms as [|m ms].
  - rewrite (stored_empty_count s msg HS). done.
  - destruct H as [?|H]; [done|]. simpl in H.
    pose proof (stored_count_pos _ _ _ _ HS) as Hcp.
    rewrite (proj2 (Z.gtb_lt _ _)) by lia.
    rewrite (count_of_head s msg m ms HS).
    destruct (size >=? _) eqn:E; [|done]. lia.
Qed.

(** X20: a message given to an empty buffer and taken again (buffer, source
    and destination not null, as the functions assert) arrives unchanged: [msg_take] returns the size given, the receiver's buffer
    holds the sender's bytes, and the buffer is empty again. *)
Theorem msg_give_take s msg src dst size space room fuel :
  msg ≠ 0 -> src ≠ 0 -> dst ≠ 0 ->
  stored s msg [] -> rd s msg f_queue = 0 ->
  msg_space s msg = Some space -> 0 < size <= space -> size <= room ->
  (forall j x, 0 <= j < size -> 0 <= x < rd s msg f_limit ->
     src + j ≠ rd s msg f_data + x) ->
  (forall j x, 0 <= j < size -> 0 <= x < rd s msg f_limit ->
     dst + j ≠ rd s msg f_data + x) ->
  (1 <= fuel)%nat ->
  exists s1 s2,
    msg_give OS_ROBIN IDLE fuel s msg src size = Some (size, s1) /\
    msg_take OS_ROBIN IDLE fuel s1 msg dst room = Some (size, s2) /\
    load_bytes s2 dst (Z.to_nat size) = load_bytes s src (Z.to_nat size) /\
    stored s2 msg [] /\
    msg_space s2 msg = Some space.
Proof.
  intros Hmsg Hs0 Hd0 HS Hq Hspace Hsize Hroom Hsrc Hdst Hf.
  rewrite msg_space_given in Hspace by done. injection Hspace as <-.
  destruct (putUpdate_appends s msg src size [] fuel HS Hq Hsize Hsrc Hf)
    as (s1 & Hs1 & HS1 & Hc1 & Hh1 & _ & _ & _ & Hm1).
  simpl in HS1.
  set (m := load_bytes s src (Z.to_nat size)) in *.
  assert (Hlen : Z.of_nat (length m) = size).
  { unfold m. rewrite load_bytes_length. lia. }
  assert (EL : rd s1 msg f_limit = rd s msg f_limit).
  { apply rd_heap, Hh1; congruence. }
  assert (Ed : rd s1 msg f_data = rd s msg f_data).
  { apply rd_heap, Hh1; congruence. }
  assert (Hq1 : rd s1 msg f_queue = 0).
  { rewrite <- Hq. apply rd_heap, Hh1; congruence. }
  destruct (take_pops s1 msg dst room m [] fuel Hmsg Hd0 HS1 (or_introl Hq1))
    as (s2 & Hs2 & HS2 & Hld & Hh2 & _); [| lia | done |].
  { rewrite Hlen, EL, Ed. done. }
  exists s1, s2. split.
  { unfold msg_give. rewrite !asserted by done.
    rewrite (proj2 (Z.gtb_lt _ _)) by lia.
    rewrite (proj2 (Z.leb_le _ _)) by lia. by rewrite Hs1. }
  split. { by rewrite <- Hlen. }
  split. { rewrite <- Hld. f_equal. lia. }
  split; [done|].
  assert (Hq2 : rd s2 msg f_queue = 0).
  { rewrite <- Hq1. apply rd_heap, Hh2; congruence. }
  rewrite msg_space_given by done. f_equal.
  rewrite (space_without_waiters s2 msg _ HS2 (or_introl Hq2)).
  rewrite (space_without_waiters s msg _ HS (or_introl Hq)).
  rewrite (stored_empty_count _ _ HS2), (stored_empty_count _ _ HS).
  rewrite (rd_heap s1 s2) by (apply Hh2; congruence). by rewrite EL.
Qed.

Lemma priv_msg_limit_value s msg :
  rd s msg f_limit < Word.modulus ->
  priv_msg_limit s msg = Z.max 0 (rd s msg f_limit - 4).
Proof.
  intros HL. unfold priv_msg_limit, sizeof_unsigned.
  destruct (_ >? 4) eqn:E.
  - rewrite sub_small by lia. lia.
  - lia.
Qed.

(** X21: for a buffer that is not null, as the three functions assert:
    [msg_count] is the length of the oldest message (0 for an empty
    buffer), not a number of messages or bytes; [msg_limit] is the size of
    the storage less the four bytes of a length; without waiting tasks
    [msg_space] is what is left of the storage less four bytes, and it never
    exceeds [msg_limit]. *)
Theorem msg_count_space_limit s msg ms :
  msg ≠ 0 ->
  stored s msg ms ->
  msg_count s msg = Some (Z.of_nat (length (hd [] ms))) /\
  msg_limit s msg = Some (Z.max 0 (rd s msg f_limit - 4)) /\
  (rd s msg f_queue = 0 ->
     msg_space s msg
       = Some (Z.max 0 (rd s msg f_limit - rd s msg f_count - 4))) /\
  exists space,
    msg_space s msg = Some space /\
    0 <= space <= Z.max 0 (rd s msg f_limit - 4).
Proof.
  intros Hmsg HS. pose proof HS as (Hh & HL & Hc & HcL & _).
  rewrite msg_count_given, msg_limit_given, msg_space_given by done.
  assert (Hlim : priv_msg_limit s msg = Z.max 0 (rd s msg f_limit - 4)).
  { by apply priv_msg_limit_value. }
  split.
  { f_equal. destruct ms as [|m ms].
    - unfold priv_msg_count. rewrite (stored_empty_count _ _ HS). done.
    - apply (count_of_head s msg m ms HS). }
  split; [by rewrite Hlim|]. split.
  { intros Hq. f_equal. apply (space_without_waiters s msg ms HS). by left. }
  eexists. split; [done|].
  destruct (decide (rd s msg f_queue = 0)) as [Hq|Hq].
  - rewrite (space_without_waiters s msg ms HS (or_introl Hq)). lia.
  - destruct (decide (rd s msg f_count = 0)) as [Hc0|Hc0].
    + rewrite (space_without_waiters s msg ms HS (or_intror Hc0)). lia.
    + rewrite (space_behind_waiters s msg Hq Hc0). lia.
Qed.

End Buffer.

(** ** Pushing into a full buffer *)

Lemma msg_push_loop_drops msg size : forall ms s fuel,
  stored s msg ms -> rd s msg f_queue = 0 ->
  2 * rd s msg f_limit <= Word.modulus ->
  0 < size <= rd s msg f_limit - 4 ->
  (length ms < fuel)%nat ->
  exists k s', (k <= length ms)%nat /\
    msg_push_loop fuel s msg size = Some s' /\
    stored s' msg (drop k ms) /\
    size <= priv_msg_space s' msg /\
    (forall j, (j < k)%nat ->
       rd s msg f_limit
         - Z.of_nat (length (concat (map framed (drop j ms)))) - 4 < size) /\
    (forall p f, (p, f) ≠ (msg, f_count) -> (p, f) ≠ (msg, f_head) ->
       heap s' !! (p, f) = heap s !! (p, f)) /\
    Counter s' = Counter s /\ cur s' = cur s /\ pend s' = pend s /\
    mem s' = mem s.
Proof.
  induction ms as [|m ms IH]; intros s fuel HS Hq H2L Hsize Hf;
    (destruct fuel as [|fuel]; [simpl in Hf; lia|]);
    cbn [msg_push_loop];
    pose proof (space_without_waiters s msg _ HS (or_introl Hq)) as Hsp;
    pose proof HS as (Hh & HL & Hc & HcL & _).
  - rewrite (stored_empty_count _ _ HS) in Hsp.
    rewrite Z.gtb_ltb, (proj2 (Z.ltb_ge _ _)) by lia.
    exists 0%nat, s. split; [done|]. split; [done|]. split; [done|].
    split; [lia|]. split; [intros; lia|]. done.
  - destruct (size >? priv_msg_space s msg) eqn:E.
    + destruct (frame_skip s msg m ms HS H2L)
        as (sa & Hsz & HSb & Hh' & HC & Hu & Hp & Hm).
      rewrite Hsz. cbn [mbind option_bind].
      set (sb := priv_msg_skip sa msg (Z.of_nat (length m))) in *.
      assert (EL : rd sb msg f_limit = rd s msg f_limit).
      { apply rd_heap, Hh'; congruence. }
      assert (Hqb : rd sb msg f_queue = 0).
      { rewrite <- Hq. apply rd_heap, Hh'; congruence. }
      destruct (IH sb fuel HSb Hqb) as (k & s' & Hk & Hs' & HS' & Hfit & Hmin & Hh'' & Rest);
        [by rewrite EL|by rewrite EL|simpl in Hf; lia|].
      exists (S k), s'. split; [simpl; lia|]. split; [done|]. split; [done|].
      split; [done|]. split.
      { intros [|j] Hj.
        - rewrite drop_0. rewrite <- Hc. lia.
        - cbn [drop]. rewrite <- EL. apply Hmin. lia. }
      split. { intros p f H1 H2. rewrite Hh'' by done. by apply Hh'. }
      destruct Rest as (-> & -> & -> & ->). done.
    + exists 0%nat, s. split; [lia|]. split; [done|]. split; [done|].
      split; [lia|]. split; [intros; lia|]. done.
Qed.

Section Push.

Variables OS_ROBIN IDLE : Z.

(** X22: on a buffer nobody waits on, [msg_push] of a message that the
    storage can hold at all (buffer and message not null, as the function
    asserts) never fails: it drops the oldest messages, as
    few as needed to make room, and then appends the new message behind
    the remaining ones. *)
Theorem msg_push_drops_oldest s msg data size limit ms fuel :
  msg ≠ 0 -> data ≠ 0 ->
  stored s msg ms -> rd s msg f_queue = 0 ->
  2 * rd s msg f_limit <= Word.modulus ->
  msg_limit s msg = Some limit -> 0 < size <= limit ->
  (forall j x, 0 <= j < size -> 0 <= x < rd s msg f_limit ->
     data + j ≠ rd s msg f_data + x) ->
  (length ms < fuel)%nat ->
  exists k s', (k <= length ms)%nat /\
    msg_push OS_ROBIN IDLE fuel s msg data size = Some (size, s') /\
    stored s' msg (drop k ms ++ [load_bytes s data (Z.to_nat size)]) /\
    (forall j, (j < k)%nat ->
       rd s msg f_limit
         - Z.of_nat (length (concat (map framed (drop j ms)))) - 4 < size) /\
    (forall room, msg_space s msg = Some room -> size <= room -> k = 0%nat) /\
    (forall p f, p ≠ msg -> rd s' p f = rd s p f).
Proof.
  intros Hmsg Hdata HS Hq H2L Hlimit Hsize Hsrc Hf.
  pose proof HS as (Hh & HL & Hc & HcL & _).
  rewrite msg_limit_given in Hlimit by done. injection Hlimit as <-.
  assert (Hlim : priv_msg_limit s msg = Z.max 0 (rd s msg f_limit - 4)).
  { unfold priv_msg_limit, sizeof_unsigned.
    destruct (_ >? 4) eqn:E.
    - rewrite sub_small by lia. lia.
    - lia. }
  destruct (msg_push_loop_drops msg size ms s fuel HS Hq H2L)
    as (k & s1 & Hk & Hs1 & HS1 & Hfit & Hmin & Hh1 & HC1 & Hu1 & Hp1 & Hm1);
    [lia|done|].
  assert (EL : rd s1 msg f_limit = rd s msg f_limit).
  { apply rd_heap, Hh1; congruence. }
  assert (Ed : rd s1 msg f_data = rd s msg f_data).
  { apply rd_heap, Hh1; congruence. }
  assert (Hq1 : rd s1 msg f_queue = 0).
  { rewrite <- Hq. apply rd_heap, Hh1; congruence. }
  destruct (putUpdate_appends OS_ROBIN IDLE s1 msg data size (drop k ms) fuel HS1 Hq1)
    as (s' & Hs' & HS' & _ & Hh' & _); [lia| |lia|].
  { by rewrite EL, Ed. }
  assert (Eld : load_bytes s1 data (Z.to_nat size) = load_bytes s data (Z.to_nat size)).
  { unfold load_bytes, rdb. by rewrite Hm1. }
  rewrite Eld in HS'.
  exists k, s'. split; [done|]. split.
  { unfold msg_push. rewrite !asserted by done.
    rewrite Hq, Z.eqb_refl, orb_true_r.
    rewrite (proj2 (Z.gtb_lt _ _)) by lia.
    rewrite (proj2 (Z.leb_le _ _)) by lia. cbn [andb].
    rewrite Hs1. cbn [mbind option_bind]. rewrite Hs'. done. }
  split; [done|]. split; [done|]. split.
  { intros room Hsp Hroom. rewrite msg_space_given in Hsp by done.
    injection Hsp as <-. destruct k as [|k]; [done|].
    specialize (Hmin 0%nat ltac:(lia)). rewrite drop_0, <- Hc in Hmin.
    rewrite (space_without_waiters s msg ms HS (or_introl Hq)) in Hroom. lia. }
  intros p f Hp. rewrite (rd_heap s1 s') by (apply Hh'; congruence).
  apply rd_heap, Hh1; congruence.
Qed.

End Push.

(** ** Initialisation and the calls that do not wait *)

(** X23: [msg_init] fails its assertions on a null buffer, a zero limit or a
    null storage; otherwise the buffer is empty afterwards, nobody waits on
    it, it reports no message and all of its storage but the four bytes of
    a length as free, and no other object is written. *)
Theorem msg_init_empty s msg limit data :
  (msg = 0 \/ limit = 0 \/ data = 0 -> msg_init s msg limit data = None) /\
  (msg ≠ 0 -> 0 < limit < Word.modulus -> data ≠ 0 ->
   exists s',
     msg_init s msg limit data = Some s' /\
     stored s' msg [] /\ waitq s' msg [] /\
     rd s' msg f_limit = limit /\ rd s' msg f_data = data /\
     msg_count s' msg = Some 0 /\
     msg_space s' msg = Some (Z.max 0 (limit - 4)) /\
     msg_limit s' msg = Some (Z.max 0 (limit - 4)) /\
     (forall p f, p ≠ msg -> rd s' p f = rd s p f) /\
     mem s' = mem s).
Proof.
  split.
  { unfold msg_init. intros [-> | [-> | ->]]; [done| |].
    - destruct (negb (msg =? 0)); done.
    - destruct (negb (msg =? 0)); [|done]. destruct (negb (limit =? 0)); done. }
  intros Hm Hl Hd. unfold msg_init.
  rewrite (proj2 (Z.eqb_neq msg 0)), (proj2 (Z.eqb_neq limit 0)),
    (proj2 (Z.eqb_neq data 0)) by lia.
  unfold assert. cbn [negb mbind option_bind fold_left msg_members].
  eexists. split; [done|].
  match goal with |- stored ?x _ _ /\ _ => set (s' := x) end.
  assert (Rq : rd s' msg f_queue = 0).
  { unfold s'. rewrite !rd_wr. repeat case_decide; congruence. }
  assert (Rc : rd s' msg f_count = 0).
  { unfold s'. rewrite !rd_wr. repeat case_decide; congruence. }
  assert (Rh : rd s' msg f_head = 0).
  { unfold s'. rewrite !rd_wr. repeat case_decide; congruence. }
  assert (Rt : rd s' msg f_tail = 0).
  { unfold s'. rewrite !rd_wr. repeat case_decide; congruence. }
  assert (Rl : rd s' msg f_limit = limit).
  { unfold s'. rewrite !rd_wr. repeat case_decide; congruence. }
  assert (Rd : rd s' msg f_data = data).
  { unfold s'. rewrite !rd_wr. repeat case_decide; congruence. }
  assert (HS : stored s' msg []).
  { unfold stored. cbn [map concat length]. rewrite Rh, Rc, Rt, Rl.
    split; [lia|]. split; [lia|]. split; [done|]. split; [lia|].
    split; [|done]. rewrite Z.add_0_l. symmetry. apply Z.mod_0_l. lia. }
  split; [done|]. split.
  { split; [apply NoDup_singleton|]. split; [apply not_elem_of_nil|].
    split; [|done]. simpl. done. }
  split; [done|]. split; [done|].
  split. { rewrite msg_count_given by done. unfold priv_msg_count. by rewrite Rc. }
  split.
  { rewrite msg_space_given by done.
    rewrite (space_without_waiters s' msg [] HS (or_introl Rq)).
    rewrite Rl, Rc. f_equal. lia. }
  split.
  { rewrite msg_limit_given by done. rewrite priv_msg_limit_value by lia.
    by rewrite Rl. }
  split; [|done].
  intros p f Hp. unfold s'. rewrite !rd_wr_ptr by done. done.
Qed.

Section NoWait.

Variables OS_ROBIN IDLE WAIT : Z.

Lemma wait_immediate s obj fuel :
  core_tsk_waitFor WAIT fuel s obj IMMEDIATE =
    Some (Returned E_TIMEOUT,
          wr (wr s (cur s) f_start (Counter s)) (cur s) f_delay IMMEDIATE).
Proof. unfold core_tsk_waitFor. cbv zeta. by rewrite rd_wr_same. Qed.

(** X24: with the delay IMMEDIATE the blocking calls return what the calls
    that never block return: [msg_waitFor] the result of [msg_take] and
    [msg_sendFor] the result of [msg_give]; a request that cannot be
    served at once yields 0. *)
Theorem msg_immediate_variants s msg data size fuel :
  fst <$> msg_waitFor OS_ROBIN IDLE WAIT fuel s msg data size IMMEDIATE
    = (fun r => Returned (fst r))
        <$> msg_take OS_ROBIN IDLE fuel s msg data size /\
  fst <$> msg_sendFor OS_ROBIN IDLE WAIT fuel s msg data size IMMEDIATE
    = (fun r => Returned (fst r))
        <$> msg_give OS_ROBIN IDLE fuel s msg data size.
Proof.
  assert (R : forall s0,
    priv_msg_wait_result
      (wr (wr (wr (wr s0 (cur s0) f_tmp_data data) (cur s0) f_tmp_size size)
              (cur s0) f_start (Counter s0)) (cur s0) f_delay IMMEDIATE) size = 0).
  { intros s0. unfold priv_msg_wait_result. cbn [cur wr].
    rewrite !rd_wr_field by done. rewrite rd_wr_same. apply sub_self. }
  split.
  - unfold msg_waitFor, priv_msg_wait, msg_take.
    destruct (msg =? 0); [done|]. destruct (data =? 0); [done|].
    cbn [negb assert mbind option_bind].
    destruct (rd s msg f_count >? 0).
    + destruct (size >=? _); [|done].
      destruct (priv_msg_getUpdate _ _ _ _ _ _ _) as [[len s']|]; done.
    + destruct (size >? 0); [|done]. cbv zeta.
      rewrite wait_immediate. cbn [mbind option_bind fmap option_fmap option_map fst].
      f_equal. f_equal. apply (R s).
  - unfold msg_sendFor, priv_msg_send, msg_give.
    destruct (msg =? 0); [done|]. destruct (data =? 0); [done|].
    cbn [negb assert mbind option_bind].
    destruct (size >? 0); [|done].
    destruct (size <=? priv_msg_space s msg).
    + destruct (priv_msg_putUpdate _ _ _ _ _ _ _) as [s'|]; done.
    + destruct (size <=? priv_msg_limit s msg); [|done]. cbv zeta.
      rewrite wait_immediate. cbn [mbind option_bind fmap option_fmap option_map fst].
      f_equal. f_equal. apply (R s).
Qed.

(** X25: a message longer than [msg_limit] can never be stored: every send
    variant (called with a buffer and a message that are not null, as each
    asserts) returns 0 at once, also the ones that may block and the one
    that discards old messages, and leaves the state as it is. *)
Theorem msg_oversize_refused s msg data size limit time fuel :
  msg ≠ 0 -> data ≠ 0 ->
  0 <= rd s msg f_count <= rd s msg f_limit ->
  rd s msg f_limit < Word.modulus ->
  msg_limit s msg = Some limit -> limit < size ->
  msg_give OS_ROBIN IDLE fuel s msg data size = Some (0, s) /\
  msg_push OS_ROBIN IDLE fuel s msg data size = Some (0, s) /\
  msg_sendFor OS_ROBIN IDLE WAIT fuel s msg data size time
    = Some (Returned 0, s) /\
  msg_sendUntil OS_ROBIN IDLE WAIT fuel s msg data size time
    = Some (Returned 0, s).
Proof.
  intros Hmsg Hdata Hc HL Hlimit Hsize.
  rewrite msg_limit_given in Hlimit by done. injection Hlimit as <-.
  assert (Hlim : priv_msg_limit s msg = Z.max 0 (rd s msg f_limit - 4)).
  { unfold priv_msg_limit, sizeof_unsigned.
    destruct (_ >? 4) eqn:E.
    - rewrite sub_small by lia. lia.
    - lia. }
  assert (Hsp : priv_msg_space s msg <= priv_msg_limit s msg).
  { rewrite Hlim. unfold priv_msg_space, sizeof_unsigned.
    rewrite (sub_small (rd s msg f_limit)) by lia.
    destruct (_ && _) eqn:E; [|lia].
    apply andb_true_iff in E as [_ E]. rewrite sub_small by lia. lia. }
  assert (E1 : (size >? 0) = true) by lia.
  assert (E2 : (size <=? priv_msg_space s msg) = false) by lia.
  assert (E3 : (size <=? priv_msg_limit s msg) = false) by lia.
  split. { unfold msg_give. rewrite !asserted by done. by rewrite E1, E2. }
  split.
  { unfold msg_push. rewrite !asserted by done. rewrite E1, E3.
    by rewrite andb_false_r. }
  split.
  - unfold msg_sendFor, priv_msg_send. rewrite !asserted by done.
    by rewrite E1, E2, E3.
  - unfold msg_sendUntil, priv_msg_send. rewrite !asserted by done.
    by rewrite E1, E2, E3.
Qed.

End NoWait.

(** ** The calls that wait *)

Section Waits.

Variables OS_ROBIN IDLE WAIT : Z.
Variables (s : sys) (r1 r2 dl : list Z) (msg : Z) (ws : list Z).
Variables (data size delay : Z) (fuel : nat).

Hypothesis Hmsg : msg ≠ 0.
Hypothesis Hdata : data ≠ 0.
Hypothesis HR : ring s IDLE (r1 ++ cur s :: r2).
Hypothesis HW : ring s WAIT dl.
Hypothesis ND : NoDup (IDLE :: (r1 ++ cur s :: r2) ++ WAIT :: dl).
Hypothesis Hinf : rd s WAIT f_delay = INFINITE.
Hypothesis HQ : waitq s msg ws.
Hypothesis Hc : cur s ∉ msg :: ws.
Hypothesis Hc0 : cur s ≠ 0.
Hypothesis Hd : delay ≠ IMMEDIATE.
Hypothesis Hf1 : (length ws < fuel)%nat.
Hypothesis Hf2 : (length dl < fuel)%nat.

(** The caller records its request and waits on the buffer. *)
Lemma request_suspends :
  let s0 := wr (wr s (cur s) f_tmp_data data) (cur s) f_tmp_size size in
  exists s' w1 w2, ws = w1 ++ w2 /\
    core_tsk_waitFor WAIT fuel s0 msg delay = Some (Suspended, s') /\
    waitq s' msg (w1 ++ cur s :: w2) /\
    (forall x, x ∈ w1 -> rd s (cur s) f_prio <= rd s x f_prio) /\
    (w2 = [] \/ rd s (hd 0 w2) f_prio < rd s (cur s) f_prio) /\
    ring s' IDLE (r1 ++ r2) /\
    rd s' (cur s) f_id = ID_DELAYED /\
    rd s' (cur s) f_tmp_data = data /\ rd s' (cur s) f_tmp_size = size /\
    rd s' (cur s) f_delay = delay /\
    pend s' = true /\ mem s' = mem s.
Proof.
  intros s0.
  assert (F0 : forall p f, f ≠ f_tmp_data -> f ≠ f_tmp_size ->
                 rd s0 p f = rd s p f).
  { intros p f H1 H2. unfold s0. by rewrite !rd_wr_field. }
  assert (Hcur : cur s0 = cur s) by done.
  destruct (core_tsk_waitFor_suspends IDLE WAIT s0 r1 r2 dl msg ws delay fuel)
    as (s' & w1 & w2 & d1 & d2 & -> & -> & Hs' & HR' & HW' & HQ' & Hge & Hlt & Hid
        & Hg & Hst & Hdl & Hp & Hcu & Hm & Fp & Fr); rewrite ?Hcur; try done.
  { eapply ring_frame; [| |exact HR]; intros; by apply F0. }
  { eapply ring_frame; [| |exact HW]; intros; by apply F0. }
  { by rewrite F0. }
  { eapply waitq_frame; [| |exact HQ]; intros; by apply F0. }
  rewrite Hcur in *.
  exists s', w1, w2. split; [done|]. split; [done|]. split; [done|].
  split. { intros x Hx. rewrite <- !(F0 _ f_prio) by done. by apply Hge. }
  split. { destruct Hlt as [?|Hlt]; [by left|right].
           by rewrite <- !(F0 _ f_prio). }
  split; [done|]. split; [done|].
  split. { rewrite Fr by done. unfold s0. rewrite rd_wr_field by done.
           by rewrite rd_wr_same. }
  split. { rewrite Fr by done. unfold s0. by rewrite rd_wr_same. }
  done.
Qed.

(** X26: a receive (buffer and destination not null, as the function
    asserts) from an empty buffer with a delay other than IMMEDIATE
    suspends the caller: it is queued on the buffer with its buffer
    address and size recorded, leaves the ready ring, and a context switch
    is requested; no byte is copied. *)
Theorem msg_waitFor_blocks :
  rd s msg f_count = 0 -> 0 < size ->
  exists s' w1 w2, ws = w1 ++ w2 /\
    msg_waitFor OS_ROBIN IDLE WAIT fuel s msg data size delay
      = Some (Suspended, s') /\
    waitq s' msg (w1 ++ cur s :: w2) /\
    ring s' IDLE (r1 ++ r2) /\
    rd s' (cur s) f_id = ID_DELAYED /\
    rd s' (cur s) f_tmp_data = data /\ rd s' (cur s) f_tmp_size = size /\
    rd s' (cur s) f_delay = delay /\
    pend s' = true /\ mem s' = mem s.
Proof.
  intros Hcnt Hsz.
  destruct request_suspends as (s' & w1 & w2 & E & Hs' & HQ' & _ & _ & H).
  exists s', w1, w2. split; [done|]. split; [|done].
  unfold msg_waitFor, priv_msg_wait. rewrite !asserted by done.
  rewrite Hcnt. cbn [Z.gtb Z.compare].
  rewrite (proj2 (Z.gtb_lt _ _)) by lia. cbv zeta.
  change (cur (wr s (cur s) f_tmp_data data)) with (cur s).
  rewrite Hs'. done.
Qed.

(** X27: a send (buffer and message not null, as the function asserts) of a
    message that the storage can hold but that does not fit now (the buffer
    is too full, or tasks wait behind stored data) suspends the caller when
    the delay is not IMMEDIATE: it is queued on
    the buffer with its message address and size recorded; the buffer is
    not written. *)
Theorem msg_sendFor_blocks room limit :
  msg_space s msg = Some room -> room < size ->
  msg_limit s msg = Some limit -> 0 < size <= limit ->
  exists s' w1 w2, ws = w1 ++ w2 /\
    msg_sendFor OS_ROBIN IDLE WAIT fuel s msg data size delay
      = Some (Suspended, s') /\
    waitq s' msg (w1 ++ cur s :: w2) /\
    ring s' IDLE (r1 ++ r2) /\
    rd s' (cur s) f_id = ID_DELAYED /\
    rd s' (cur s) f_tmp_data = data /\ rd s' (cur s) f_tmp_size = size /\
    rd s' (cur s) f_delay = delay /\
    pend s' = true /\ mem s' = mem s.
Proof.
  intros Hroom Hsp Hlimit Hsz.
  rewrite msg_space_given in Hroom by done. injection Hroom as <-.
  rewrite msg_limit_given in Hlimit by done. injection Hlimit as <-.
  destruct request_suspends as (s' & w1 & w2 & E & Hs' & HQ' & _ & _ & H).
  exists s', w1, w2. split; [done|]. split; [|done].
  unfold msg_sendFor, priv_msg_send. rewrite !asserted by done.
  rewrite (proj2 (Z.gtb_lt _ _)) by lia.
  rewrite (proj2 (Z.leb_gt _ _)) by lia.
  rewrite (proj2 (Z.leb_le _ _)) by lia. cbv zeta.
  change (cur (wr s (cur s) f_tmp_data data)) with (cur s).
  rewrite Hs'. done.
Qed.

End Waits.

(** ** A receive that makes room for a blocked sender *)

Lemma stored_frame s s' msg ms :
  rd s' msg f_head = rd s msg f_head ->
  rd s' msg f_limit = rd s msg f_limit ->
  rd s' msg f_count = rd s msg f_count ->
  rd s' msg f_tail = rd s msg f_tail ->
  rd s' msg f_data = rd s msg f_data ->
  (forall x, 0 <= x < rd s msg f_limit ->
     rdb s' (rd s msg f_data + x) = rdb s (rd s msg f_data + x)) ->
  stored s msg ms -> stored s' msg ms.
Proof.
  intros Eh El Ec Et Ed Em HS. pose proof HS as (H1 & H2 & H3 & H4 & H5 & H6).
  apply stored_intro; rewrite ?Eh, ?El, ?Ec, ?Et, ?Ed; try done.
  intros j Hj. rewrite Em by (apply pos_range; lia).
  by apply stored_nth.
Qed.

Lemma load_bytes_ext s s' a n :
  (forall j, 0 <= j < Z.of_nat n -> rdb s' (a + j) = rdb s (a + j)) ->
  load_bytes s' a n = load_bytes s a n.
Proof.
  intros H. apply (nth_ext _ _ 0 0).
  - by rewrite !load_bytes_length.
  - rewrite load_bytes_length. intros j Hj.
    rewrite !load_bytes_nth by done. apply H. lia.
Qed.

Section HandOver.

Variables OS_ROBIN IDLE WAIT : Z.
Variables (s : sys) (msg t dst size limit : Z) (m : list Z) (ws rl dl : list Z).
Variable fuel : nat.

Hypothesis Hmsg : msg ≠ 0.
Hypothesis Hdst0 : dst ≠ 0.
Hypothesis HR : ring s IDLE rl.
Hypothesis HW : ring s WAIT dl.
Hypothesis ND : NoDup (IDLE :: rl ++ WAIT :: dl).
Hypothesis Hidle : rd s IDLE f_prio = 0.
Hypothesis HS : stored s msg [m].
Hypothesis HQ : waitq s msg (t :: ws).
Hypothesis Ht : t ∈ dl.
Hypothesis Hp : 0 <= rd s t f_prio.
Hypothesis Hlimit : msg_limit s msg = Some limit.
Hypothesis Hreq : 0 < rd s t f_tmp_size <= limit.
Hypothesis Hnext : ws = [] \/ 0 < rd s (hd 0 ws) f_tmp_size.
Hypothesis Hroom : Z.of_nat (length m) <= size.
Hypothesis Hdst : forall j x,
  0 <= j < Z.of_nat (length m) -> 0 <= x < rd s msg f_limit ->
  dst + j ≠ rd s msg f_data + x.
Hypothesis Hsrc : forall j x,
  0 <= j < rd s t f_tmp_size -> 0 <= x < rd s msg f_limit ->
  rd s t f_tmp_data + j ≠ rd s msg f_data + x.
Hypothesis Hapart : forall i j,
  0 <= i < rd s t f_tmp_size -> 0 <= j < Z.of_nat (length m) ->
  rd s t f_tmp_data + i ≠ dst + j.
Hypothesis Hf : (length rl + 2 < fuel)%nat.

(** X28: when the buffer holds one message and a sender is blocked on it
    with a message the storage can hold, [msg_take] of that message (buffer
    and destination not null, as the function asserts) hands the buffer
    over: the receiver gets the
    message, the message of the first blocked sender is copied into the
    buffer, and the sender is woken with [E_SUCCESS] and its remaining size
    0, so that its send returns the full size.  Senders further back keep
    waiting. *)
Theorem msg_take_serves_sender :
  exists s' l1 l2, rl = l1 ++ l2 /\
    msg_take OS_ROBIN IDLE fuel s msg dst size
      = Some (Z.of_nat (length m), s') /\
    load_bytes s' dst (length m) = m /\
    stored s' msg
      [load_bytes s (rd s t f_tmp_data) (Z.to_nat (rd s t f_tmp_size))] /\
    waitq s' msg ws /\
    ring s' IDLE (l1 ++ t :: l2) /\
    rd s' t f_event = E_SUCCESS /\ rd s' t f_id = ID_READY /\
    rd s' t f_tmp_size = 0 /\
    (forall u, cur u = t -> rd u t f_tmp_size = rd s' t f_tmp_size ->
       priv_msg_wait_result u (rd s t f_tmp_size) = rd s t f_tmp_size).
Proof.
  pose proof HS as (Hh & HL & Hc & HcL & Htl & _).
  pose proof (stored_count_pos _ _ _ _ HS) as Hcp. cbn in Hcp.
  set (n := rd s t f_tmp_size) in *. set (a := rd s t f_tmp_data) in *.
  set (L := rd s msg f_limit) in *. set (d := rd s msg f_data) in *.
  assert (Hlim : limit = Z.max 0 (L - 4)).
  { rewrite msg_limit_given in Hlimit by done. injection Hlimit as <-.
    by apply priv_msg_limit_value. }
  rewrite Hlim in Hreq.
  assert (Htm : t ≠ msg).
  { destruct HQ as (N & _). apply NoDup_cons in N as [N _]. set_solver. }
  assert (Hqt : rd s msg f_queue = t) by (by apply waitq_head in HQ).
  assert (Ht0 : t ≠ 0).
  { destruct HQ as (_ & H0 & _). set_solver. }
  (* the receiver's part *)
  destruct (frame_get s msg dst m [] HS Hdst)
    as (sa & bs & sb & Hsz & Hget & HSb & Hld & Hhb & HCb & Hub & Hpb & Hmb).
  assert (RB : forall p f, (p, f) ≠ (msg, f_count) -> (p, f) ≠ (msg, f_head) ->
                 rd sb p f = rd s p f).
  { intros. by apply rd_heap, Hhb. }
  pose proof (stored_empty_count _ _ HSb) as Hcb.
  (* the sender's message goes into the buffer *)
  assert (ELb : rd sb msg f_limit = L) by (apply RB; congruence).
  assert (Edb : rd sb msg f_data = d) by (apply RB; congruence).
  destruct (frame_put sb msg a n [] HSb)
    as (sc & sd & Hsc & Esd & HSd & Hhd & HCd & Hud & Hpd & Hmd & Hhc);
    [lia|rewrite Hcb, ELb; lia|by rewrite ELb, Edb|].
  simpl in HSd.
  assert (RC : forall p f, (p, f) ≠ (msg, f_count) -> (p, f) ≠ (msg, f_tail) ->
                 rd sc p f = rd sb p f).
  { intros. by apply rd_heap, Hhc. }
  assert (RD : forall p f, (p, f) ≠ (msg, f_count) -> (p, f) ≠ (msg, f_tail) ->
                 rd sd p f = rd sb p f).
  { intros. by apply rd_heap, Hhd. }
  set (se := wr sd t f_tmp_size 0).
  assert (RE : forall p f, (p, f) ≠ (t, f_tmp_size) -> rd se p f = rd sd p f).
  { intros p f H. unfold se. by rewrite rd_wr_ne. }
  assert (RS : forall p f, f ≠ f_count -> f ≠ f_head -> f ≠ f_tail ->
                 f ≠ f_tmp_size -> rd se p f = rd s p f).
  { intros p f H1 H2 H3 H4. rewrite RE, RD, RB by congruence. done. }
  assert (HRe : ring se IDLE rl).
  { eapply ring_frame; [| |exact HR]; intros; by apply RS. }
  assert (HWe : ring se WAIT dl).
  { eapply ring_frame; [| |exact HW]; intros; by apply RS. }
  assert (HQe : waitq se msg (t :: ws)).
  { eapply waitq_frame; [| |exact HQ]; intros; by apply RS. }
  destruct (list_elem_of_split _ _ Ht) as (d1 & d2 & Edl).
  rewrite Edl in HWe, ND.
  destruct (core_tsk_wakeup_head OS_ROBIN IDLE WAIT se rl d1 t d2 msg ws E_SUCCESS
              fuel HRe HWe ND)
    as (s4 & l1 & l2 & Erl & Hwk & HR4 & HW4 & HQ4 & Hev & Hid & _ & _ & _ & _ & SP);
    [by rewrite RS|by rewrite RS|done|lia|].
  assert (R4 : forall p f, ~ linkage f -> rd s4 p f = rd se p f).
  { intros. by apply same_payload_rd. }
  assert (NL : forall f, f ≠ f_id -> f ≠ f_prev -> f ≠ f_next ->
                 f ≠ f_queue -> f ≠ f_back -> f ≠ f_event -> ~ linkage f).
  { intros. by apply not_linkage. }
  pose proof SP as (Hm4 & _).
  (* the call *)
  assert (Hcall : msg_take OS_ROBIN IDLE fuel s msg dst size
                  = Some (Z.of_nat (length m), s4)).
  { unfold msg_take. rewrite !asserted by done.
    rewrite (proj2 (Z.gtb_lt _ _)) by lia.
    rewrite (count_of_head s msg m [] HS).
    rewrite (proj2 (Z.geb_le _ _)) by lia.
    unfold priv_msg_getUpdate. rewrite Hsz. cbn [mbind option_bind].
    rewrite Hget.
    destruct fuel as [|fuel']; [lia|].
    cbn [priv_msg_getUpdate_loop]. cbv zeta.
    rewrite !(RB msg f_queue), Hqt by congruence.
    rewrite (proj2 (Z.eqb_neq _ _) Ht0). cbn [negb andb].
    rewrite (RB t f_tmp_size) by congruence. fold n.
    rewrite (space_without_waiters sb msg [] HSb (or_intror Hcb)).
    rewrite Hcb, ELb.
    rewrite (proj2 (Z.leb_le _ _)) by lia.
    rewrite Hsc. cbn [mbind option_bind].
    rewrite !(RC msg f_queue), !(RB msg f_queue), Hqt by congruence.
    rewrite (RC t f_tmp_data), (RB t f_tmp_data) by congruence.
    rewrite (RC t f_tmp_size), (RB t f_tmp_size) by congruence.
    fold a n. rewrite <- Esd.
    rewrite !(RD msg f_queue), !(RB msg f_queue), Hqt by congruence.
    fold se.
    rewrite !(RE msg f_queue), !(RD msg f_queue), !(RB msg f_queue), Hqt
      by congruence.
    rewrite Hwk. cbn [mbind option_bind].
    rewrite (getUpdate_loop_idle OS_ROBIN IDLE s4 msg fuel'); [done| |lia].
    destruct ws as [|w ws'].
    - left. by apply waitq_empty in HQ4.
    - right. destruct Hnext as [?|Hn]; [done|]. simpl in Hn.
      rewrite (waitq_head _ _ _ _ HQ4).
      assert (Hwt : w ≠ t).
      { destruct HQ as (N & _). apply NoDup_cons in N as [_ N].
        apply NoDup_cons in N as [N _]. set_solver. }
      split.
      + rewrite R4 by (apply NL; done). rewrite RE by congruence.
        pose proof HSd as (_ & _ & Hcd & _). rewrite Hcd.
        cbn [map concat]. rewrite app_nil_r, framed_length. lia.
      + rewrite R4 by (apply NL; done). rewrite RE by congruence.
        rewrite RD, RB by congruence. done. }
  exists s4, l1, l2. split; [done|]. split; [done|].
  assert (Em4 : forall x, rdb s4 x = rdb sd x).
  { intros x. unfold rdb. by rewrite Hm4. }
  split.
  { transitivity (load_bytes sb dst (length m)); [|exact Hld].
    apply load_bytes_ext. intros j Hj. rewrite Em4.
    apply Hmd. intros x Hx E. revert E. rewrite ELb in Hx. rewrite Edb.
    by apply Hdst. }
  split.
  { assert (Esrc : load_bytes sb a (Z.to_nat n) = load_bytes s a (Z.to_nat n)).
    { apply load_bytes_ext. intros j Hj. apply Hmb. intros j' Hj'.
      apply Hapart; lia. }
    rewrite <- Esrc.
    apply (stored_frame sd); try done.
    - rewrite R4, RE by (try apply NL; congruence). done.
    - rewrite R4, RE by (try apply NL; congruence). done.
    - rewrite R4, RE by (try apply NL; congruence). done.
    - rewrite R4, RE by (try apply NL; congruence). done.
    - rewrite R4, RE by (try apply NL; congruence). done. }
  split; [done|]. split; [done|]. split; [done|]. split; [done|].
  assert (Ets : rd s4 t f_tmp_size = 0).
  { rewrite R4 by (apply NL; done). unfold se. by rewrite rd_wr_same. }
  split; [done|].
  intros u Hu Eu. unfold priv_msg_wait_result. rewrite Hu, Eu, Ets.
  unfold Word.sub. rewrite Z.sub_0_r. apply wrap_small.
  unfold Word.in_range. lia.
Qed.

End HandOver.

(** ** A send to two blocked receivers *)

(** The loop of [priv_msg_putUpdate] goes on while a task is queued, also
    when no message is left: the test of the request against
    [priv_msg_count], which is 0 then, holds, and [priv_msg_getSize] fails
    its assertion on [msg->count]. *)
Lemma priv_msg_putUpdate_loop_empty OS_ROBIN IDLE fuel s msg :
  rd s msg f_queue ≠ 0 -> rd s msg f_count = 0 ->
  0 <= rd s (rd s msg f_queue) f_tmp_size ->
  priv_msg_count s msg = 0 /\
  priv_msg_getSize s msg = None /\
  priv_msg_putUpdate_loop OS_ROBIN IDLE fuel s msg = None.
Proof.
  intros Hq Hc Hsz.
  assert (E : priv_msg_count s msg = 0).
  { unfold priv_msg_count. by rewrite Hc. }
  assert (G : priv_msg_getSize s msg = None).
  { unfold priv_msg_getSize. by rewrite Hc. }
  split; [done|]. split; [done|].
  destruct fuel as [|fuel]; [done|].
  cbn [priv_msg_putUpdate_loop].
  rewrite (proj2 (Z.eqb_neq _ _) Hq). cbn [negb]. rewrite E.
  assert ((rd s (rd s msg f_queue) f_tmp_size >=? 0) = true) as -> by lia.
  by rewrite G.
Qed.

(** X30: when two or more tasks are blocked in a receive on an empty buffer
    and the request of the first is large enough for the message sent, the
    send serves the first one, which empties the buffer again, and then
    fails the assertion of [priv_msg_getSize] for the second one: the loop
    of [priv_msg_putUpdate] only tests that a task is queued, and any
    request is at least the 0 that [priv_msg_count] returns for an empty
    buffer. *)
Theorem msg_give_second_receiver_asserts
    OS_ROBIN IDLE WAIT s msg t t2 ws data size rl dl fuel :
  msg ≠ 0 -> data ≠ 0 ->
  ring s IDLE rl -> ring s WAIT dl ->
  NoDup (IDLE :: rl ++ WAIT :: dl) ->
  rd s IDLE f_prio = 0 ->
  waitq s msg (t :: t2 :: ws) -> t ∈ dl -> 0 <= rd s t f_prio ->
  (forall x, x ∈ rl -> 0 <= rd s x f_prio) ->
  (length rl + 2 < fuel)%nat ->
  rd s msg f_count = 0 ->
  rd s msg f_tail = rd s msg f_head ->
  0 <= rd s msg f_head < rd s msg f_limit ->
  rd s msg f_limit < Word.modulus ->
  0 < size ->
  size + 4 <= rd s msg f_limit ->
  (forall j x, 0 <= j < size -> 0 <= x < rd s msg f_limit ->
     data + j ≠ rd s msg f_data + x) ->
  size <= rd s t f_tmp_size < Word.modulus ->
  (forall j x, 0 <= j < size -> 0 <= x < rd s msg f_limit ->
     rd s t f_tmp_data + j ≠ rd s msg f_data + x) ->
  0 <= rd s t2 f_tmp_size ->
  exists s1,
    msg_give OS_ROBIN IDLE fuel s msg data size =
      (s' ← priv_msg_putUpdate_loop OS_ROBIN IDLE (Nat.pred fuel) s1 msg;
       Some (size, s')) /\
    rd s1 t f_event = E_SUCCESS /\ rd s1 t f_id = ID_READY /\
    (forall j, 0 <= j < size ->
       rdb s1 (rd s t f_tmp_data + j) = rdb s (data + j)) /\
    waitq s1 msg (t2 :: ws) /\
    rd s1 msg f_count = 0 /\
    rd s1 t2 f_tmp_size = rd s t2 f_tmp_size /\
    priv_msg_count s1 msg = 0 /\
    priv_msg_getSize s1 msg = None /\
    msg_give OS_ROBIN IDLE fuel s msg data size = None.
Proof.
  intros Hmsg Hdata HR HW ND Hidle HQ Ht Hp Hpos Hf Hcount Htail Hh HL Hsize
    Hfit Hsrc Hcap Hdst Hsz.
  destruct (first_receiver_served OS_ROBIN IDLE WAIT s msg t data size rl dl
              (t2 :: ws) fuel Hmsg Hdata HR HW ND Hidle HQ Ht Hp Hpos Hf Hcount
              Htail Hh HL Hsize Hfit Hsrc Hcap Hdst)
    as (s1 & Hg & H1 & H2 & HQ' & _ & _ & H5 & H6 & _ & _ & _ & _ & _ & _ & H14).
  assert (Hne : t2 ≠ t).
  { destruct HQ as (N & _). apply NoDup_cons in N as [_ N].
    apply NoDup_cons in N as [N _]. set_solver. }
  assert (Hq : rd s1 msg f_queue = t2) by apply (waitq_head _ _ _ _ HQ').
  assert (Hq0 : rd s1 msg f_queue ≠ 0).
  { rewrite Hq. destruct HQ' as (_ & H0 & _). set_solver. }
  destruct (priv_msg_putUpdate_loop_empty OS_ROBIN IDLE (Nat.pred fuel) s1 msg)
    as (E & G & L); [done|done| |].
  { rewrite Hq, H14 by done. done. }
  exists s1. split; [done|]. split; [done|]. split; [done|].
  split; [done|]. split; [done|]. split; [done|].
  split; [by apply H14|]. split; [done|]. split; [done|].
  by rewrite Hg, L.
Qed.

(** ** The claims at concrete states *)

Module Checks.

Import Demo.

(** Closes a goal about a concrete state by evaluation. *)
Ltac evaluate :=
  vm_compute;
  repeat match goal with
    | |- _ /\ _ => split
    | |- NoDup _ =>
        apply NoDup_ListNoDup; repeat constructor; simpl; intuition congruence
    | |- _ = _ => reflexivity
    | |- _ <= _ => discriminate
    | |- _ < _ => reflexivity
    | |- _ -> False => discriminate
    | |- True => exact I
    end.

Ltac by_vm :=
  match goal with
  | |- ?a = ?b => vm_cast_no_check (@eq_refl _ b)
  | |- _ => evaluate
  end.

(** A closed list does not contain a closed value. *)
Ltac absent :=
  let H := fresh in
  intros H; apply list_elem_of_In in H; vm_compute in H; intuition discriminate.

(** Splits a hypothesis [x ∈ [a; b; ...]] on a variable [x] into its cases. *)
Ltac cases_of H :=
  repeat (apply elem_of_cons in H as [->|H]);
  [..|exfalso; revert H; apply not_elem_of_nil].

Ltac member := repeat constructor.

(** A closed comparison or disequation of numbers. *)
Ltac nonzero := vm_compute; discriminate.

(** A closed number is a 32-bit value. *)
Ltac ranged := vm_compute; split; [discriminate | reflexivity].

(** A scenario that yields a result ends in the state [settled] names. *)
Lemma settled_result (s : sys) (r : option sys) :
  match r with Some _ => True | None => False end -> r = Some (settled s r).
Proof. by destruct r. Qed.

Ltac returns := apply settled_result; exact I.

Ltac check_waitq := split; [evaluate|]; split; [absent|evaluate].

Ltac check_held := split; [absent|evaluate].

(** C1, counterexample: after T3 has blocked on M1 and the priority of its
    owner T1 is recomputed, T1 runs at 3 but T0, the owner of the mutex T1
    waits on, stays at 1 although the first waiter of its mutex has 3. *)
Lemma core_tsk_prio_stops_at_waiter :
  core_tsk_prio 0 IDLE 8 locking T1 (rd locking T1 f_basic)
    = Some recomputed /\
  rd recomputed T1 f_prio = 3 /\
  held recomputed T0 [M2] /\
  rd recomputed T0 f_prio = 1 /\
  effective recomputed (rd recomputed T0 f_basic) [M2] = 3 /\
  rd recomputed T0 f_prio ≠ effective recomputed (rd recomputed T0 f_basic) [M2].
Proof.
  split; [returns|].
  split; [by_vm|].
  split; [|split; [by_vm|split; [by_vm|]]].
  - check_held.
  - vm_compute. discriminate.
Qed.

(** C1, witness *)
Lemma core_tsk_prio_single_level_witness :
  exists s' : sys,
    core_tsk_prio 0 IDLE 8 queued T1 1 = Some s' /\
    held s' T1 [M1] /\
    rd s' T1 f_prio = effective s' 1 [M1] /\
    effective s' 1 [M1] = effective queued 1 [M1] /\
    (forall p : Z, p ≠ T1 -> rd s' p f_prio = rd queued p f_prio) /\
    (rd queued T1 f_prio = effective queued 1 [M1] -> s' = queued) /\
    (rd queued T1 f_prio ≠ effective queued 1 [M1] -> (rd queued T1 f_id =
        ID_READY -> ring s' IDLE (placed (fun x : Z => rd s' x f_prio) T1 ([]
        ++ [])) /\ rd s' T1 f_id = ID_READY) /\ (rd queued T1 f_id =
        ID_DELAYED -> waitq s' (rd queued T1 f_guard) (placed (fun x : Z => rd
        s' x f_prio) T1 ([MAIN] ++ [])) /\ rd s' T1 f_guard = rd queued T1
        f_guard /\ rd s' T1 f_id = ID_DELAYED)).
Proof.
  apply (core_tsk_prio_single_level 0 IDLE queued T1 1 [M1] [] [] [MAIN] [] 8).
  - check_held.
  - intros H; vm_compute in H; discriminate.
  - intros _; split; [check_waitq | intros m Hm; cases_of Hm; absent].
  - intros m Hm; cases_of Hm; nonzero.
  - simpl; lia.
Defined.

(** The recomputation of T1 in the state [queued]: T1 gets the priority 3
    of the first waiter of M1 and moves in front of MAIN in the queue of
    M2, whose owner T0 keeps the priority 2. *)
Lemma core_tsk_prio_moves_in_queue :
  core_tsk_prio 0 IDLE 8 queued T1 1 = Some resorted /\
  waitq queued M2 [MAIN; T1] /\
  waitq resorted M2 [T1; MAIN] /\
  placed (fun x => rd resorted x f_prio) T1 [MAIN] = [T1; MAIN] /\
  rd resorted T1 f_prio = 3 /\ rd resorted T0 f_prio = 2.
Proof.
  split; [returns|].
  split; [check_waitq|].
  split; [check_waitq|].
  split; [by_vm|]. split; by_vm.
Qed.

(** C2, counterexample: T1 is woken from the queue of B and its guard
    still names B. *)
Lemma core_one_wakeup_guard_not_cleared :
  fst <$> core_one_wakeup 0 IDLE 8 blocked B E_SUCCESS = Some T1 /\
  snd <$> core_one_wakeup 0 IDLE 8 blocked B E_SUCCESS = Some woken /\
  rd blocked B f_queue = T1 /\
  rd woken T1 f_guard = B /\ rd woken T1 f_guard ≠ 0.
Proof.
  split; [by_vm|].
  split; [returns|].
  split; [by_vm|].
  split; [by_vm|]. vm_compute. discriminate.
Qed.

(** C2, witness *)
Lemma core_one_wakeup_keeps_guard_witness :
  exists s',
    core_one_wakeup 0 IDLE 8 blocked B E_SUCCESS = Some (T1, s') /\
    core_all_wakeup 0 IDLE 9 blocked B E_SUCCESS =
      core_all_wakeup 0 IDLE 8 s' B E_SUCCESS /\
    waitq s' B [] /\
    rd s' T1 f_event = E_SUCCESS /\
    rd s' T1 f_queue = 0 /\
    rd s' T1 f_guard = rd blocked T1 f_guard.
Proof.
  apply (core_one_wakeup_keeps_guard 0 IDLE WAIT blocked [MAIN] [T1] B T1 []
           E_SUCCESS 8).
  - evaluate.
  - evaluate.
  - evaluate.
  - by_vm.
  - check_waitq.
  - member.
  - vm_compute. discriminate.
  - simpl. lia.
Defined.


(** C4, counterexample: T0 (priority 2) is inserted behind T1 (priority 2),
    not before it. *)
Lemma priv_tsk_insert_behind_equal :
  priv_tsk_insert IDLE 8 boot T0 = Some enqueued /\
  ring enqueued IDLE [T1; T0; MAIN] /\
  ready_insert_spec (fun p => rd boot p f_prio) T0 [T1; MAIN]
    = [T0; T1; MAIN] /\
  ~ ring enqueued IDLE [T0; T1; MAIN].
Proof.
  split; [returns|].
  split; [evaluate|]. split; [by_vm|].
  intros (_ & H & _). vm_compute in H. destruct H as (_ & H & _). discriminate.
Qed.

(** C4, witness *)
Lemma priv_tsk_insert_fifo_witness :
  exists s' l1 l2, [T1; MAIN] = l1 ++ l2 /\
    priv_tsk_insert IDLE 8 boot T0 = Some s' /\
    ring s' IDLE (l1 ++ T0 :: l2) /\
    (forall x, x ∈ l1 -> rd boot T0 f_prio <= rd boot x f_prio) /\
    (forall x, x ∈ l2 -> rd boot x f_prio < rd boot T0 f_prio) /\
    descending s' (l1 ++ T0 :: l2) /\
    rd s' T0 f_id = ID_READY /\
    (forall p, rd s' p f_prio = rd boot p f_prio).
Proof.
  apply (priv_tsk_insert_fifo IDLE boot [T1; MAIN] T0 8).
  - evaluate.
  - by_vm.
  - absent.
  - vm_compute. discriminate.
  - intros x Hx. cases_of Hx; vm_compute; discriminate.
  - simpl. split; [|split; [|done]].
    + intros y Hy. cases_of Hy. vm_compute. discriminate.
    + intros y Hy. exfalso. revert Hy. apply not_elem_of_nil.
  - simpl. lia.
Defined.

(** C5, the failing input: with [start = 1], [delay = 5] and [Counter = 0]
    the unsigned predicate [delay <= Counter - start] holds and the test of
    the tickless build reports the entry expired, but the test of the other
    build does not. *)
Lemma priv_tmr_expired_ticked_misses :
  rd wrapped TMR f_delay <= Word.sub (Counter wrapped) (rd wrapped TMR f_start) /\
  rd wrapped TMR f_delay < 2 ^ 31 /\
  priv_tmr_expired_ticked wrapped TMR = false /\
  priv_tmr_expired 0 0 one_tick_on wrapped TMR = false /\
  priv_tmr_expired 1 1 one_tick_on wrapped TMR = true.
Proof. evaluate. Qed.

(** C5, witness *)
Lemma priv_tmr_expired_misses_last_tick_witness :
  rd wrapped TMR f_delay <= Word.sub (Counter wrapped) (rd wrapped TMR
      f_start) /\
  priv_tmr_expired_ticked wrapped TMR = false /\
  priv_tmr_expired_tickless one_tick_on wrapped TMR = true /\
  (0 = 0 \/ 0 = 0 -> priv_tmr_expired 0 0 one_tick_on wrapped TMR = false) /\
  (0 ≠ 0 -> 0 ≠ 0 -> priv_tmr_expired 0 0 one_tick_on wrapped TMR = true).
Proof.
  apply (priv_tmr_expired_misses_last_tick 0 0 one_tick_on wrapped TMR).
  - ranged.
  - nonzero.
  - by_vm.
Defined.

(** Facts about [blocked] and [blocked_small] shared by the checks below. *)
Lemma apart_from_storage (base size : Z) :
  2048 <= base -> 0 <= size ->
  forall j x, 0 <= j < size -> 0 <= x < 16 -> base + j ≠ storage + x.
Proof. unfold storage. intros. lia. Qed.


(** C6, witness: the periodic timer TMR is due with T1 waiting on it; and
    the task T1 reaches the deadline of a bounded wait while T0 waits on. *)
Lemma core_tmr_handler_steps_witness :
  (let s0 := wr timer_due TMR f_start (Word.add (rd timer_due TMR f_start) (rd
       timer_due TMR f_delay)) in
   let s1 := wr s0 TMR f_delay (rd s0 TMR f_period) in
   let due := Word.add (rd called_back TMR f_start) (rd called_back TMR
       f_delay) in
   exists (s' : sys) (e1 e2 : list Z),
     [] ++ [T1] = e1 ++ e2 /\
     core_tmr_handler 0 0 IDLE WAIT callback one_tick_on 9 timer_due =
         core_tmr_handler 0 0 IDLE WAIT callback one_tick_on 8 s' /\
     (priv_tmr_expired 0 0 one_tick_on s' (rd s' WAIT f_next) = false ->
         core_tmr_handler 0 0 IDLE WAIT callback one_tick_on 9 timer_due = Some
         s') /\
     rd s1 TMR f_start = Word.add (rd timer_due TMR f_start) (rd timer_due TMR
         f_delay) /\
     rd s1 TMR f_delay = rd timer_due TMR f_period /\
     rd s' TMR f_start = rd called_back TMR f_start /\
     rd s' TMR f_delay = rd called_back TMR f_delay /\
     (rd timer_due TMR f_state = 0 -> rd s' TMR f_start = Word.add (rd
         timer_due TMR f_start) (rd timer_due TMR f_delay) /\ rd s' TMR f_delay
         = rd timer_due TMR f_period) /\
     ring s' IDLE (placed_all (fun x : Z => rd called_back x f_prio) [T1]
         [MAIN]) /\
     (rd called_back TMR f_delay = 0 -> ring s' WAIT (list_difference (e1 ++
         e2) [T1]) /\ rd s' TMR f_id = ID_STOPPED) /\
     (rd called_back TMR f_delay ≠ 0 -> ring s' WAIT (list_difference (e1 ++
         TMR :: e2) [T1]) /\ rd s' TMR f_id = ID_TIMER /\ (rd called_back TMR
         f_delay = INFINITE -> e2 = []) /\ (rd called_back TMR f_delay ≠
         INFINITE -> (forall x : Z, x ∈ e1 -> rd called_back x f_delay ≠
         INFINITE /\ rd called_back x f_delay <= Word.sub due (rd called_back x
         f_start)) /\ (e2 = [] \/ rd called_back (hd WAIT e2) f_delay =
         INFINITE \/ Word.sub due (rd called_back (hd WAIT e2) f_start) < rd
         called_back (hd WAIT e2) f_delay))) /\
     waitq s' TMR [] /\
     (forall w : Z, w ∈ [T1] -> rd s' w f_event = E_SUCCESS /\ rd s' w f_id =
         ID_READY) /\
     forall p : Z, p ∉ [T1] -> rd s' p f_event = rd called_back p f_event) /\
  (exists s' : sys,
     core_tmr_handler 0 0 IDLE WAIT callback one_tick_on 9 two_small =
         core_tmr_handler 0 0 IDLE WAIT callback one_tick_on 8 s' /\
     (priv_tmr_expired 0 0 one_tick_on s' (rd s' WAIT f_next) = false ->
         core_tmr_handler 0 0 IDLE WAIT callback one_tick_on 9 two_small = Some
         s') /\
     rd s' T1 f_event = E_TIMEOUT /\
     rd s' T1 f_id = ID_READY /\
     ring s' IDLE (placed (fun x : Z => rd two_small x f_prio) T1 [MAIN]) /\
     ring s' WAIT ([] ++ [T0]) /\
     waitq s' B ([] ++ [T0]) /\
     (forall p : Z, p ≠ T1 -> rd s' p f_event = rd two_small p f_event) /\
     forall (p : Z) (f : field), f ≠ f_id -> f ≠ f_prev -> f ≠ f_next -> f ≠
         f_queue -> f ≠ f_back -> f ≠ f_event -> rd s' p f = rd two_small p f).
Proof.
  split.
  - destruct (core_tmr_handler_steps 0 0 IDLE WAIT callback one_tick_on
                timer_due TMR [MAIN] [] [T1] 8) as [Htimer _].
    + by_vm.
    + by_vm.
    + evaluate.
    + simpl. lia.
    + intros s0 s1 due. apply (Htimer called_back [T1]).
      * by_vm.
      * by_vm.
      * evaluate.
      * evaluate.
      * by_vm.
      * by_vm.
      * intros x Hx. cases_of Hx. nonzero.
      * check_waitq.
      * intros w Hw. cases_of Hw. split; [member|nonzero].
      * simpl. lia.
  - destruct (core_tmr_handler_steps 0 0 IDLE WAIT callback one_tick_on
                two_small T1 [MAIN] [] [T0] 8) as [_ Htask].
    + by_vm.
    + by_vm.
    + evaluate.
    + simpl. lia.
    + apply (Htask B [] [T0]).
      * nonzero.
      * evaluate.
      * evaluate.
      * by_vm.
      * nonzero.
      * intros x Hx. cases_of Hx. nonzero.
      * check_waitq.
Defined.

(** C8, counterexample: the send of "hello" to the blocked receiver writes
    the message into the storage of B. *)
Lemma msg_give_writes_storage :
  fst <$> msg_give 0 IDLE 8 blocked B sender 5 = Some 5 /\
  snd <$> msg_give 0 IDLE 8 blocked B sender 5 = Some delivered /\
  map (rdb blocked) [storage + 4; storage + 5; storage + 6; storage + 7;
                     storage + 8] = [0; 0; 0; 0; 0] /\
  map (rdb delivered) [storage + 4; storage + 5; storage + 6; storage + 7;
                       storage + 8] = [104; 101; 108; 108; 111] /\
  rdb delivered (storage + 4) ≠ rdb blocked (storage + 4).
Proof.
  split; [by_vm|].
  split; [returns|].
  split; [by_vm|].
  split; [by_vm|]. vm_compute. discriminate.
Qed.

(** C8, witness *)
Lemma msg_give_rendezvous_witness :
  exists s' : sys,
    msg_give 0 IDLE 8 blocked B sender 5 = Some (5, s') /\
    rd s' T1 f_event = E_SUCCESS /\
    rd s' T1 f_id = ID_READY /\
    waitq s' B [] /\
    rd s' T1 f_tmp_size = rd blocked T1 f_tmp_size - 5 /\
    (forall u : sys, cur u = T1 -> rd u T1 f_tmp_size = rd s' T1 f_tmp_size ->
        priv_msg_wait_result u (rd blocked T1 f_tmp_size) = 5) /\
    (forall j : Z, 0 <= j < 5 -> rdb s' (rd blocked T1 f_tmp_data + j) = rdb
        blocked (sender + j)) /\
    rd s' B f_count = 0 /\
    rd s' B f_head = rd s' B f_tail /\
    (forall j : Z, 0 <= j < 5 -> rdb s' (rd blocked B f_data + (rd blocked B
        f_head + (4 + j)) `mod` rd blocked B f_limit) = rdb blocked (sender +
        j)) /\
    (forall j : Z, 0 <= j < 4 -> rdb s' (rd blocked B f_data + (rd blocked B
        f_head + j) `mod` rd blocked B f_limit) = nth (Z.to_nat j)
        (Word.to_bytes 5) 0) /\
    ring s' IDLE (placed (fun x : Z => rd blocked x f_prio) T1 [MAIN]) /\
    ring s' WAIT (list_difference [T1] [T1]) /\
    forall p : Z, p ≠ T1 -> rd s' p f_event = rd blocked p f_event.
Proof.
  apply (msg_give_rendezvous 0 IDLE WAIT blocked B T1 sender 5 [MAIN] [T1] 8).
  - nonzero.
  - nonzero.
  - evaluate.
  - evaluate.
  - evaluate.
  - by_vm.
  - check_waitq.
  - member.
  - nonzero.
  - intros x Hx; cases_of Hx; nonzero.
  - simpl; lia.
  - by_vm.
  - by_vm.
  - evaluate.
  - by_vm.
  - by_vm.
  - nonzero.
  - apply apart_from_storage; [unfold sender|]; lia.
  - evaluate.
  - apply apart_from_storage; [nonzero | lia].
Defined.

(** C9, witness *)
Lemma msg_kill_idempotent_witness :
  exists s' : sys,
    msg_kill 0 IDLE 8 two_small B = Some s' /\
    rd s' B f_count = 0 /\
    rd s' B f_head = 0 /\
    rd s' B f_tail = 0 /\
    waitq s' B [] /\
    (forall w : Z, w ∈ [T1; T0] -> rd s' w f_event = E_STOPPED /\ rd s' w f_id
        = ID_READY /\ rd s' w f_queue = 0) /\
    ring s' IDLE (placed_all (fun x : Z => rd two_small x f_prio) [T1; T0]
        [MAIN]) /\
    ring s' WAIT (list_difference [T1; T0] [T1; T0]) /\
    (forall p : Z, p ∉ [T1; T0] -> rd s' p f_event = rd two_small p f_event) /\
    (forall p : Z, p ∉ [T1; T0] -> rd s' p f_id = rd two_small p f_id) /\
    msg_kill 0 IDLE 8 s' B = Some s'.
Proof.
  apply (msg_kill_idempotent 0 IDLE WAIT two_small [MAIN] [T1; T0] B [T1; T0] 8).
  - nonzero.
  - evaluate.
  - evaluate.
  - evaluate.
  - by_vm.
  - intros x Hx; cases_of Hx; nonzero.
  - check_waitq.
  - intros w Hw; cases_of Hw; (split; [member | nonzero]).
  - simpl; lia.
Defined.

(** C10, witness *)
Lemma msg_give_refused_behind_senders_witness :
  priv_msg_space congested B = 0 /\
  msg_space congested B = Some 0 /\
  msg_give 0 IDLE 8 congested B sender 2 = Some (0, congested).
Proof.
  apply (msg_give_refused_behind_senders 0 IDLE 8 congested B sender 2).
  - nonzero.
  - nonzero.
  - nonzero.
  - nonzero.
Defined.

End Checks.

(** ** The further properties at concrete states *)

Module Samples.

Import Demo.
Import Checks.

Ltac fuelled := vm_compute; lia.

(** Membership in a list that starts with an append. *)
Ltac each H := cbn [app] in H; cases_of H.

(** A closed list is in descending order of priority. *)
Ltac sorted :=
  cbn [descending app];
  repeat match goal with
  | |- _ /\ _ => split
  | |- True => exact I
  | |- forall y, _ -> _ =>
      let y := fresh "y" in let Hy := fresh "Hy" in
      intros y Hy; cases_of Hy; nonzero
  end.

(** A buffer of a caller lies apart from the storage of B. *)
Ltac apart :=
  apply apart_from_storage; [vm_compute; discriminate | vm_compute; discriminate].

(** A message below the receiver's buffer lies apart from it. *)
Lemma apart_from_receiver (base size room : Z) :
  base + size <= receiver ->
  forall i j, 0 <= i < size -> 0 <= j < room -> base + i ≠ receiver + j.
Proof. intros. lia. Qed.

Ltac aloof := apply apart_from_receiver; vm_compute; discriminate.

(** X1, witness *)
Lemma priv_rdy_insert_remove_witness :
  let s1 := priv_rdy_insert boot T0 ID_READY (hd IDLE [MAIN]) in
  let s2 := priv_rdy_remove s1 T0 in
    ring s1 IDLE ([T1] ++ [T0; MAIN]) /\
    rd s1 T0 f_id = ID_READY /\
    ring s2 IDLE ([T1] ++ [MAIN]) /\
    rd s2 T0 f_id = ID_STOPPED /\
    forall (p : Z) (f : field), p ≠ T0 -> rd s2 p f = rd boot p f.
Proof.
  apply (priv_rdy_insert_remove boot IDLE [T1] [MAIN] T0 ID_READY).
  - evaluate.
  - absent.
Defined.

(** X2, witness *)
Lemma core_tsk_append_by_priority_witness :
  exists (s' : sys) (w1 w2 : list Z),
    [T1] = w1 ++ w2 /\
    core_tsk_append 8 chain T3 M2 = Some s' /\
    waitq s' M2 (w1 ++ T3 :: w2) /\
    (forall x : Z, x ∈ w1 -> rd chain T3 f_prio <= rd chain x f_prio) /\
    (forall x : Z, x ∈ w2 -> rd chain x f_prio < rd chain T3 f_prio) /\
    descending s' (w1 ++ T3 :: w2) /\
    rd s' T3 f_guard = M2 /\
    forall p : Z, rd s' p f_prio = rd chain p f_prio.
Proof.
  apply (core_tsk_append_by_priority chain M2 [T1] T3 8).
  - check_waitq.
  - sorted.
  - absent.
  - nonzero.
  - fuelled.
Defined.

(** X3, witness *)
Lemma core_tsk_append_unlink_witness :
  exists s1 : sys,
    core_tsk_append 8 chain T3 M2 = Some s1 /\
    waitq (core_tsk_unlink s1 T3 E_STOPPED) M2 [T1] /\
    rd (core_tsk_unlink s1 T3 E_STOPPED) T3 f_event = E_STOPPED /\
    rd (core_tsk_unlink s1 T3 E_STOPPED) T3 f_queue = 0 /\
    rd (core_tsk_unlink s1 T3 E_STOPPED) T3 f_guard = M2 /\
    forall (p : Z) (f : field), p ≠ T3 -> rd (core_tsk_unlink s1 T3 E_STOPPED)
        p f = rd chain p f.
Proof.
  apply (core_tsk_append_unlink chain M2 [T1] T3 E_STOPPED 8).
  - check_waitq.
  - absent.
  - nonzero.
  - fuelled.
Defined.

(** X4, witness *)
Lemma core_tsk_waitFor_blocks_witness :
  exists (s' : sys) (w1 w2 d1 d2 : list Z),
    [] = w1 ++ w2 /\
    [] = d1 ++ d2 /\
    core_tsk_waitFor WAIT 8 boot B 100 = Some (Suspended, s') /\
    ring s' IDLE ([] ++ [MAIN]) /\
    ring s' WAIT (d1 ++ cur boot :: d2) /\
    waitq s' B (w1 ++ cur boot :: w2) /\
    (forall x : Z, x ∈ w1 -> rd boot (cur boot) f_prio <= rd boot x f_prio) /\
    (w2 = [] \/ rd boot (hd 0 w2) f_prio < rd boot (cur boot) f_prio) /\
    rd s' (cur boot) f_id = ID_DELAYED /\
    rd s' (cur boot) f_guard = B /\
    rd s' (cur boot) f_start = Counter boot /\
    rd s' (cur boot) f_delay = 100 /\
    pend s' = true /\
    cur s' = cur boot /\
    mem s' = mem boot.
Proof.
  apply (core_tsk_waitFor_blocks IDLE WAIT boot [] [MAIN] [] B [] 100 8).
  - evaluate.
  - evaluate.
  - evaluate.
  - by_vm.
  - check_waitq.
  - absent.
  - nonzero.
  - nonzero.
  - fuelled.
  - fuelled.
Defined.

(** X5, witness *)
Lemma wait_then_wakeup_witness :
  exists (s1 s2 : sys) (l1 l2 : list Z),
    core_tsk_waitFor WAIT 8 boot B 100 = Some (Suspended, s1) /\
    core_tsk_wakeup 0 IDLE 8 s1 (cur boot) E_SUCCESS = Some (cur boot, s2) /\
    [] ++ [MAIN] = l1 ++ l2 /\
    ring s2 IDLE (l1 ++ cur boot :: l2) /\
    ring s2 WAIT [] /\
    waitq s2 B [] /\
    rd s2 (cur boot) f_id = ID_READY /\
    priv_tsk_wait_result s2 (cur boot) = E_SUCCESS.
Proof.
  apply (wait_then_wakeup 0 IDLE WAIT boot [] [MAIN] [] B [] 100 E_SUCCESS 8).
  - evaluate.
  - evaluate.
  - evaluate.
  - by_vm.
  - by_vm.
  - nonzero.
  - check_waitq.
  - absent.
  - nonzero.
  - nonzero.
  - fuelled.
  - fuelled.
  - fuelled.
Defined.

(** X6, witness *)
Lemma core_all_wakeup_empties_witness :
  exists (s' : sys) (rl' dl' : list Z),
    core_all_wakeup 0 IDLE 8 chain M2 E_STOPPED = Some s' /\
    ring s' IDLE rl' /\
    ring s' WAIT dl' /\
    rl' ≡ₚ [T1] ++ [T3; T0] /\
    [T1] ≡ₚ [T1] ++ dl' /\
    waitq s' M2 [] /\
    (forall w : Z, w ∈ [T1] -> rd s' w f_event = E_STOPPED /\ rd s' w f_id =
        ID_READY /\ rd s' w f_queue = 0) /\
    (forall p : Z, p ∉ [T1] -> rd s' p f_event = rd chain p f_event) /\
    (forall p : Z, p ∉ [T1] -> rd s' p f_id = rd chain p f_id) /\
    same_payload chain s'.
Proof.
  apply (core_all_wakeup_empties 0 IDLE WAIT chain [T3; T0] [T1] M2 [T1] E_STOPPED 8).
  - evaluate.
  - evaluate.
  - evaluate.
  - by_vm.
  - check_waitq.
  - intros w Hw; cases_of Hw; split; [member|nonzero].
  - fuelled.
Defined.

(** X7, witness *)
Lemma wakeup_of_nobody_witness :
  core_tsk_wakeup 0 IDLE 8 boot 0 E_SUCCESS = Some (0, boot) /\
  core_one_wakeup 0 IDLE 8 boot B E_SUCCESS = Some (0, boot) /\
  core_all_wakeup 0 IDLE 9 boot B E_SUCCESS = Some boot.
Proof.
  apply (wakeup_of_nobody 0 IDLE boot B E_SUCCESS 8).
  - check_waitq.
Defined.

(** X8, witness *)
Lemma core_tsk_insert_preempts_witness :
  exists (s' : sys) (l1 l2 : list Z),
    [T1; MAIN] = l1 ++ l2 /\
    core_tsk_insert 1 IDLE 8 boot T0 = Some s' /\
    ring s' IDLE (l1 ++ T0 :: l2) /\
    (1 = 0 -> pend s' = pend boot) /\
    (1 ≠ 0 -> rd boot (cur boot) f_prio < rd boot T0 f_prio -> pend s' = true) /\
    (1 ≠ 0 -> (forall x : Z, x ∈ [T0; T1; MAIN] -> rd boot x f_prio <= rd boot
        (cur boot) f_prio) -> pend s' = pend boot).
Proof.
  apply (core_tsk_insert_preempts 1 IDLE boot [T1; MAIN] T0 8).
  - evaluate.
  - by_vm.
  - absent.
  - nonzero.
  - nonzero.
  - fuelled.
Defined.

(** X10, witness *)
Lemma priv_tmr_insert_place_witness :
  let due := Word.add (rd timers TMR f_start) (rd timers TMR f_delay) in
  exists (s' : sys) (d1 d2 : list Z),
    [T1; T0] = d1 ++ d2 /\
    priv_tmr_insert WAIT 8 timers TMR ID_TIMER = Some s' /\
    ring s' WAIT (d1 ++ TMR :: d2) /\
    rd s' TMR f_id = ID_TIMER /\
    (rd timers TMR f_delay = INFINITE -> d2 = []) /\
    (rd timers TMR f_delay ≠ INFINITE -> (forall x : Z, x ∈ d1 -> rd timers x
        f_delay ≠ INFINITE /\ rd timers x f_delay <= Word.sub due (rd timers x
        f_start)) /\ (d2 = [] \/ rd timers (hd WAIT d2) f_delay = INFINITE \/
        Word.sub due (rd timers (hd WAIT d2) f_start) < rd timers (hd WAIT d2)
        f_delay)) /\
    forall (p : Z) (f : field), f ≠ f_id -> f ≠ f_prev -> f ≠ f_next -> rd s'
        p f = rd timers p f.
Proof.
  apply (priv_tmr_insert_place WAIT timers [T1; T0] TMR ID_TIMER 8).
  - evaluate.
  - by_vm.
  - absent.
  - fuelled.
Defined.

(** X11, witness *)
Lemma core_tmr_handler_wakes_due_witness :
  exists (s' : sys) (l1 l2 : list Z),
    [MAIN] = l1 ++ l2 /\
    core_tmr_handler 0 0 IDLE WAIT callback one_tick_on 8 overdue = Some s' /\
    ring s' IDLE (l1 ++ T1 :: l2) /\
    ring s' WAIT [] /\
    waitq s' B ([] ++ []) /\
    rd s' T1 f_event = E_TIMEOUT /\
    rd s' T1 f_id = ID_READY /\
    (forall p : Z, p ≠ T1 -> rd s' p f_event = rd overdue p f_event) /\
    forall p : Z, p ≠ T1 -> rd s' p f_id = rd overdue p f_id.
Proof.
  apply (core_tmr_handler_wakes_due 0 0 IDLE WAIT callback one_tick_on overdue [MAIN] T1 [] B [] [] 8).
  - evaluate.
  - evaluate.
  - evaluate.
  - by_vm.
  - nonzero.
  - nonzero.
  - check_waitq.
  - by_vm.
  - by_vm.
  - fuelled.
  - fuelled.
Defined.

(** X12, witness *)
Lemma priv_tsk_prepare_frames_witness :
  let sp := (priv_tsk_prepare 32 28 24 20 36 32 257 peers T0).1 in
    let s' := (priv_tsk_prepare 32 28 24 20 36 32 257 peers T0).2 in (rd peers
        T0 f_sp ≠ 0 -> sp = rd peers T0 f_sp /\ s' = peers) /\
    (rd peers T0 f_sp = 0 -> let ctx := rd peers T0 f_top - 32 in sp = ctx -
        36 /\ load_word s' (ctx + 28) = 16777216 /\ load_word s' (ctx + 24) =
        rd peers T0 f_state /\ load_word s' (ctx + 20) = 257 /\ load_word s'
        (sp + 32) = Word.modulus - 3 /\ heap s' = heap peers /\ forall a : Z,
        ~ sp <= a < rd peers T0 f_top -> rdb s' a = rdb peers a).
Proof.
  apply (priv_tsk_prepare_frames 32 28 24 20 36 32 257 peers T0).
  - lia.
  - lia.
  - lia.
  - lia.
  - lia.
  - lia.
  - lia.
  - lia.
  - lia.
  - lia.
  - lia.
  - ranged.
  - ranged.
Defined.

(** X13, witness *)
Lemma core_tsk_handler_rotates_witness :
  exists (sp' : Z) (s' : sys) (l1 l2 : list Z),
    [] ++ [T0; MAIN] = l1 ++ l2 /\
    core_tsk_handler 1 0 IDLE WAIT callback one_tick_on 32 28 24 20 36 32 257
        8 peers 7000 = Some (sp', s') /\
    ring s' IDLE (l1 ++ cur peers :: l2) /\
    (forall x : Z, x ∈ l1 -> rd peers (cur peers) f_prio <= rd peers x f_prio) /\
    (forall x : Z, x ∈ l2 -> rd peers x f_prio < rd peers (cur peers) f_prio) /\
    descending s' (l1 ++ cur peers :: l2) /\
    cur s' = hd IDLE (l1 ++ cur peers :: l2) /\
    (forall x : Z, x ∈ l1 ++ cur peers :: l2 -> rd s' x f_prio <= rd s' (cur
        s') f_prio) /\
    rd s' (cur peers) f_sp = 7000 /\
    (forall p : Z, rd s' p f_prio = rd peers p f_prio) /\
    (rd s' (cur s') f_sp ≠ 0 -> sp' = rd s' (cur s') f_sp /\ mem s' = mem
        peers) /\
    (forall (n : Z) (r : list Z), @nil Z = [] -> [T0; MAIN] = n :: r -> rd
        peers n f_prio = rd peers (cur peers) f_prio -> cur s' = n) /\
    ((forall x : Z, x ∈ [] ++ [T0; MAIN] -> rd peers x f_prio < rd peers (cur
        peers) f_prio) -> cur s' = cur peers).
Proof.
  apply (core_tsk_handler_rotates 1 0 IDLE WAIT callback one_tick_on 32 28 24 20 36 32 257 peers [] [T0; MAIN] 7000 8).
  - evaluate.
  - by_vm.
  - intros x Hx; each Hx; nonzero.
  - sorted.
  - by_vm.
  - left; lia.
  - fuelled.
Defined.

(** X14, witness *)
Lemma core_tsk_handler_dispatches_witness :
  exists (sp' : Z) (s' : sys),
    core_tsk_handler 1 0 IDLE WAIT callback one_tick_on 32 28 24 20 36 32 257
        8 overdue 7000 = Some (sp', s') /\
    ring s' IDLE [MAIN] /\
    cur s' = hd IDLE [MAIN] /\
    ([MAIN] = [] -> cur s' = IDLE) /\
    (forall x : Z, x ∈ [MAIN] -> rd s' x f_prio <= rd s' (cur s') f_prio) /\
    rd s' (cur overdue) f_sp = 7000 /\
    (forall (p : Z) (f : field), (p, f) ≠ (cur overdue, f_sp) -> rd s' p f =
        rd overdue p f) /\
    (rd s' (cur s') f_sp ≠ 0 -> sp' = rd s' (cur s') f_sp /\ mem s' = mem
        overdue).
Proof.
  apply (core_tsk_handler_dispatches 1 0 IDLE WAIT callback one_tick_on 32 28 24 20 36 32 257 overdue [MAIN] 7000 8).
  - evaluate.
  - sorted.
  - nonzero.
  - left; lia.
  - fuelled.
Defined.

(** X15, witness *)
Lemma core_sys_alloc_block_witness :
  core_sys_alloc 4096 64 round8 8 4096 boot 0 = Some (0, 4096, boot) /\
  (10 ≠ 0 -> 4096 + 64 < Word.add 4096 (round8 10) -> core_sys_alloc 4096 64
      round8 8 4096 boot 10 = Some (0, 4096, boot)) /\
  (10 ≠ 0 -> 4096 + round8 10 <= 4096 + 64 -> exists s' : sys, core_sys_alloc
      4096 64 round8 8 4096 boot 10 = Some (4096, 4096 + round8 10, s') /\
      heap s' = heap boot /\ Counter s' = Counter boot /\ cur s' = cur boot /\
      (forall b : Z, 4096 <= b < 4096 + round8 10 -> rdb s' b = 0) /\ forall b
      : Z, ~ 4096 <= b < 4096 + round8 10 -> rdb s' b = rdb boot b) /\
  (10 ≠ 0 -> 4096 + 8 < Word.modulus <= 4096 + round8 10 -> 4096 + round8 10 -
      Word.modulus <= 4096 + 64 -> core_sys_alloc 4096 64 round8 8 4096 boot
      10 = Some (4096, 4096 + round8 10 - Word.modulus, store_bytes boot 4096
      [0; 0; 0; 0; 0; 0; 0; 0])).
Proof.
  apply (core_sys_alloc_block 4096 64 round8 8 4096 boot 10).
  - nonzero.
  - by_vm.
  - evaluate.
  - by_vm.
  - fuelled.
Defined.

(** X16, witness *)
Lemma core_sys_alloc_twice_witness :
  exists (b1 brk1 : Z) (s1 : sys) (b2 brk2 : Z) (s2 : sys),
    core_sys_alloc 4096 64 round8 8 4096 boot 10 = Some (b1, brk1, s1) /\
    core_sys_alloc 4096 64 round8 8 brk1 s1 3 = Some (b2, brk2, s2) /\
    4096 <= b1 /\
    b1 + round8 10 = b2 /\
    b2 + round8 3 = brk2 /\
    brk2 <= 4096 + 64 /\
    (forall b : Z, b1 <= b < b1 + round8 10 -> rdb s2 b = rdb s1 b /\ rdb s2 b
        = 0) /\
    forall b : Z, b2 <= b < b2 + round8 3 -> rdb s2 b = 0.
Proof.
  apply (core_sys_alloc_twice 4096 64 round8 8 4096 boot 10 3).
  - nonzero.
  - nonzero.
  - by_vm.
  - lia.
  - by_vm.
  - by_vm.
  - lia.
  - by_vm.
  - by_vm.
  - nonzero.
  - fuelled.
  - fuelled.
Defined.

(** X17, witness *)
Lemma msg_give_appends_witness :
  exists s' : sys,
    msg_give 0 IDLE 8 posted B sender 3 = Some (3, s') /\
    stored s' B ([hello_bytes] ++ [load_bytes posted sender (Z.to_nat 3)]) /\
    msg_space s' B = Some (0 `max` (3 - 3 - 4)) /\
    (forall (p : Z) (f : field), p ≠ B -> rd s' p f = rd posted p f) /\
    forall a : Z, (forall x : Z, 0 <= x < rd posted B f_limit -> a ≠ rd posted
        B f_data + x) -> rdb s' a = rdb posted a.
Proof.
  apply (msg_give_appends 0 IDLE posted B sender 3 3 [hello_bytes] 8).
  - nonzero.
  - nonzero.
  - evaluate.
  - by_vm.
  - by_vm.
  - evaluate.
  - apart.
  - fuelled.
Defined.

(** X18, witness *)
Lemma msg_take_pops_witness :
  exists s' : sys,
    msg_take 0 IDLE 8 posted B receiver 64 = Some (Z.of_nat (length
        hello_bytes), s') /\
    stored s' B [] /\
    load_bytes s' receiver (length hello_bytes) = hello_bytes /\
    (forall (p : Z) (f : field), p ≠ B -> rd s' p f = rd posted p f) /\
    rd s' B f_queue = rd posted B f_queue /\
    forall a : Z, (forall j : Z, 0 <= j < Z.of_nat (length hello_bytes) -> a ≠
        receiver + j) -> rdb s' a = rdb posted a.
Proof.
  apply (msg_take_pops 0 IDLE posted B receiver 64 hello_bytes [] 8).
  - nonzero.
  - nonzero.
  - evaluate.
  - left; by_vm.
  - apart.
  - nonzero.
  - fuelled.
Defined.

(** X19, witness *)
Lemma msg_take_refuses_witness :
  msg_take 0 IDLE 8 posted B receiver 2 = Some (0, posted).
Proof.
  apply (msg_take_refuses 0 IDLE posted B receiver 2 [hello_bytes] 8).
  - nonzero.
  - nonzero.
  - evaluate.
  - right; by_vm.
Defined.

(** X20, witness *)
Lemma msg_give_take_witness :
  exists s1 s2 : sys,
    msg_give 0 IDLE 8 boot B sender 5 = Some (5, s1) /\
    msg_take 0 IDLE 8 s1 B receiver 64 = Some (5, s2) /\
    load_bytes s2 receiver (Z.to_nat 5) = load_bytes boot sender (Z.to_nat 5) /\
    stored s2 B [] /\
    msg_space s2 B = Some 12.
Proof.
  apply (msg_give_take 0 IDLE boot B sender receiver 5 12 64 8).
  - nonzero.
  - nonzero.
  - nonzero.
  - evaluate.
  - by_vm.
  - by_vm.
  - evaluate.
  - lia.
  - apart.
  - apart.
  - fuelled.
Defined.

(** X21, witness *)
Lemma msg_count_space_limit_witness :
  msg_count posted B = Some (Z.of_nat (length (hd [] [hello_bytes]))) /\
  msg_limit posted B = Some (0 `max` (rd posted B f_limit - 4)) /\
  (rd posted B f_queue = 0 -> msg_space posted B = Some (0 `max` (rd posted B
      f_limit - rd posted B f_count - 4))) /\
  exists space : Z, msg_space posted B = Some space /\
  0 <= space <= 0 `max` (rd posted B f_limit - 4).
Proof.
  apply (msg_count_space_limit posted B [hello_bytes]).
  - nonzero.
  - evaluate.
Defined.

(** X22, witness *)
Lemma msg_push_drops_oldest_witness :
  exists (k : nat) (s' : sys),
    (k <= length [hello_bytes])%nat /\
    msg_push 0 IDLE 8 posted B sender 8 = Some (8, s') /\
    stored s' B (drop k [hello_bytes] ++ [load_bytes posted sender (Z.to_nat
        8)]) /\
    (forall j : nat, (j < k)%nat -> rd posted B f_limit - Z.of_nat (length
        (concat (map framed (drop j [hello_bytes])))) - 4 < 8) /\
    (forall room : Z, msg_space posted B = Some room -> 8 <= room -> k =
        0%nat) /\
    forall (p : Z) (f : field), p ≠ B -> rd s' p f = rd posted p f.
Proof.
  apply (msg_push_drops_oldest 0 IDLE posted B sender 8 12 [hello_bytes] 8).
  - nonzero.
  - nonzero.
  - evaluate.
  - by_vm.
  - nonzero.
  - by_vm.
  - evaluate.
  - apart.
  - fuelled.
Defined.

(** X25, witness *)
Lemma msg_oversize_refused_witness :
  msg_give 0 IDLE 8 boot B sender 13 = Some (0, boot) /\
  msg_push 0 IDLE 8 boot B sender 13 = Some (0, boot) /\
  msg_sendFor 0 IDLE WAIT 8 boot B sender 13 100 = Some (Returned 0, boot) /\
  msg_sendUntil 0 IDLE WAIT 8 boot B sender 13 100 = Some (Returned 0, boot).
Proof.
  apply (msg_oversize_refused 0 IDLE WAIT boot B sender 13 12 100 8).
  - nonzero.
  - nonzero.
  - evaluate.
  - by_vm.
  - by_vm.
  - by_vm.
Defined.

(** X26, witness *)
Lemma msg_waitFor_blocks_witness :
  exists (s' : sys) (w1 w2 : list Z),
    [] = w1 ++ w2 /\
    msg_waitFor 0 IDLE WAIT 8 boot B receiver 64 100 = Some (Suspended, s') /\
    waitq s' B (w1 ++ cur boot :: w2) /\
    ring s' IDLE ([] ++ [MAIN]) /\
    rd s' (cur boot) f_id = ID_DELAYED /\
    rd s' (cur boot) f_tmp_data = receiver /\
    rd s' (cur boot) f_tmp_size = 64 /\
    rd s' (cur boot) f_delay = 100 /\
    pend s' = true /\
    mem s' = mem boot.
Proof.
  apply (msg_waitFor_blocks 0 IDLE WAIT boot [] [MAIN] [] B [] receiver 64 100 8).
  - nonzero.
  - nonzero.
  - evaluate.
  - evaluate.
  - evaluate.
  - by_vm.
  - check_waitq.
  - absent.
  - nonzero.
  - nonzero.
  - fuelled.
  - fuelled.
  - by_vm.
  - lia.
Defined.

(** X27, witness *)
Lemma msg_sendFor_blocks_witness :
  exists (s' : sys) (w1 w2 : list Z),
    [] = w1 ++ w2 /\
    msg_sendFor 0 IDLE WAIT 8 posted B sender 8 100 = Some (Suspended, s') /\
    waitq s' B (w1 ++ cur posted :: w2) /\
    ring s' IDLE ([] ++ [MAIN]) /\
    rd s' (cur posted) f_id = ID_DELAYED /\
    rd s' (cur posted) f_tmp_data = sender /\
    rd s' (cur posted) f_tmp_size = 8 /\
    rd s' (cur posted) f_delay = 100 /\
    pend s' = true /\
    mem s' = mem posted.
Proof.
  apply (msg_sendFor_blocks 0 IDLE WAIT posted [] [MAIN] [] B [] sender 8 100 8)
          with (room := 3) (limit := 12).
  - nonzero.
  - nonzero.
  - evaluate.
  - evaluate.
  - evaluate.
  - by_vm.
  - check_waitq.
  - absent.
  - nonzero.
  - nonzero.
  - fuelled.
  - fuelled.
  - by_vm.
  - by_vm.
  - by_vm.
  - evaluate.
Defined.

(** X28, witness *)
Lemma msg_take_serves_sender_witness :
  exists (s' : sys) (l1 l2 : list Z),
    [MAIN] = l1 ++ l2 /\
    msg_take 0 IDLE 8 jammed B receiver 64 = Some (Z.of_nat (length
        hello_bytes), s') /\
    load_bytes s' receiver (length hello_bytes) = hello_bytes /\
    stored s' B [load_bytes jammed (rd jammed T1 f_tmp_data) (Z.to_nat (rd
        jammed T1 f_tmp_size))] /\
    waitq s' B [] /\
    ring s' IDLE (l1 ++ T1 :: l2) /\
    rd s' T1 f_event = E_SUCCESS /\
    rd s' T1 f_id = ID_READY /\
    rd s' T1 f_tmp_size = 0 /\
    forall u : sys, cur u = T1 -> rd u T1 f_tmp_size = rd s' T1 f_tmp_size ->
        priv_msg_wait_result u (rd jammed T1 f_tmp_size) = rd jammed T1
        f_tmp_size.
Proof.
  apply (msg_take_serves_sender 0 IDLE WAIT jammed B T1 receiver 64 12 hello_bytes [] [MAIN] [T1] 8).
  - nonzero.
  - nonzero.
  - evaluate.
  - evaluate.
  - evaluate.
  - by_vm.
  - evaluate.
  - check_waitq.
  - member.
  - nonzero.
  - by_vm.
  - evaluate.
  - by left.
  - nonzero.
  - apart.
  - apart.
  - aloof.
  - fuelled.
Defined.

(** X29, witness *)
Lemma priv_tmr_expired_cases_witness :
  let delay := rd almost TMR f_delay in
  let elapsed := Word.sub (Counter almost) (rd almost TMR f_start) in
  let later := Word.sub (one_tick_on (Counter almost)) (rd almost TMR f_start)
      in
    (priv_tmr_expired_tickless one_tick_on almost TMR = true ↔ delay ≠
        INFINITE /\ (delay <= elapsed \/ delay <= later)) /\
    (priv_tmr_expired_ticked almost TMR = true ↔ delay <= elapsed /\ elapsed ≠
        Word.modulus - 1) /\
    (delay = INFINITE -> priv_tmr_expired_tickless one_tick_on almost TMR =
        false /\ priv_tmr_expired_ticked almost TMR = false) /\
    priv_tmr_expired 1 1 one_tick_on almost TMR = (if negb (1 =? 0) && negb (1
        =? 0) then priv_tmr_expired_tickless one_tick_on almost TMR else
        priv_tmr_expired_ticked almost TMR).
Proof.
  apply (priv_tmr_expired_cases 1 1 one_tick_on almost TMR).
  - ranged.
Defined.

(** X30, witness *)
Lemma msg_give_second_receiver_asserts_witness :
  exists s1 : sys,
    msg_give 0 IDLE 8 two_big B sender 5 = priv_msg_putUpdate_loop 0 IDLE
        (Nat.pred 8) s1 B ≫= (fun s' : sys => Some (5, s')) /\
    rd s1 T1 f_event = E_SUCCESS /\
    rd s1 T1 f_id = ID_READY /\
    (forall j : Z, 0 <= j < 5 -> rdb s1 (rd two_big T1 f_tmp_data + j) = rdb
        two_big (sender + j)) /\
    waitq s1 B [T0] /\
    rd s1 B f_count = 0 /\
    rd s1 T0 f_tmp_size = rd two_big T0 f_tmp_size /\
    priv_msg_count s1 B = 0 /\
    priv_msg_getSize s1 B = None /\
    msg_give 0 IDLE 8 two_big B sender 5 = None.
Proof.
  apply (msg_give_second_receiver_asserts 0 IDLE WAIT two_big B T1 T0 [] sender 5 [MAIN] [T1; T0] 8).
  - nonzero.
  - nonzero.
  - evaluate.
  - evaluate.
  - evaluate.
  - by_vm.
  - check_waitq.
  - member.
  - nonzero.
  - intros x Hx; cases_of Hx; nonzero.
  - fuelled.
  - by_vm.
  - by_vm.
  - evaluate.
  - by_vm.
  - lia.
  - nonzero.
  - apart.
  - evaluate.
  - apart.
  - nonzero.
Defined.

(** X23, witness *)
Lemma msg_init_empty_witness :
  exists s',
    msg_init boot M1 16 storage = Some s' /\
    stored s' M1 [] /\ waitq s' M1 [] /\
    rd s' M1 f_limit = 16 /\ rd s' M1 f_data = storage /\
    msg_count s' M1 = Some 0 /\
    msg_space s' M1 = Some (Z.max 0 (16 - 4)) /\
    msg_limit s' M1 = Some (Z.max 0 (16 - 4)) /\
    (forall p f, p ≠ M1 -> rd s' p f = rd boot p f) /\
    mem s' = mem boot.
Proof.
  apply (proj2 (msg_init_empty boot M1 16 storage)).
  - nonzero.
  - evaluate.
  - nonzero.
Defined.

End Samples.
